(** * HatTrie: a shallow embedding of hattrie64d.c

    The C program keeps every trie node in one arena of raw bytes and links
    nodes by tagged machine words.  The embedding follows it literally: the
    arena is a byte-addressed memory, node fields are read and written at the
    offsets the LP64 ABI gives the C structs, and every C function becomes a
    computation in a small state-and-fault monad.  Loops carry fuel. *)

From Stdlib Require Import ZArith List Lia Bool.
From Stdlib Require Import Strings.Byte Zbitwise.
From stdpp Require Import gmap.

Local Open Scope Z_scope.

(** ** Machine integers

    [uchar], [ushort], [uint] and [HatSlot] are unsigned 8, 16, 32 and 64 bit
    integers; a value is a [Z] and the wrap-around is written out. *)

Definition u8 (x : Z) : Z := x mod 256.
Definition u16 (x : Z) : Z := x mod 65536.
Definition u32 (x : Z) : Z := x mod 4294967296.
Definition u64 (x : Z) : Z := x mod 18446744073709551616.
Definition i32 (x : Z) : Z := (x + 2147483648) mod 4294967296 - 2147483648.
Definition i16 (x : Z) : Z := (x + 32768) mod 65536 - 32768.

Definition byte_val (b : byte) : Z := Z.of_N (Byte.to_N b).

Definition byte_of (z : Z) : byte :=
  match Byte.of_N (Z.to_N (u8 z)) with
  | Some b => b
  | None => x00
  end.

(** ** Program state *)

(** The statistics counters the C file keeps in global variables. *)
Record counters := mkCounters {
  MaxMem : Z;
  Searches : Z;
  Probes : Z;
  Bucket : Z;
  Pail : Z;
  Radix : Z;
  Small : Z
}.

(** [mem] holds the bytes that have been written; [blocks] the address ranges
    [malloc] has handed out; [brk] the address the next [malloc] returns;
    [rands] the values [rand()] is still going to return. *)
Record state := mkState {
  mem : gmap Z byte;
  blocks : list (Z * Z);
  brk : Z;
  rands : list Z;
  stats : counters
}.

Inductive fault :=
  | BadLoad (a : Z)
  | BadStore (a : Z)
  | BadIndex (i : Z)
  | Abort.

Inductive result (A : Type) :=
  | Ok (a : A)
  | Fault (f : fault)
  | OutOfFuel.

Arguments Ok {A} a.
Arguments Fault {A} f.
Arguments OutOfFuel {A}.

Definition M (A : Type) : Type := state -> result (A * state).

Definition ret {A} (a : A) : M A := fun st => Ok (a, st).

Definition bind {A B} (m : M A) (k : A -> M B) : M B :=
  fun st =>
    match m st with
    | Ok (a, st') => k a st'
    | Fault f => Fault f
    | OutOfFuel => OutOfFuel
    end.

Definition fail {A} (f : fault) : M A := fun _ => Fault f.
Definition out_of_fuel {A} : M A := fun _ => OutOfFuel.

Notation "'let*' x ':=' m 'in' k" := (bind m (fun x => k))
  (at level 10, x name, m at level 100, k at level 200).
Notation "'let*' ' p ':=' m 'in' k" := (bind m (fun x => match x with p => k end))
  (at level 10, p pattern, m at level 100, k at level 200).
Notation "m ';;' k" := (bind m (fun _ => k))
  (at level 100, k at level 200, right associativity).

(** ** Memory *)

Fixpoint load_le (m : gmap Z byte) (a : Z) (n : nat) : option Z :=
  match n with
  | O => Some 0
  | S k =>
      match m !! a, load_le m (a + 1) k with
      | Some b, Some r => Some (byte_val b + 256 * r)
      | _, _ => None
      end
  end.

Fixpoint store_le (m : gmap Z byte) (a : Z) (n : nat) (v : Z) : gmap Z byte :=
  match n with
  | O => m
  | S k => store_le (<[a := byte_of v]> m) (a + 1) k (v / 256)
  end.

Definition in_block (bs : list (Z * Z)) (a n : Z) : bool :=
  (0 <=? n) &&
  existsb (fun b => (fst b <=? a) && (a + n <=? fst b + snd b)) bs.

(** Read an [n]-byte little-endian unsigned integer at address [a].  Reading a
    byte that was never written is a fault. *)
Definition load (n : nat) (a : Z) : M Z :=
  fun st =>
    match load_le (mem st) a n with
    | Some v => Ok (v, st)
    | None => Fault (BadLoad a)
    end.

(** Write the low [n] bytes of [v] at address [a].  Writing outside every
    block obtained from [malloc] is a fault. *)
Definition store (n : nat) (a v : Z) : M unit :=
  fun st =>
    if in_block (blocks st) a (Z.of_nat n)
    then Ok (tt, mkState (store_le (mem st) a n v) (blocks st) (brk st)
                         (rands st) (stats st))
    else Fault (BadStore a).

Definition load8 := load 1.
Definition load16 := load 2.
Definition load32 := load 4.
Definition load64 := load 8.
Definition store8 := store 1.
Definition store16 := store 2.
Definition store32 := store 4.
Definition store64 := store 8.

Fixpoint fill_zero (m : gmap Z byte) (a : Z) (n : nat) : gmap Z byte :=
  match n with
  | O => m
  | S k => fill_zero (<[a := x00]> m) (a + 1) k
  end.

(** [memset (p, 0, n)] *)
Definition memset0 (p n : Z) : M unit :=
  fun st =>
    if in_block (blocks st) p n
    then Ok (tt, mkState (fill_zero (mem st) p (Z.to_nat n)) (blocks st)
                         (brk st) (rands st) (stats st))
    else Fault (BadStore p).

Fixpoint read_bytes (m : gmap Z byte) (a : Z) (n : nat) : option (list byte) :=
  match n with
  | O => Some []
  | S k =>
      match m !! a, read_bytes m (a + 1) k with
      | Some b, Some bs => Some (b :: bs)
      | _, _ => None
      end
  end.

Fixpoint write_bytes (m : gmap Z byte) (a : Z) (bs : list byte) : gmap Z byte :=
  match bs with
  | [] => m
  | b :: bs' => write_bytes (<[a := b]> m) (a + 1) bs'
  end.

(** [memcpy (dst, src, n)] *)
Definition memcpy (dst src n : Z) : M unit :=
  fun st =>
    if in_block (blocks st) dst n
    then match read_bytes (mem st) src (Z.to_nat n) with
         | None => Fault (BadLoad src)
         | Some bs =>
             Ok (tt, mkState (write_bytes (mem st) dst bs) (blocks st)
                             (brk st) (rands st) (stats st))
         end
    else Fault (BadStore dst).

(** The allocator of the C library: blocks are handed out at increasing
    16-byte aligned addresses and their contents are not initialised. *)
Definition malloc (n : Z) : M Z :=
  fun st =>
    let p := brk st in
    Ok (p, mkState (mem st) ((p, n) :: blocks st)
                   (p + (n + 15) / 16 * 16) (rands st) (stats st)).

(** [rand ()]: the next value of the stream, 0 once the stream is used up. *)
Definition rand : M Z :=
  fun st =>
    match rands st with
    | [] => Ok (0, st)
    | r :: rs => Ok (r mod 2147483648,
                     mkState (mem st) (blocks st) (brk st) rs (stats st))
    end.

Definition upd_stats (f : counters -> counters) : M unit :=
  fun st => Ok (tt, mkState (mem st) (blocks st) (brk st) (rands st)
                            (f (stats st))).

(** ** Constants and struct layouts (64-bit build) *)

Definition HAT_slot_size : Z := 8.
Definition HAT_mask : Z := 18446744073709551608.
Definition HAT_type : Z := 7.
Definition HAT_node_size : Z := 16.
Definition HAT_cache_line : Z := 8.
Definition HAT_seg : Z := 65536 * HAT_slot_size + 32.

Definition HAT_radix : Z := 0.
Definition HAT_bucket : Z := 1.
Definition HAT_array : Z := 2.
Definition HAT_pail : Z := 3.
Definition HAT_1 : Z := 4.
Definition HAT_32 : Z := 15.

Definition HatBucketSlots : Z := 2047.
Definition HatBucketMax : Z := 65536.
Definition HatPailMax : Z := 127.
Definition HatMax : Z := HAT_32.

Definition sizeof_HatBucket : Z := 8.
Definition sizeof_HatPail : Z := 0.
Definition sizeof_HatBase : Z := 4.
Definition sizeof_HatSeg : Z := 16.
Definition sizeof_Hat : Z := 400.

(** [HatSize] as [main] leaves it before the first [hat_open]: the bucket and
    pail entries have been enlarged by their slot tables. *)
Definition HatSize_table : list Z :=
  [ HAT_slot_size * 128;
    sizeof_HatBucket + HatBucketSlots * HAT_slot_size;
    0;
    sizeof_HatPail + HatPailMax * HAT_slot_size;
    1 * HAT_node_size; 2 * HAT_node_size; 3 * HAT_node_size;
    4 * HAT_node_size; 6 * HAT_node_size; 8 * HAT_node_size;
    10 * HAT_node_size; 12 * HAT_node_size; 14 * HAT_node_size;
    16 * HAT_node_size; 24 * HAT_node_size; 32 * HAT_node_size;
    0; 0; 0; 0; 0; 0; 0; 0; 0; 0; 0; 0; 0; 0; 0; 0 ].

Definition HatSize (type : Z) : M Z :=
  if type <? 0 then fail (BadIndex type)
  else match HatSize_table !! Z.to_nat type with
       | Some v => ret v
       | None => fail (BadIndex type)
       end.

(** Field addresses.  [Hat]: reuse[32], counts[32], seg, bootlvl, aux, root[].
    [HatSeg]: seg, next.  [HatBase]: nxt, type, cnt, keys[].
    [HatBucket]: count, slots[].  [HatPail]: array[]. *)
Definition hat_reuse (hat type : Z) : Z := hat + 8 * type.
Definition hat_counts (hat type : Z) : Z := hat + 256 + 4 * type.
Definition hat_seg (hat : Z) : Z := hat + 384.
Definition hat_bootlvl (hat : Z) : Z := hat + 392.
Definition hat_aux (hat : Z) : Z := hat + 396.
Definition hat_root (hat : Z) : Z := hat + 400.
Definition seg_seg (seg : Z) : Z := seg.
Definition seg_next (seg : Z) : Z := seg + 8.
Definition base_nxt (base : Z) : Z := base.
Definition base_type (base : Z) : Z := base + 2.
Definition base_cnt (base : Z) : Z := base + 3.
Definition base_keys (base : Z) : Z := base + 4.
Definition bucket_count (bucket : Z) : Z := bucket.
Definition bucket_slots (bucket : Z) : Z := bucket + 8.
Definition slot_at (table idx : Z) : Z := table + HAT_slot_size * idx.

(** ** keycmp *)

Fixpoint keycmp_words (fuel : nat) (str1 str2 len : Z) : M Z :=
  if len =? 0 then ret 0
  else match fuel with
       | O => out_of_fuel
       | S n =>
           let* w1 := load64 str1 in
           let* w2 := load64 str2 in
           if negb (w1 =? w2) then ret 1
           else keycmp_words n (str1 + HAT_slot_size) (str2 + HAT_slot_size)
                             (u32 (len - HAT_slot_size))
       end.

Fixpoint keycmp_tail (fuel : nat) (str1 str2 len : Z) : M Z :=
  if Z.land len (HAT_slot_size - 1) =? 0
  then keycmp_words (Z.to_nat len) str1 str2 len
  else match fuel with
       | O => out_of_fuel
       | S n =>
           let len := u32 (len - 1) in
           let* c1 := load8 (str1 + len) in
           let* c2 := load8 (str2 + len) in
           if negb (c1 =? c2) then ret 1
           else keycmp_tail n str1 str2 len
       end.

(** Each iteration of either loop lowers [len], so [len] iterations always
    suffice. *)
Definition keycmp (str1 str2 len : Z) : M Z :=
  keycmp_tail (Z.to_nat len) str1 str2 len.

(** ** Arena allocator *)

Definition round8 (amt : Z) : Z :=
  if Z.land amt (HAT_cache_line - 1) =? 0 then amt
  else u32 (Z.lor amt (HAT_cache_line - 1) + 1).

Definition new_seg (size : Z) (prev : Z) : M Z :=
  let* seg := malloc size in
  if seg =? 0 then fail Abort
  else
    store32 (seg_next seg) sizeof_HatSeg ;;
    store64 (seg_seg seg) prev ;;
    let round := Z.land seg (HAT_cache_line - 1) in
    (if negb (round =? 0)
     then store32 (seg_next seg) (sizeof_HatSeg + (HAT_cache_line - round))
     else ret tt) ;;
    ret seg.

Definition hat_alloc (hat type : Z) : M Z :=
  let* amt := HatSize type in
  let* c := load32 (hat_counts hat type) in
  store32 (hat_counts hat type) (c + 1) ;;
  let amt := round8 amt in
  let* block := load64 (hat_reuse hat type) in
  if negb (block =? 0) then
    let* link := load64 block in
    store64 (hat_reuse hat type) link ;;
    memset0 block amt ;;
    ret block
  else
    let* seg := load64 (hat_seg hat) in
    let* next := load32 (seg_next seg) in
    (if u32 (next + amt) >? HAT_seg then
       let* seg' := new_seg HAT_seg seg in
       store64 (hat_seg hat) seg' ;;
       upd_stats (fun c => mkCounters (u64 (MaxMem c + HAT_seg)) (Searches c)
                             (Probes c) (Bucket c) (Pail c) (Radix c) (Small c))
     else ret tt) ;;
    let* seg := load64 (hat_seg hat) in
    let* next := load32 (seg_next seg) in
    let block := seg + next in
    store32 (seg_next seg) (next + amt) ;;
    memset0 block amt ;;
    ret block.

Definition hat_free (hat block type : Z) : M unit :=
  let* head := load64 (hat_reuse hat type) in
  store64 block head ;;
  store64 (hat_reuse hat type) block ;;
  let* c := load32 (hat_counts hat type) in
  store32 (hat_counts hat type) (c - 1).

Fixpoint times128 (boot : nat) (size : Z) : Z :=
  match boot with
  | O => size
  | S n => times128 n (u32 (size * 128))
  end.

Definition hat_open (boot aux : Z) : M Z :=
  let size := times128 (Z.to_nat boot) HAT_slot_size in
  let amt := round8 (u32 (sizeof_Hat + size)) in
  let* seg := new_seg (amt + HAT_seg) 0 in
  upd_stats (fun c => mkCounters (u64 (MaxMem c + (amt + HAT_seg))) (Searches c)
                        (Probes c) (Bucket c) (Pail c) (Radix c) (Small c)) ;;
  let hat := seg + HAT_seg in
  memset0 hat amt ;;
  store32 (hat_bootlvl hat) boot ;;
  store32 (hat_aux hat) aux ;;
  store64 (hat_seg hat) seg ;;
  (if boot =? 0 then
     let* b := hat_alloc hat HAT_bucket in
     store64 (hat_root hat) (Z.lor b HAT_bucket)
   else ret tt) ;;
  ret hat.

(** ** Hash code *)

Fixpoint hat_code_loop (n : nat) (buff hash : Z) : M Z :=
  match n with
  | O => ret hash
  | S k =>
      let* b := load8 buff in
      hat_code_loop k (buff + 1)
        (u32 (hash + (Z.shiftl hash 5 + Z.shiftr hash 27 + b)))
  end.

Definition hat_code (buff max : Z) : M Z :=
  hat_code_loop (Z.to_nat max) buff max.

(** ** Array nodes *)

(** The length prefix of a stored key is decoded in place by every function
    that walks an array node; the variable that receives the length has a
    different C type from one function to the next.  Each decoder returns the
    length and the advanced offset [tst]. *)

(** [ushort len]: [hat_strip_array], [hat_new_pail], [hat_burst_array],
    [hat_burst_pail]. *)
Definition key_len_ushort (base tst : Z) : M (Z * Z) :=
  let* len := load8 (base_keys base + tst) in
  let tst := u16 (tst + 1) in
  if negb (Z.land len 0x80 =? 0) then
    let* hi := load8 (base_keys base + tst) in
    ret (u16 (Z.land len 0x7f + Z.shiftl hi 7), u16 (tst + 1))
  else ret (len, tst).

(** [uchar len]: [hat_burst_bucket]. *)
Definition key_len_uchar (base tst : Z) : M (Z * Z) :=
  let* len := load8 (base_keys base + tst) in
  let tst := u16 (tst + 1) in
  if len >? 0x7f then
    let* hi := load8 (base_keys base + tst) in
    ret (u8 (Z.land len 0x7f + Z.shiftl hi 7), u16 (tst + 1))
  else ret (len, tst).

(** [uint len], and no [len &= 0x7f]: [hat_find], [hat_cell]. *)
Definition key_len_uint (base tst : Z) : M (Z * Z) :=
  let* len := load8 (base_keys base + tst) in
  let tst := u16 (tst + 1) in
  if len >? 0x7f then
    let* hi := load8 (base_keys base + tst) in
    ret (u32 (len + Z.shiftl hi 7), u16 (tst + 1))
  else ret (len, tst).

Definition key_skip (amt : Z) : Z := if amt >? 0x7f then 2 else 1.

(** Address of the aux slot of the key with index [cnt] in array [base]. *)
Definition aux_slot (base cnt aux : Z) : M Z :=
  let* type := load8 (base_type base) in
  let* size := HatSize type in
  ret (base + size - u32 ((cnt + 1) * aux)).

Fixpoint new_array_type (fuel : nat) (need type : Z) : M Z :=
  let* size := HatSize type in
  if need >? size then
    match fuel with
    | O => out_of_fuel
    | S n => new_array_type n need (type + 1)
    end
  else ret type.

Definition hat_new_array (hat parent buff amt : Z) : M Z :=
  let skip := key_skip amt in
  let* aux := load32 (hat_aux hat) in
  let* type := new_array_type 32 (u32 (aux + amt + skip) + sizeof_HatBase) HAT_1 in
  if type >? HatMax then ret 0
  else
    let* base := hat_alloc hat type in
    store64 parent (Z.lor base HAT_array) ;;
    store8 (base_keys base) (Z.land amt 0x7f) ;;
    (if amt >? 0x7f then
       let* k := load8 (base_keys base) in
       store8 (base_keys base) (Z.lor k 0x80) ;;
       store8 (base_keys base + 1) (Z.shiftr amt 7)
     else ret tt) ;;
    memcpy (base_keys base + skip) buff amt ;;
    store16 (base_nxt base) (amt + skip) ;;
    store8 (base_type base) type ;;
    store8 (base_cnt base) 1 ;;
    let* size := HatSize type in
    ret (base + size - aux).

Fixpoint promote_type (fuel : nat) (need type : Z) : M Z :=
  let* size := HatSize type in
  if need >? size then
    if type <? HatMax then
      match fuel with
      | O => out_of_fuel
      | S n => promote_type n need (type + 1)
      end
    else ret (type + 1)
  else ret type.

(** The loop of [hat_new_pail] that re-hashes the keys of the old array. *)
Fixpoint new_pail_keys (add_array : Z -> Z -> Z -> Z -> M Z) (fuel : nat)
    (hat base pail tst cnt : Z) : M unit :=
  let* nxt := load16 (base_nxt base) in
  if negb (tst <? nxt) then ret tt
  else match fuel with
       | O => out_of_fuel
       | S n =>
           let* '(len, tst) := key_len_ushort base tst in
           let* h := hat_code (base_keys base + tst) len in
           let code := h mod HatPailMax in
           let* slot := load64 (slot_at pail code) in
           let* cell :=
             (if negb (slot =? 0)
              then add_array (slot_at pail code) (base_keys base + tst) len 0
              else hat_new_array hat (slot_at pail code) (base_keys base + tst) len) in
           let* aux := load32 (hat_aux hat) in
           (if negb (aux =? 0) then
              let* src := aux_slot base cnt aux in
              memcpy cell src aux
            else ret tt) ;;
           new_pail_keys add_array n hat base pail (u16 (tst + len)) (u16 (cnt + 1))
       end.

Fixpoint hat_add_array (fuel : nat) (hat parent buff amt pail : Z) : M Z :=
  match fuel with
  | O => out_of_fuel
  | S n =>
      let skip := key_skip amt in
      let* node := load64 parent in
      let base := Z.land node HAT_mask in
      let* type := load8 (base_type base) in
      let* aux := load32 (hat_aux hat) in
      let* cnt := load8 (base_cnt base) in
      let* nxt := load16 (base_nxt base) in
      let* size := HatSize type in
      if ((aux =? 0) || (cnt <? 255))
         && (u32 ((cnt + 1) * aux + nxt + amt + skip) + sizeof_HatBase <=? size)
      then
        memcpy (base_keys base + nxt + skip) buff amt ;;
        store8 (base_keys base + nxt) (Z.land amt 0x7f) ;;
        (if amt >? 0x7f then
           let* k := load8 (base_keys base + nxt) in
           store8 (base_keys base + nxt) (Z.lor k 0x80) ;;
           store8 (base_keys base + nxt + 1) (Z.shiftr amt 7)
         else ret tt) ;;
        store16 (base_nxt base) (nxt + (amt + skip)) ;;
        store8 (base_cnt base) (cnt + 1) ;;
        let* cnt := load8 (base_cnt base) in
        ret (base + size - u32 (cnt * aux))
      else hat_promote n hat parent buff amt pail
  end

with hat_promote (fuel : nat) (hat parent buff amt pail : Z) : M Z :=
  match fuel with
  | O => out_of_fuel
  | S n =>
      let amt := i32 amt in
      let* node := load64 parent in
      let base := Z.land node HAT_mask in
      let skip := key_skip amt in
      let* oldtype := load8 (base_type base) in
      let* oldsize := HatSize oldtype in
      let oldslots := base + oldsize in
      let* aux := load32 (hat_aux hat) in
      let* cnt := load8 (base_cnt base) in
      let* nxt := load16 (base_nxt base) in
      let* type :=
        (if (aux =? 0) || (cnt <? 255)
         then promote_type 32 (u32 ((cnt + 1) * aux + nxt + amt + skip)
                               + sizeof_HatBase) oldtype
         else ret (HatMax + 1)) in
      if type >? HatMax then
        if negb (pail =? 0) && negb (HatPailMax =? 0)
        then hat_new_pail n hat parent buff (u32 amt)
        else ret 0
      else
        let* newbase := hat_alloc hat type in
        store64 parent (Z.lor newbase HAT_array) ;;
        let* newsize := HatSize type in
        let newslots := newbase + newsize in
        memcpy (base_keys newbase) (base_keys base) nxt ;;
        (if negb (aux =? 0)
         then memcpy (newslots - u32 (cnt * aux)) (oldslots - u32 (cnt * aux))
                     (u32 (cnt * aux))
         else ret tt) ;;
        let tst := nxt in
        store8 (base_keys newbase + tst) (Z.land amt 0x7f) ;;
        (if negb (Z.land amt 0x80 =? 0) then
           let* k := load8 (base_keys newbase + tst) in
           store8 (base_keys newbase + tst) (Z.lor k 0x80) ;;
           store8 (base_keys newbase + tst + 1) (Z.shiftr amt 7)
         else ret tt) ;;
        memcpy (base_keys newbase + tst + skip) buff amt ;;
        store16 (base_nxt newbase) (tst + amt + skip) ;;
        store8 (base_cnt newbase) (cnt + 1) ;;
        store8 (base_type newbase) type ;;
        hat_free hat base oldtype ;;
        let* newcnt := load8 (base_cnt newbase) in
        ret (newslots - u32 (newcnt * aux))
  end

with hat_new_pail (fuel : nat) (hat parent buff amt : Z) : M Z :=
  match fuel with
  | O => out_of_fuel
  | S n =>
      let* node := load64 parent in
      let base := Z.land node HAT_mask in
      let* pail := hat_alloc hat HAT_pail in
      store64 parent (Z.lor pail HAT_pail) ;;
      new_pail_keys (hat_add_array n hat) n hat base pail 0 0 ;;
      let* type := load8 (base_type base) in
      hat_free hat base type ;;
      hat_add_pail n hat parent buff amt
  end

with hat_add_pail (fuel : nat) (hat parent buff amt : Z) : M Z :=
  match fuel with
  | O => out_of_fuel
  | S n =>
      let* node := load64 parent in
      let pail := Z.land node HAT_mask in
      let* h := hat_code buff amt in
      let slot := h mod HatPailMax in
      let* a := load64 (slot_at pail slot) in
      if a =? 0 then hat_new_array hat (slot_at pail slot) buff amt
      else
        let* cell := hat_add_array n hat (slot_at pail slot) buff amt 0 in
        if negb (cell =? 0) then ret cell else ret 0
  end.

(** ** Bursting *)

Fixpoint burst_array_keys (fuel : nat) (hat base bucket type tst cnt : Z) : M unit :=
  let* nxt := load16 (base_nxt base) in
  if negb (tst <? nxt) then ret tt
  else match fuel with
       | O => out_of_fuel
       | S n =>
           let* '(len, tst) := key_len_ushort base tst in
           let* h := hat_code (base_keys base + tst) len in
           let code := h mod HatBucketSlots in
           let* slot := load64 (slot_at (bucket_slots bucket) code) in
           let* cell :=
             (if negb (slot =? 0)
              then hat_add_array fuel hat (slot_at (bucket_slots bucket) code)
                                 (base_keys base + tst) len 1
              else hat_new_array hat (slot_at (bucket_slots bucket) code)
                                 (base_keys base + tst) len) in
           let* aux := load32 (hat_aux hat) in
           (if negb (aux =? 0) then
              let* size := HatSize type in
              memcpy cell (base + size - u32 ((cnt + 1) * aux)) aux
            else ret tt) ;;
           let* count := load32 (bucket_count bucket) in
           store32 (bucket_count bucket) (count + 1) ;;
           burst_array_keys n hat base bucket type (u16 (tst + len)) (u16 (cnt + 1))
       end.

Definition hat_burst_array (fuel : nat) (hat parent : Z) : M unit :=
  let* node := load64 parent in
  let base := Z.land node HAT_mask in
  let* type := load8 (base_type base) in
  let* bucket := hat_alloc hat HAT_bucket in
  store64 parent (Z.lor bucket HAT_bucket) ;;
  burst_array_keys fuel hat base bucket type 0 0 ;;
  hat_free hat base type.

Fixpoint burst_pail_keys (fuel : nat) (hat base bucket tst cnt : Z) : M unit :=
  let* nxt := load16 (base_nxt base) in
  if negb (tst <? nxt) then ret tt
  else match fuel with
       | O => out_of_fuel
       | S n =>
           let* '(len, tst) := key_len_ushort base tst in
           let* h := hat_code (base_keys base + tst) len in
           let code := h mod HatBucketSlots in
           let* slot := load64 (slot_at (bucket_slots bucket) code) in
           let* cell :=
             (if negb (slot =? 0) then
                if Z.land slot HAT_type =? HAT_array
                then hat_add_array fuel hat (slot_at (bucket_slots bucket) code)
                                   (base_keys base + tst) len 1
                else hat_add_pail fuel hat (slot_at (bucket_slots bucket) code)
                                  (base_keys base + tst) len
              else hat_new_array hat (slot_at (bucket_slots bucket) code)
                                 (base_keys base + tst) len) in
           let* aux := load32 (hat_aux hat) in
           (if negb (aux =? 0) then
              let* src := aux_slot base cnt aux in
              memcpy cell src aux
            else ret tt) ;;
           let* count := load32 (bucket_count bucket) in
           store32 (bucket_count bucket) (count + 1) ;;
           burst_pail_keys n hat base bucket (u16 (tst + len)) (u16 (cnt + 1))
       end.

Fixpoint burst_pail_slots (fuel : nat) (hat pail bucket idx : Z) : M unit :=
  if negb (idx <? HatPailMax) then ret tt
  else match fuel with
       | O => out_of_fuel
       | S n =>
           let* a := load64 (slot_at pail idx) in
           let base := Z.land a HAT_mask in
           (if base =? 0 then ret tt
            else
              burst_pail_keys fuel hat base bucket 0 0 ;;
              let* type := load8 (base_type base) in
              hat_free hat base type) ;;
           burst_pail_slots n hat pail bucket (u16 (idx + 1))
       end.

Definition hat_burst_pail (fuel : nat) (hat parent : Z) : M unit :=
  let* node := load64 parent in
  let pail := Z.land node HAT_mask in
  let* bucket := hat_alloc hat HAT_bucket in
  store64 parent (Z.lor bucket HAT_bucket) ;;
  burst_pail_slots fuel hat pail bucket 0 ;;
  hat_free hat pail HAT_pail.

Definition hat_add_bucket (fuel : nat) (hat parent buff amt value : Z) : M Z :=
  let* node := load64 parent in
  let bucket := Z.land node HAT_mask in
  let* h := hat_code buff amt in
  let code := h mod HatBucketSlots in
  let* count := load32 (bucket_count bucket) in
  store32 (bucket_count bucket) (count + 1) ;;
  if count <? HatBucketMax then
    let* aux := load32 (hat_aux hat) in
    let* slot := load64 (slot_at (bucket_slots bucket) code) in
    if slot =? 0 then
      let* cell := hat_new_array hat (slot_at (bucket_slots bucket) code) buff amt in
      (if negb (aux =? 0) then memcpy cell value aux else ret tt) ;;
      ret 1
    else if Z.land slot HAT_type =? HAT_array then
      let* cell := hat_add_array fuel hat (slot_at (bucket_slots bucket) code) buff amt 1 in
      if negb (cell =? 0) then memcpy cell value aux ;; ret 1
      else ret 0
    else
      let* cell := hat_add_pail fuel hat (slot_at (bucket_slots bucket) code) buff amt in
      if negb (cell =? 0) then memcpy cell value aux ;; ret 1
      else ret 0
  else ret 0.

(** The key loops of [hat_burst_bucket]; [add_radix] is [hat_add_radix] at the
    new radix node. *)
Fixpoint burst_bucket_keys (add_radix : Z -> Z -> Z -> M unit) (fuel : nat)
    (hat base tst cnt : Z) : M unit :=
  let* nxt := load16 (base_nxt base) in
  if negb (tst <? nxt) then ret tt
  else match fuel with
       | O => out_of_fuel
       | S n =>
           let* '(len, tst) := key_len_uchar base tst in
           let* aux := load32 (hat_aux hat) in
           let* value := aux_slot base cnt aux in
           add_radix (base_keys base + tst) len value ;;
           burst_bucket_keys add_radix n hat base (u16 (tst + len)) (u16 (cnt + 1))
       end.

Fixpoint burst_bucket_pail (add_radix : Z -> Z -> Z -> M unit) (fuel : nat)
    (hat pail idx : Z) : M unit :=
  if negb (idx <? HatPailMax) then ret tt
  else match fuel with
       | O => out_of_fuel
       | S n =>
           let* a := load64 (slot_at pail idx) in
           let base := Z.land a HAT_mask in
           (if base =? 0 then ret tt
            else
              burst_bucket_keys add_radix fuel hat base 0 0 ;;
              let* type := load8 (base_type base) in
              hat_free hat base type) ;;
           burst_bucket_pail add_radix n hat pail (u32 (idx + 1))
       end.

Fixpoint burst_bucket_slots (add_radix : Z -> Z -> Z -> M unit) (fuel : nat)
    (hat bucket hash : Z) : M unit :=
  if negb (hash <? HatBucketSlots) then ret tt
  else match fuel with
       | O => out_of_fuel
       | S n =>
           let* slot := load64 (slot_at (bucket_slots bucket) hash) in
           (if negb (slot =? 0) then
              if Z.land slot HAT_type =? HAT_array then
                let base := Z.land slot HAT_mask in
                burst_bucket_keys add_radix fuel hat base 0 0 ;;
                let* type := load8 (base_type base) in
                hat_free hat base type
              else if Z.land slot HAT_type =? HAT_pail then
                let pail := Z.land slot HAT_mask in
                burst_bucket_pail add_radix fuel hat pail 0 ;;
                hat_free hat pail HAT_pail
              else ret tt
            else ret tt) ;;
           burst_bucket_slots add_radix n hat bucket (u32 (hash + 1))
       end.

Fixpoint hat_add_radix (fuel : nat) (hat radix buff max value : Z) : M unit :=
  match fuel with
  | O => out_of_fuel
  | S n =>
      let* ch := (if negb (max =? 0) then load8 buff else ret 0) in
      let* slot := load64 (slot_at radix ch) in
      if slot =? 0 then
        let* cell := hat_new_array hat (slot_at radix ch) (buff + 1)
                       (if negb (max =? 0) then u32 (max - 1) else 0) in
        let* aux := load32 (hat_aux hat) in
        if negb (aux =? 0) then memcpy cell value aux else ret tt
      else add_radix_switch n hat radix ch buff max value
  end

with add_radix_switch (fuel : nat) (hat radix ch buff max value : Z) : M unit :=
  match fuel with
  | O => out_of_fuel
  | S n =>
      let* slot := load64 (slot_at radix ch) in
      let type := Z.land slot HAT_type in
      if type =? HAT_bucket then
        let* ok := hat_add_bucket fuel hat (slot_at radix ch) (buff + 1)
                     (u32 (max - 1)) value in
        if negb (ok =? 0) then ret tt
        else
          hat_burst_bucket n hat (slot_at radix ch) ;;
          add_radix_switch n hat radix ch buff max value
      else if type =? HAT_radix then
        hat_add_radix n hat (Z.land slot HAT_mask) (buff + 1) (u32 (max - 1)) value
      else if type =? HAT_array then
        let* cell := hat_add_array fuel hat (slot_at radix ch) (buff + 1)
                       (u32 (max - 1)) 1 in
        if negb (cell =? 0) then
          let* aux := load32 (hat_aux hat) in
          if negb (aux =? 0) then memcpy cell value aux else ret tt
        else
          hat_burst_array fuel hat (slot_at radix ch) ;;
          add_radix_switch n hat radix ch buff max value
      else if type =? HAT_pail then
        let* cell := hat_add_pail fuel hat (slot_at radix ch) (buff + 1)
                       (u32 (max - 1)) in
        if negb (cell =? 0) then
          let* aux := load32 (hat_aux hat) in
          if negb (aux =? 0) then memcpy cell value aux else ret tt
        else
          hat_burst_pail fuel hat (slot_at radix ch) ;;
          add_radix_switch n hat radix ch buff max value
      else add_radix_switch n hat radix ch buff max value
  end

with hat_burst_bucket (fuel : nat) (hat parent : Z) : M unit :=
  match fuel with
  | O => out_of_fuel
  | S n =>
      let* node := load64 parent in
      let bucket := Z.land node HAT_mask in
      let* count := load32 (bucket_count bucket) in
      (if count <? HatBucketMax
       then upd_stats (fun c => mkCounters (MaxMem c) (Searches c) (Probes c)
                                  (Bucket c) (Pail c) (Radix c) (u64 (Small c + 1)))
       else ret tt) ;;
      let* radix := hat_alloc hat HAT_radix in
      store64 parent (Z.lor radix HAT_radix) ;;
      burst_bucket_slots (hat_add_radix n hat radix) fuel hat bucket 0 ;;
      hat_free hat bucket HAT_bucket
  end.

(** ** Descent shared by search and insert *)

(** The loop that opens [hat_find] and [hat_cell]: fold the first [bootlvl]
    key bytes into the index [triple] of the root table.  Returns the index
    and the number of key bytes consumed. *)
Fixpoint root_index (n : nat) (buff max off triple : Z) : M (Z * Z) :=
  match n with
  | O => ret (triple, off)
  | S k =>
      let triple := u32 (triple * 128) in
      if off <? max then
        let* b := load8 (buff + off) in
        root_index k buff max (u32 (off + 1)) (u32 (triple + b))
      else root_index k buff max off triple
  end.

(** The key byte a radix node is indexed with: the next byte of the key, or 0
    when the key is used up. *)
Definition radix_byte (buff off max : Z) : M (Z * Z) :=
  if off <? max then
    let* ch := load8 (buff + off) in
    ret (ch, u32 (off + 1))
  else ret (0, off).

Definition count_search (c : counters) : counters :=
  mkCounters (MaxMem c) (u64 (Searches c + 1)) (Probes c) (Bucket c) (Pail c)
             (Radix c) (Small c).
Definition count_probe (c : counters) : counters :=
  mkCounters (MaxMem c) (Searches c) (u64 (Probes c + 1)) (Bucket c) (Pail c)
             (Radix c) (Small c).
Definition count_bucket (c : counters) : counters :=
  mkCounters (MaxMem c) (Searches c) (Probes c) (u64 (Bucket c + 1)) (Pail c)
             (Radix c) (Small c).
Definition count_pail (c : counters) : counters :=
  mkCounters (MaxMem c) (Searches c) (Probes c) (Bucket c) (u64 (Pail c + 1))
             (Radix c) (Small c).
Definition count_radix (c : counters) : counters :=
  mkCounters (MaxMem c) (Searches c) (Probes c) (Bucket c) (Pail c)
             (u64 (Radix c + 1)) (Small c).

(** ** hat_find *)

Fixpoint find_array (fuel : nat) (hat base buff off max tst cnt : Z) : M Z :=
  let* nxt := load16 (base_nxt base) in
  if negb (tst <? nxt) then ret 0
  else match fuel with
       | O => out_of_fuel
       | S n =>
           upd_stats count_probe ;;
           let* '(len, tst) := key_len_uint base tst in
           let* differ :=
             (if len =? u32 (max - off)
              then keycmp (base_keys base + tst) (buff + off) len
              else ret 1) in
           if differ =? 0 then
             let* aux := load32 (hat_aux hat) in
             if negb (aux =? 0) then aux_slot base cnt aux
             else ret 1
           else find_array n hat base buff off max (u16 (tst + len)) (u16 (cnt + 1))
       end.

Fixpoint find_node (fuel : nat) (hat buff max off next : Z) : M Z :=
  if next =? 0 then ret 0
  else match fuel with
       | O => out_of_fuel
       | S n =>
           let type := Z.land next HAT_type in
           if type =? HAT_array then
             upd_stats count_search ;;
             find_array fuel hat (Z.land next HAT_mask) buff off max 0 0
           else if type =? HAT_pail then
             upd_stats count_pail ;;
             let* h := hat_code (buff + off) (u32 (max - off)) in
             let* next := load64 (slot_at (Z.land next HAT_mask) (h mod HatPailMax)) in
             find_node n hat buff max off next
           else if type =? HAT_bucket then
             upd_stats count_bucket ;;
             let* h := hat_code (buff + off) (u32 (max - off)) in
             let* next := load64 (slot_at (bucket_slots (Z.land next HAT_mask))
                                          (h mod HatBucketSlots)) in
             find_node n hat buff max off next
           else if type =? HAT_radix then
             upd_stats count_radix ;;
             let* '(ch, off) := radix_byte buff off max in
             let* next := load64 (slot_at (Z.land next HAT_mask) ch) in
             find_node n hat buff max off next
           else find_node n hat buff max off next
       end.

Definition hat_find (fuel : nat) (hat buff max : Z) : M Z :=
  let* bootlvl := load32 (hat_bootlvl hat) in
  let* '(triple, off) := root_index (Z.to_nat bootlvl) buff max 0 0 in
  let* next := load64 (slot_at (hat_root hat) triple) in
  find_node fuel hat buff max off next.

(** ** hat_cell *)

(** The scan for an equal key that [hat_cell] runs over an array node, both
    directly and below a pail; [Some p] is the value [hat_cell] returns. *)
Fixpoint cell_scan (fuel : nat) (hat base buff off max tst cnt : Z) : M (option Z) :=
  let* nxt := load16 (base_nxt base) in
  if negb (tst <? nxt) then ret None
  else match fuel with
       | O => out_of_fuel
       | S n =>
           let* '(len, tst) := key_len_uint base tst in
           let* differ :=
             (if len =? u32 (max - off)
              then keycmp (base_keys base + tst) (buff + off) (u32 (max - off))
              else ret 1) in
           if differ =? 0 then
             let* aux := load32 (hat_aux hat) in
             if negb (aux =? 0) then
               let* p := aux_slot base cnt aux in ret (Some p)
             else ret (Some 1)
           else cell_scan n hat base buff off max (u16 (tst + len)) (u16 (cnt + 1))
       end.

Definition cell_return (hat cell : Z) : M Z :=
  let* aux := load32 (hat_aux hat) in
  if negb (aux =? 0) then ret cell else ret 0.

(** [bucket->count++ < HatBucketMax] *)
Definition bucket_count_incr (bucket : Z) : M bool :=
  let* count := load32 (bucket_count bucket) in
  store32 (bucket_count bucket) (count + 1) ;;
  ret (count <? HatBucketMax).

Fixpoint cell_node (fuel : nat) (hat buff max off next parent bucket : Z) : M Z :=
  match fuel with
  | O => out_of_fuel
  | S n =>
      let* node := load64 next in
      if node =? 0 then
        let* under := (if negb (parent =? 0) then bucket_count_incr bucket
                       else ret false) in
        if under then
          let* cell := hat_new_array hat next (buff + off) (u32 (max - off)) in
          if negb (cell =? 0) then cell_return hat cell
          else
            hat_burst_bucket fuel hat parent ;;
            cell_node n hat buff max off parent 0 bucket
        else
          let* cell := hat_new_array hat next (buff + off) (u32 (max - off)) in
          cell_return hat cell
      else
        let type := Z.land node HAT_type in
        if type =? HAT_array then
          let base := Z.land node HAT_mask in
          let* found := cell_scan fuel hat base buff off max 0 0 in
          match found with
          | Some p => ret p
          | None =>
              if negb (parent =? 0) then
                let* room := bucket_count_incr bucket in
                let* cell := (if room
                              then hat_add_array fuel hat next (buff + off)
                                                 (u32 (max - off)) 1
                              else ret 0) in
                if negb (cell =? 0) then cell_return hat cell
                else
                  hat_burst_bucket fuel hat parent ;;
                  cell_node n hat buff max off parent 0 bucket
              else
                let* cell := hat_add_array fuel hat next (buff + off)
                                           (u32 (max - off)) 1 in
                if negb (cell =? 0) then cell_return hat cell
                else
                  hat_burst_array fuel hat next ;;
                  cell_node n hat buff max off next parent bucket
          end
        else if type =? HAT_pail then
          let pail := Z.land node HAT_mask in
          let* h := hat_code (buff + off) (u32 (max - off)) in
          let code := h mod HatPailMax in
          let* a := load64 (slot_at pail code) in
          let base := Z.land a HAT_mask in
          let* found := (if negb (base =? 0)
                         then cell_scan fuel hat base buff off max 0 0
                         else ret None) in
          match found with
          | Some p => ret p
          | None =>
              if negb (parent =? 0) then
                let* room := bucket_count_incr bucket in
                let* cell := (if room
                              then hat_add_pail fuel hat next (buff + off)
                                                (u32 (max - off))
                              else ret 0) in
                if negb (cell =? 0) then cell_return hat cell
                else
                  hat_burst_bucket fuel hat parent ;;
                  cell_node n hat buff max off parent 0 bucket
              else
                let* cell := hat_add_pail fuel hat next (buff + off)
                                          (u32 (max - off)) in
                if negb (cell =? 0) then cell_return hat cell
                else
                  hat_burst_pail fuel hat next ;;
                  cell_node n hat buff max off next parent bucket
          end
        else if type =? HAT_bucket then
          let bucket := Z.land node HAT_mask in
          let* h := hat_code (buff + off) (u32 (max - off)) in
          let code := h mod HatBucketSlots in
          cell_node n hat buff max off (slot_at (bucket_slots bucket) code) next bucket
        else if type =? HAT_radix then
          let table := Z.land node HAT_mask in
          let* '(ch, off) := radix_byte buff off max in
          cell_node n hat buff max off (slot_at table ch) parent bucket
        else cell_node n hat buff max off next parent bucket
  end.

Definition hat_cell (fuel : nat) (hat buff max : Z) : M Z :=
  let* bootlvl := load32 (hat_bootlvl hat) in
  let* '(triple, off) := root_index (Z.to_nat bootlvl) buff max 0 0 in
  cell_node fuel hat buff max off (slot_at (hat_root hat) triple) 0 0.

(** ** Callers

    A caller owns the buffer it passes a key in.  [with_key] obtains such a
    buffer from [malloc], fills it with the key bytes and passes its address
    on. *)

Fixpoint store_bytes (p : Z) (k : list Z) : M unit :=
  match k with
  | [] => ret tt
  | b :: k' => store8 p b ;; store_bytes (p + 1) k'
  end.

Definition with_key {A} (k : list Z) (f : Z -> Z -> M A) : M A :=
  let* p := malloc (Z.of_nat (length k) + 1) in
  store_bytes p k ;;
  f p (Z.of_nat (length k)).

Fixpoint load_bytes (n : nat) (p : Z) : M (list Z) :=
  match n with
  | O => ret []
  | S k => let* b := load8 p in let* bs := load_bytes k (p + 1) in ret (b :: bs)
  end.

Definition no_counters : counters := mkCounters 0 0 0 0 0 0 0.

Definition init_state : state := mkState ∅ [] 65536 [] no_counters.

Definition run {A} (m : M A) : result A :=
  match m init_state with
  | Ok (a, _) => Ok a
  | Fault f => Fault f
  | OutOfFuel => OutOfFuel
  end.

(** ** Cursor *)

Record HatSort := mkSort {
  key : Z;      (* pointer to key string *)
  slot : Z      (* user data area *)
}.

(** The cursor struct lives outside the arena and is modelled as a record;
    its three arrays are finite maps over their index range, an absent entry
    being the zero [hat_cursor] filled the struct with. *)
Record HatCursor := mkCursor {
  c_cnt : Z;                (* int cnt: number of bucket keys *)
  c_idx : Z;                (* int idx: current bucket index *)
  c_top : Z;                (* short top: current stack top *)
  c_aux : Z;                (* ushort aux *)
  c_rootlvl : Z;            (* int rootlvl *)
  c_maxroot : Z;            (* uint maxroot *)
  c_rootscan : Z;           (* uint rootscan *)
  c_next : gmap Z Z;        (* HatSlot next[256] *)
  c_scan : gmap Z Z;        (* uchar scan[256] *)
  c_keys : gmap Z HatSort   (* HatSort keys[HatBucketMax] *)
}.

Definition set_cnt (c : HatCursor) (v : Z) : HatCursor :=
  mkCursor v (c_idx c) (c_top c) (c_aux c) (c_rootlvl c) (c_maxroot c)
           (c_rootscan c) (c_next c) (c_scan c) (c_keys c).
Definition set_idx (c : HatCursor) (v : Z) : HatCursor :=
  mkCursor (c_cnt c) v (c_top c) (c_aux c) (c_rootlvl c) (c_maxroot c)
           (c_rootscan c) (c_next c) (c_scan c) (c_keys c).
Definition set_top (c : HatCursor) (v : Z) : HatCursor :=
  mkCursor (c_cnt c) (c_idx c) v (c_aux c) (c_rootlvl c) (c_maxroot c)
           (c_rootscan c) (c_next c) (c_scan c) (c_keys c).
Definition set_rootscan (c : HatCursor) (v : Z) : HatCursor :=
  mkCursor (c_cnt c) (c_idx c) (c_top c) (c_aux c) (c_rootlvl c) (c_maxroot c)
           v (c_next c) (c_scan c) (c_keys c).
Definition set_keys (c : HatCursor) (ks : gmap Z HatSort) : HatCursor :=
  mkCursor (c_cnt c) (c_idx c) (c_top c) (c_aux c) (c_rootlvl c) (c_maxroot c)
           (c_rootscan c) (c_next c) (c_scan c) ks.

Definition in_range (i n : Z) : bool := (0 <=? i) && (i <? n).

Definition get_next (c : HatCursor) (i : Z) : M Z :=
  if in_range i 256 then ret (default 0 (c_next c !! i)) else fail (BadIndex i).
Definition get_scan (c : HatCursor) (i : Z) : M Z :=
  if in_range i 256 then ret (default 0 (c_scan c !! i)) else fail (BadIndex i).
Definition set_next (c : HatCursor) (i v : Z) : M HatCursor :=
  if in_range i 256
  then ret (mkCursor (c_cnt c) (c_idx c) (c_top c) (c_aux c) (c_rootlvl c)
                     (c_maxroot c) (c_rootscan c) (<[i := v]> (c_next c))
                     (c_scan c) (c_keys c))
  else fail (BadIndex i).
Definition set_scan (c : HatCursor) (i v : Z) : M HatCursor :=
  if in_range i 256
  then ret (mkCursor (c_cnt c) (c_idx c) (c_top c) (c_aux c) (c_rootlvl c)
                     (c_maxroot c) (c_rootscan c) (c_next c)
                     (<[i := u8 v]> (c_scan c)) (c_keys c))
  else fail (BadIndex i).

(** [cursor->next[++cursor->top] = node] *)
Definition push_next (c : HatCursor) (node : Z) : M HatCursor :=
  let c := set_top c (i16 (c_top c + 1)) in
  set_next c (c_top c) node.

Definition sort_get (ks : gmap Z HatSort) (i : Z) : M HatSort :=
  if in_range i HatBucketMax then ret (default (mkSort 0 0) (ks !! i))
  else fail (BadIndex i).
Definition sort_set (ks : gmap Z HatSort) (i : Z) (e : HatSort) : M (gmap Z HatSort) :=
  if in_range i HatBucketMax then ret (<[i := e]> ks) else fail (BadIndex i).

(** [*swap = x[i]; x[i] = x[j]; x[j] = *swap] *)
Definition sort_swap (ks : gmap Z HatSort) (i j : Z) : M (gmap Z HatSort) :=
  let* ei := sort_get ks i in
  let* ej := sort_get ks j in
  let* ks := sort_set ks i ej in
  sort_set ks j ei.

Fixpoint vecswap (fuel : nat) (i j n : Z) (x : Z) (ks : gmap Z HatSort)
    : M (gmap Z HatSort) :=
  if n =? 0 then ret ks
  else match fuel with
       | O => out_of_fuel
       | S f =>
           let* ks := sort_swap ks (x + i) (x + j) in
           vecswap f (i + 1) (j + 1) (i32 (n - 1)) x ks
       end.

(** ** Ternary quicksort of the cursor's keys *)

(** Length of the stored key an entry points to, held in a [ushort], and the
    size of its prefix. *)
Definition sort_len (e : HatSort) : M (Z * Z) :=
  let* len := load8 (key e) in
  if negb (Z.land len 0x80 =? 0) then
    let* hi := load8 (key e + 1) in
    ret (u16 (Z.land len 0x7f + Z.shiftl hi 7), 2)
  else ret (len, 1).

(** The same, held in a [uchar], as the insertion sort does. *)
Definition sort_len_uchar (e : HatSort) : M (Z * Z) :=
  let* len := load8 (key e) in
  if negb (Z.land len 0x80 =? 0) then
    let* hi := load8 (key e + 1) in
    ret (u8 (Z.land len 0x7f + Z.shiftl hi 7), 2)
  else ret (len, 1).

(** Byte of the entry's key at depth [o], 0 when the key ends before. *)
Definition sort_char (e : HatSort) (o : Z) : M Z :=
  let* '(len, skip) := sort_len e in
  if len >? o then load8 (key e + (o + skip)) else ret 0.

(** First inner loop of the partition: advance [b]. *)
Fixpoint part_up (fuel : nat) (x o pivot a b c : Z) (ks : gmap Z HatSort)
    : M (Z * Z * gmap Z HatSort) :=
  if negb (b <=? c) then ret (a, b, ks)
  else match fuel with
       | O => out_of_fuel
       | S f =>
           let* e := sort_get ks (x + b) in
           let* chb := sort_char e o in
           if chb >? pivot then ret (a, b, ks)
           else
             let* '(a, ks) :=
               (if chb =? pivot
                then let* ks := sort_swap ks (x + a) (x + b) in ret (a + 1, ks)
                else ret (a, ks)) in
             part_up f x o pivot a (b + 1) c ks
       end.

(** Second inner loop of the partition: lower [c]. *)
Fixpoint part_down (fuel : nat) (x o pivot b c d : Z) (ks : gmap Z HatSort)
    : M (Z * Z * gmap Z HatSort) :=
  if negb (b <=? c) then ret (c, d, ks)
  else match fuel with
       | O => out_of_fuel
       | S f =>
           let* e := sort_get ks (x + c) in
           let* chc := sort_char e o in
           if chc <? pivot then ret (c, d, ks)
           else
             let* '(d, ks) :=
               (if chc =? pivot
                then let* ks := sort_swap ks (x + c) (x + d) in ret (d - 1, ks)
                else ret (d, ks)) in
             part_down f x o pivot b (c - 1) d ks
       end.

Fixpoint partition (fuel : nat) (x o pivot a b c d : Z) (ks : gmap Z HatSort)
    : M (Z * Z * Z * Z * gmap Z HatSort) :=
  match fuel with
  | O => out_of_fuel
  | S f =>
      let* '(a, b, ks) := part_up fuel x o pivot a b c ks in
      let* '(c, d, ks) := part_down fuel x o pivot b c d ks in
      if b >? c then ret (a, b, c, d, ks)
      else
        let* ks := sort_swap ks (x + b) (x + c) in
        partition f x o pivot a (b + 1) (c - 1) d ks
  end.

(** Order test of the insertion sort on neighbours [x[b-1]] and [x[b]]:
    compare from depth [o] while both keys last. *)
Fixpoint insert_cmp (fuel : nat) (e1 e2 : HatSort) (chb chc skipb skipc r : Z) : M Z :=
  if (r <? chb) && (r <? chc) then
    match fuel with
    | O => out_of_fuel
    | S f =>
        let* k1 := load8 (key e1 + (r + skipb)) in
        let* k2 := load8 (key e2 + (r + skipc)) in
        let d := k1 - k2 in
        if negb (d =? 0) then ret d
        else insert_cmp f e1 e2 chb chc skipb skipc (r + 1)
    end
  else ret 0.

(** [for (b = a; b > 0; b--)] *)
Fixpoint insert_down (fuel : nat) (x o b : Z) (ks : gmap Z HatSort)
    : M (gmap Z HatSort) :=
  if negb (b >? 0) then ret ks
  else match fuel with
       | O => out_of_fuel
       | S f =>
           let* e1 := sort_get ks (x + (b - 1)) in
           let* e2 := sort_get ks (x + b) in
           let* '(chb, skipb) := sort_len_uchar e1 in
           let* '(chc, skipc) := sort_len_uchar e2 in
           let* d := insert_cmp fuel e1 e2 chb chc skipb skipc o in
           let* ks :=
             (if (d >? 0) || ((d =? 0) && (chb >? chc))
              then sort_swap ks (x + b) (x + (b - 1))
              else ret ks) in
           insert_down f x o (b - 1) ks
       end.

(** [while (++a < n)] *)
Fixpoint insert_sort (fuel : nat) (x n o a : Z) (ks : gmap Z HatSort)
    : M (gmap Z HatSort) :=
  let a := a + 1 in
  if negb (a <? n) then ret ks
  else match fuel with
       | O => out_of_fuel
       | S f =>
           let* ks := insert_down fuel x o a ks in
           insert_sort f x n o a ks
       end.

Fixpoint hat_qsort (fuel : nat) (x n o : Z) (ks : gmap Z HatSort)
    : M (gmap Z HatSort) :=
  match fuel with
  | O => out_of_fuel
  | S f =>
      if n >? 10 then
        let* rnd := rand in
        let a := Z.rem rnd n in
        let* ks := sort_swap ks (x + 0) (x + a) in
        let* e0 := sort_get ks (x + 0) in
        let* pivot := sort_char e0 o in
        let* '(a, b, c, d, ks) := partition fuel x o pivot 1 1 (n - 1) (n - 1) ks in
        let r := if a <? b - a then a else b - a in
        let* ks := vecswap fuel 0 (b - r) r x ks in
        let r := if d - c <? n - d - 1 then d - c else n - d - 1 in
        let* ks := vecswap fuel b (n - r) r x ks in
        let r := d - c in
        let* ks := (if negb (r =? 0) then hat_qsort f (x + n - r) r o ks
                    else ret ks) in
        let r := b - a in
        let* ks := (if negb (r =? 0) then hat_qsort f x r o ks else ret ks) in
        let* er := sort_get ks (x + r) in
        let* '(len, _) := sort_len er in
        if len =? o then ret ks
        else hat_qsort f (x + r) (n + (a - d - 1)) (u8 (o + 1)) ks
      else if n >? 1 then insert_sort fuel x n o 0 ks
      else ret ks
  end.

(** ** Loading a leaf into the cursor *)

Fixpoint strip_array_keys (fuel : nat) (aux base size list tst cnt : Z)
    (ks : gmap Z HatSort) : M (Z * gmap Z HatSort) :=
  let* nxt := load16 (base_nxt base) in
  if negb (tst <? nxt) then ret (cnt, ks)
  else match fuel with
       | O => out_of_fuel
       | S f =>
           let* ks := sort_set ks (list + cnt)
                        (mkSort (base_keys base + tst)
                                (base + size - (cnt + 1) * aux)) in
           let* '(len, tst) := key_len_ushort base tst in
           strip_array_keys f aux base size list (u16 (tst + len)) (u16 (cnt + 1)) ks
       end.

Definition hat_strip_array (fuel : nat) (aux node list : Z) (ks : gmap Z HatSort)
    : M (Z * gmap Z HatSort) :=
  let base := Z.land node HAT_mask in
  let* type := load8 (base_type base) in
  let* size := HatSize type in
  strip_array_keys fuel aux base size list 0 0 ks.

Fixpoint strip_pail_slots (fuel : nat) (aux pail list idx total : Z)
    (ks : gmap Z HatSort) : M (Z * gmap Z HatSort) :=
  if negb (idx <? HatPailMax) then ret (total, ks)
  else match fuel with
       | O => out_of_fuel
       | S f =>
           let* a := load64 (slot_at pail idx) in
           let* '(total, ks) :=
             (if negb (a =? 0) then
                let* '(n, ks) := hat_strip_array fuel aux a list ks in
                ret (u32 (total + n), ks)
              else ret (total, ks)) in
           strip_pail_slots f aux pail list (idx + 1) total ks
       end.

Definition hat_strip_pail (fuel : nat) (aux node list : Z) (ks : gmap Z HatSort)
    : M (Z * gmap Z HatSort) :=
  strip_pail_slots fuel aux (Z.land node HAT_mask) list 0 0 ks.

Fixpoint sort_bucket_slots (fuel : nat) (aux bucket idx cnt : Z)
    (ks : gmap Z HatSort) : M (Z * gmap Z HatSort) :=
  if negb (idx <? HatBucketSlots) then ret (cnt, ks)
  else match fuel with
       | O => out_of_fuel
       | S f =>
           let* s := load64 (slot_at (bucket_slots bucket) idx) in
           let* '(cnt, ks) :=
             (if Z.land s HAT_type =? HAT_array then
                let* '(n, ks) := hat_strip_array fuel aux s cnt ks in
                ret (i32 (cnt + n), ks)
              else if Z.land s HAT_type =? HAT_pail then
                let* '(n, ks) := hat_strip_pail fuel aux s cnt ks in
                ret (i32 (cnt + n), ks)
              else ret (cnt, ks)) in
           sort_bucket_slots f aux bucket (u32 (idx + 1)) cnt ks
       end.

Definition hat_sort (fuel : nat) (c : HatCursor) : M HatCursor :=
  let* node := get_next c (c_top c) in
  let type := Z.land node HAT_type in
  let* '(cnt, ks) :=
    (if type =? HAT_array then hat_strip_array fuel (c_aux c) node 0 (c_keys c)
     else if type =? HAT_pail then hat_strip_pail fuel (c_aux c) node 0 (c_keys c)
     else if type =? HAT_bucket then
       sort_bucket_slots fuel (c_aux c) (Z.land node HAT_mask) 0 0 (c_keys c)
     else ret (c_cnt c, c_keys c)) in
  let* ks := hat_qsort fuel 0 cnt 0 ks in
  ret (set_keys (set_cnt c cnt) ks).

(** ** Moving the cursor *)

(** [memcmp]: the sign of the first difference of two byte ranges. *)
Fixpoint memcmp (n : nat) (p q : Z) : M Z :=
  match n with
  | O => ret 0
  | S k =>
      let* a := load8 p in
      let* b := load8 q in
      if a <? b then ret (-1)
      else if a >? b then ret 1
      else memcmp k (p + 1) (q + 1)
  end.

Definition hat_cursor (hat : Z) : M HatCursor :=
  let* aux := load32 (hat_aux hat) in
  let* bootlvl := load32 (hat_bootlvl hat) in
  ret (mkCursor 0 0 0 (u16 aux) (i32 bootlvl)
                (times128 (Z.to_nat bootlvl) 1) 0
                (<[0 := hat_root hat]> ∅) ∅ ∅).

(** Descend from the node on top of the stack through radix nodes, taking at
    each the first occupied entry ([hat_nxt], label [loop]). *)
Fixpoint first_slot (fuel : nat) (radix ch : Z) : M (option (Z * Z)) :=
  if negb (ch <? 128) then ret None
  else match fuel with
       | O => out_of_fuel
       | S f =>
           let* s := load64 (slot_at radix ch) in
           if negb (s =? 0) then ret (Some (ch, s))
           else first_slot f radix (u8 (ch + 1))
       end.

Fixpoint descend_first (fuel : nat) (c : HatCursor) : M HatCursor :=
  match fuel with
  | O => out_of_fuel
  | S f =>
      let* node := get_next c (c_top c) in
      if Z.land node HAT_type =? HAT_radix then
        let* found := first_slot fuel (Z.land node HAT_mask) 0 in
        match found with
        | Some (ch, s) =>
            let* c := set_scan c (c_top c) ch in
            let* c := push_next c s in
            descend_first f c
        | None => ret c
        end
      else ret c
  end.

(** [while (++idx < max) if (radix[idx]) ...]: the next occupied entry. *)
Fixpoint next_slot (fuel : nat) (radix idx max : Z) : M (option (Z * Z)) :=
  let idx := u32 (idx + 1) in
  if negb (idx <? max) then ret None
  else match fuel with
       | O => out_of_fuel
       | S f =>
           let* s := load64 (slot_at radix idx) in
           if negb (s =? 0) then ret (Some (idx, s))
           else next_slot f radix idx max
       end.

(** [while (--cursor->top >= 0)] of [hat_nxt]. *)
Fixpoint nxt_levels (fuel : nat) (c : HatCursor) : M (HatCursor * Z) :=
  let c := set_top c (i16 (c_top c - 1)) in
  if negb (c_top c >=? 0) then ret (c, 0)
  else match fuel with
       | O => out_of_fuel
       | S f =>
           let* node := get_next c (c_top c) in
           let radix := Z.land node HAT_mask in
           let max := if c_top c =? 0 then c_maxroot c else 128 in
           let* idx := (if negb (c_top c =? 0) then get_scan c (c_top c)
                        else ret (c_rootscan c)) in
           let* found := next_slot (Z.to_nat max) radix idx max in
           match found with
           | Some (idx, s) =>
               let* c := (if negb (c_top c =? 0) then set_scan c (c_top c) idx
                          else ret (set_rootscan c idx)) in
               let* c := push_next c s in
               let* c := descend_first fuel c in
               let* c := hat_sort fuel c in
               ret (set_idx c 0, 1)
           | None => nxt_levels f c
           end
       end.

Definition hat_nxt (fuel : nat) (c : HatCursor) : M (HatCursor * Z) :=
  let c := set_idx c (i32 (c_idx c + 1)) in
  if c_idx c <? c_cnt c then ret (c, 1)
  else nxt_levels fuel c.

Fixpoint greater_keys (fuel : nat) (c : HatCursor) (buff max : Z) : M (HatCursor * bool) :=
  if negb (c_idx c <? c_cnt c) then ret (c, false)
  else match fuel with
       | O => out_of_fuel
       | S f =>
           let* e := sort_get (c_keys c) (c_idx c) in
           let* '(len, tst) := sort_len e in
           let* differ := memcmp (Z.to_nat (if len >? max then max else len))
                                 (key e + tst) buff in
           if negb (differ =? 0) then greater_keys f (set_idx c (i32 (c_idx c + 1))) buff max
           else if len >=? max then ret (c, true)
           else greater_keys f (set_idx c (i32 (c_idx c + 1))) buff max
       end.

Definition hat_greater (fuel : nat) (c : HatCursor) (buff max : Z) : M (HatCursor * Z) :=
  let* '(c, found) := greater_keys fuel (set_idx c 0) buff max in
  if found then ret (c, 1)
  else hat_nxt fuel c.

(** The loop that opens [hat_start]: fold the first [rootlvl] bytes of the
    probe into [rootscan]. *)
Fixpoint start_rootscan (n : nat) (buff max off rootscan : Z) : M (Z * Z) :=
  match n with
  | O => ret (rootscan, off)
  | S k =>
      let rootscan := u32 (rootscan * 128) in
      if off <? max then
        let* b := load8 (buff + off) in
        start_rootscan k buff max (u32 (off + 1)) (u32 (rootscan + b))
      else start_rootscan k buff max off rootscan
  end.

(** [while (ch < 128) if (radix[ch]) ... else max = 0, ch++]: the first
    occupied entry at or after [ch]; [max] is cleared once an entry has been
    skipped. *)
Fixpoint start_slot (fuel : nat) (radix ch max : Z) : M (option (Z * Z) * Z) :=
  if negb (ch <? 128) then ret (None, max)
  else match fuel with
       | O => out_of_fuel
       | S f =>
           let* s := load64 (slot_at radix ch) in
           if negb (s =? 0) then ret (Some (ch, s), max)
           else start_slot f radix (u8 (ch + 1)) 0
       end.

(** [hat_start] from the label [loop] on; [None] is the [NULL] it returns
    after freeing the cursor. *)
Fixpoint start_descend (fuel : nat) (c : HatCursor) (buff max off : Z)
    : M (option HatCursor) :=
  match fuel with
  | O => out_of_fuel
  | S f =>
      let* node := get_next c (c_top c) in
      if Z.land node HAT_type =? HAT_radix then
        let* '(ch, off) := (if max >? off
                            then let* b := load8 (buff + off) in ret (b, u32 (off + 1))
                            else ret (0, off)) in
        let radix := Z.land node HAT_mask in
        let* '(found, max) := start_slot fuel radix ch max in
        match found with
        | Some (ch, s) =>
            let* c := set_scan c (c_top c) ch in
            let* c := push_next c s in
            start_descend f c buff max off
        | None =>
            let* '(c, r) := hat_nxt fuel c in
            if negb (r =? 0) then ret (Some c) else ret None
        end
      else
        let* c := hat_sort fuel c in
        let c := set_idx c 0 in
        let* '(c, r) := hat_greater fuel c (buff + off) (u32 (max - off)) in
        if negb (r =? 0) then ret (Some c) else ret None
  end.

Definition hat_start (fuel : nat) (c : HatCursor) (buff max : Z)
    : M (option HatCursor) :=
  let max := if max >? 255 then 255 else max in
  let* '(rootscan, off) :=
    start_rootscan (Z.to_nat (c_rootlvl c)) buff max 0 (c_rootscan c) in
  let c := set_rootscan c rootscan in
  let* root := get_next c 0 in
  let c := set_top c 0 in
  let* next := load64 (slot_at root (c_rootscan c)) in
  if negb (next =? 0) then
    let* c := push_next c next in
    start_descend fuel c buff max off
  else
    let c := set_top c (i16 (c_top c + 1)) in
    let* '(c, r) := hat_nxt fuel c in
    if negb (r =? 0) then ret (Some c) else ret None.

Definition hat_slot (c : HatCursor) : M Z :=
  let* e := sort_get (c_keys c) (c_idx c) in
  ret (slot e).

(** [while (idx--) if (radix[idx]) ...]: the previous occupied entry. *)
Fixpoint prev_slot (fuel : nat) (radix idx : Z) : M (option (Z * Z)) :=
  if idx =? 0 then ret None
  else match fuel with
       | O => out_of_fuel
       | S f =>
           let idx := u32 (idx - 1) in
           let* s := load64 (slot_at radix idx) in
           if negb (s =? 0) then ret (Some (idx, s))
           else prev_slot f radix idx
       end.

(** [for (ch = 128; ch-- > 0; )], and [ch = 128; while (ch--)] in [hat_last]:
    the last occupied entry of a radix node. *)
Fixpoint last_slot (fuel : nat) (radix ch : Z) : M (option (Z * Z)) :=
  if negb (ch >? 0) then ret None
  else match fuel with
       | O => out_of_fuel
       | S f =>
           let ch := u8 (ch - 1) in
           let* s := load64 (slot_at radix ch) in
           if negb (s =? 0) then ret (Some (ch, s))
           else last_slot f radix ch
       end.

Fixpoint descend_last (fuel : nat) (c : HatCursor) : M HatCursor :=
  match fuel with
  | O => out_of_fuel
  | S f =>
      let* node := get_next c (c_top c) in
      if Z.land node HAT_type =? HAT_radix then
        let* found := last_slot fuel (Z.land node HAT_mask) 128 in
        match found with
        | Some (ch, s) =>
            let* c := set_scan c (c_top c) ch in
            let* c := push_next c s in
            descend_last f c
        | None => ret c
        end
      else ret c
  end.

(** [while (--cursor->top >= 0)] of [hat_prv]. *)
Fixpoint prv_levels (fuel : nat) (c : HatCursor) : M (HatCursor * Z) :=
  let c := set_top c (i16 (c_top c - 1)) in
  if negb (c_top c >=? 0) then ret (c, 0)
  else match fuel with
       | O => out_of_fuel
       | S f =>
           let* node := get_next c (c_top c) in
           let radix := Z.land node HAT_mask in
           let* idx := (if negb (c_top c =? 0) then get_scan c (c_top c)
                        else ret (c_rootscan c)) in
           let* found := prev_slot (Z.to_nat idx) radix idx in
           match found with
           | Some (idx, s) =>
               let* c := (if negb (c_top c =? 0) then set_scan c (c_top c) idx
                          else ret (set_rootscan c idx)) in
               let* c := push_next c s in
               let* c := descend_last fuel c in
               let* c := hat_sort fuel c in
               ret (set_idx c (i32 (c_cnt c - 1)), 1)
           | None => prv_levels f c
           end
       end.

Definition hat_prv (fuel : nat) (c : HatCursor) : M (HatCursor * Z) :=
  if negb (c_idx c =? 0) then ret (set_idx c (i32 (c_idx c - 1)), 1)
  else prv_levels fuel c.

(** [while (cursor->rootscan) if (next = root[--cursor->rootscan]) break;
    else if (!cursor->rootscan) return 0;]  [Some next] when the loop is left
    with a root entry (or, for [rootscan = 0] on entry, without having
    assigned [next]: it is then the 0 it was never set from), [None] for
    [return 0]. *)
Fixpoint last_root (fuel : nat) (root rootscan : Z) : M (Z * option Z) :=
  if rootscan =? 0 then ret (rootscan, Some 0)
  else match fuel with
       | O => out_of_fuel
       | S f =>
           let rootscan := u32 (rootscan - 1) in
           let* next := load64 (slot_at root rootscan) in
           if negb (next =? 0) then ret (rootscan, Some next)
           else if rootscan =? 0 then ret (rootscan, None)
           else last_root f root rootscan
       end.

Definition hat_last (fuel : nat) (c : HatCursor) : M (HatCursor * Z) :=
  let c := set_rootscan c (c_maxroot c) in
  let* root := get_next c 0 in
  let c := set_top c 0 in
  let* '(rootscan, found) := last_root (Z.to_nat (c_maxroot c)) root (c_rootscan c) in
  let c := set_rootscan c rootscan in
  match found with
  | None => ret (c, 0)
  | Some next =>
      let* c := push_next c next in
      let* c := descend_last fuel c in
      let* c := hat_sort fuel c in
      ret (set_idx c (i32 (c_cnt c - 1)), 1)
  end.

(** ** hat_key *)

(** [for (scan = cursor->rootlvl; scan--; )]: emit the non-zero base-128
    digits of [rootscan], most significant first. *)
Fixpoint key_root (scan : nat) (rootscan buff off max : Z) : M Z :=
  match scan with
  | O => ret off
  | S k =>
      let ch := Z.land (Z.shiftr rootscan (Z.of_nat k * 7)) 0x7F in
      if negb (ch =? 0) && (off <? max) then
        store8 (buff + off) ch ;;
        key_root k rootscan buff (u32 (off + 1)) max
      else key_root k rootscan buff off max
  end.

(** [for (idx = 0; idx < cursor->top; idx++)] *)
Fixpoint key_levels (fuel : nat) (c : HatCursor) (buff idx off max : Z) : M Z :=
  if negb (idx <? c_top c) then ret off
  else match fuel with
       | O => out_of_fuel
       | S f =>
           let* off :=
             (if idx =? 0
              then key_root (Z.to_nat (c_rootlvl c)) (c_rootscan c) buff off max
              else if off <? max then
                let* ch := get_scan c idx in
                if negb (ch =? 0) then store8 (buff + off) ch ;; ret (u32 (off + 1))
                else ret off
              else ret off) in
           key_levels f c buff (idx + 1) off max
       end.

(** [while (len-- && off < max) buff[off++] = *key++] *)
Fixpoint key_tail (fuel : nat) (src len buff off max : Z) : M Z :=
  if negb (negb (len =? 0) && (off <? max)) then ret off
  else match fuel with
       | O => out_of_fuel
       | S f =>
           let* b := load8 src in
           store8 (buff + off) b ;;
           key_tail f (src + 1) (len - 1) buff (u32 (off + 1)) max
       end.

Definition hat_key (fuel : nat) (c : HatCursor) (buff max : Z) : M Z :=
  let max := u32 (max - 1) in
  if c_top c <? 0 then
    (if negb (max =? 0) then store8 buff 0 else ret tt) ;;
    ret 0
  else
    let* off := key_levels fuel c buff 0 0 max in
    let* e := sort_get (c_keys c) (c_idx c) in
    let* '(len, skip) := sort_len e in
    let* off := key_tail fuel (key e + skip) len buff off max in
    store8 (buff + off) 0 ;;
    ret off.

(** ** The demonstration driver's two traversals

    [sorthattrie] walks the trie with [hat_start (cursor, NULL, 0)] and
    [hat_nxt], or, built with [REVERSE], with [hat_last] and [hat_prv], and
    reads each key with [hat_key] into a buffer of [size] bytes (256 there). *)

Definition read_key (fuel : nat) (c : HatCursor) (buff size : Z) : M (list Z) :=
  let* n := hat_key fuel c buff size in
  load_bytes (Z.to_nat n) buff.

Fixpoint walk (step : HatCursor -> M (HatCursor * Z)) (fuel : nat)
    (c : HatCursor) (buff size : Z) : M (list (list Z)) :=
  match fuel with
  | O => out_of_fuel
  | S f =>
      let* k := read_key fuel c buff size in
      let* '(c, more) := step c in
      if negb (more =? 0) then
        let* ks := walk step f c buff size in ret (k :: ks)
      else ret [k]
  end.

Definition ascending (fuel : nat) (hat size : Z) : M (list (list Z)) :=
  let* buff := malloc size in
  let* c := hat_cursor hat in
  let* s := hat_start fuel c 0 0 in
  match s with
  | Some c => walk (hat_nxt fuel) fuel c buff size
  | None => ret []
  end.

Definition descending (fuel : nat) (hat size : Z) : M (list (list Z)) :=
  let* buff := malloc size in
  let* c := hat_cursor hat in
  let* '(c, ok) := hat_last fuel c in
  if negb (ok =? 0) then walk (hat_prv fuel) fuel c buff size
  else ret [].

(** ** Scenarios *)

(** Fuel for the scenarios below: more than any loop in them runs. *)
Definition enough : nat := Z.to_nat 4096.

Fixpoint insert_all (hat : Z) (ks : list (list Z)) : M unit :=
  match ks with
  | [] => ret tt
  | k :: ks' => with_key k (hat_cell enough hat) ;; insert_all hat ks'
  end.

(** Open a container, insert [k], write [v] into its aux slot, look [k] up:
    the pointer [hat_cell] returned and the one [hat_find] returns. *)
Definition insert_then_find (boot aux : Z) (k v : list Z) : M (Z * Z) :=
  let* hat := hat_open boot aux in
  let* p := with_key k (hat_cell enough hat) in
  store_bytes p v ;;
  let* q := with_key k (hat_find enough hat) in
  ret (p, q).

(** Open a container with a root bucket ([bootlvl = 0]) and insert [k] twice:
    the two pointers and the root bucket's key count. *)
Definition insert_twice (aux : Z) (k : list Z) : M (Z * Z * Z) :=
  let* hat := hat_open 0 aux in
  let* p1 := with_key k (hat_cell enough hat) in
  let* p2 := with_key k (hat_cell enough hat) in
  let* root := load64 (hat_root hat) in
  let* count := load32 (bucket_count (Z.land root HAT_mask)) in
  ret (p1, p2, count).

(** Set mode: what [hat_cell] returns for a new key and for the same key
    again, and what [hat_find] returns for it and for an absent key. *)
Definition set_mode (k absent : list Z) : M (Z * Z * Z * Z) :=
  let* hat := hat_open 0 0 in
  let* r1 := with_key k (hat_cell enough hat) in
  let* r2 := with_key k (hat_cell enough hat) in
  let* f := with_key k (hat_find enough hat) in
  let* g := with_key absent (hat_find enough hat) in
  ret (r1, r2, f, g).

(** The bucket slot a key hashes to. *)
Definition bucket_slot (k : list Z) : M Z :=
  with_key k (fun buff max =>
    let* h := hat_code buff max in ret (h mod HatBucketSlots)).

(** Insert [ks] and walk the container upwards from the empty key. *)
Definition sorted_walk (boot aux : Z) (ks : list (list Z)) (size : Z)
    : M (list (list Z)) :=
  let* hat := hat_open boot aux in
  insert_all hat ks ;;
  ascending enough hat size.

(** Insert [ks], position a fresh cursor with [hat_start] on [probe] and read
    the key it stands on; [None] when [hat_start] returns [NULL]. *)
Definition start_at (boot aux : Z) (ks : list (list Z)) (probe : list Z)
    : M (option (list Z)) :=
  let* hat := hat_open boot aux in
  insert_all hat ks ;;
  let* c := hat_cursor hat in
  let* s := with_key probe (hat_start enough c) in
  match s with
  | Some c =>
      let* buff := malloc 256 in
      let* k := read_key enough c buff 256 in
      ret (Some k)
  | None => ret None
  end.

(** On a container holding [ks]: does [hat_start] on the empty key find a
    key, what does [hat_last] return, and where does it leave [idx]. *)
Definition both_ends (boot aux : Z) (ks : list (list Z)) : M (bool * Z * Z) :=
  let* hat := hat_open boot aux in
  insert_all hat ks ;;
  let* c1 := hat_cursor hat in
  let* s := hat_start enough c1 0 0 in
  let* c2 := hat_cursor hat in
  let* '(c2, ok) := hat_last enough c2 in
  ret (bool_decide (is_Some s), ok, c_idx c2).

(** Insert [ks] into a container whose root is one radix level and return
    [nxt] and the first [n] key bytes of the array node under root entry
    [ch]. *)
Definition array_under (aux : Z) (ks : list (list Z)) (ch : Z) (n : nat)
    : M (Z * list Z) :=
  let* hat := hat_open 1 aux in
  insert_all hat ks ;;
  let* node := load64 (slot_at (hat_root hat) ch) in
  let base := Z.land node HAT_mask in
  let* nxt := load16 (base_nxt base) in
  let* bytes := load_bytes n (base_keys base) in
  ret (nxt, bytes).

(** Insert [k] into a container with two root levels; return the root
    entries at indices [i] and [j] and what [hat_find] gives for [twin]. *)
Definition root_entries (k twin : list Z) (i j : Z) : M (Z * bool * Z) :=
  let* hat := hat_open 2 0 in
  with_key k (hat_cell enough hat) ;;
  let* ei := load64 (slot_at (hat_root hat) i) in
  let* ej := load64 (slot_at (hat_root hat) j) in
  let* f := with_key twin (hat_find enough hat) in
  ret (ei, negb (ej =? 0), f).

(** ** Properties *)

(** The [len] bytes at [p] have all been written. *)
Definition readable (m : gmap Z byte) (p len : Z) : Prop :=
  forall i, 0 <= i < len -> is_Some (m !! (p + i)).

(** The [len] bytes at [p] and at [q] are pairwise equal. *)
Definition same_bytes (m : gmap Z byte) (p q len : Z) : Prop :=
  forall i, 0 <= i < len -> m !! (p + i) = m !! (q + i).

(** Two states agree on everything but the statistics counters: the bytes of
    every node and of the arena bookkeeping, and the blocks obtained from
    [malloc]. *)
Definition same_container (st st' : state) : Prop :=
  mem st' = mem st /\ blocks st' = blocks st /\ brk st' = brk st /\
  rands st' = rands st.

(** A computation that leaves the container as it found it. *)
Definition read_only {A} (m : M A) : Prop :=
  forall st a st', m st = Ok (a, st') -> same_container st st'.

(** The two prefix bytes [hat_new_array] and [hat_add_array] write before a
    key of [len > 0x7f] bytes. *)
Definition long_prefix (m : gmap Z byte) (p len : Z) : Prop :=
  m !! p = Some (byte_of (Z.lor (Z.land len 0x7f) 0x80)) /\
  m !! (p + 1) = Some (byte_of (Z.shiftr len 7)).

(** What a computation returned, without the state it returned in. *)
Definition outcome {A} (r : result (A * state)) : result A :=
  match r with
  | Ok (a, _) => Ok a
  | Fault f => Fault f
  | OutOfFuel => OutOfFuel
  end.

(** A state to search in: a container with one root level and four aux
    bytes that holds the key "ab", and a buffer with the same key. *)
Definition probe_setup : M (Z * Z) :=
  let* hat := hat_open 1 4 in
  with_key [97; 98] (hat_cell enough hat) ;;
  let* buff := malloc 8 in
  store_bytes buff [97; 98] ;;
  ret (hat, buff).

Definition probe_hat : Z :=
  match probe_setup init_state with
  | Ok ((hat, _), _) => hat
  | _ => 0
  end.

Definition probe_buff : Z :=
  match probe_setup init_state with
  | Ok ((_, buff), _) => buff
  | _ => 0
  end.

Definition probe_state : state :=
  match probe_setup init_state with
  | Ok (_, st) => st
  | _ => init_state
  end.

(** Two copies of a nine-byte string, at addresses 0 and 16. *)
Definition nine : list byte :=
  ["a"; "b"; "c"; "d"; "e"; "f"; "g"; "h"; "i"]%byte.

Definition two_strings : state :=
  mkState (write_bytes (write_bytes ∅ 0 nine) 16 nine) [] 0 [] no_counters.

(** A key buffer at address 100 holding the single byte 200. *)
Definition high_byte : state :=
  mkState (<[100 := byte_of 200]> ∅) [] 0 [] no_counters.

(** ** User data and closing *)

Definition hat_data (hat amt : Z) : M Z :=
  let amt := round8 amt in
  let* seg := load64 (hat_seg hat) in
  let* next := load32 (seg_next seg) in
  (if u32 (next + amt) >? HAT_seg then
     let* seg' := new_seg HAT_seg seg in
     store64 (hat_seg hat) seg' ;;
     upd_stats (fun c => mkCounters (u64 (MaxMem c + HAT_seg)) (Searches c)
                           (Probes c) (Bucket c) (Pail c) (Radix c) (Small c))
   else ret tt) ;;
  let* seg := load64 (hat_seg hat) in
  let* next := load32 (seg_next seg) in
  let block := seg + next in
  store32 (seg_next seg) (next + amt) ;;
  memset0 block amt ;;
  ret block.

(** A container with one root level and one array node of the smallest
    class obtained from [hat_alloc]. *)
Definition reuse_setup : M (Z * Z) :=
  let* hat := hat_open 1 4 in
  let* block := hat_alloc hat HAT_1 in
  ret (hat, block).

Definition reuse_hat : Z :=
  match reuse_setup init_state with
  | Ok ((hat, _), _) => hat
  | _ => 0
  end.

Definition reuse_block : Z :=
  match reuse_setup init_state with
  | Ok ((_, block), _) => block
  | _ => 0
  end.

Definition reuse_state : state :=
  match reuse_setup init_state with
  | Ok (_, st) => st
  | _ => init_state
  end.

Definition reuse_freed : state :=
  match hat_free reuse_hat reuse_block HAT_1 reuse_state with
  | Ok (_, st) => st
  | _ => init_state
  end.

(** The prefix [hat_new_array] and [hat_add_array] write before a key of
    [len] bytes: one byte up to [0x7f], two beyond. *)
Definition key_prefix (m : gmap Z byte) (p len : Z) : Prop :=
  if len >? 0x7f then long_prefix m p len
  else m !! p = Some (byte_of (Z.land len 0x7f)).

(** Two states agree on the arena, the allocator and the counters; only the
    stream of [rand] may have advanced. *)
Definition same_memory (st st' : state) : Prop :=
  mem st' = mem st /\ blocks st' = blocks st /\ brk st' = brk st /\
  stats st' = stats st.

Definition keeps_memory {A} (m : M A) : Prop :=
  forall st a st', m st = Ok (a, st') -> same_memory st st'.

(** Entry [i] of the cursor's key table. *)
Definition sort_entry (ks : gmap Z HatSort) (i : Z) : HatSort :=
  default (mkSort 0 0) (ks !! i).

(** [ks'] holds the entries of [ks] in another order: some permutation [f]
    of the table's indices takes every entry of [ks'] to the entry of [ks]
    it came from. *)
Definition rearranged (ks ks' : gmap Z HatSort) : Prop :=
  exists f g : Z -> Z,
    (forall i, g (f i) = i) /\ (forall i, f (g i) = i) /\
    (forall i, in_range i HatBucketMax = false -> f i = i) /\
    (forall i, sort_entry ks' i = sort_entry ks (f i)).

Definition succeeds {A} (r : result (A * state)) : bool :=
  match r with
  | Ok _ => true
  | _ => false
  end.

(** A cursor on [probe_state]. *)
Definition probe_cursor : HatCursor :=
  match hat_cursor probe_hat probe_state with
  | Ok (c, _) => c
  | _ => mkCursor 0 0 0 0 0 0 0 ∅ ∅ ∅
  end.

(** The two prefix bytes of a 300-byte key, at address 100. *)
Definition prefix_300 : state :=
  mkState (<[100 := byte_of 172]> (<[101 := byte_of 2]> ∅)) [] 0 [] no_counters.

(** A set-mode container (no aux bytes) with one root level that holds the
    key "ab", and a buffer with the same key. *)
Definition set_setup : M (Z * Z) :=
  let* hat := hat_open 1 0 in
  with_key [97; 98] (hat_cell enough hat) ;;
  let* buff := malloc 8 in
  store_bytes buff [97; 98] ;;
  ret (hat, buff).

Definition set_hat : Z :=
  match set_setup init_state with
  | Ok ((hat, _), _) => hat
  | _ => 0
  end.

Definition set_buff : Z :=
  match set_setup init_state with
  | Ok ((_, buff), _) => buff
  | _ => 0
  end.

Definition set_state : state :=
  match set_setup init_state with
  | Ok (_, st) => st
  | _ => init_state
  end.

(** The stored keys "b" and "a", each behind its one-byte prefix, at
    addresses 0 and 16, and a key table that lists them in that order. *)
Definition two_keys : state :=
  mkState (write_bytes (write_bytes ∅ 0 [x01; "b"%byte]) 16 [x01; "a"%byte])
          [] 0 [] no_counters.

Definition two_entries : gmap Z HatSort :=
  <[0 := mkSort 0 0]> (<[1 := mkSort 16 0]> ∅).

(** Every byte outside the [len] bytes at [p] is the same in both states. *)
Definition unchanged_outside (p len : Z) (st st' : state) : Prop :=
  forall a, a < p \/ p + len <= a -> mem st' !! a = mem st !! a.

(** A buffer of 4 bytes in [probe_state] and a cursor that [hat_start] has
    put on the container's first key. *)
Definition key_setup : M (HatCursor * Z) :=
  let* c := hat_cursor probe_hat in
  let* s := hat_start enough c 0 0 in
  let* buff := malloc 4 in
  ret (default c s, buff).

Definition key_cursor : HatCursor :=
  match key_setup probe_state with
  | Ok ((c, _), _) => c
  | _ => probe_cursor
  end.

Definition key_buff : Z :=
  match key_setup probe_state with
  | Ok ((_, buff), _) => buff
  | _ => 0
  end.

Definition key_state : state :=
  match key_setup probe_state with
  | Ok (_, st) => st
  | _ => init_state
  end.

(** [free (p)]: the block at [p] is no longer available.  A pointer that
    [malloc] did not return, or returned and has seen freed since, makes the
    C library abort. *)
Definition free (p : Z) : M unit :=
  fun st =>
    if p =? 0 then Ok (tt, st)
    else if existsb (fun b => fst b =? p) (blocks st)
    then Ok (tt, mkState (mem st)
                         (List.filter (fun b => negb (fst b =? p)) (blocks st))
                         (brk st) (rands st) (stats st))
    else Fault Abort.

(** [while ((seg = nxt)) nxt = seg->seg, free (seg);] *)
Fixpoint close_segs (fuel : nat) (nxt : Z) : M unit :=
  if nxt =? 0 then ret tt
  else match fuel with
       | O => out_of_fuel
       | S f =>
           let seg := nxt in
           let* nxt := load64 (seg_seg seg) in
           free seg ;;
           close_segs f nxt
       end.

Definition hat_close (fuel : nat) (hat : Z) : M unit :=
  let* nxt := load64 (hat_seg hat) in
  close_segs fuel nxt.

(** The segments [segs] are linked from [seg] on, newest first, and the
    last one links to [NULL]. *)
Fixpoint seg_chain (m : gmap Z byte) (seg : Z) (segs : list Z) : Prop :=
  match segs with
  | [] => seg = 0
  | s :: rest =>
      seg = s /\ s <> 0 /\
      exists nxt, load_le m (seg_seg s) 8 = Some nxt /\ seg_chain m nxt rest
  end.

(** The blocks of [bs] that do not start at one of [segs]. *)
Definition without (segs : list Z) (bs : list (Z * Z)) : list (Z * Z) :=
  List.filter (fun b => negb (existsb (Z.eqb (fst b)) segs)) bs.

(** ** Array nodes as lists of keys *)

(** The bytes of [k] lie at [p]. *)
Definition bytes_at (m : gmap Z byte) (p : Z) (k : list byte) : Prop :=
  forall i : nat, (i < length k)%nat -> m !! (p + Z.of_nat i) = k !! i.

(** The key [k] is stored at offset [tst] of the array node [base]: its
    length prefix, then its bytes. *)
Definition key_at (m : gmap Z byte) (base tst : Z) (k : list byte) : Prop :=
  key_prefix m (base_keys base + tst) (Z.of_nat (length k)) /\
  bytes_at m (base_keys base + tst + key_skip (Z.of_nat (length k))) k.

(** From offset [tst] on, the array node [base] holds the keys [ks], one
    after the other, and [base->nxt] is the offset behind the last. *)
Fixpoint array_keys (m : gmap Z byte) (base tst : Z) (ks : list (list byte)) : Prop :=
  match ks with
  | [] => load_le m (base_nxt base) 2 = Some tst
  | k :: ks' =>
      key_at m base tst k /\
      array_keys m base
        (tst + key_skip (Z.of_nat (length k)) + Z.of_nat (length k)) ks'
  end.

(** Index of the first key of [ks] equal to [probe]. *)
Fixpoint key_index (probe : list byte) (ks : list (list byte)) : option nat :=
  match ks with
  | [] => None
  | k :: ks' =>
      if List.list_eq_dec byte_eq_dec k probe then Some O
      else option_map S (key_index probe ks')
  end.

(** What the scan of an array node returns for a probe found at index [j]
    of the keys that follow key number [cnt]; [None] is a miss. *)
Definition found_at (base size aux cnt : Z) (j : option nat) : Z :=
  match j with
  | None => 0
  | Some j => if aux =? 0 then 1
              else base + size - u32 ((cnt + Z.of_nat j + 1) * aux)
  end.

(** A container with one root level and four aux bytes, and a buffer with
    the eight bytes "abcdefgh"; [node_parent] is its empty root entry 5. *)
Definition node_setup : M (Z * Z) :=
  let* hat := hat_open 1 4 in
  let* buff := malloc 8 in
  store_bytes buff [97; 98; 99; 100; 101; 102; 103; 104] ;;
  ret (hat, buff).

Definition node_hat : Z :=
  match node_setup init_state with
  | Ok ((hat, _), _) => hat
  | _ => 0
  end.

Definition node_buff : Z :=
  match node_setup init_state with
  | Ok ((_, buff), _) => buff
  | _ => 0
  end.

Definition node_state : state :=
  match node_setup init_state with
  | Ok (_, st) => st
  | _ => init_state
  end.

Definition node_parent : Z := slot_at (hat_root node_hat) 5.

(** [hat_new_array] has stored the eight bytes under [node_parent]. *)
Definition node_cell : Z :=
  match hat_new_array node_hat node_parent node_buff 8 node_state with
  | Ok (cell, _) => cell
  | _ => 0
  end.

Definition node_after : state :=
  match hat_new_array node_hat node_parent node_buff 8 node_state with
  | Ok (_, st) => st
  | _ => init_state
  end.

(** [hat_add_array] has added the first two of them as a second key. *)
Definition added_cell : Z :=
  match hat_add_array 1 node_hat node_parent node_buff 2 1 node_after with
  | Ok (cell, _) => cell
  | _ => 0
  end.

Definition added_after : state :=
  match hat_add_array 1 node_hat node_parent node_buff 2 1 node_after with
  | Ok (_, st) => st
  | _ => init_state
  end.

(** The offsets at which the keys [ks] begin when the first is stored at
    offset [tst]. *)
Fixpoint key_offsets (tst : Z) (ks : list (list byte)) : list Z :=
  match ks with
  | [] => []
  | k :: ks' =>
      tst :: key_offsets (tst + key_skip (Z.of_nat (length k))
                          + Z.of_nat (length k)) ks'
  end.

(** ** A fresh container *)

(** What the loop that opens [hat_find] and [hat_cell] computes from the
    key bytes [k]: the root index and the number of bytes consumed. *)
Fixpoint root_of (n : nat) (k : list byte) (off triple : Z) : Z * Z :=
  match n with
  | O => (triple, off)
  | S n' =>
      let triple := u32 (triple * 128) in
      if off <? Z.of_nat (length k)
      then root_of n' k (u32 (off + 1))
                   (u32 (triple + byte_val (nth (Z.to_nat off) k x00)))
      else root_of n' k off triple
  end.

(** A container as [hat_open] leaves it for [boot >= 1]: the three fields
    of the [Hat] are set, its free lists, counters and root table are zero,
    and its one segment, which lies in the same block in front of the [Hat],
    has handed out nothing yet: [next] still is the aligned offset behind
    the segment header. *)
Definition fresh_container (hat boot aux : Z) (st : state) : Prop :=
  let seg := hat - HAT_seg in
  0 < seg /\ hat + sizeof_Hat + 8 * 128 ^ boot < 18446744073709551616 /\
  load_le (mem st) (hat_bootlvl hat) 4 = Some boot /\
  load_le (mem st) (hat_aux hat) 4 = Some aux /\
  load_le (mem st) (hat_seg hat) 8 = Some seg /\
  (exists next, load_le (mem st) (seg_next seg) 4 = Some next /\
                16 <= next <= 23 /\ (seg + next) mod 8 = 0) /\
  (forall a, hat <= a < hat_seg hat \/
             hat_root hat <= a < hat_root hat + 8 * 128 ^ boot ->
             mem st !! a = Some x00) /\
  in_block (blocks st) seg (HAT_seg + sizeof_Hat + 8 * 128 ^ boot) = true.

(** A state in which only a caller's buffer with the key "ab" exists, at
    address 65536. *)
Definition key_first : state :=
  match (let* buff := malloc 8 in store_bytes buff [97; 98]) init_state with
  | Ok (_, st) => st
  | _ => init_state
  end.

(** The cursor [hat_cursor] makes for a container without keys. *)
Definition fresh_cursor (hat boot aux : Z) : HatCursor :=
  mkCursor 0 0 0 (u16 aux) boot (128 ^ boot) 0 (<[0 := hat_root hat]> ∅) ∅ ∅.

(** * Theorems *)

(** ** Bytes and loads *)

Lemma byte_val_range b : 0 <= byte_val b < 256.
Proof.
  unfold byte_val. pose proof (Byte.to_N_bounded b). lia.
Qed.

Lemma byte_val_inj b1 b2 : byte_val b1 = byte_val b2 -> b1 = b2.
Proof.
  unfold byte_val. intros H. apply N2Z.inj in H.
  pose proof (Byte.of_to_N b1) as H1. pose proof (Byte.of_to_N b2) as H2.
  rewrite H in H1. congruence.
Qed.

Lemma byte_val_of z : byte_val (byte_of z) = u8 z.
Proof.
  unfold byte_val, byte_of.
  assert (Hr : 0 <= u8 z < 256) by (unfold u8; apply Z.mod_pos_bound; lia).
  destruct (Byte.of_N (Z.to_N (u8 z))) as [b|] eqn:E.
  - apply Byte.to_of_N in E. rewrite E. apply Z2N.id. lia.
  - apply Byte.of_N_None_iff in E. lia.
Qed.

Lemma outcome_ok {A} (r : result (A * state)) (a : A) :
  outcome r = Ok a -> exists st', r = Ok (a, st').
Proof.
  destruct r as [[a' st']| |]; simpl; intros H; try discriminate.
  injection H as ->. exists st'. reflexivity.
Qed.

Lemma bind_ok {A B} (m : M A) (k : A -> M B) st a st' :
  m st = Ok (a, st') -> bind m k st = k a st'.
Proof. intros H. unfold bind. rewrite H. reflexivity. Qed.

Lemma load8_byte st a b :
  mem st !! a = Some b -> load8 a st = Ok (byte_val b, st).
Proof.
  intros H. unfold load8, load. simpl. rewrite H.
  rewrite Z.mul_0_r, Z.add_0_r. reflexivity.
Qed.

Lemma load_le_readable m n : forall a,
  readable m a (Z.of_nat n) -> exists v, load_le m a n = Some v.
Proof.
  induction n as [|n IH]; intros a Hr; simpl.
  - eauto.
  - destruct (Hr 0 ltac:(lia)) as [b Hb]. rewrite Z.add_0_r in Hb. rewrite Hb.
    destruct (IH (a + 1)) as [v Hv].
    + intros i Hi. replace (a + 1 + i) with (a + (i + 1)) by lia. apply Hr. lia.
    + rewrite Hv. eauto.
Qed.

Lemma load_le_same m n : forall a b v w,
  load_le m a n = Some v -> load_le m b n = Some w ->
  (v = w <-> same_bytes m a b (Z.of_nat n)).
Proof.
  induction n as [|n IH]; intros a b v w; simpl load_le.
  - intros [= <-] [= <-]. split; [|reflexivity]. intros _ i Hi. lia.
  - destruct (m !! a) as [x|] eqn:Hx; [|discriminate].
    destruct (load_le m (a + 1) n) as [r|] eqn:Hr; [|discriminate].
    destruct (m !! b) as [y|] eqn:Hy; [|discriminate].
    destruct (load_le m (b + 1) n) as [s|] eqn:Hs; [|discriminate].
    intros [= <-] [= <-].
    specialize (IH _ _ _ _ Hr Hs).
    pose proof (byte_val_range x) as Bx. pose proof (byte_val_range y) as By.
    split.
    + intros Heq. assert (byte_val x = byte_val y /\ r = s) as [Hxy Hrs] by lia.
      apply byte_val_inj in Hxy. subst y.
      intros i Hi. destruct (Z.eq_dec i 0) as [->|Hne].
      * rewrite !Z.add_0_r. congruence.
      * apply IH in Hrs. specialize (Hrs (i - 1) ltac:(lia)).
        replace (a + 1 + (i - 1)) with (a + i) in Hrs by lia.
        replace (b + 1 + (i - 1)) with (b + i) in Hrs by lia. exact Hrs.
    + intros Hsame.
      pose proof (Hsame 0 ltac:(lia)) as Hz0. rewrite !Z.add_0_r in Hz0.
      assert (x = y) by congruence. subst y.
      assert (r = s); [|congruence].
      apply IH. intros i Hi. specialize (Hsame (i + 1) ltac:(lia)).
      replace (a + (i + 1)) with (a + 1 + i) in Hsame by lia.
      replace (b + (i + 1)) with (b + 1 + i) in Hsame by lia. exact Hsame.
Qed.

(** ** keycmp *)

Lemma keycmp_words_spec st : forall (k : nat) (fuel : nat) str1 str2,
  (k <= fuel)%nat -> 8 * Z.of_nat k < 4294967296 ->
  readable (mem st) str1 (8 * Z.of_nat k) ->
  readable (mem st) str2 (8 * Z.of_nat k) ->
  exists r, keycmp_words fuel str1 str2 (8 * Z.of_nat k) st = Ok (r, st) /\
            (r = 0 <-> same_bytes (mem st) str1 str2 (8 * Z.of_nat k)).
Proof.
  induction k as [|k IH]; intros fuel str1 str2 Hf Hlt Hr1 Hr2.
  - exists 0. destruct fuel; simpl; (split; [reflexivity|]);
      (split; [intros _ i Hi; lia | reflexivity]).
  - destruct fuel as [|fuel]; [lia|].
    simpl keycmp_words.
    destruct (8 * Z.of_nat (S k) =? 0) eqn:E; [apply Z.eqb_eq in E; lia|].
    destruct (load_le_readable (mem st) 8 str1) as [w1 Hw1].
    { intros i Hi. apply Hr1. lia. }
    destruct (load_le_readable (mem st) 8 str2) as [w2 Hw2].
    { intros i Hi. apply Hr2. lia. }
    pose proof (load_le_same _ _ _ _ _ _ Hw1 Hw2) as Hsame.
    unfold bind, load64, load. rewrite Hw1, Hw2.
    destruct (w1 =? w2) eqn:Ew; simpl negb; cbv iota.
    + apply Z.eqb_eq in Ew. apply Hsame in Ew.
      replace (u32 (8 * Z.of_nat (S k) - HAT_slot_size)) with (8 * Z.of_nat k).
      2:{ unfold u32, HAT_slot_size. rewrite Z.mod_small; lia. }
      destruct (IH fuel (str1 + HAT_slot_size) (str2 + HAT_slot_size)) as [r [Hrun Hiff]].
      * lia.
      * lia.
      * intros i Hi. unfold HAT_slot_size.
        replace (str1 + 8 + i) with (str1 + (8 + i)) by lia. apply Hr1. lia.
      * intros i Hi. unfold HAT_slot_size.
        replace (str2 + 8 + i) with (str2 + (8 + i)) by lia. apply Hr2. lia.
      * exists r. split; [exact Hrun|].
        rewrite Hiff. unfold HAT_slot_size. split.
        -- intros Hrest i Hi. destruct (Z.lt_ge_cases i 8).
           ++ apply Ew. simpl. lia.
           ++ specialize (Hrest (i - 8) ltac:(lia)).
              replace (str1 + 8 + (i - 8)) with (str1 + i) in Hrest by lia.
              replace (str2 + 8 + (i - 8)) with (str2 + i) in Hrest by lia.
              exact Hrest.
        -- intros Hall i Hi. specialize (Hall (8 + i) ltac:(lia)).
           replace (str1 + 8 + i) with (str1 + (8 + i)) by lia.
           replace (str2 + 8 + i) with (str2 + (8 + i)) by lia. exact Hall.
    + exists 1. split; [reflexivity|]. split; [discriminate|].
      intros Hall. exfalso. apply Z.eqb_neq in Ew. apply Ew. apply Hsame.
      intros i Hi. apply Hall. simpl in Hi. lia.
Qed.

Lemma land7 len : 0 <= len -> Z.land len (HAT_slot_size - 1) = len mod 8.
Proof.
  intros H. change (HAT_slot_size - 1) with (Z.ones 3).
  rewrite Z.land_ones by lia. reflexivity.
Qed.

Lemma keycmp_tail_spec st : forall (j : nat) (fuel : nat) str1 str2 len,
  (j <= fuel)%nat -> 0 <= len < 4294967296 -> len mod 8 = Z.of_nat j ->
  readable (mem st) str1 len -> readable (mem st) str2 len ->
  exists r, keycmp_tail fuel str1 str2 len st = Ok (r, st) /\
            (r = 0 <-> same_bytes (mem st) str1 str2 len).
Proof.
  induction j as [|j IH]; intros fuel str1 str2 len Hf Hlen Hmod Hr1 Hr2.
  - assert (Hk : len = 8 * Z.of_nat (Z.to_nat (len / 8))).
    { rewrite Z2Nat.id by (apply Z.div_pos; lia).
      pose proof (Z.div_mod len 8 ltac:(lia)). lia. }
    assert (Hz : (Z.land len (HAT_slot_size - 1) =? 0) = true).
    { rewrite land7 by lia. apply Z.eqb_eq. lia. }
    assert (Hw : exists r, keycmp_words (Z.to_nat len) str1 str2 len st = Ok (r, st) /\
            (r = 0 <-> same_bytes (mem st) str1 str2 len)).
    { destruct (keycmp_words_spec st (Z.to_nat (len / 8)) (Z.to_nat len) str1 str2)
        as [r [Hrun Hiff]].
      - apply Z2Nat.inj_le; [apply Z.div_pos; lia | lia |].
        apply Z.div_le_upper_bound; lia.
      - lia.
      - rewrite <- Hk. exact Hr1.
      - rewrite <- Hk. exact Hr2.
      - rewrite <- Hk in Hrun, Hiff. exists r. split; assumption. }
    destruct fuel; simpl keycmp_tail; rewrite Hz; exact Hw.
  - destruct fuel as [|fuel]; [lia|].
    simpl keycmp_tail.
    assert (Hz : (Z.land len (HAT_slot_size - 1) =? 0) = false).
    { rewrite land7 by lia. apply Z.eqb_neq. lia. }
    rewrite Hz.
    assert (Hpos : 1 <= len).
    { destruct (Z.eq_dec len 0) as [->|]; [|lia]. rewrite Z.mod_0_l in Hmod; lia. }
    replace (u32 (len - 1)) with (len - 1)
      by (unfold u32; rewrite Z.mod_small; lia).
    destruct (Hr1 (len - 1) ltac:(lia)) as [b1 Hb1].
    destruct (Hr2 (len - 1) ltac:(lia)) as [b2 Hb2].
    unfold bind, load8, load. simpl load_le. rewrite Hb1, Hb2.
    rewrite !Z.mul_0_r, !Z.add_0_r.
    destruct (byte_val b1 =? byte_val b2) eqn:Eb; simpl negb; cbv iota.
    + apply Z.eqb_eq in Eb. apply byte_val_inj in Eb. subst b2.
      destruct (IH fuel str1 str2 (len - 1)) as [r [Hrun Hiff]].
      * lia.
      * lia.
      * pose proof (Z.div_mod len 8 ltac:(lia)) as Hd.
        replace (len - 1) with (Z.of_nat j + (len / 8) * 8) by lia.
        rewrite Z.mod_add by lia. apply Z.mod_small.
        pose proof (Z.mod_pos_bound len 8 ltac:(lia)). lia.
      * intros i Hi. apply Hr1. lia.
      * intros i Hi. apply Hr2. lia.
      * exists r. split; [exact Hrun|]. rewrite Hiff. split.
        -- intros Hrest i Hi. destruct (Z.eq_dec i (len - 1)) as [->|].
           ++ congruence.
           ++ apply Hrest. lia.
        -- intros Hall i Hi. apply Hall. lia.
    + exists 1. split; [reflexivity|]. split; [discriminate|].
      intros Hall. exfalso. apply Z.eqb_neq in Eb. apply Eb.
      specialize (Hall (len - 1) ltac:(lia)). congruence.
Qed.


(** C10: for every memory, every two strings and every length, [keycmp]
    returns, and returns 0 exactly when the first [len] bytes of the two
    strings are pairwise equal: comparing the tail bytes and then whole words
    is the same as comparing byte by byte. *)
Theorem keycmp_bytewise (st : state) (str1 str2 len : Z) :
  0 <= len < 4294967296 ->
  readable (mem st) str1 len -> readable (mem st) str2 len ->
  exists r, keycmp str1 str2 len st = Ok (r, st) /\
            (r = 0 <-> same_bytes (mem st) str1 str2 len).
Proof.
  intros Hlen Hr1 Hr2. unfold keycmp.
  apply (keycmp_tail_spec st (Z.to_nat (len mod 8))); try assumption.
  - apply Z2Nat.inj_le; try lia.
    + apply Z.mod_pos_bound. lia.
    + apply Z.mod_le; lia.
  - rewrite Z2Nat.id; [reflexivity|]. apply Z.mod_pos_bound. lia.
Qed.

Lemma keycmp_bytewise_witness :
  exists r, keycmp 0 16 9 two_strings = Ok (r, two_strings) /\
            (r = 0 <-> same_bytes (mem two_strings) 0 16 9).
Proof.
  assert (H : forall p, p = 0 \/ p = 16 -> readable (mem two_strings) p 9).
  { intros p Hp i Hi.
    assert (Hc : i = 0 \/ i = 1 \/ i = 2 \/ i = 3 \/ i = 4 \/ i = 5 \/
                 i = 6 \/ i = 7 \/ i = 8) by lia.
    destruct Hp as [-> | ->];
      repeat (destruct Hc as [-> | Hc]); try subst i;
      vm_compute; eexists; reflexivity. }
  apply (keycmp_bytewise two_strings 0 16 9);
    [ lia | apply H; left; reflexivity | apply H; right; reflexivity ].
Defined.

(** ** hat_find leaves the container alone *)

Lemma same_container_refl st : same_container st st.
Proof. repeat split. Qed.

Lemma same_container_trans st1 st2 st3 :
  same_container st1 st2 -> same_container st2 st3 -> same_container st1 st3.
Proof. unfold same_container. intros (?&?&?&?) (?&?&?&?). repeat split; congruence. Qed.

Lemma read_only_ret {A} (a : A) : read_only (ret a).
Proof. intros st b st' [= _ <-]. apply same_container_refl. Qed.

Lemma read_only_fail {A} f : read_only (@fail A f).
Proof. intros st b st' H. discriminate. Qed.

Lemma read_only_out_of_fuel {A} : read_only (@out_of_fuel A).
Proof. intros st b st' H. discriminate. Qed.

Lemma read_only_bind {A B} (m : M A) (k : A -> M B) :
  read_only m -> (forall a, read_only (k a)) -> read_only (bind m k).
Proof.
  intros Hm Hk st b st'. unfold bind.
  destruct (m st) as [[a st1]| |] eqn:E; try discriminate.
  intros H. eapply same_container_trans; [eapply Hm | eapply Hk]; eassumption.
Qed.

Lemma read_only_load n a : read_only (load n a).
Proof.
  intros st v st'. unfold load.
  destruct (load_le (mem st) a n); [|discriminate].
  intros [= _ <-]. apply same_container_refl.
Qed.

Lemma read_only_upd_stats f : read_only (upd_stats f).
Proof. intros st v st' [= _ <-]. repeat split. Qed.

Lemma read_only_HatSize type : read_only (HatSize type).
Proof.
  unfold HatSize. destruct (type <? 0); [apply read_only_fail|].
  destruct (HatSize_table !! Z.to_nat type);
    [apply read_only_ret | apply read_only_fail].
Qed.

Create HintDb read_only.

#[local] Hint Resolve read_only_ret read_only_fail read_only_out_of_fuel
  read_only_load read_only_upd_stats read_only_HatSize : read_only.

Ltac read_only_step :=
  first
    [ solve [ auto 1 with read_only ]
    | apply read_only_bind; [ | intros ? ]
    | progress cbv zeta
    | progress unfold load8, load16, load32, load64
    | match goal with
      | |- read_only (if ?c then _ else _) => destruct c
      | |- read_only (match ?p with (_, _) => _ end) => destruct p
      end ].

Ltac read_only_auto := repeat read_only_step.

Ltac read_only_loop fuel :=
  let IH := fresh "IH" in
  induction fuel as [|fuel IH]; intros; simpl; read_only_auto; apply IH.

Lemma read_only_keycmp_words fuel : forall str1 str2 len,
  read_only (keycmp_words fuel str1 str2 len).
Proof. read_only_loop fuel. Qed.

#[local] Hint Resolve read_only_keycmp_words : read_only.

Lemma read_only_keycmp_tail fuel : forall str1 str2 len,
  read_only (keycmp_tail fuel str1 str2 len).
Proof. read_only_loop fuel. Qed.

Lemma read_only_keycmp str1 str2 len : read_only (keycmp str1 str2 len).
Proof. apply read_only_keycmp_tail. Qed.

Lemma read_only_hat_code_loop n : forall buff hash,
  read_only (hat_code_loop n buff hash).
Proof. read_only_loop n. Qed.

Lemma read_only_hat_code buff max : read_only (hat_code buff max).
Proof. apply read_only_hat_code_loop. Qed.

Lemma read_only_root_index n : forall buff max off triple,
  read_only (root_index n buff max off triple).
Proof. read_only_loop n. Qed.

Lemma read_only_key_len_uint base tst : read_only (key_len_uint base tst).
Proof. unfold key_len_uint. read_only_auto. Qed.

Lemma read_only_aux_slot base cnt aux : read_only (aux_slot base cnt aux).
Proof. unfold aux_slot. read_only_auto. Qed.

Lemma read_only_radix_byte buff off max : read_only (radix_byte buff off max).
Proof. unfold radix_byte. read_only_auto. Qed.

#[local] Hint Resolve read_only_keycmp read_only_hat_code_loop
  read_only_hat_code read_only_root_index read_only_key_len_uint
  read_only_aux_slot read_only_radix_byte : read_only.

Lemma read_only_find_array fuel : forall hat base buff off max tst cnt,
  read_only (find_array fuel hat base buff off max tst cnt).
Proof. read_only_loop fuel. Qed.

#[local] Hint Resolve read_only_find_array : read_only.

Lemma read_only_find_node fuel : forall hat buff max off next,
  read_only (find_node fuel hat buff max off next).
Proof.
  induction fuel as [|fuel IH]; intros; simpl; read_only_auto; apply IH.
Qed.


(** C9: [hat_find] never changes the container.  Whatever the probe key and
    whether it is found or not, the state [hat_find] returns in has the
    memory (every node, the root table, the arena's segment list and free
    lists) and the allocator state it was called in; only the statistics
    counters differ. *)
Theorem hat_find_read_only (fuel : nat) (hat buff max : Z) (st st' : state) (r : Z) :
  hat_find fuel hat buff max st = Ok (r, st') -> same_container st st'.
Proof.
  revert st r st'. change (read_only (hat_find fuel hat buff max)).
  unfold hat_find. read_only_auto. apply read_only_find_node.
Qed.

(** A hit (the key "ab") and a miss (its prefix "a") in [probe_state]. *)
Lemma hat_find_read_only_witness :
  (exists st', hat_find enough probe_hat probe_buff 2 probe_state
               = Ok (65564, st') /\
               same_container probe_state st') /\
  (exists st', hat_find enough probe_hat probe_buff 1 probe_state
               = Ok (0, st') /\
               same_container probe_state st').
Proof.
  assert (Hit : outcome (hat_find enough probe_hat probe_buff 2 probe_state)
                = Ok 65564) by (vm_compute; reflexivity).
  assert (Miss : outcome (hat_find enough probe_hat probe_buff 1 probe_state)
                 = Ok 0) by (vm_compute; reflexivity).
  destruct (outcome_ok _ _ Hit) as [st1 E1].
  destruct (outcome_ok _ _ Miss) as [st2 E2].
  split; [ exists st1 | exists st2 ].
  - split; [ exact E1 | exact (hat_find_read_only _ _ _ _ _ _ _ E1) ].
  - split; [ exact E2 | exact (hat_find_read_only _ _ _ _ _ _ _ E2) ].
Defined.

(** ** The key byte that indexes a radix node *)




(** ** The length prefix and its decoders *)

Lemma prefix_low len :
  0 <= len -> Z.lor (Z.land len 0x7f) 0x80 = len mod 128 + 128.
Proof.
  intros H. pose proof (Z.add_lor_land (Z.land len 0x7f) 0x80) as Ha.
  rewrite <- Z.land_assoc in Ha. change (Z.land 127 128) with 0 in Ha.
  rewrite Z.land_0_r in Ha. change 127 with (Z.ones 7) in *.
  rewrite Z.land_ones in * by lia. change (2 ^ 7) with 128 in *. lia.
Qed.

(** What the two bytes of a long prefix are worth. *)
Lemma long_prefix_bytes len :
  128 <= len <= 32767 ->
  byte_val (byte_of (Z.lor (Z.land len 0x7f) 0x80)) = len mod 128 + 128 /\
  byte_val (byte_of (Z.shiftr len 7)) = len / 128 /\
  Z.land (len mod 128 + 128) 0x80 = 0x80 /\
  Z.land (len mod 128 + 128) 0x7f = len mod 128 /\
  Z.shiftl (len / 128) 7 = 128 * (len / 128).
Proof.
  intros Hlen.
  pose proof (Z.mod_pos_bound len 128 ltac:(lia)) as Hm.
  assert (Hq : 1 <= len / 128 <= 255).
  { split; [apply Z.div_le_lower_bound; lia|].
    apply Z.lt_succ_r. apply Z.div_lt_upper_bound; lia. }
  repeat split.
  - rewrite byte_val_of, prefix_low by lia. unfold u8. apply Z.mod_small. lia.
  - rewrite byte_val_of, Z.shiftr_div_pow2 by lia. change (2 ^ 7) with 128.
    unfold u8. apply Z.mod_small. lia.
  - rewrite <- prefix_low by lia.
    rewrite Z.land_lor_distr_l, <- Z.land_assoc.
    change (Z.land 127 128) with 0. rewrite Z.land_0_r. reflexivity.
  - rewrite <- prefix_low by lia.
    rewrite Z.land_lor_distr_l, <- Z.land_assoc.
    change (Z.land 127 127) with 127. change (Z.land 128 127) with 0.
    rewrite Z.lor_0_r. change 127 with (Z.ones 7).
    rewrite Z.land_ones by lia. reflexivity.
  - rewrite Z.shiftl_mul_pow2 by lia. change (2 ^ 7) with 128. lia.
Qed.

(** Over the prefix of a key of 128 to 32767 bytes, the decoder of
    [hat_strip_array] and the burst functions reads the length back, and the
    decoder of [hat_find] and [hat_cell] reads 128 more. *)
Lemma long_prefix_decoded st base tst len :
  128 <= len <= 32767 -> 0 <= tst < 65534 ->
  long_prefix (mem st) (base_keys base + tst) len ->
  key_len_ushort base tst st = Ok ((len, tst + 2), st) /\
  key_len_uint base tst st = Ok ((len + 128, tst + 2), st).
Proof.
  intros Hlen Htst [H0 H1].
  destruct (long_prefix_bytes len Hlen) as (Hb0 & Hb1 & Hl128 & Hl127 & Hhi).
  pose proof (Z.mod_pos_bound len 128 ltac:(lia)) as Hm.
  pose proof (Z.div_mod len 128 ltac:(lia)) as Hd.
  assert (Ht1 : u16 (tst + 1) = tst + 1) by (unfold u16; apply Z.mod_small; lia).
  assert (Ht2 : u16 (tst + 1 + 1) = tst + 2)
    by (unfold u16; rewrite Z.mod_small; lia).
  rewrite <- Z.add_assoc in H1.
  split.
  - unfold key_len_ushort.
    rewrite (bind_ok _ _ _ _ _ (load8_byte _ _ _ H0)), Hb0, Ht1, Hl128.
    change (negb (128 =? 0)) with true. cbv iota.
    rewrite (bind_ok _ _ _ _ _ (load8_byte _ _ _ H1)), Hb1, Hl127, Hhi, Ht2.
    unfold ret. do 3 f_equal. unfold u16. rewrite Z.mod_small; lia.
  - unfold key_len_uint.
    rewrite (bind_ok _ _ _ _ _ (load8_byte _ _ _ H0)), Hb0, Ht1.
    assert (Hgt : (len mod 128 + 128 >? 127) = true) by (apply Z.gtb_lt; lia).
    rewrite Hgt.
    rewrite (bind_ok _ _ _ _ _ (load8_byte _ _ _ H1)), Hb1, Hhi, Ht2.
    unfold ret. do 3 f_equal. unfold u32. rewrite Z.mod_small; lia.
Qed.

(** Over the same prefix, the partition part of [hat_qsort] reads the length
    back, and its insertion sort reads the length modulo 256. *)
Lemma long_prefix_sorted st (e : HatSort) len :
  128 <= len <= 32767 ->
  long_prefix (mem st) (key e) len ->
  sort_len e st = Ok ((len, 2), st) /\
  sort_len_uchar e st = Ok ((len mod 256, 2), st).
Proof.
  intros Hlen [H0 H1].
  destruct (long_prefix_bytes len Hlen) as (Hb0 & Hb1 & Hl128 & Hl127 & Hhi).
  pose proof (Z.div_mod len 128 ltac:(lia)) as Hd.
  assert (Hsum : len mod 128 + 128 * (len / 128) = len) by lia.
  split.
  - unfold sort_len.
    rewrite (bind_ok _ _ _ _ _ (load8_byte _ _ _ H0)), Hb0, Hl128.
    change (negb (128 =? 0)) with true. cbv iota.
    rewrite (bind_ok _ _ _ _ _ (load8_byte _ _ _ H1)), Hb1, Hl127, Hhi, Hsum.
    unfold ret. do 3 f_equal. unfold u16. rewrite Z.mod_small; lia.
  - unfold sort_len_uchar.
    rewrite (bind_ok _ _ _ _ _ (load8_byte _ _ _ H0)), Hb0, Hl128.
    change (negb (128 =? 0)) with true. cbv iota.
    rewrite (bind_ok _ _ _ _ _ (load8_byte _ _ _ H1)), Hb1, Hl127, Hhi, Hsum.
    reflexivity.
Qed.

(** ** The code at concrete inputs *)

(** Scenario 1 of the specification: "apple", "banana", "apple" again; the
    third call returns the aux slot of the first. *)
Example scenario_apple_banana :
  run (let* hat := hat_open 1 4 in
       let* p1 := with_key [97; 112; 112; 108; 101] (hat_cell enough hat) in
       let* p2 := with_key [98; 97; 110; 97; 110; 97] (hat_cell enough hat) in
       let* p3 := with_key [97; 112; 112; 108; 101] (hat_cell enough hat) in
       ret (p1, p2, p3)) = Ok (65564, 65580, 65564).
Proof. vm_compute. reflexivity. Qed.

(** Scenario 2 of the specification: "a", "b" and the empty key in set mode
    are walked as "", "a", "b". *)
Example scenario_walk :
  run (sorted_walk 0 0 [[97]; [98]; []] 256) = Ok [[]; [97]; [98]].
Proof. vm_compute. reflexivity. Qed.

(** C1: a key of 128 bytes, inserted into a fresh container with four aux
    bytes, is not found by the [hat_find] that follows: [hat_cell] returns
    the aux slot at 82092 and [hat_find] returns [NULL]. *)
Theorem find_misses_key_of_128_bytes :
  run (insert_then_find 0 4 (repeat 97 128) [1; 2; 3; 4]) = Ok (82092, 0).
Proof. vm_compute. reflexivity. Qed.

(** The same with 127 bytes: [hat_find] returns the slot [hat_cell] gave. *)
Example find_hits_key_of_127_bytes :
  run (insert_then_find 0 4 (repeat 97 127) [1; 2; 3; 4]) = Ok (82092, 82092).
Proof. vm_compute. reflexivity. Qed.

(** C2: after inserting the 256-byte keys "bb...b" and "aa...a", the walk
    from the empty key visits "bb...b" first and "aa...a" second. *)
Theorem walk_visits_long_keys_out_of_order :
  run (sorted_walk 0 0 [repeat 98 256; repeat 97 256] 512)
  = Ok [repeat 98 256; repeat 97 256].
Proof. vm_compute. reflexivity. Qed.

(** The two keys hash to bucket slots 934 and 1397, the order in which
    [hat_sort] collects them; the insertion sort then compares their lengths
    as 0 and 0 and leaves them there. *)
Example long_keys_bucket_slots :
  run (let* b := bucket_slot (repeat 98 256) in
       let* a := bucket_slot (repeat 97 256) in
       ret (b, a)) = Ok (934, 1397).
Proof. vm_compute. reflexivity. Qed.

(** With 255-byte keys the walk is in order. *)
Example walk_visits_255_byte_keys_in_order :
  run (sorted_walk 0 0 [repeat 98 255; repeat 97 255] 512)
  = Ok [repeat 97 255; repeat 98 255].
Proof. vm_compute. reflexivity. Qed.

(** Six 100-byte keys with the same first byte, under one root level, end
    up in a pail node; the walk then reads a key through a null pointer,
    because [hat_strip_pail] collects every array of the pail at the same
    place of the cursor's buffer. *)
Example walk_over_pail_reads_null :
  run (sorted_walk 1 0 (map (fun b => 120 :: repeat b 99) [1; 2; 3; 4; 5; 6]) 256)
  = Fault (BadLoad 0).
Proof. vm_compute. reflexivity. Qed.

(** C3: [hat_cell] called twice with the same 128-byte key returns two
    different aux slots, and the bucket counts two keys. *)
Theorem cell_twice_stores_long_key_twice :
  run (insert_twice 4 (repeat 97 128)) = Ok (82092, 82472, 2).
Proof. vm_compute. reflexivity. Qed.

(** The same with 127 bytes: one slot, one key. *)
Example cell_twice_stores_short_key_once :
  run (insert_twice 4 (repeat 97 127)) = Ok (82092, 82092, 1).
Proof. vm_compute. reflexivity. Qed.

(** C4: with the keys "xa" and "xc" stored, [hat_start] on "xb" returns
    [NULL], although "xc" is a stored key above "xb". *)
Theorem start_skips_greater_key :
  run (start_at 1 0 [[120; 97]; [120; 99]] [120; 98]) = Ok None.
Proof. vm_compute. reflexivity. Qed.

(** On a stored key, [hat_start] stands on that key. *)
Example start_on_stored_key :
  run (start_at 1 0 [[120; 97]; [120; 99]] [120; 99]) = Ok (Some [120; 99]).
Proof. vm_compute. reflexivity. Qed.

(** C6: [hat_promote], appending a 256-byte key to an array node that holds
    the one-byte key "a", writes the prefix bytes 0, 0 where the encoding
    asks for 0x80, 0x02. *)
Theorem promote_writes_wrong_prefix :
  run (array_under 0 [[120; 97]; 120 :: repeat 98 256] 120 6)
  = Ok (260, [1; 97; 0; 0; 98; 98]).
Proof. vm_compute. reflexivity. Qed.

(** [hat_new_array] writes the two-byte prefix of the same key as specified. *)
Example new_array_writes_prefix :
  run (array_under 0 [120 :: repeat 98 256] 120 6)
  = Ok (258, [128; 2; 98; 98; 98; 98]).
Proof. vm_compute. reflexivity. Qed.

(** C7: in set mode, for a 128-byte key, [hat_cell] returns the sentinel of a
    new key (0) both times, and [hat_find] returns [NULL] for the stored key
    as it does for an absent one. *)
Theorem set_mode_long_key_never_found :
  run (set_mode (repeat 97 128) [98]) = Ok (0, 0, 0, 0).
Proof. vm_compute. reflexivity. Qed.

(** The same with 127 bytes: 0 for the new key, 1 for the existing one and
    for the hit, [NULL] for the miss. *)
Example set_mode_short_key :
  run (set_mode (repeat 97 127) [98]) = Ok (0, 1, 1, 0).
Proof. vm_compute. reflexivity. Qed.

(** C8: on an empty container whose root is a bucket, [hat_start] on the
    empty key returns [NULL] and [hat_last] returns 1, leaving [idx] at -1. *)
Theorem last_succeeds_on_empty_container :
  run (both_ends 0 0 []) = Ok (false, 1, -1).
Proof. vm_compute. reflexivity. Qed.

(** * More of the code *)

(** ** Sizes *)

(** X1: the rounding that [hat_alloc], [hat_data] and [hat_open] apply to a
    size (set the low three bits and add one, unless they are clear) takes a
    32-bit size to the next multiple of 8, computed in 32 bits: a size above
    2^32 - 8 that is not a multiple of 8 wraps to 0. *)
Theorem round8_rounds_up (amt : Z) :
  0 <= amt < 4294967296 ->
  round8 amt = u32 (8 * ((amt + 7) / 8)).
Proof.
  intros H. unfold round8. change (HAT_cache_line - 1) with (Z.ones 3).
  rewrite Z.land_ones by lia. change (2 ^ 3) with 8.
  pose proof (Z.div_mod amt 8 ltac:(lia)) as Hd.
  pose proof (Z.mod_pos_bound amt 8 ltac:(lia)) as Hm.
  destruct (amt mod 8 =? 0) eqn:E.
  - apply Z.eqb_eq in E.
    replace ((amt + 7) / 8) with (amt / 8).
    + unfold u32. rewrite Z.mod_small; lia.
    + apply Z.div_unique with (r := 7); lia.
  - apply Z.eqb_neq in E.
    assert (Hl : Z.lor amt (Z.ones 3) = 8 * (amt / 8) + 7).
    { pose proof (Z.add_lor_land amt (Z.ones 3)) as Ha.
      rewrite Z.land_ones in Ha by lia. change (2 ^ 3) with 8 in Ha.
      change (Z.ones 3) with 7 in *. lia. }
    rewrite Hl. f_equal.
    replace ((amt + 7) / 8) with (amt / 8 + 1); [lia|].
    apply Z.div_unique with (r := amt mod 8 - 1); lia.
Qed.

Lemma round8_rounds_up_witness :
  round8 13 = 16 /\ round8 4294967293 = 0.
Proof.
  split.
  - apply (round8_rounds_up 13). lia.
  - apply (round8_rounds_up 4294967293). lia.
Defined.

Lemma times128_u32 (n : nat) : forall size,
  times128 n size = u32 (size * 128 ^ Z.of_nat n) \/ n = O.
Proof.
  induction n as [|n IH]; intros size; [right; reflexivity|left].
  simpl times128. destruct (IH (u32 (size * 128))) as [-> | ->].
  - unfold u32. rewrite Z.mul_mod_idemp_l by lia.
    rewrite Nat2Z.inj_succ, Z.pow_succ_r by lia. f_equal. lia.
  - simpl. f_equal; lia.
Qed.

(** X2: the loops of [hat_open] and [hat_cursor] that multiply by 128 once
    per boot level give a root table of 8 * 128^boot bytes, and a cursor
    bound [maxroot] of 128^boot entries, for up to four levels; from five
    levels on both products wrap to 0 in 32 bits. *)
Theorem root_table_size (boot : Z) :
  0 <= boot ->
  times128 (Z.to_nat boot) HAT_slot_size = (if boot <=? 4 then 8 * 128 ^ boot else 0) /\
  times128 (Z.to_nat boot) 1 = (if boot <=? 4 then 128 ^ boot else 0).
Proof.
  intros H.
  assert (Hc : boot = 0 \/ boot = 1 \/ boot = 2 \/ boot = 3 \/ boot = 4 \/ 5 <= boot) by lia.
  destruct Hc as [->|[->|[->|[->|[->|Hc]]]]]; try (split; reflexivity).
  destruct (boot <=? 4) eqn:E; [apply Z.leb_le in E; lia|].
  assert (Hp : 128 ^ boot = 4294967296 * (8 * 128 ^ (boot - 5))).
  { replace boot with (5 + (boot - 5)) at 1 by lia.
    rewrite Z.pow_add_r by lia. change (128 ^ 5) with (4294967296 * 8). lia. }
  split.
  - destruct (times128_u32 (Z.to_nat boot) HAT_slot_size) as [-> | Hn]; [|lia].
    rewrite Z2Nat.id by lia. rewrite Hp. unfold u32, HAT_slot_size.
    replace (8 * (4294967296 * (8 * 128 ^ (boot - 5))))
      with (8 * (8 * 128 ^ (boot - 5)) * 4294967296) by lia.
    apply Z.mod_mul. lia.
  - destruct (times128_u32 (Z.to_nat boot) 1) as [-> | Hn]; [|lia].
    rewrite Z2Nat.id by lia. rewrite Hp. unfold u32.
    replace (1 * (4294967296 * (8 * 128 ^ (boot - 5))))
      with (8 * 128 ^ (boot - 5) * 4294967296) by lia.
    apply Z.mod_mul. lia.
Qed.

Lemma root_table_size_witness :
  times128 (Z.to_nat 3) HAT_slot_size = 16777216 /\
  times128 (Z.to_nat 3) 1 = 2097152.
Proof. apply (root_table_size 3). lia. Defined.

(** ** Size classes *)

Lemma HatSize_some type size st :
  0 <= type -> HatSize_table !! Z.to_nat type = Some size ->
  HatSize type st = Ok (size, st).
Proof.
  intros H0 H. unfold HatSize.
  destruct (type <? 0) eqn:E; [apply Z.ltb_lt in E; lia|].
  rewrite H. reflexivity.
Qed.

Lemma HatSize_table_total type :
  0 <= type < 32 -> exists size, HatSize_table !! Z.to_nat type = Some size.
Proof.
  intros H. apply lookup_lt_is_Some_2. simpl. lia.
Qed.

Lemma HatSize_table_small type size :
  4 <= type -> HatSize_table !! Z.to_nat type = Some size -> 0 <= size <= 512.
Proof.
  intros H Hs.
  assert (Hall : Forall (fun s => 0 <= s <= 512) (drop 4 HatSize_table)).
  { repeat constructor; vm_compute; discriminate. }
  rewrite Forall_lookup in Hall.
  apply (Hall (Z.to_nat type - 4)%nat). rewrite lookup_drop.
  replace (4 + (Z.to_nat type - 4))%nat with (Z.to_nat type) by lia. exact Hs.
Qed.

Lemma new_array_type_spec need st : forall (k : nat) (fuel : nat) (type : Z),
  0 <= type <= 32 -> Z.of_nat k = 32 - type -> (k <= fuel)%nat ->
  (exists t, new_array_type fuel need type st = Ok (t, st) /\ type <= t < 32 /\
     (exists size, HatSize_table !! Z.to_nat t = Some size /\ need <= size) /\
     (forall t' size', type <= t' < t ->
        HatSize_table !! Z.to_nat t' = Some size' -> size' < need)) \/
  (new_array_type fuel need type st = Fault (BadIndex 32) /\
   forall t' size', type <= t' < 32 ->
     HatSize_table !! Z.to_nat t' = Some size' -> size' < need).
Proof.
  induction k as [|k IH]; intros fuel type Ht Hk Hf.
  - right. assert (type = 32) by lia. subst type.
    split; [|intros; lia]. destruct fuel; reflexivity.
  - assert (Hin : 0 <= type < 32) by lia.
    destruct (HatSize_table_total type Hin) as [size Hs].
    destruct fuel as [|fuel]; [lia|].
    assert (Hstep : new_array_type (S fuel) need type st
                    = if need >? size then new_array_type fuel need (type + 1) st
                      else Ok (type, st)).
    { simpl new_array_type. unfold bind.
      rewrite (HatSize_some type size st (proj1 Hin) Hs).
      destruct (need >? size); reflexivity. }
    rewrite Hstep. clear Hstep.
    destruct (need >? size) eqn:E.
    + apply Z.gtb_lt in E.
      assert (H1 : 0 <= type + 1 <= 32) by lia.
      assert (H2 : Z.of_nat k = 32 - (type + 1)) by lia.
      assert (H3 : (k <= fuel)%nat) by lia.
      destruct (IH fuel (type + 1) H1 H2 H3)
        as [(t & Hrun & Hr & Hfit & Hmin) | (Hrun & Hmin)].
      * left. exists t. repeat split; try lia; try assumption.
        intros t' size' Ht' Hs'. destruct (Z.eq_dec t' type) as [->|Hne].
        -- rewrite Hs in Hs'. injection Hs' as <-. lia.
        -- apply (Hmin t'); [lia | assumption].
      * right. split; [exact Hrun|].
        intros t' size' Ht' Hs'. destruct (Z.eq_dec t' type) as [->|Hne].
        -- rewrite Hs in Hs'. injection Hs' as <-. lia.
        -- apply (Hmin t'); [lia | assumption].
    + left. exists type. assert (need <= size) by (rewrite Z.gtb_ltb in E; apply Z.ltb_ge in E; lia).
      split; [reflexivity|]. split; [lia|]. split.
      * exists size. split; [assumption | lia].
      * intros; lia.
Qed.

Lemma new_array_type_ok need st t st' :
  new_array_type 32 need HAT_1 st = Ok (t, st') ->
  st' = st /\ HAT_1 <= t <= HatMax /\
  exists size, HatSize_table !! Z.to_nat t = Some size /\ need <= size.
Proof.
  intros H.
  assert (H0 : 0 <= HAT_1 <= 32) by (unfold HAT_1; lia).
  assert (H1 : Z.of_nat 28 = 32 - HAT_1) by reflexivity.
  assert (H2 : (28 <= 32)%nat) by lia.
  destruct (new_array_type_spec need st 28 32 HAT_1 H0 H1 H2)
    as [(t0 & Hrun & Hr & (size & Hs & Hfit) & Hmin) | (Hrun & _)];
    rewrite Hrun in H; [|discriminate].
  injection H as <- <-. split; [reflexivity|]. split.
  - split; [lia|]. unfold HatMax, HAT_32.
    destruct (Z_le_gt_dec t0 15) as [|Hgt]; [assumption|].
    assert (H15 : 512 < need).
    { apply (Hmin 15 512); [unfold HAT_1; lia | reflexivity]. }
    assert (H4 : 4 <= t0) by (unfold HAT_1 in Hr; lia).
    pose proof (HatSize_table_small t0 size H4 Hs). lia.
  - exists size. split; assumption.
Qed.


Lemma promote_type_spec need st : forall (k : nat) (fuel : nat) (type : Z),
  HAT_1 <= type <= HatMax -> Z.of_nat k = HatMax - type -> (k <= fuel)%nat ->
  exists t, promote_type fuel need type st = Ok (t, st) /\
    type <= t <= HatMax + 1 /\
    (t <= HatMax ->
     exists size, HatSize_table !! Z.to_nat t = Some size /\ need <= size) /\
    (forall t' size', type <= t' < t ->
       HatSize_table !! Z.to_nat t' = Some size' -> size' < need).
Proof.
  unfold HAT_1, HatMax, HAT_32.
  induction k as [|k IH]; intros fuel type Ht Hk Hf;
    (assert (Hin : 0 <= type < 32) by lia);
    destruct (HatSize_table_total type Hin) as [size Hs].
  - assert (type = 15) by lia. subst type.
    assert (Hstep : promote_type fuel need 15 st
                    = if need >? size then Ok (16, st) else Ok (15, st)).
    { destruct fuel; simpl promote_type; unfold bind;
        rewrite (HatSize_some 15 size st (proj1 Hin) Hs);
        destruct (need >? size); reflexivity. }
    rewrite Hstep. clear Hstep.
    destruct (need >? size) eqn:E.
    + apply Z.gtb_lt in E. exists 16. split; [reflexivity|]. split; [lia|].
      split; [lia|]. intros t' size' Ht' Hs'. assert (t' = 15) by lia. subst t'.
      rewrite Hs in Hs'. injection Hs' as <-. lia.
    + rewrite Z.gtb_ltb in E. apply Z.ltb_ge in E.
      exists 15. split; [reflexivity|]. split; [lia|]. split.
      * intros _. exists size. split; assumption.
      * intros; lia.
  - destruct fuel as [|fuel]; [lia|].
    assert (Hstep : promote_type (S fuel) need type st
                    = if need >? size then promote_type fuel need (type + 1) st
                      else Ok (type, st)).
    { simpl promote_type. unfold bind.
      rewrite (HatSize_some type size st (proj1 Hin) Hs).
      destruct (need >? size); [|reflexivity].
      unfold HatMax, HAT_32.
      destruct (type <? 15) eqn:E; [reflexivity|]. apply Z.ltb_ge in E. lia. }
    rewrite Hstep. clear Hstep.
    destruct (need >? size) eqn:E.
    + apply Z.gtb_lt in E.
      assert (H1 : 4 <= type + 1 <= 15) by lia.
      assert (H2 : Z.of_nat k = 15 - (type + 1)) by lia.
      assert (H3 : (k <= fuel)%nat) by lia.
      destruct (IH fuel (type + 1) H1 H2 H3) as (t & Hrun & Hr & Hfit & Hmin).
      exists t. split; [exact Hrun|]. split; [lia|]. split; [exact Hfit|].
      intros t' size' Ht' Hs'. destruct (Z.eq_dec t' type) as [->|Hne].
      * rewrite Hs in Hs'. injection Hs' as <-. lia.
      * apply (Hmin t'); [lia | assumption].
    + rewrite Z.gtb_ltb in E. apply Z.ltb_ge in E.
      exists type. split; [reflexivity|]. split; [lia|]. split.
      * intros _. exists size. split; assumption.
      * intros; lia.
Qed.

(** X4: the loop of [hat_promote], started at the class of the node being
    promoted, returns the smallest class from there on whose size holds the
    [need] bytes, and [HatMax + 1] when not even the largest does. *)
Theorem promote_smallest_class (need type : Z) (st : state) :
  HAT_1 <= type <= HatMax ->
  exists t, promote_type 32 need type st = Ok (t, st) /\
    type <= t <= HatMax + 1 /\
    (t <= HatMax ->
     exists size, HatSize_table !! Z.to_nat t = Some size /\ need <= size) /\
    (forall t' size', type <= t' < t ->
       HatSize_table !! Z.to_nat t' = Some size' -> size' < need).
Proof.
  intros Ht.
  apply (promote_type_spec need st (Z.to_nat (HatMax - type))); [assumption| |].
  - rewrite Z2Nat.id; [reflexivity|]. lia.
  - unfold HatMax, HAT_32, HAT_1 in *. lia.
Qed.

Lemma promote_smallest_class_witness :
  exists t, promote_type 32 100 5 init_state = Ok (t, init_state) /\
    5 <= t <= HatMax + 1 /\
    (t <= HatMax ->
     exists size, HatSize_table !! Z.to_nat t = Some size /\ 100 <= size) /\
    (forall t' size', 5 <= t' < t ->
       HatSize_table !! Z.to_nat t' = Some size' -> size' < 100).
Proof. apply (promote_smallest_class 100 5 init_state). vm_compute. split; discriminate. Defined.

(** ** Memory *)

Lemma bind_inv {A B} (m : M A) (k : A -> M B) st b st' :
  bind m k st = Ok (b, st') ->
  exists a st1, m st = Ok (a, st1) /\ k a st1 = Ok (b, st').
Proof.
  unfold bind. destruct (m st) as [[a st1]| |]; try discriminate. eauto.
Qed.

Lemma succeeds_ok {A} (r : result (A * state)) :
  succeeds r = true -> exists a st', r = Ok (a, st').
Proof. destruct r as [[a st']| |]; simpl; intros H; try discriminate. eauto. Qed.

Lemma ok_parts {A} (r : result (A * state)) (a0 : A) (s0 : state) :
  succeeds r = true ->
  r = Ok (match r with Ok (a, _) => a | _ => a0 end,
          match r with Ok (_, s) => s | _ => s0 end).
Proof. destruct r as [[a s]| |]; simpl; intros H; [reflexivity | discriminate..]. Qed.

Lemma ok_state (r : result (unit * state)) (s0 : state) :
  succeeds r = true ->
  r = Ok (tt, match r with Ok (_, s) => s | _ => s0 end).
Proof. destruct r as [[[] s]| |]; simpl; intros H; [reflexivity | discriminate..]. Qed.

Lemma ret_inv {A} (a b : A) st st' : ret a st = Ok (b, st') -> b = a /\ st' = st.
Proof. intros [= -> ->]. split; reflexivity. Qed.

Lemma load_inv n a st v st' :
  load n a st = Ok (v, st') -> st' = st /\ load_le (mem st) a n = Some v.
Proof.
  unfold load. destruct (load_le (mem st) a n); [|discriminate].
  intros [= -> ->]. split; reflexivity.
Qed.

Lemma store_inv n a v st u st' :
  store n a v st = Ok (u, st') ->
  mem st' = store_le (mem st) a n v /\ blocks st' = blocks st /\
  brk st' = brk st /\ rands st' = rands st /\ stats st' = stats st /\
  in_block (blocks st) a (Z.of_nat n) = true.
Proof.
  unfold store. destruct (in_block (blocks st) a (Z.of_nat n)); [|discriminate].
  intros [= _ <-]. repeat split.
Qed.

Lemma memset0_inv p n st u st' :
  memset0 p n st = Ok (u, st') ->
  mem st' = fill_zero (mem st) p (Z.to_nat n) /\ blocks st' = blocks st /\
  brk st' = brk st /\ rands st' = rands st /\ stats st' = stats st /\
  in_block (blocks st) p n = true.
Proof.
  unfold memset0. destruct (in_block (blocks st) p n); [|discriminate].
  intros [= _ <-]. repeat split.
Qed.

Lemma memcpy_inv dst src n st u st' :
  memcpy dst src n st = Ok (u, st') ->
  exists bs, read_bytes (mem st) src (Z.to_nat n) = Some bs /\
  mem st' = write_bytes (mem st) dst bs /\ blocks st' = blocks st /\
  brk st' = brk st /\ rands st' = rands st /\ stats st' = stats st /\
  in_block (blocks st) dst n = true.
Proof.
  unfold memcpy. destruct (in_block (blocks st) dst n); [|discriminate].
  destruct (read_bytes (mem st) src (Z.to_nat n)) as [bs|]; [|discriminate].
  intros [= _ <-]. exists bs. repeat split.
Qed.

Lemma store_le_other n : forall m p v a,
  a < p \/ p + Z.of_nat n <= a -> store_le m p n v !! a = m !! a.
Proof.
  induction n as [|n IH]; intros m p v a H; simpl; [reflexivity|].
  rewrite IH by lia. apply lookup_insert_ne. lia.
Qed.

Lemma store_le_in n : forall m p v i,
  0 <= i < Z.of_nat n ->
  store_le m p n v !! (p + i) = Some (byte_of (v / 256 ^ i)).
Proof.
  induction n as [|n IH]; intros m p v i H; simpl; [lia|].
  destruct (Z.eq_dec i 0) as [->|Hne].
  - rewrite store_le_other by lia. rewrite Z.add_0_r, lookup_insert_eq.
    rewrite Z.div_1_r. reflexivity.
  - replace (p + i) with (p + 1 + (i - 1)) by lia.
    rewrite IH by lia.
    assert (Hp : 0 < 256 ^ (i - 1)) by (apply Z.pow_pos_nonneg; lia).
    rewrite Z.div_div by lia.
    rewrite <- Z.pow_succ_r by lia.
    replace (Z.succ (i - 1)) with i by lia. reflexivity.
Qed.

Lemma fill_zero_other n : forall m p a,
  a < p \/ p + Z.of_nat n <= a -> fill_zero m p n !! a = m !! a.
Proof.
  induction n as [|n IH]; intros m p a H; simpl; [reflexivity|].
  rewrite IH by lia. apply lookup_insert_ne. lia.
Qed.

Lemma fill_zero_in n : forall m p i,
  0 <= i < Z.of_nat n -> fill_zero m p n !! (p + i) = Some x00.
Proof.
  induction n as [|n IH]; intros m p i H; simpl; [lia|].
  destruct (Z.eq_dec i 0) as [->|Hne].
  - rewrite fill_zero_other by lia. rewrite Z.add_0_r. apply lookup_insert_eq.
  - replace (p + i) with (p + 1 + (i - 1)) by lia. apply IH. lia.
Qed.

Lemma write_bytes_other bs : forall m p a,
  a < p \/ p + Z.of_nat (length bs) <= a -> write_bytes m p bs !! a = m !! a.
Proof.
  induction bs as [|b bs IH]; intros m p a H; simpl in *; [reflexivity|].
  rewrite IH by lia. apply lookup_insert_ne. lia.
Qed.

Lemma write_bytes_in bs : forall m p (i : nat),
  (i < length bs)%nat -> write_bytes m p bs !! (p + Z.of_nat i) = bs !! i.
Proof.
  induction bs as [|b bs IH]; intros m p i H; simpl in *; [lia|].
  destruct i as [|i].
  - rewrite write_bytes_other by lia. rewrite Z.add_0_r. apply lookup_insert_eq.
  - replace (p + Z.of_nat (S i)) with (p + 1 + Z.of_nat i) by lia.
    apply IH. lia.
Qed.

Lemma read_bytes_spec n : forall m a bs,
  read_bytes m a n = Some bs ->
  length bs = n /\ forall i : nat, (i < n)%nat -> m !! (a + Z.of_nat i) = bs !! i.
Proof.
  induction n as [|n IH]; intros m a bs; simpl.
  - intros [= <-]. split; [reflexivity|]. intros; lia.
  - destruct (m !! a) as [b|] eqn:Hb; [|discriminate].
    destruct (read_bytes m (a + 1) n) as [bs'|] eqn:Hr; [|discriminate].
    intros [= <-]. destruct (IH _ _ _ Hr) as [Hl Hi]. split; [simpl; lia|].
    intros [|i] Hlt.
    + rewrite Z.add_0_r. exact Hb.
    + replace (a + Z.of_nat (S i)) with (a + 1 + Z.of_nat i) by lia.
      apply Hi. lia.
Qed.

Lemma load_le_ext n : forall m1 m2 a,
  (forall i, 0 <= i < Z.of_nat n -> m1 !! (a + i) = m2 !! (a + i)) ->
  load_le m1 a n = load_le m2 a n.
Proof.
  induction n as [|n IH]; intros m1 m2 a H; simpl; [reflexivity|].
  pose proof (H 0 ltac:(lia)) as H0. rewrite Z.add_0_r in H0. rewrite H0.
  rewrite (IH m1 m2 (a + 1)); [reflexivity|].
  intros i Hi. replace (a + 1 + i) with (a + (i + 1)) by lia. apply H. lia.
Qed.

Lemma load_le_range n : forall m a v,
  load_le m a n = Some v -> 0 <= v < 256 ^ Z.of_nat n.
Proof.
  induction n as [|n IH]; intros m a v; simpl load_le.
  - intros [= <-]. simpl. lia.
  - destruct (m !! a) as [b|]; [|discriminate].
    destruct (load_le m (a + 1) n) as [r|] eqn:Hr; [|discriminate].
    intros [= <-]. apply IH in Hr. pose proof (byte_val_range b).
    rewrite Nat2Z.inj_succ, Z.pow_succ_r by lia. lia.
Qed.

Lemma load_le_store_le n : forall m p v,
  load_le (store_le m p n v) p n = Some (v mod 256 ^ Z.of_nat n).
Proof.
  induction n as [|n IH]; intros m p v.
  - simpl. rewrite Z.mod_1_r. reflexivity.
  - simpl load_le. simpl store_le.
    rewrite store_le_other by lia. rewrite lookup_insert_eq.
    rewrite IH. f_equal. rewrite byte_val_of. unfold u8.
    rewrite Nat2Z.inj_succ, Z.pow_succ_r by lia.
    assert (Hp : 0 < 256 ^ Z.of_nat n) by (apply Z.pow_pos_nonneg; lia).
    rewrite Z.rem_mul_r by lia. reflexivity.
Qed.

Lemma load_le_store_le_other n k : forall m p v a,
  a + Z.of_nat k <= p \/ p + Z.of_nat n <= a ->
  load_le (store_le m p n v) a k = load_le m a k.
Proof.
  intros m p v a H. apply load_le_ext. intros i Hi.
  apply store_le_other. lia.
Qed.

(** ** Arena allocator *)

Ltac bind_inv_in H :=
  let a := fresh "a" in
  let s := fresh "s" in
  let H1 := fresh "Hm" in
  apply bind_inv in H; destruct H as (a & s & H1 & H).

Lemma zero_tail p amt st st' (b block : Z) :
  (memset0 p amt ;; ret b) st = Ok (block, st') ->
  block = b /\ in_block (blocks st') p amt = true /\
  forall i, 0 <= i < amt -> mem st' !! (p + i) = Some x00.
Proof.
  intros H. bind_inv_in H. apply ret_inv in H as [-> ->].
  apply memset0_inv in Hm as (Hmem & Hb & _ & _ & _ & Hin).
  split; [reflexivity|]. split; [rewrite Hb; exact Hin|].
  intros i Hi. rewrite Hmem. apply fill_zero_in. lia.
Qed.

Lemma HatSize_inv type st size st' :
  HatSize type st = Ok (size, st') ->
  st' = st /\ 0 <= type /\ HatSize_table !! Z.to_nat type = Some size.
Proof.
  unfold HatSize. destruct (type <? 0) eqn:E; [discriminate|].
  apply Z.ltb_ge in E.
  destruct (HatSize_table !! Z.to_nat type) as [v|]; [|discriminate].
  intros [= -> ->]. repeat split. exact E.
Qed.





Lemma load_ok n a st v :
  load_le (mem st) a n = Some v -> load n a st = Ok (v, st).
Proof. intros H. unfold load. rewrite H. reflexivity. Qed.

Lemma store_eq n a v st u st' :
  store n a v st = Ok (u, st') ->
  st' = mkState (store_le (mem st) a n v) (blocks st) (brk st) (rands st) (stats st)
  /\ in_block (blocks st) a (Z.of_nat n) = true.
Proof.
  unfold store. destruct (in_block (blocks st) a (Z.of_nat n)); [|discriminate].
  intros [= _ <-]. split; reflexivity.
Qed.

Lemma store_ok n a v st :
  in_block (blocks st) a (Z.of_nat n) = true ->
  store n a v st
  = Ok (tt, mkState (store_le (mem st) a n v) (blocks st) (brk st) (rands st) (stats st)).
Proof. intros H. unfold store. rewrite H. reflexivity. Qed.

Lemma readable_store_le m p n v a k :
  readable m a k -> readable (store_le m p n v) a k.
Proof.
  intros H i Hi.
  destruct (Z_lt_ge_dec (a + i) p) as [Hlt|Hge].
  - rewrite store_le_other by lia. apply H. exact Hi.
  - destruct (Z_lt_ge_dec (a + i) (p + Z.of_nat n)) as [Hlt|Hge'].
    + replace (a + i) with (p + (a + i - p)) by lia.
      rewrite store_le_in by lia. eauto.
    + rewrite store_le_other by lia. apply H. exact Hi.
Qed.

Lemma readable_stored m p n v : readable (store_le m p n v) p (Z.of_nat n).
Proof. intros i Hi. rewrite store_le_in by lia. eauto. Qed.

(** X7: the free lists are last-in first-out.  After [hat_free] has taken a
    block of some type, the next [hat_alloc] of that type returns this very
    block, provided the block is not [NULL] and has the room of its class
    inside storage obtained from [malloc]. *)
Theorem free_then_alloc (hat block type size : Z) (st st1 : state) :
  hat_free hat block type st = Ok (tt, st1) ->
  0 <= type < 32 -> HatSize_table !! Z.to_nat type = Some size ->
  0 < block < 18446744073709551616 ->
  in_block (blocks st) block (round8 size) = true ->
  exists st2, hat_alloc hat type st1 = Ok (block, st2).
Proof.
  intros Hfree Ht Hs Hb Hin. unfold hat_free in Hfree.
  bind_inv_in Hfree. apply load_inv in Hm as [-> Hhead].
  bind_inv_in Hfree. apply store_eq in Hm as [-> Hin1].
  bind_inv_in Hfree. apply store_eq in Hm as [-> Hin2].
  bind_inv_in Hfree. apply load_inv in Hm as [-> Hc].
  apply store_eq in Hfree as [-> Hin3]. cbn [mem blocks] in Hin2, Hin3, Hc.
  unfold hat_alloc.
  rewrite (bind_ok _ _ _ _ _ (HatSize_some type size _ (proj1 Ht) Hs)).
  erewrite bind_ok; [|apply load_ok; cbn [mem]; apply load_le_store_le].
  erewrite bind_ok; [|apply store_ok; cbn [blocks]; exact Hin3].
  erewrite bind_ok.
  2:{ apply load_ok. cbn [mem].
      rewrite !load_le_store_le_other
        by (unfold hat_counts, hat_reuse; change (Z.of_nat 8) with 8; change (Z.of_nat 4) with 4; lia).
      apply load_le_store_le. }
  change (256 ^ Z.of_nat 8) with 18446744073709551616.
  rewrite (Z.mod_small block) by lia.
  destruct (block =? 0) eqn:E; [apply Z.eqb_eq in E; lia|].
  change (negb false) with true. cbv iota.
  match goal with
  | |- context [bind (load64 block) _ ?s] =>
      destruct (load_le_readable (mem s) 8 block) as [link Hl]
  end.
  { cbn [mem]. do 3 apply readable_store_le. apply (readable_stored _ _ 8). }
  erewrite bind_ok; [|apply load_ok; cbn [mem]; exact Hl].
  erewrite bind_ok; [|apply store_ok; cbn [blocks]; exact Hin2].
  unfold bind, memset0. cbn [blocks]. rewrite Hin. eexists. reflexivity.
Qed.

Lemma free_then_alloc_witness :
  exists st2, hat_alloc reuse_hat HAT_1 reuse_freed = Ok (reuse_block, st2).
Proof.
  apply (free_then_alloc reuse_hat reuse_block HAT_1 16 reuse_state reuse_freed).
  - apply (ok_state (hat_free reuse_hat reuse_block HAT_1 reuse_state) init_state).
    vm_compute. reflexivity.
  - vm_compute. split; [discriminate | reflexivity].
  - reflexivity.
  - vm_compute. split; reflexivity.
  - vm_compute. reflexivity.
Defined.

(** ** Hash code *)

Lemma hat_code_loop_same st1 st2 (n : nat) : forall p q hash,
  0 <= hash < 4294967296 ->
  (forall i, 0 <= i < Z.of_nat n ->
     is_Some (mem st1 !! (p + i)) /\ mem st1 !! (p + i) = mem st2 !! (q + i)) ->
  exists h, hat_code_loop n p hash st1 = Ok (h, st1) /\
            hat_code_loop n q hash st2 = Ok (h, st2) /\ 0 <= h < 4294967296.
Proof.
  induction n as [|n IH]; intros p q hash Hh H.
  - exists hash. repeat split; lia.
  - destruct (H 0 ltac:(lia)) as [[b Hb] Hq]. rewrite !Z.add_0_r in *.
    rewrite Hb in Hq. symmetry in Hq.
    simpl hat_code_loop.
    rewrite (bind_ok _ _ _ _ _ (load8_byte _ _ _ Hb)).
    rewrite (bind_ok _ _ _ _ _ (load8_byte _ _ _ Hq)).
    apply IH.
    + unfold u32. apply Z.mod_pos_bound. lia.
    + intros i Hi. replace (p + 1 + i) with (p + (i + 1)) by lia.
      replace (q + 1 + i) with (q + (i + 1)) by lia. apply H. lia.
Qed.

(** X8: [hat_code] depends on the bytes of the key only.  Two readable keys
    of the same length that hold the same bytes, at whatever addresses and
    in whatever states, get the same hash code, and the code is a 32-bit
    value. *)
Theorem hat_code_same_bytes (st1 st2 : state) (p q n : Z) :
  0 <= n < 4294967296 ->
  (forall i, 0 <= i < n ->
     is_Some (mem st1 !! (p + i)) /\ mem st1 !! (p + i) = mem st2 !! (q + i)) ->
  exists h, hat_code p n st1 = Ok (h, st1) /\ hat_code q n st2 = Ok (h, st2) /\
            0 <= h < 4294967296.
Proof.
  intros Hn H. unfold hat_code. apply hat_code_loop_same; [exact Hn|].
  intros i Hi. apply H. lia.
Qed.

Lemma hat_code_same_bytes_witness :
  exists h, hat_code 0 9 two_strings = Ok (h, two_strings) /\
            hat_code 16 9 two_strings = Ok (h, two_strings) /\
            0 <= h < 4294967296.
Proof.
  apply (hat_code_same_bytes two_strings two_strings 0 16 9); [lia|].
  intros i Hi.
  assert (Hc : i = 0 \/ i = 1 \/ i = 2 \/ i = 3 \/ i = 4 \/ i = 5 \/
               i = 6 \/ i = 7 \/ i = 8) by lia.
  repeat (destruct Hc as [-> | Hc]); try subst i;
    (split; [vm_compute; eexists; reflexivity | vm_compute; reflexivity]).
Defined.

(** ** Prefix decoders, all lengths *)

Lemma short_prefix_decoded (st : state) (base tst len : Z) :
  0 <= len <= 127 -> 0 <= tst < 65535 ->
  key_prefix (mem st) (base_keys base + tst) len ->
  key_len_ushort base tst st = Ok ((len, tst + 1), st) /\
  key_len_uint base tst st = Ok ((len, tst + 1), st) /\
  key_len_uchar base tst st = Ok ((len, tst + 1), st).
Proof.
  intros Hlen Htst Hp. unfold key_prefix in Hp.
  assert (Ht1 : u16 (tst + 1) = tst + 1) by (unfold u16; apply Z.mod_small; lia).
  assert (Hle : (len >? 127) = false) by (rewrite Z.gtb_ltb; apply Z.ltb_ge; lia).
  rewrite Hle in Hp.
  assert (Hb : byte_val (byte_of (Z.land len 127)) = len).
  { rewrite byte_val_of. change 127 with (Z.ones 7).
    rewrite Z.land_ones by lia. change (2 ^ 7) with 128.
    rewrite (Z.mod_small len 128) by lia. unfold u8. apply Z.mod_small. lia. }
  assert (Hz : Z.land len 128 = 0).
  { apply Z.bits_inj'. intros n Hn. rewrite Z.land_spec, Z.bits_0.
    destruct (Z.eq_dec n 7) as [->|Hne].
    - replace (Z.testbit len 7) with false; [reflexivity|].
      symmetry. apply Z.bits_above_log2; [lia|].
      destruct (Z.eq_dec len 0) as [->|]; [simpl; lia|].
      apply Z.log2_lt_pow2; lia.
    - replace (Z.testbit 128 n) with false; [apply andb_false_r|].
      symmetry. change 128 with (2 ^ 7). apply Z.pow2_bits_false. lia. }
  repeat split.
  - unfold key_len_ushort.
    rewrite (bind_ok _ _ _ _ _ (load8_byte _ _ _ Hp)), Hb, Ht1, Hz. reflexivity.
  - unfold key_len_uint.
    rewrite (bind_ok _ _ _ _ _ (load8_byte _ _ _ Hp)), Hb, Ht1, Hle. reflexivity.
  - unfold key_len_uchar.
    rewrite (bind_ok _ _ _ _ _ (load8_byte _ _ _ Hp)), Hb, Ht1, Hle. reflexivity.
Qed.

Lemma key_prefix_decoded (st : state) (base tst len : Z) :
  0 <= len <= 32767 -> 0 <= tst < 65534 ->
  key_prefix (mem st) (base_keys base + tst) len ->
  key_len_ushort base tst st = Ok ((len, tst + key_skip len), st) /\
  key_len_uint base tst st
  = Ok ((if len >? 0x7f then len + 128 else len, tst + key_skip len), st) /\
  key_len_uchar base tst st = Ok ((len mod 256, tst + key_skip len), st).
Proof.
  intros Hlen Htst Hp. unfold key_skip.
  destruct (len >? 127) eqn:E.
  - unfold key_prefix in Hp. rewrite E in Hp.
    assert (Ht1 : u16 (tst + 1) = tst + 1) by (unfold u16; apply Z.mod_small; lia).
    apply Z.gtb_lt in E. assert (Hl : 128 <= len <= 32767) by lia.
    destruct (long_prefix_decoded st base tst len Hl Htst Hp) as [H1 H2].
    split; [exact H1|]. split; [exact H2|].
    destruct Hp as [H0 Hhi].
    destruct (long_prefix_bytes len Hl) as (Hb0 & Hb1 & Hl128 & Hl127 & Hs).
    pose proof (Z.mod_pos_bound len 128 ltac:(lia)) as Hm.
    pose proof (Z.div_mod len 128 ltac:(lia)) as Hd.
    rewrite <- Z.add_assoc in Hhi.
    unfold key_len_uchar.
    rewrite (bind_ok _ _ _ _ _ (load8_byte _ _ _ H0)), Hb0, Ht1.
    assert (Hgt : (len mod 128 + 128 >? 127) = true) by (apply Z.gtb_lt; lia).
    rewrite Hgt.
    rewrite (bind_ok _ _ _ _ _ (load8_byte _ _ _ Hhi)), Hb1, Hl127, Hs.
    unfold ret. do 3 f_equal; [unfold u8; f_equal; lia|].
    unfold u16. rewrite Z.mod_small; lia.
  - rewrite Z.gtb_ltb in E. apply Z.ltb_ge in E.
    rewrite (Z.mod_small len 256) by lia.
    apply short_prefix_decoded; [lia | lia | exact Hp].
Qed.

(** X9: over the length prefix that [hat_new_array] and [hat_add_array]
    write (one byte up to 127, two bytes beyond), the decoder with a
    [ushort] length ([hat_strip_array], [hat_new_pail], [hat_burst_array],
    [hat_burst_pail]) reads every length up to 32767 back; the decoder of
    [hat_find] and [hat_cell] reads the length back below 128 and 128 more
    from there on; the decoder with a [uchar] length ([hat_burst_bucket])
    reads the length modulo 256.  All three advance by the size of the
    prefix. *)
Theorem prefix_decoded (st : state) (base tst len : Z) :
  0 <= len <= 32767 -> 0 <= tst < 65534 ->
  key_prefix (mem st) (base_keys base + tst) len ->
  key_len_ushort base tst st = Ok ((len, tst + key_skip len), st) /\
  key_len_uint base tst st
  = Ok ((if len >? 0x7f then len + 128 else len, tst + key_skip len), st) /\
  key_len_uchar base tst st = Ok ((len mod 256, tst + key_skip len), st).
Proof. apply key_prefix_decoded. Qed.

Lemma prefix_decoded_witness :
  key_len_ushort 96 0 prefix_300 = Ok ((300, 0 + key_skip 300), prefix_300) /\
  key_len_uint 96 0 prefix_300
  = Ok ((if 300 >? 0x7f then 300 + 128 else 300, 0 + key_skip 300), prefix_300) /\
  key_len_uchar 96 0 prefix_300 = Ok ((300 mod 256, 0 + key_skip 300), prefix_300).
Proof.
  apply (prefix_decoded prefix_300 96 0 300); [lia | lia |].
  vm_compute. split; reflexivity.
Defined.

(** ** Set mode *)

Lemma read_only_mem {A} (m : M A) st a st' :
  read_only m -> m st = Ok (a, st') -> mem st' = mem st.
Proof. intros Hm H. exact (proj1 (Hm _ _ _ H)). Qed.

Lemma upd_stats_inv f st u st' :
  upd_stats f st = Ok (u, st') ->
  mem st' = mem st /\ blocks st' = blocks st /\ brk st' = brk st /\
  rands st' = rands st.
Proof. intros [= _ <-]. repeat split. Qed.

Lemma find_array_set_mode fuel : forall hat base buff off max tst cnt st r st',
  load_le (mem st) (hat_aux hat) 4 = Some 0 ->
  find_array fuel hat base buff off max tst cnt st = Ok (r, st') ->
  r = 0 \/ r = 1.
Proof.
  induction fuel as [|fuel IH]; intros hat base buff off max tst cnt st r st' Haux H;
    simpl find_array in H; bind_inv_in H; apply load_inv in Hm as [-> _];
    destruct (negb (tst <? a));
    try (apply ret_inv in H as [-> _]; left; reflexivity);
    try discriminate.
  bind_inv_in H. apply upd_stats_inv in Hm as [Hm1 _].
  bind_inv_in H. destruct a1 as [len tst'].
  apply (read_only_mem _ _ _ _ (read_only_key_len_uint _ _)) in Hm.
  bind_inv_in H.
  assert (Hm2 : mem s1 = mem s0).
  { destruct (len =? u32 (max - off)).
    - exact (read_only_mem _ _ _ _ (read_only_keycmp _ _ _) Hm0).
    - apply ret_inv in Hm0 as [_ ->]. reflexivity. }
  destruct (a1 =? 0).
  - bind_inv_in H. apply load_inv in Hm3 as [-> Hl].
    rewrite Hm2, Hm, Hm1, Haux in Hl. injection Hl as <-.
    simpl in H. apply ret_inv in H as [-> _]. right; reflexivity.
  - apply (IH _ _ _ _ _ _ _ _ _ _ (eq_trans (f_equal (fun m => load_le m _ 4)
             (eq_trans Hm2 (eq_trans Hm Hm1))) Haux) H).
Qed.

Lemma find_node_set_mode fuel : forall hat buff max off next st r st',
  load_le (mem st) (hat_aux hat) 4 = Some 0 ->
  find_node fuel hat buff max off next st = Ok (r, st') ->
  r = 0 \/ r = 1.
Proof.
  induction fuel as [|fuel IH]; intros hat buff max off next st r st' Haux H;
    simpl find_node in H; destruct (next =? 0);
    try (apply ret_inv in H as [-> _]; left; reflexivity);
    try discriminate.
  destruct (Z.land next HAT_type =? HAT_array).
  { bind_inv_in H. apply upd_stats_inv in Hm as [Hm1 _].
    rewrite <- Hm1 in Haux.
    exact (find_array_set_mode (S fuel) hat (Z.land next HAT_mask) buff off max
             0 0 s r st' Haux H). }
  destruct (Z.land next HAT_type =? HAT_pail).
  { bind_inv_in H. apply upd_stats_inv in Hm as [Hm1 _].
    bind_inv_in H. apply (read_only_mem _ _ _ _ (read_only_hat_code _ _)) in Hm.
    bind_inv_in H. apply load_inv in Hm0 as [-> _].
    rewrite <- Hm1, <- Hm in Haux. exact (IH _ _ _ _ _ _ _ _ Haux H). }
  destruct (Z.land next HAT_type =? HAT_bucket).
  { bind_inv_in H. apply upd_stats_inv in Hm as [Hm1 _].
    bind_inv_in H. apply (read_only_mem _ _ _ _ (read_only_hat_code _ _)) in Hm.
    bind_inv_in H. apply load_inv in Hm0 as [-> _].
    rewrite <- Hm1, <- Hm in Haux. exact (IH _ _ _ _ _ _ _ _ Haux H). }
  destruct (Z.land next HAT_type =? HAT_radix).
  { bind_inv_in H. apply upd_stats_inv in Hm as [Hm1 _].
    bind_inv_in H. destruct a0 as [ch off'].
    apply (read_only_mem _ _ _ _ (read_only_radix_byte _ _ _)) in Hm.
    bind_inv_in H. apply load_inv in Hm0 as [-> _].
    rewrite <- Hm1, <- Hm in Haux. exact (IH _ _ _ _ _ _ _ _ Haux H). }
  exact (IH _ _ _ _ _ _ _ _ Haux H).
Qed.

(** X10: in a container opened without aux bytes ([hat->aux] reads 0),
    [hat_find] never returns a pointer: whatever the key, its result is 0
    (absent) or the sentinel 1 (present). *)
Theorem find_in_set_mode (fuel : nat) (hat buff max : Z) (st st' : state) (r : Z) :
  load32 (hat_aux hat) st = Ok (0, st) ->
  hat_find fuel hat buff max st = Ok (r, st') ->
  r = 0 \/ r = 1.
Proof.
  intros Haux H. apply load_inv in Haux as [_ Haux].
  unfold hat_find in H.
  bind_inv_in H. apply load_inv in Hm as [-> _].
  bind_inv_in H. destruct a0 as [triple off].
  apply (read_only_mem _ _ _ _ (read_only_root_index _ _ _ _ _)) in Hm.
  bind_inv_in H. apply load_inv in Hm0 as [-> _].
  rewrite <- Hm in Haux. exact (find_node_set_mode _ _ _ _ _ _ _ _ _ Haux H).
Qed.

(** A hit in [set_state]. *)
Lemma find_in_set_mode_witness :
  exists st', hat_find enough set_hat set_buff 2 set_state = Ok (1, st') /\
              (1 = 0 \/ 1 = 1).
Proof.
  assert (Hit : outcome (hat_find enough set_hat set_buff 2 set_state) = Ok 1)
    by (vm_compute; reflexivity).
  destruct (outcome_ok _ _ Hit) as [st1 E1].
  exists st1. split; [exact E1|].
  apply (find_in_set_mode enough set_hat set_buff 2 set_state st1 1); [|exact E1].
  apply load_ok. vm_compute. reflexivity.
Defined.

(** ** The cursor never writes to the container *)

Lemma same_memory_refl st : same_memory st st.
Proof. repeat split. Qed.

Lemma same_memory_trans st1 st2 st3 :
  same_memory st1 st2 -> same_memory st2 st3 -> same_memory st1 st3.
Proof. unfold same_memory. intros (?&?&?&?) (?&?&?&?). repeat split; congruence. Qed.

Lemma keeps_ret {A} (a : A) : keeps_memory (ret a).
Proof. intros st b st' [= _ <-]. apply same_memory_refl. Qed.

Lemma keeps_fail {A} f : keeps_memory (@fail A f).
Proof. intros st b st' H. discriminate. Qed.

Lemma keeps_out_of_fuel {A} : keeps_memory (@out_of_fuel A).
Proof. intros st b st' H. discriminate. Qed.

Lemma keeps_bind {A B} (m : M A) (k : A -> M B) :
  keeps_memory m -> (forall a, keeps_memory (k a)) -> keeps_memory (bind m k).
Proof.
  intros Hm Hk st b st' H. apply bind_inv in H as (a & s & H1 & H2).
  eapply same_memory_trans; [eapply Hm | eapply Hk]; eassumption.
Qed.

Lemma keeps_load n a : keeps_memory (load n a).
Proof. intros st v st' H. apply load_inv in H as [-> _]. apply same_memory_refl. Qed.

Lemma keeps_rand : keeps_memory rand.
Proof.
  intros st v st'. unfold rand. destruct (rands st); intros [= _ <-]; repeat split.
Qed.

Lemma keeps_HatSize type : keeps_memory (HatSize type).
Proof.
  intros st v st' H. apply HatSize_inv in H as (-> & _). apply same_memory_refl.
Qed.

Create HintDb keeps.

#[local] Hint Resolve keeps_ret keeps_fail keeps_out_of_fuel keeps_load
  keeps_rand keeps_HatSize : keeps.

Ltac keeps_step :=
  first
    [ solve [ auto 1 with keeps ]
    | apply keeps_bind; [ | intros ? ]
    | progress cbv zeta
    | progress unfold load8, load16, load32, load64
    | match goal with
      | |- keeps_memory (if ?c then _ else _) => destruct c
      | |- keeps_memory (match ?p with (_, _) => _ end) => destruct p
      | |- keeps_memory (match ?p with Some _ => _ | None => _ end) => destruct p
      end ].

Ltac keeps_auto := repeat keeps_step.

Ltac keeps_loop fuel :=
  let IH := fresh "IH" in
  induction fuel as [|fuel IH]; intros; simpl; keeps_auto; try apply IH.

Lemma keeps_get_next c i : keeps_memory (get_next c i).
Proof. unfold get_next. keeps_auto. Qed.
Lemma keeps_get_scan c i : keeps_memory (get_scan c i).
Proof. unfold get_scan. keeps_auto. Qed.
Lemma keeps_set_next c i v : keeps_memory (set_next c i v).
Proof. unfold set_next. keeps_auto. Qed.
Lemma keeps_set_scan c i v : keeps_memory (set_scan c i v).
Proof. unfold set_scan. keeps_auto. Qed.
Lemma keeps_push_next c node : keeps_memory (push_next c node).
Proof. unfold push_next. cbv zeta. apply keeps_set_next. Qed.
Lemma keeps_sort_get ks i : keeps_memory (sort_get ks i).
Proof. unfold sort_get. keeps_auto. Qed.
Lemma keeps_sort_set ks i e : keeps_memory (sort_set ks i e).
Proof. unfold sort_set. keeps_auto. Qed.

#[local] Hint Resolve keeps_get_next keeps_get_scan keeps_set_next keeps_set_scan
  keeps_push_next keeps_sort_get keeps_sort_set : keeps.

Lemma keeps_sort_swap ks i j : keeps_memory (sort_swap ks i j).
Proof. unfold sort_swap. keeps_auto. Qed.
Lemma keeps_sort_len e : keeps_memory (sort_len e).
Proof. unfold sort_len. keeps_auto. Qed.
Lemma keeps_sort_len_uchar e : keeps_memory (sort_len_uchar e).
Proof. unfold sort_len_uchar. keeps_auto. Qed.

#[local] Hint Resolve keeps_sort_swap keeps_sort_len keeps_sort_len_uchar : keeps.

Lemma keeps_sort_char e o : keeps_memory (sort_char e o).
Proof. unfold sort_char. keeps_auto. Qed.

#[local] Hint Resolve keeps_sort_char : keeps.

Lemma keeps_vecswap fuel : forall i j n x ks, keeps_memory (vecswap fuel i j n x ks).
Proof. keeps_loop fuel. Qed.
Lemma keeps_part_up fuel : forall x o pivot a b c ks,
  keeps_memory (part_up fuel x o pivot a b c ks).
Proof. keeps_loop fuel. Qed.
Lemma keeps_part_down fuel : forall x o pivot b c d ks,
  keeps_memory (part_down fuel x o pivot b c d ks).
Proof. keeps_loop fuel. Qed.

#[local] Hint Resolve keeps_vecswap keeps_part_up keeps_part_down : keeps.

Lemma keeps_partition fuel : forall x o pivot a b c d ks,
  keeps_memory (partition fuel x o pivot a b c d ks).
Proof.
  induction fuel as [|fuel IH]; intros; [apply keeps_out_of_fuel|].
  change (keeps_memory (
    let* '(a, b, ks) := part_up (S fuel) x o pivot a b c ks in
    let* '(c, d, ks) := part_down (S fuel) x o pivot b c d ks in
    if b >? c then ret (a, b, c, d, ks)
    else let* ks := sort_swap ks (x + b) (x + c) in
         partition fuel x o pivot a (b + 1) (c - 1) d ks)).
  keeps_auto; try apply IH.
Qed.

Lemma keeps_insert_cmp fuel : forall e1 e2 chb chc skipb skipc r,
  keeps_memory (insert_cmp fuel e1 e2 chb chc skipb skipc r).
Proof. keeps_loop fuel. Qed.

#[local] Hint Resolve keeps_partition keeps_insert_cmp : keeps.

Lemma keeps_insert_down fuel : forall x o b ks,
  keeps_memory (insert_down fuel x o b ks).
Proof.
  induction fuel as [|fuel IH]; intros; [simpl; keeps_auto|].
  change (keeps_memory (
    if negb (b >? 0) then ret ks
    else
      let* e1 := sort_get ks (x + (b - 1)) in
      let* e2 := sort_get ks (x + b) in
      let* '(chb, skipb) := sort_len_uchar e1 in
      let* '(chc, skipc) := sort_len_uchar e2 in
      let* d := insert_cmp (S fuel) e1 e2 chb chc skipb skipc o in
      let* ks :=
        (if (d >? 0) || ((d =? 0) && (chb >? chc))
         then sort_swap ks (x + b) (x + (b - 1))
         else ret ks) in
      insert_down fuel x o (b - 1) ks)).
  keeps_auto; try apply IH.
Qed.

#[local] Hint Resolve keeps_insert_down : keeps.

Lemma keeps_insert_sort fuel : forall x n o a ks,
  keeps_memory (insert_sort fuel x n o a ks).
Proof.
  induction fuel as [|fuel IH]; intros; [simpl; keeps_auto|].
  change (keeps_memory (
    if negb (a + 1 <? n) then ret ks
    else let* ks := insert_down (S fuel) x o (a + 1) ks in
         insert_sort fuel x n o (a + 1) ks)).
  keeps_auto; try apply IH.
Qed.

#[local] Hint Resolve keeps_insert_sort : keeps.

Lemma keeps_hat_qsort fuel : forall x n o ks, keeps_memory (hat_qsort fuel x n o ks).
Proof.
  induction fuel as [|fuel IH]; intros; [apply keeps_out_of_fuel|].
  change (keeps_memory (
      if n >? 10 then
        let* rnd := rand in
        let a := Z.rem rnd n in
        let* ks := sort_swap ks (x + 0) (x + a) in
        let* e0 := sort_get ks (x + 0) in
        let* pivot := sort_char e0 o in
        let* '(a, b, c, d, ks) := partition (S fuel) x o pivot 1 1 (n - 1) (n - 1) ks in
        let r := if a <? b - a then a else b - a in
        let* ks := vecswap (S fuel) 0 (b - r) r x ks in
        let r := if d - c <? n - d - 1 then d - c else n - d - 1 in
        let* ks := vecswap (S fuel) b (n - r) r x ks in
        let r := d - c in
        let* ks := (if negb (r =? 0) then hat_qsort fuel (x + n - r) r o ks
                    else ret ks) in
        let r := b - a in
        let* ks := (if negb (r =? 0) then hat_qsort fuel x r o ks else ret ks) in
        let* er := sort_get ks (x + r) in
        let* '(len, _) := sort_len er in
        if len =? o then ret ks
        else hat_qsort fuel (x + r) (n + (a - d - 1)) (u8 (o + 1)) ks
      else if n >? 1 then insert_sort (S fuel) x n o 0 ks
      else ret ks)).
  keeps_auto; try apply IH.
Qed.

#[local] Hint Resolve keeps_hat_qsort : keeps.

Lemma keeps_key_len_ushort base tst : keeps_memory (key_len_ushort base tst).
Proof. unfold key_len_ushort. keeps_auto. Qed.

#[local] Hint Resolve keeps_key_len_ushort : keeps.

Lemma keeps_strip_array_keys fuel : forall aux base size list tst cnt ks,
  keeps_memory (strip_array_keys fuel aux base size list tst cnt ks).
Proof.
  induction fuel as [|fuel IH]; intros; cbn [strip_array_keys]; keeps_auto;
    try apply IH.
Qed.

#[local] Hint Resolve keeps_strip_array_keys : keeps.

Lemma keeps_hat_strip_array fuel aux node list ks :
  keeps_memory (hat_strip_array fuel aux node list ks).
Proof. unfold hat_strip_array. keeps_auto. Qed.

#[local] Hint Resolve keeps_hat_strip_array : keeps.

Lemma keeps_strip_pail_slots fuel : forall aux pail list idx total ks,
  keeps_memory (strip_pail_slots fuel aux pail list idx total ks).
Proof.
  induction fuel as [|fuel IH]; intros; cbn [strip_pail_slots]; keeps_auto;
    try apply IH.
Qed.

#[local] Hint Resolve keeps_strip_pail_slots : keeps.

Lemma keeps_hat_strip_pail fuel aux node list ks :
  keeps_memory (hat_strip_pail fuel aux node list ks).
Proof. unfold hat_strip_pail. keeps_auto. Qed.

#[local] Hint Resolve keeps_hat_strip_pail : keeps.

Lemma keeps_sort_bucket_slots fuel : forall aux bucket idx cnt ks,
  keeps_memory (sort_bucket_slots fuel aux bucket idx cnt ks).
Proof.
  induction fuel as [|fuel IH]; intros; cbn [sort_bucket_slots]; keeps_auto;
    try apply IH.
Qed.

#[local] Hint Resolve keeps_sort_bucket_slots : keeps.

Lemma keeps_hat_sort fuel c : keeps_memory (hat_sort fuel c).
Proof. unfold hat_sort. keeps_auto. Qed.

Lemma keeps_memcmp n : forall p q, keeps_memory (memcmp n p q).
Proof. induction n as [|n IH]; intros; cbn [memcmp]; keeps_auto; try apply IH. Qed.

Lemma keeps_first_slot fuel : forall radix ch, keeps_memory (first_slot fuel radix ch).
Proof.
  induction fuel as [|fuel IH]; intros; cbn [first_slot]; keeps_auto; try apply IH.
Qed.

Lemma keeps_next_slot fuel : forall radix idx max,
  keeps_memory (next_slot fuel radix idx max).
Proof.
  induction fuel as [|fuel IH]; intros; cbn [next_slot]; keeps_auto; try apply IH.
Qed.

Lemma keeps_prev_slot fuel : forall radix idx, keeps_memory (prev_slot fuel radix idx).
Proof.
  induction fuel as [|fuel IH]; intros; cbn [prev_slot]; keeps_auto; try apply IH.
Qed.

Lemma keeps_last_slot fuel : forall radix ch, keeps_memory (last_slot fuel radix ch).
Proof.
  induction fuel as [|fuel IH]; intros; cbn [last_slot]; keeps_auto; try apply IH.
Qed.

Lemma keeps_start_slot fuel : forall radix ch max,
  keeps_memory (start_slot fuel radix ch max).
Proof.
  induction fuel as [|fuel IH]; intros; cbn [start_slot]; keeps_auto; try apply IH.
Qed.

Lemma keeps_start_rootscan n : forall buff max off rootscan,
  keeps_memory (start_rootscan n buff max off rootscan).
Proof.
  induction n as [|n IH]; intros; cbn [start_rootscan]; keeps_auto; try apply IH.
Qed.

Lemma keeps_last_root fuel : forall root rootscan,
  keeps_memory (last_root fuel root rootscan).
Proof.
  induction fuel as [|fuel IH]; intros; cbn [last_root]; keeps_auto; try apply IH.
Qed.

#[local] Hint Resolve keeps_hat_sort keeps_memcmp keeps_first_slot keeps_next_slot
  keeps_prev_slot keeps_last_slot keeps_start_slot keeps_start_rootscan
  keeps_last_root : keeps.

Lemma keeps_descend_first fuel : forall c, keeps_memory (descend_first fuel c).
Proof.
  induction fuel as [|fuel IH]; intros; cbn [descend_first]; keeps_auto;
    try apply IH.
Qed.

Lemma keeps_descend_last fuel : forall c, keeps_memory (descend_last fuel c).
Proof.
  induction fuel as [|fuel IH]; intros; cbn [descend_last]; keeps_auto;
    try apply IH.
Qed.

#[local] Hint Resolve keeps_descend_first keeps_descend_last : keeps.

Lemma keeps_nxt_levels fuel : forall c, keeps_memory (nxt_levels fuel c).
Proof.
  induction fuel as [|fuel IH]; intros; cbn [nxt_levels]; keeps_auto;
    try apply IH.
Qed.

Lemma keeps_prv_levels fuel : forall c, keeps_memory (prv_levels fuel c).
Proof.
  induction fuel as [|fuel IH]; intros; cbn [prv_levels]; keeps_auto;
    try apply IH.
Qed.

#[local] Hint Resolve keeps_nxt_levels keeps_prv_levels : keeps.

Lemma keeps_hat_nxt fuel c : keeps_memory (hat_nxt fuel c).
Proof. unfold hat_nxt. keeps_auto. Qed.

Lemma keeps_hat_prv fuel c : keeps_memory (hat_prv fuel c).
Proof. unfold hat_prv. keeps_auto. Qed.

#[local] Hint Resolve keeps_hat_nxt keeps_hat_prv : keeps.

Lemma keeps_greater_keys fuel : forall c buff max,
  keeps_memory (greater_keys fuel c buff max).
Proof.
  induction fuel as [|fuel IH]; intros; cbn [greater_keys]; keeps_auto;
    try apply IH.
Qed.

#[local] Hint Resolve keeps_greater_keys : keeps.

Lemma keeps_hat_greater fuel c buff max : keeps_memory (hat_greater fuel c buff max).
Proof. unfold hat_greater. keeps_auto. Qed.

#[local] Hint Resolve keeps_hat_greater : keeps.

Lemma keeps_start_descend fuel : forall c buff max off,
  keeps_memory (start_descend fuel c buff max off).
Proof.
  induction fuel as [|fuel IH]; intros; cbn [start_descend]; keeps_auto;
    try apply IH.
Qed.

#[local] Hint Resolve keeps_start_descend : keeps.

Lemma keeps_hat_start fuel c buff max : keeps_memory (hat_start fuel c buff max).
Proof. unfold hat_start. keeps_auto. Qed.

Lemma keeps_hat_last fuel c : keeps_memory (hat_last fuel c).
Proof. unfold hat_last. keeps_auto. Qed.

Lemma keeps_hat_slot c : keeps_memory (hat_slot c).
Proof. unfold hat_slot. keeps_auto. Qed.

Lemma keeps_hat_cursor hat : keeps_memory (hat_cursor hat).
Proof. unfold hat_cursor. keeps_auto. Qed.



(** ** hat_qsort only rearranges *)

Lemma rearranged_refl ks : rearranged ks ks.
Proof. exists (fun i => i), (fun i => i). repeat split. Qed.

Lemma rearranged_trans ks1 ks2 ks3 :
  rearranged ks1 ks2 -> rearranged ks2 ks3 -> rearranged ks1 ks3.
Proof.
  intros (f1 & g1 & Hgf1 & Hfg1 & Ho1 & He1) (f2 & g2 & Hgf2 & Hfg2 & Ho2 & He2).
  exists (fun i => f1 (f2 i)), (fun i => g2 (g1 i)). repeat split.
  - intros i. rewrite Hgf1. apply Hgf2.
  - intros i. rewrite Hfg2. apply Hfg1.
  - intros i Hi. rewrite (Ho2 i Hi). apply Ho1. exact Hi.
  - intros i. rewrite He2. apply He1.
Qed.

Lemma sort_get_inv ks i st e st' :
  sort_get ks i st = Ok (e, st') ->
  e = sort_entry ks i /\ st' = st /\ in_range i HatBucketMax = true.
Proof.
  unfold sort_get. destruct (in_range i HatBucketMax); [|discriminate].
  intros [= <- <-]. repeat split.
Qed.

Lemma sort_set_inv ks i e st ks' st' :
  sort_set ks i e st = Ok (ks', st') ->
  ks' = <[i := e]> ks /\ st' = st /\ in_range i HatBucketMax = true.
Proof.
  unfold sort_set. destruct (in_range i HatBucketMax); [|discriminate].
  intros [= <- <-]. repeat split.
Qed.

Lemma rearranged_sort_swap ks i j st ks' st' :
  sort_swap ks i j st = Ok (ks', st') -> rearranged ks ks'.
Proof.
  unfold sort_swap. intros H.
  bind_inv_in H. apply sort_get_inv in Hm as (-> & -> & Hi).
  bind_inv_in H. apply sort_get_inv in Hm as (-> & -> & Hj).
  bind_inv_in H. apply sort_set_inv in Hm as (-> & -> & _).
  apply sort_set_inv in H as (-> & -> & _).
  pose (f := fun k : Z => if decide (k = j) then i
                          else if decide (k = i) then j else k).
  exists f, f.
  assert (Hinv : forall k, f (f k) = k).
  { intros k. unfold f. repeat (destruct (decide _)); congruence. }
  repeat split; try exact Hinv.
  - intros k Hk. unfold f.
    destruct (decide (k = j)) as [->|]; [congruence|].
    destruct (decide (k = i)) as [->|]; [congruence|]. reflexivity.
  - intros k. unfold f, sort_entry.
    destruct (decide (k = j)) as [->|Hkj].
    + rewrite lookup_insert_eq. reflexivity.
    + rewrite lookup_insert_ne by congruence.
      destruct (decide (k = i)) as [->|Hki].
      * rewrite lookup_insert_eq. reflexivity.
      * rewrite lookup_insert_ne by congruence. reflexivity.
Qed.

Lemma rearranged_vecswap fuel : forall i j n x ks st ks' st',
  vecswap fuel i j n x ks st = Ok (ks', st') -> rearranged ks ks'.
Proof.
  induction fuel as [|fuel IH]; intros i j n x ks st ks' st' H;
    cbn [vecswap] in H; destruct (n =? 0);
    try (apply ret_inv in H as [-> _]; apply rearranged_refl);
    try discriminate.
  bind_inv_in H. apply rearranged_sort_swap in Hm. apply IH in H.
  exact (rearranged_trans _ _ _ Hm H).
Qed.

Lemma rearranged_part_up fuel : forall x o pivot a b c ks st a' b' ks' st',
  part_up fuel x o pivot a b c ks st = Ok ((a', b', ks'), st') ->
  rearranged ks ks'.
Proof.
  induction fuel as [|fuel IH]; intros x o pivot a b c ks st a' b' ks' st' H;
    cbn [part_up] in H; destruct (negb (b <=? c));
    try (apply ret_inv in H as [[= -> -> ->] _]; apply rearranged_refl);
    try discriminate.
  bind_inv_in H. bind_inv_in H.
  destruct (a1 >? pivot).
  { apply ret_inv in H as [[= -> -> ->] _]. apply rearranged_refl. }
  bind_inv_in H. destruct a2 as [a2 ks2].
  assert (Hr : rearranged ks ks2).
  { destruct (a1 =? pivot).
    - bind_inv_in Hm1. apply ret_inv in Hm1 as [[= -> ->] _].
      exact (rearranged_sort_swap _ _ _ _ _ _ Hm2).
    - apply ret_inv in Hm1 as [[= -> ->] _]. apply rearranged_refl. }
  apply IH in H. exact (rearranged_trans _ _ _ Hr H).
Qed.

Lemma rearranged_part_down fuel : forall x o pivot b c d ks st c' d' ks' st',
  part_down fuel x o pivot b c d ks st = Ok ((c', d', ks'), st') ->
  rearranged ks ks'.
Proof.
  induction fuel as [|fuel IH]; intros x o pivot b c d ks st c' d' ks' st' H;
    cbn [part_down] in H; destruct (negb (b <=? c));
    try (apply ret_inv in H as [[= -> -> ->] _]; apply rearranged_refl);
    try discriminate.
  bind_inv_in H. bind_inv_in H.
  destruct (a0 <? pivot).
  { apply ret_inv in H as [[= -> -> ->] _]. apply rearranged_refl. }
  bind_inv_in H. destruct a1 as [d2 ks2].
  assert (Hr : rearranged ks ks2).
  { destruct (a0 =? pivot).
    - bind_inv_in Hm1. apply ret_inv in Hm1 as [[= -> ->] _].
      exact (rearranged_sort_swap _ _ _ _ _ _ Hm2).
    - apply ret_inv in Hm1 as [[= -> ->] _]. apply rearranged_refl. }
  apply IH in H. exact (rearranged_trans _ _ _ Hr H).
Qed.

Lemma rearranged_partition fuel : forall x o pivot a b c d ks st r ks' st',
  partition fuel x o pivot a b c d ks st = Ok ((r, ks'), st') ->
  rearranged ks ks'.
Proof.
  induction fuel as [|fuel IH]; intros x o pivot a b c d ks st r ks' st' H;
    cbn [partition] in H; [discriminate|].
  bind_inv_in H. destruct a0 as [[a1 b1] ks1].
  apply rearranged_part_up in Hm.
  bind_inv_in H. destruct a0 as [[c1 d1] ks2].
  apply rearranged_part_down in Hm0.
  pose proof (rearranged_trans _ _ _ Hm Hm0) as Hr.
  destruct (b1 >? c1).
  { apply ret_inv in H as [[= -> ->] _]. exact Hr. }
  bind_inv_in H. apply rearranged_sort_swap in Hm1. apply IH in H.
  exact (rearranged_trans _ _ _ Hr (rearranged_trans _ _ _ Hm1 H)).
Qed.

Lemma rearranged_insert_down fuel : forall x o b ks st ks' st',
  insert_down fuel x o b ks st = Ok (ks', st') -> rearranged ks ks'.
Proof.
  induction fuel as [|fuel IH]; intros x o b ks st ks' st' H;
    cbn [insert_down] in H; destruct (negb (b >? 0));
    try (apply ret_inv in H as [-> _]; apply rearranged_refl);
    try discriminate.
  do 2 bind_inv_in H.
  bind_inv_in H. destruct a1 as [chb skipb].
  bind_inv_in H. destruct a1 as [chc skipc].
  do 2 bind_inv_in H.
  assert (Hr : rearranged ks a2).
  { destruct ((a1 >? 0) || (a1 =? 0) && (chb >? chc)).
    - exact (rearranged_sort_swap _ _ _ _ _ _ Hm4).
    - apply ret_inv in Hm4 as [-> _]. apply rearranged_refl. }
  apply IH in H. exact (rearranged_trans _ _ _ Hr H).
Qed.

Lemma rearranged_insert_sort fuel : forall x n o a ks st ks' st',
  insert_sort fuel x n o a ks st = Ok (ks', st') -> rearranged ks ks'.
Proof.
  induction fuel as [|fuel IH]; intros x n o a ks st ks' st' H;
    cbn [insert_sort] in H; cbv zeta in H; destruct (negb (a + 1 <? n));
    try (apply ret_inv in H as [-> _]; apply rearranged_refl);
    try discriminate.
  bind_inv_in H. apply rearranged_insert_down in Hm. apply IH in H.
  exact (rearranged_trans _ _ _ Hm H).
Qed.

Lemma rearranged_hat_qsort fuel : forall x n o ks st ks' st',
  hat_qsort fuel x n o ks st = Ok (ks', st') -> rearranged ks ks'.
Proof.
  induction fuel as [|fuel IH]; intros x n o ks st ks' st' H;
    cbn [hat_qsort] in H; [discriminate|].
  destruct (n >? 10).
  - bind_inv_in H. bind_inv_in H. apply rearranged_sort_swap in Hm0.
    do 2 bind_inv_in H.
    bind_inv_in H. destruct a3 as [[[[pa pb] pc] pd] ks1].
    apply rearranged_partition in Hm3.
    cbv zeta in H.
    bind_inv_in H. apply rearranged_vecswap in Hm4.
    bind_inv_in H. apply rearranged_vecswap in Hm5.
    bind_inv_in H.
    assert (Hr1 : rearranged a4 a5).
    { destruct (negb (pd - pc =? 0)).
      - exact (IH _ _ _ _ _ _ _ Hm6).
      - apply ret_inv in Hm6 as [-> _]. apply rearranged_refl. }
    bind_inv_in H.
    assert (Hr2 : rearranged a5 a6).
    { destruct (negb (pb - pa =? 0)).
      - exact (IH _ _ _ _ _ _ _ Hm7).
      - apply ret_inv in Hm7 as [-> _]. apply rearranged_refl. }
    bind_inv_in H. bind_inv_in H. destruct a8 as [len sk].
    assert (Hr3 : rearranged a6 ks').
    { destruct (len =? o).
      - apply ret_inv in H as [-> _]. apply rearranged_refl.
      - exact (IH _ _ _ _ _ _ _ H). }
    repeat (eapply rearranged_trans; [eassumption|]). apply rearranged_refl.
  - destruct (n >? 1).
    + exact (rearranged_insert_sort _ _ _ _ _ _ _ _ _ H).
    + apply ret_inv in H as [-> _]. apply rearranged_refl.
Qed.

(** X12: [hat_qsort] only rearranges the cursor's key table.  Whenever it
    returns, the table holds the entries it held before in another order:
    a permutation of the indices 0 .. HatBucketMax - 1 takes each entry of
    the result to the entry it came from, so no entry is lost and none is
    duplicated. *)
Theorem hat_qsort_rearranges (fuel : nat) (x n o : Z) (ks ks' : gmap Z HatSort)
    (st st' : state) :
  hat_qsort fuel x n o ks st = Ok (ks', st') -> rearranged ks ks'.
Proof. apply rearranged_hat_qsort. Qed.

Lemma hat_qsort_rearranges_witness :
  exists ks' st', hat_qsort enough 0 2 0 two_entries two_keys = Ok (ks', st') /\
                  rearranged two_entries ks'.
Proof.
  assert (Hs : succeeds (hat_qsort enough 0 2 0 two_entries two_keys) = true)
    by (vm_compute; reflexivity).
  destruct (succeeds_ok _ Hs) as (ks' & st' & E).
  exists ks', st'. split; [exact E|].
  exact (hat_qsort_rearranges _ _ _ _ _ _ _ _ E).
Defined.

(** ** hat_key stays inside the caller's buffer *)

Lemma unchanged_refl p len st : unchanged_outside p len st st.
Proof. intros a _. reflexivity. Qed.

Lemma unchanged_trans p len st1 st2 st3 :
  unchanged_outside p len st1 st2 -> unchanged_outside p len st2 st3 ->
  unchanged_outside p len st1 st3.
Proof. intros H1 H2 a Ha. rewrite (H2 a Ha). apply H1. exact Ha. Qed.

Lemma unchanged_store8 p len off v st u st' :
  0 <= off < len -> store8 (p + off) v st = Ok (u, st') ->
  unchanged_outside p len st st'.
Proof.
  intros Hoff H a Ha. apply store_inv in H as (Hm & _). rewrite Hm.
  apply store_le_other. change (Z.of_nat 1) with 1. lia.
Qed.

Lemma unchanged_same_memory p len st st' :
  same_memory st st' -> unchanged_outside p len st st'.
Proof. intros (Hm & _) a _. rewrite Hm. reflexivity. Qed.

Section hat_key.

Variables (buff max : Z).
Hypothesis Hmax : 0 <= max < 4294967295.

Lemma key_root_bounds rootscan (scan : nat) : forall off st off' st',
  0 <= off <= max ->
  key_root scan rootscan buff off max st = Ok (off', st') ->
  off <= off' <= max /\ unchanged_outside buff (max + 1) st st'.
Proof.
  induction scan as [|scan IH]; intros off st off' st' Hoff H; cbn [key_root] in H.
  - apply ret_inv in H as [-> ->]. split; [lia | apply unchanged_refl].
  - cbv zeta in H.
    destruct (negb (_ =? 0) && (off <? max)) eqn:E.
    + apply andb_true_iff in E as [_ E]. apply Z.ltb_lt in E.
      bind_inv_in H. apply (unchanged_store8 buff (max + 1)) in Hm; [|lia].
      replace (u32 (off + 1)) with (off + 1) in H
        by (unfold u32; rewrite Z.mod_small; lia).
      apply IH in H as [Hr Hu]; [|lia].
      split; [lia | exact (unchanged_trans _ _ _ _ _ Hm Hu)].
    + apply IH in H; [|lia]. exact H.
Qed.

Lemma key_levels_bounds c (fuel : nat) : forall idx off st off' st',
  0 <= off <= max ->
  key_levels fuel c buff idx off max st = Ok (off', st') ->
  off <= off' <= max /\ unchanged_outside buff (max + 1) st st'.
Proof.
  induction fuel as [|fuel IH]; intros idx off st off' st' Hoff H;
    cbn [key_levels] in H; destruct (negb (idx <? c_top c));
    try (apply ret_inv in H as [-> ->]; split; [lia | apply unchanged_refl]);
    try discriminate.
  bind_inv_in H.
  assert (Hstep : off <= a <= max /\ unchanged_outside buff (max + 1) st s).
  { destruct (idx =? 0).
    - exact (key_root_bounds _ _ _ _ _ _ Hoff Hm).
    - destruct (off <? max) eqn:E.
      + apply Z.ltb_lt in E. bind_inv_in Hm.
        assert (Hs : s0 = st).
        { unfold get_scan in Hm0. destruct (in_range idx 256); [|discriminate].
          apply ret_inv in Hm0 as [_ ->]. reflexivity. }
        subst s0.
        destruct (negb (a0 =? 0)).
        * bind_inv_in Hm. apply ret_inv in Hm as [-> ->].
          apply (unchanged_store8 buff (max + 1)) in Hm1; [|lia].
          split; [|exact Hm1]. unfold u32. rewrite Z.mod_small; lia.
        * apply ret_inv in Hm as [-> ->]. split; [lia | apply unchanged_refl].
      + apply ret_inv in Hm as [-> ->]. split; [lia | apply unchanged_refl]. }
  destruct Hstep as [Ha Hu].
  apply IH in H as [Hr Hu']; [|lia].
  split; [lia | exact (unchanged_trans _ _ _ _ _ Hu Hu')].
Qed.

Lemma key_tail_bounds (fuel : nat) : forall src len off st off' st',
  0 <= off <= max ->
  key_tail fuel src len buff off max st = Ok (off', st') ->
  off <= off' <= max /\ unchanged_outside buff (max + 1) st st'.
Proof.
  induction fuel as [|fuel IH]; intros src len off st off' st' Hoff H;
    cbn [key_tail] in H; destruct (negb (len =? 0) && (off <? max)) eqn:E;
    cbn [negb] in H;
    try (apply ret_inv in H as [-> ->]; split; [lia | apply unchanged_refl]);
    try discriminate.
  apply andb_true_iff in E as [_ E]. apply Z.ltb_lt in E.
  bind_inv_in H. apply load_inv in Hm as [-> _].
  bind_inv_in H. apply (unchanged_store8 buff (max + 1)) in Hm; [|lia].
  replace (u32 (off + 1)) with (off + 1) in H
    by (unfold u32; rewrite Z.mod_small; lia).
  apply IH in H as [Hr Hu]; [|lia].
  split; [lia | exact (unchanged_trans _ _ _ _ _ Hm Hu)].
Qed.

End hat_key.

(** X13: called with a buffer of [max >= 1] bytes, [hat_key] writes inside the
    buffer only, returns a length of at most [max - 1], and, unless the
    cursor is at EOF ([top < 0]), leaves a zero byte at that offset. *)
Theorem hat_key_within_buffer (fuel : nat) (c : HatCursor) (buff max : Z)
    (st st' : state) (n : Z) :
  1 <= max < 4294967296 ->
  hat_key fuel c buff max st = Ok (n, st') ->
  0 <= n <= max - 1 /\
  unchanged_outside buff max st st' /\
  (0 <= c_top c -> mem st' !! (buff + n) = Some x00).
Proof.
  intros Hmax H. unfold hat_key in H. cbv zeta in H.
  replace (u32 (max - 1)) with (max - 1) in H
    by (unfold u32; rewrite Z.mod_small; lia).
  assert (Hmax1 : 0 <= max - 1 < 4294967295) by lia.
  destruct (c_top c <? 0) eqn:Etop.
  - apply Z.ltb_lt in Etop. bind_inv_in H. apply ret_inv in H as [-> ->].
    split; [lia|]. split; [|lia].
    destruct (negb (max - 1 =? 0)) eqn:E.
    + apply negb_true_iff, Z.eqb_neq in E.
      replace buff with (buff + 0) in Hm by lia.
      exact (unchanged_store8 buff max 0 _ _ _ _ ltac:(lia) Hm).
    + apply ret_inv in Hm as [_ ->]. apply unchanged_refl.
  - bind_inv_in H.
    apply (key_levels_bounds buff (max - 1) Hmax1) in Hm as [Ha Hu1]; [|lia].
    bind_inv_in H. apply sort_get_inv in Hm as (_ & -> & _).
    bind_inv_in H. destruct a1 as [len skip].
    apply (keeps_sort_len a0) in Hm. apply (unchanged_same_memory buff max) in Hm.
    bind_inv_in H.
    apply (key_tail_bounds buff (max - 1) Hmax1) in Hm0 as [Hb Hu2]; [|lia].
    bind_inv_in H. apply ret_inv in H as [-> ->].
    match goal with Hst : store8 _ _ _ = _ |- _ => rename Hst into Hstore end.
    replace (max - 1 + 1) with max in * by lia.
    split; [lia|]. split.
    + apply (unchanged_trans _ _ _ _ _ Hu1).
      apply (unchanged_trans _ _ _ _ _ Hm).
      apply (unchanged_trans _ _ _ _ _ Hu2).
      eapply unchanged_store8; [|exact Hstore]. lia.
    + intros _. apply store_inv in Hstore as (Hmem & _). rewrite Hmem.
      cbn [store_le]. apply lookup_insert_eq.
Qed.

(** [hat_key] with a buffer of 4 bytes on a cursor that stands on "ab". *)
Lemma hat_key_within_buffer_witness :
  exists n st', hat_key enough key_cursor key_buff 4 key_state = Ok (n, st') /\
    0 <= n <= 4 - 1 /\
    unchanged_outside key_buff 4 key_state st' /\
    (0 <= c_top key_cursor -> mem st' !! (key_buff + n) = Some x00).
Proof.
  assert (Hs : succeeds (hat_key enough key_cursor key_buff 4 key_state) = true)
    by (vm_compute; reflexivity).
  destruct (succeeds_ok _ Hs) as (n & st' & E).
  exists n, st'. split; [exact E|].
  apply (hat_key_within_buffer enough key_cursor key_buff 4 key_state st' n);
    [lia | exact E].
Defined.

(** ** hat_close *)

Lemma without_nil bs : without [] bs = bs.
Proof.
  unfold without. induction bs as [|b bs IH]; simpl; [reflexivity|].
  f_equal. exact IH.
Qed.

Lemma without_cons s segs bs :
  without segs (List.filter (fun b => negb (fst b =? s)) bs) = without (s :: segs) bs.
Proof.
  unfold without. induction bs as [|b bs IH]; simpl; [reflexivity|].
  rewrite (Z.eqb_sym (fst b) s).
  destruct (s =? fst b); simpl; rewrite IH; reflexivity.
Qed.

Lemma in_without b segs bs :
  In b (without segs bs) <-> In b bs /\ ~ In (fst b) segs.
Proof.
  unfold without. rewrite List.filter_In, negb_true_iff.
  split; intros [H1 H2]; (split; [exact H1|]).
  - intros Hin. assert (Ht : existsb (Z.eqb (fst b)) segs = true); [|congruence].
    apply existsb_exists. exists (fst b). split; [exact Hin | apply Z.eqb_refl].
  - destruct (existsb (Z.eqb (fst b)) segs) eqn:E; [|reflexivity].
    apply existsb_exists in E as (x & Hx & Heq). apply Z.eqb_eq in Heq.
    subst x. contradiction.
Qed.

Lemma close_segs_chain (segs : list Z) : forall fuel seg st,
  seg_chain (mem st) seg segs -> List.NoDup segs ->
  (forall s, In s segs -> exists n, In (s, n) (blocks st)) ->
  (length segs <= fuel)%nat ->
  exists st', close_segs fuel seg st = Ok (tt, st') /\
    mem st' = mem st /\ blocks st' = without segs (blocks st) /\
    brk st' = brk st /\ rands st' = rands st /\ stats st' = stats st.
Proof.
  induction segs as [|s rest IH]; intros fuel seg st Hc Hnd Hb Hf.
  - simpl in Hc. subst seg. exists st.
    destruct fuel; simpl; rewrite without_nil; repeat split.
  - destruct Hc as (-> & Hnz & nxt & Hl & Hc).
    destruct fuel as [|fuel]; [simpl in Hf; lia|].
    cbn [close_segs]. destruct (s =? 0) eqn:E; [apply Z.eqb_eq in E; contradiction|].
    cbv zeta. rewrite (bind_ok _ _ _ _ _ (load_ok 8 _ _ _ Hl)).
    destruct (Hb s (or_introl eq_refl)) as [n Hn].
    assert (Hex : existsb (fun b => fst b =? s) (blocks st) = true).
    { apply existsb_exists. exists (s, n). split; [exact Hn | apply Z.eqb_refl]. }
    unfold bind at 1. unfold free. rewrite E, Hex.
    inversion Hnd as [|? ? Hnotin Hnd']; subst.
    match goal with
    | |- context [close_segs fuel nxt ?s1] =>
        destruct (IH fuel nxt s1) as (st' & Hrun & Hm & Hbl & Hbr & Hra & Hst)
    end.
    + exact Hc.
    + exact Hnd'.
    + intros s' Hs'. destruct (Hb s' (or_intror Hs')) as [n' Hn'].
      exists n'. cbn [blocks]. apply List.filter_In. split; [exact Hn'|].
      apply negb_true_iff, Z.eqb_neq. simpl. intros ->. contradiction.
    + simpl in Hf. lia.
    + exists st'. split; [exact Hrun|]. cbn [mem blocks brk rands stats] in *.
      rewrite Hbl, without_cons. repeat split; assumption.
Qed.

(** X14: [hat_close] walks the segment list from [hat->seg] to the [NULL]
    link and frees every segment exactly once.  On a list of distinct
    segments that [malloc] returned it returns, leaves the memory contents
    alone, and the blocks still allocated afterwards are exactly the blocks
    that are not segments of the list. *)
Theorem hat_close_frees_chain (fuel : nat) (hat seg : Z) (segs : list Z) (st : state) :
  load_le (mem st) (hat_seg hat) 8 = Some seg ->
  seg_chain (mem st) seg segs -> List.NoDup segs ->
  (forall s, In s segs -> exists n, In (s, n) (blocks st)) ->
  (length segs <= fuel)%nat ->
  exists st', hat_close fuel hat st = Ok (tt, st') /\
    mem st' = mem st /\ blocks st' = without segs (blocks st) /\
    forall b, In b (blocks st') <-> In b (blocks st) /\ ~ In (fst b) segs.
Proof.
  intros Hl Hc Hnd Hb Hf. unfold hat_close.
  rewrite (bind_ok _ _ _ _ _ (load_ok 8 _ _ _ Hl)).
  destruct (close_segs_chain segs fuel seg st Hc Hnd Hb Hf)
    as (st' & Hrun & Hm & Hbl & _).
  exists st'. split; [exact Hrun|]. split; [exact Hm|]. split; [exact Hbl|].
  intros b. rewrite Hbl. apply in_without.
Qed.

(** In [probe_state] the chain is the one segment [hat_open] obtained, and
    closing leaves the two key buffers. *)
Lemma hat_close_frees_chain_witness :
  exists st', hat_close 1 probe_hat probe_state = Ok (tt, st') /\
    mem st' = mem probe_state /\
    blocks st' = without [65536] (blocks probe_state) /\
    forall b, In b (blocks st') <-> In b (blocks probe_state) /\ ~ In (fst b) [65536].
Proof.
  apply (hat_close_frees_chain 1 probe_hat 65536 [65536] probe_state).
  - vm_compute. reflexivity.
  - split; [reflexivity|]. split; [discriminate|].
    exists 0. split; [vm_compute; reflexivity | reflexivity].
  - constructor; [intros [] | constructor].
  - intros s [<- | []]. eexists. vm_compute. right. right. left. reflexivity.
  - simpl. lia.
Defined.

(** ** The scan of an array node *)

Lemma upd_stats_ok f st :
  upd_stats f st
  = Ok (tt, mkState (mem st) (blocks st) (brk st) (rands st) (f (stats st))).
Proof. reflexivity. Qed.

Lemma bytes_at_readable m p k : bytes_at m p k -> readable m p (Z.of_nat (length k)).
Proof.
  intros H i Hi. replace i with (Z.of_nat (Z.to_nat i)) by lia.
  rewrite H by lia. apply lookup_lt_is_Some_2. lia.
Qed.

Lemma bytes_at_same m p q k1 k2 :
  bytes_at m p k1 -> bytes_at m q k2 -> length k1 = length k2 ->
  (same_bytes m p q (Z.of_nat (length k1)) <-> k1 = k2).
Proof.
  intros H1 H2 Hl. split.
  - intros Hs. apply list_eq. intros i.
    destruct (Nat.lt_ge_cases i (length k1)) as [Hlt|Hge].
    + rewrite <- H1, <- H2 by lia. apply Hs. lia.
    + rewrite !lookup_ge_None_2 by lia. reflexivity.
  - intros <- i Hi. replace i with (Z.of_nat (Z.to_nat i)) by lia.
    rewrite H1, H2 by lia. reflexivity.
Qed.

Lemma key_skip_short len : len <= 127 -> key_skip len = 1.
Proof.
  intros H. unfold key_skip.
  destruct (len >? 127) eqn:E; [apply Z.gtb_lt in E; lia | reflexivity].
Qed.

Lemma key_skip_pos len : 1 <= key_skip len <= 2.
Proof. unfold key_skip. destruct (len >? 127); lia. Qed.

Lemma array_keys_end m base ks : forall tst,
  array_keys m base tst ks ->
  exists nxt, load_le m (base_nxt base) 2 = Some nxt /\
              tst + Z.of_nat (length ks) <= nxt < 65536 /\
              match ks with
              | [] => nxt = tst
              | k :: _ => tst + key_skip (Z.of_nat (length k))
                          + Z.of_nat (length k) <= nxt
              end.
Proof.
  induction ks as [|k ks IH]; intros tst H; cbn [array_keys] in H.
  - exists tst. pose proof (load_le_range _ _ _ _ H) as Hr.
    change (256 ^ Z.of_nat 2) with 65536 in Hr. simpl. repeat split; try lia.
    exact H.
  - destruct H as [_ H]. destruct (IH _ H) as (nxt & Hl & Hb & _).
    pose proof (key_skip_pos (Z.of_nat (length k))).
    exists nxt. split; [exact Hl|]. simpl length. split; lia.
Qed.

Section find_array.

Variables (hat base buff off max aux type size : Z).
Variables (probe : list byte) (m : gmap Z byte).

Hypothesis Hprobe : bytes_at m (buff + off) probe.
Hypothesis Hmax : u32 (max - off) = Z.of_nat (length probe).
Hypothesis Haux : load_le m (hat_aux hat) 4 = Some aux.
Hypothesis Htype : load_le m (base_type base) 1 = Some type.
Hypothesis Hsize : HatSize_table !! Z.to_nat type = Some size.

Lemma found_key cnt st :
  mem st = m ->
  outcome ((let* aux := load32 (hat_aux hat) in
            if negb (aux =? 0) then aux_slot base cnt aux else ret 1) st)
  = Ok (found_at base size aux cnt (Some O)).
Proof.
  intros Hm. rewrite <- Hm in Haux, Htype.
  rewrite (bind_ok _ _ _ _ _ (load_ok 4 _ _ _ Haux)).
  unfold found_at. destruct (aux =? 0); [reflexivity|].
  cbn [negb]. unfold aux_slot.
  rewrite (bind_ok _ _ _ _ _ (load_ok 1 _ _ _ Htype)).
  pose proof (load_le_range _ _ _ _ Htype) as Hr.
  rewrite (bind_ok _ _ _ _ _ (HatSize_some _ _ _ (proj1 Hr) Hsize)).
  simpl. do 3 f_equal. lia.
Qed.

Lemma find_array_scan (ks : list (list byte)) : forall tst cnt fuel st,
  mem st = m -> array_keys m base tst ks ->
  Forall (fun k => (length k < 128)%nat) ks ->
  0 <= tst -> 0 <= cnt -> cnt + Z.of_nat (length ks) < 65536 ->
  (length ks <= fuel)%nat ->
  outcome (find_array fuel hat base buff off max tst cnt st)
  = Ok (found_at base size aux cnt (key_index probe ks)).
Proof.
  induction ks as [|k ks IH]; intros tst cnt fuel st Hm Hk Hshort Htst Hcnt Hn Hf.
  - cbn [array_keys] in Hk. rewrite <- Hm in Hk.
    assert (Hrun : find_array fuel hat base buff off max tst cnt st = Ok (0, st)).
    { destruct fuel; cbn [find_array]; unfold load16;
        rewrite (bind_ok _ _ _ _ _ (load_ok 2 _ _ _ Hk)), Z.ltb_irrefl;
        reflexivity. }
    rewrite Hrun. reflexivity.
  - destruct (array_keys_end _ _ _ _ Hk) as (nxt & Hnxt & Hb & Hend).
    destruct Hk as [[Hpre Hbytes] Htail].
    apply Forall_cons in Hshort as [Hlen Hshort'].
    destruct fuel as [|fuel]; [simpl in Hf; lia|].
    pose proof (key_skip_short (Z.of_nat (length k)) ltac:(lia)) as Hskip.
    rewrite Hskip in *.
    cbn [find_array]. unfold load16.
    rewrite <- Hm in Hnxt. rewrite (bind_ok _ _ _ _ _ (load_ok 2 _ _ _ Hnxt)).
    assert (Hlt : (tst <? nxt) = true) by (apply Z.ltb_lt; lia).
    rewrite Hlt. cbn [negb].
    rewrite (bind_ok _ _ _ _ _ (upd_stats_ok _ _)).
    set (s1 := mkState (mem st) (blocks st) (brk st) (rands st)
                       (count_probe (stats st))).
    assert (Hm1 : mem s1 = m) by exact Hm.
    assert (Hpre1 : key_prefix (mem s1) (base_keys base + tst) (Z.of_nat (length k)))
      by (rewrite Hm1; exact Hpre).
    destruct (short_prefix_decoded s1 base tst (Z.of_nat (length k))
                ltac:(lia) ltac:(lia) Hpre1) as (_ & Hdec & _).
    rewrite (bind_ok _ _ _ _ _ Hdec). rewrite Hmax.
    assert (Hu1 : u16 (tst + 1 + Z.of_nat (length k)) = tst + 1 + Z.of_nat (length k))
      by (unfold u16; apply Z.mod_small; lia).
    assert (Hu2 : u16 (cnt + 1) = cnt + 1)
      by (unfold u16; apply Z.mod_small; simpl length in Hn; lia).
    assert (Hrest : k <> probe ->
              outcome (find_array fuel hat base buff off max
                         (u16 (tst + 1 + Z.of_nat (length k))) (u16 (cnt + 1)) s1)
              = Ok (found_at base size aux cnt (key_index probe (k :: ks)))).
    { intros Hne. rewrite Hu1, Hu2.
      simpl length in Hn, Hf.
      rewrite (IH (tst + 1 + Z.of_nat (length k)) (cnt + 1) fuel s1 Hm1 Htail
                 Hshort') by lia.
      cbn [key_index]. destruct (List.list_eq_dec byte_eq_dec k probe); [contradiction|].
      destruct (key_index probe ks) as [j|]; [|reflexivity].
      simpl. destruct (aux =? 0); [reflexivity|]. do 4 f_equal. lia. }
    destruct (Z.of_nat (length k) =? Z.of_nat (length probe)) eqn:El.
    + apply Z.eqb_eq in El. apply Nat2Z.inj in El.
      assert (Hr1 : readable (mem s1) (base_keys base + (tst + 1))
                             (Z.of_nat (length k))).
      { rewrite Hm1, Z.add_assoc. exact (bytes_at_readable _ _ _ Hbytes). }
      assert (Hr2 : readable (mem s1) (buff + off) (Z.of_nat (length k))).
      { rewrite Hm1, El. exact (bytes_at_readable _ _ _ Hprobe). }
      destruct (keycmp_tail_spec s1 (Z.to_nat (Z.of_nat (length k) mod 8))
                  (Z.to_nat (Z.of_nat (length k)))
                  (base_keys base + (tst + 1)) (buff + off) (Z.of_nat (length k)))
        as (r & Hrun & Hiff); try assumption.
      { apply Z2Nat.inj_le; try lia.
        - apply Z.mod_pos_bound. lia.
        - apply Z.mod_le; lia. }
      { lia. }
      { rewrite Z2Nat.id; [reflexivity|]. apply Z.mod_pos_bound. lia. }
      unfold keycmp. rewrite (bind_ok _ _ _ _ _ Hrun).
      rewrite Hm1, Z.add_assoc in Hiff.
      rewrite (bytes_at_same _ _ _ _ _ Hbytes Hprobe El) in Hiff.
      destruct (r =? 0) eqn:Er.
      * apply Z.eqb_eq in Er. apply Hiff in Er.
        cbn [key_index]. destruct (List.list_eq_dec byte_eq_dec k probe); [|contradiction].
        exact (found_key cnt s1 Hm1).
      * apply Z.eqb_neq in Er. apply Hrest. intros Heq. apply Er, Hiff, Heq.
    + apply Z.eqb_neq in El.
      rewrite (bind_ok _ _ _ _ _ (eq_refl : ret 1 s1 = Ok (1, s1))).
      change (1 =? 0) with false. cbv iota.
      apply Hrest. intros ->. contradiction.
Qed.

End find_array.

(** X15: on an array node that holds the keys [ks], each shorter than 128
    bytes, the scan of [hat_find] returns for the first key equal to the
    probe its aux slot (the sentinel 1 in set mode), and 0 when no key is
    equal to the probe. *)
Theorem find_array_on_short_keys (fuel : nat)
    (hat base buff off max aux type size : Z)
    (ks : list (list byte)) (probe : list byte) (st : state) :
  array_keys (mem st) base 0 ks ->
  Forall (fun k => (length k < 128)%nat) ks ->
  bytes_at (mem st) (buff + off) probe ->
  u32 (max - off) = Z.of_nat (length probe) ->
  load_le (mem st) (hat_aux hat) 4 = Some aux ->
  load_le (mem st) (base_type base) 1 = Some type ->
  HatSize_table !! Z.to_nat type = Some size ->
  (length ks <= fuel)%nat ->
  outcome (find_array fuel hat base buff off max 0 0 st)
  = Ok (found_at base size aux 0 (key_index probe ks)).
Proof.
  intros Hk Hshort Hprobe Hmax Haux Htype Hsize Hf.
  destruct (array_keys_end _ _ _ _ Hk) as (nxt & _ & Hb & _).
  apply (find_array_scan hat base buff off max aux type size probe (mem st)
           Hprobe Hmax Haux Htype Hsize ks 0 0 fuel st);
    try assumption; try reflexivity; lia.
Qed.

(** In [probe_state] the array node under root entry "a" holds the rest "b"
    of the key "ab"; the probe "ab", one byte of which the root consumed, is
    found at index 0. *)
Lemma find_array_on_short_keys_witness :
  outcome (find_array 1 probe_hat 65552 probe_buff 1 2 0 0 probe_state)
  = Ok (found_at 65552 16 4 0 (key_index ["b"%byte] [["b"%byte]])).
Proof.
  apply (find_array_on_short_keys 1 probe_hat 65552 probe_buff 1 2 4 4 16
           [["b"%byte]] ["b"%byte] probe_state).
  - split; [split|].
    + vm_compute. reflexivity.
    + intros i Hi. assert (i = O) by (simpl in Hi; lia). subst i.
      vm_compute. reflexivity.
    + vm_compute. reflexivity.
  - repeat constructor.
  - intros i Hi. assert (i = O) by (simpl in Hi; lia). subst i.
    vm_compute. reflexivity.
  - reflexivity.
  - vm_compute. reflexivity.
  - vm_compute. reflexivity.
  - reflexivity.
  - simpl. lia.
Defined.

Section cell_scan.

Variables (hat base buff off max aux type size : Z).
Variables (probe : list byte) (m : gmap Z byte).

Hypothesis Hprobe : bytes_at m (buff + off) probe.
Hypothesis Hmax : u32 (max - off) = Z.of_nat (length probe).
Hypothesis Haux : load_le m (hat_aux hat) 4 = Some aux.
Hypothesis Htype : load_le m (base_type base) 1 = Some type.
Hypothesis Hsize : HatSize_table !! Z.to_nat type = Some size.

Lemma aux_slot_ok cnt a st :
  mem st = m ->
  aux_slot base cnt a st = Ok (base + size - u32 ((cnt + 1) * a), st).
Proof.
  intros Hm. rewrite <- Hm in Htype. unfold aux_slot.
  rewrite (bind_ok _ _ _ _ _ (load_ok 1 _ _ _ Htype)).
  pose proof (load_le_range _ _ _ _ Htype) as Hr.
  rewrite (bind_ok _ _ _ _ _ (HatSize_some _ _ _ (proj1 Hr) Hsize)).
  reflexivity.
Qed.

Lemma found_cell cnt st :
  mem st = m ->
  outcome ((let* aux := load32 (hat_aux hat) in
            if negb (aux =? 0) then
              let* p := aux_slot base cnt aux in ret (Some p)
            else ret (Some 1)) st)
  = Ok (Some (found_at base size aux cnt (Some O))).
Proof.
  intros Hm. pose proof Haux as Ha. rewrite <- Hm in Ha.
  rewrite (bind_ok _ _ _ _ _ (load_ok 4 _ _ _ Ha)).
  unfold found_at. destruct (aux =? 0); [reflexivity|].
  cbn [negb]. rewrite (bind_ok _ _ _ _ _ (aux_slot_ok cnt aux st Hm)).
  simpl. do 4 f_equal. lia.
Qed.

Lemma cell_scan_scan (ks : list (list byte)) : forall tst cnt fuel st,
  mem st = m -> array_keys m base tst ks ->
  Forall (fun k => (length k < 128)%nat) ks ->
  0 <= tst -> 0 <= cnt -> cnt + Z.of_nat (length ks) < 65536 ->
  (length ks <= fuel)%nat ->
  outcome (cell_scan fuel hat base buff off max tst cnt st)
  = Ok (option_map (fun j => found_at base size aux cnt (Some j))
                   (key_index probe ks)).
Proof.
  induction ks as [|k ks IH]; intros tst cnt fuel st Hm Hk Hshort Htst Hcnt Hn Hf.
  - cbn [array_keys] in Hk. rewrite <- Hm in Hk.
    assert (Hrun : cell_scan fuel hat base buff off max tst cnt st = Ok (None, st)).
    { destruct fuel; cbn [cell_scan]; unfold load16;
        rewrite (bind_ok _ _ _ _ _ (load_ok 2 _ _ _ Hk)), Z.ltb_irrefl;
        reflexivity. }
    rewrite Hrun. reflexivity.
  - destruct (array_keys_end _ _ _ _ Hk) as (nxt & Hnxt & Hb & Hend).
    destruct Hk as [[Hpre Hbytes] Htail].
    apply Forall_cons in Hshort as [Hlen Hshort'].
    destruct fuel as [|fuel]; [simpl in Hf; lia|].
    pose proof (key_skip_short (Z.of_nat (length k)) ltac:(lia)) as Hskip.
    rewrite Hskip in *.
    cbn [cell_scan]. unfold load16.
    rewrite <- Hm in Hnxt. rewrite (bind_ok _ _ _ _ _ (load_ok 2 _ _ _ Hnxt)).
    assert (Hlt : (tst <? nxt) = true) by (apply Z.ltb_lt; lia).
    rewrite Hlt. cbn [negb].
    assert (Hpre1 : key_prefix (mem st) (base_keys base + tst) (Z.of_nat (length k)))
      by (rewrite Hm; exact Hpre).
    destruct (short_prefix_decoded st base tst (Z.of_nat (length k))
                ltac:(lia) ltac:(lia) Hpre1) as (_ & Hdec & _).
    rewrite (bind_ok _ _ _ _ _ Hdec). rewrite Hmax.
    assert (Hu1 : u16 (tst + 1 + Z.of_nat (length k)) = tst + 1 + Z.of_nat (length k))
      by (unfold u16; apply Z.mod_small; lia).
    assert (Hu2 : u16 (cnt + 1) = cnt + 1)
      by (unfold u16; apply Z.mod_small; simpl length in Hn; lia).
    assert (Hrest : k <> probe ->
              outcome (cell_scan fuel hat base buff off max
                         (u16 (tst + 1 + Z.of_nat (length k))) (u16 (cnt + 1)) st)
              = Ok (option_map (fun j => found_at base size aux cnt (Some j))
                               (key_index probe (k :: ks)))).
    { intros Hne. rewrite Hu1, Hu2. simpl length in Hn, Hf.
      rewrite (IH (tst + 1 + Z.of_nat (length k)) (cnt + 1) fuel st Hm Htail
                 Hshort') by lia.
      cbn [key_index]. destruct (List.list_eq_dec byte_eq_dec k probe); [contradiction|].
      destruct (key_index probe ks) as [j|]; [|reflexivity].
      simpl. destruct (aux =? 0); [reflexivity|]. do 5 f_equal. lia. }
    destruct (Z.of_nat (length k) =? Z.of_nat (length probe)) eqn:El.
    + apply Z.eqb_eq in El. apply Nat2Z.inj in El.
      assert (Hr1 : readable (mem st) (base_keys base + (tst + 1))
                             (Z.of_nat (length k))).
      { rewrite Hm, Z.add_assoc. exact (bytes_at_readable _ _ _ Hbytes). }
      assert (Hr2 : readable (mem st) (buff + off) (Z.of_nat (length k))).
      { rewrite Hm, El. exact (bytes_at_readable _ _ _ Hprobe). }
      destruct (keycmp_tail_spec st (Z.to_nat (Z.of_nat (length k) mod 8))
                  (Z.to_nat (Z.of_nat (length k)))
                  (base_keys base + (tst + 1)) (buff + off) (Z.of_nat (length k)))
        as (r & Hrun & Hiff); try assumption.
      { apply Z2Nat.inj_le; try lia.
        - apply Z.mod_pos_bound. lia.
        - apply Z.mod_le; lia. }
      { lia. }
      { rewrite Z2Nat.id; [reflexivity|]. apply Z.mod_pos_bound. lia. }
      unfold keycmp. rewrite <- El. rewrite (bind_ok _ _ _ _ _ Hrun).
      rewrite Hm, Z.add_assoc in Hiff.
      rewrite (bytes_at_same _ _ _ _ _ Hbytes Hprobe El) in Hiff.
      destruct (r =? 0) eqn:Er.
      * apply Z.eqb_eq in Er. apply Hiff in Er.
        cbn [key_index]. destruct (List.list_eq_dec byte_eq_dec k probe); [|contradiction].
        exact (found_cell cnt st Hm).
      * apply Z.eqb_neq in Er. apply Hrest. intros Heq. apply Er, Hiff, Heq.
    + apply Z.eqb_neq in El.
      rewrite (bind_ok _ _ _ _ _ (eq_refl : ret 1 st = Ok (1, st))).
      change (1 =? 0) with false. cbv iota.
      apply Hrest. intros ->. contradiction.
Qed.

End cell_scan.

(** X16: on the same node, the scan for an equal key that [hat_cell] runs
    before it inserts finds exactly what the scan of [hat_find] finds: the
    aux slot (or the sentinel) of the first key equal to the probe, and
    nothing when there is none, in which case [hat_cell] goes on to insert. *)
Theorem cell_scan_on_short_keys (fuel : nat)
    (hat base buff off max aux type size : Z)
    (ks : list (list byte)) (probe : list byte) (st : state) :
  array_keys (mem st) base 0 ks ->
  Forall (fun k => (length k < 128)%nat) ks ->
  bytes_at (mem st) (buff + off) probe ->
  u32 (max - off) = Z.of_nat (length probe) ->
  load_le (mem st) (hat_aux hat) 4 = Some aux ->
  load_le (mem st) (base_type base) 1 = Some type ->
  HatSize_table !! Z.to_nat type = Some size ->
  (length ks <= fuel)%nat ->
  outcome (cell_scan fuel hat base buff off max 0 0 st)
  = Ok (option_map (fun j => found_at base size aux 0 (Some j))
                   (key_index probe ks)).
Proof.
  intros Hk Hshort Hprobe Hmax Haux Htype Hsize Hf.
  destruct (array_keys_end _ _ _ _ Hk) as (nxt & _ & Hb & _).
  apply (cell_scan_scan hat base buff off max aux type size probe (mem st)
           Hprobe Hmax Haux Htype Hsize ks 0 0 fuel st);
    try assumption; try reflexivity; lia.
Qed.

Lemma cell_scan_on_short_keys_witness :
  outcome (cell_scan 1 probe_hat 65552 probe_buff 1 2 0 0 probe_state)
  = Ok (option_map (fun j => found_at 65552 16 4 0 (Some j))
                   (key_index ["b"%byte] [["b"%byte]])).
Proof.
  apply (cell_scan_on_short_keys 1 probe_hat 65552 probe_buff 1 2 4 4 16
           [["b"%byte]] ["b"%byte] probe_state).
  - split; [split|].
    + vm_compute. reflexivity.
    + intros i Hi. assert (i = O) by (simpl in Hi; lia). subst i.
      vm_compute. reflexivity.
    + vm_compute. reflexivity.
  - repeat constructor.
  - intros i Hi. assert (i = O) by (simpl in Hi; lia). subst i.
    vm_compute. reflexivity.
  - reflexivity.
  - vm_compute. reflexivity.
  - vm_compute. reflexivity.
  - reflexivity.
  - simpl. lia.
Defined.

(** ** hat_new_array *)

Lemma land_127_small amt : 0 <= amt -> 0 <= Z.land amt 127 < 128.
Proof.
  intros H. change 127 with (Z.ones 7). rewrite Z.land_ones by lia.
  apply Z.mod_pos_bound. lia.
Qed.

Lemma store8_lookup m p v : store_le m p 1 v !! p = Some (byte_of v).
Proof. cbn [store_le]. apply lookup_insert_eq. Qed.

(** The header fields written last leave the key area alone. *)
Lemma header_frame m base nxt type cnt a :
  base + 4 <= a ->
  store_le (store_le (store_le m base 2 nxt) (base + 2) 1 type) (base + 3) 1 cnt !! a
  = m !! a.
Proof.
  intros H. rewrite !store_le_other; [reflexivity | | |];
    change (Z.of_nat 2) with 2; change (Z.of_nat 1) with 1; lia.
Qed.

Tactic Notation "mstep" hyp(H) "as" ident(x) ident(s) ident(Hx) :=
  apply bind_inv in H; destruct H as (x & s & Hx & H).

Ltac tidy := cbn [mem blocks brk rands stats] in *.

Lemma new_array_node (hat parent buff amt aux : Z) (st st' : state) (cell : Z) :
  hat_new_array hat parent buff amt st = Ok (cell, st') ->
  load_le (mem st) (hat_aux hat) 4 = Some aux ->
  0 <= amt -> aux + amt + 2 < 4294967296 ->
  exists base type size k,
    HAT_1 <= type <= HatMax /\ HatSize_table !! Z.to_nat type = Some size /\
    aux + amt + key_skip amt + sizeof_HatBase <= size /\
    cell = base + size - aux /\
    Z.of_nat (length k) = amt /\
    array_keys (mem st') base 0 [k] /\
    load_le (mem st') (base_type base) 1 = Some type /\
    load_le (mem st') (base_cnt base) 1 = Some 1 /\
    (buff + amt <= base \/ base + sizeof_HatBase + key_skip amt + amt <= buff ->
     bytes_at (mem st') buff k).
Proof.
  intros H Haux Hamt Hsum. unfold hat_new_array in H. cbv zeta in H.
  pose proof (key_skip_pos amt) as Hskip.
  pose proof (load_le_range _ _ _ _ Haux) as Hauxr.
  mstep H as aux' s0 Hl. apply load_inv in Hl as [-> Ha]. rewrite Haux in Ha.
  injection Ha as <-.
  mstep H as type s0 Ht.
  apply new_array_type_ok in Ht as (-> & Hty & size & Hs & Hfit).
  replace (u32 (aux + amt + key_skip amt)) with (aux + amt + key_skip amt) in Hfit
    by (unfold u32; rewrite Z.mod_small; lia).
  destruct (type >? HatMax) eqn:E; [apply Z.gtb_lt in E; lia|].
  mstep H as base s1 Halloc. clear Halloc.
  mstep H as u2 s2 Hst. apply store_eq in Hst as [-> _].
  mstep H as u3 s3 Hst. apply store_eq in Hst as [-> _]. tidy.
  mstep H as u4 s4 Hpre.
  assert (Hp : key_prefix (mem s4) (base_keys base) amt).
  { unfold key_prefix, long_prefix. destruct (amt >? 127) eqn:Eamt.
    - mstep Hpre as k s5 Hk. apply load_inv in Hk as [-> Hk]. tidy.
      rewrite (load_le_store_le 1) in Hk. injection Hk as <-.
      mstep Hpre as u6 s6 Hst. apply store_eq in Hst as [-> _].
      apply store_eq in Hpre as [-> _]. tidy.
      pose proof (land_127_small amt Hamt) as Hland.
      change (256 ^ Z.of_nat 1) with 256.
      rewrite (Z.mod_small (Z.land amt 127)) by lia.
      split.
      + rewrite store_le_other by (change (Z.of_nat 1) with 1; lia).
        apply store8_lookup.
      + apply store8_lookup.
    - apply ret_inv in Hpre as [_ ->]. tidy. apply store8_lookup. }
  clear Hpre.
  mstep H as u5 s5 Hcpy. apply memcpy_inv in Hcpy as (k & Hread & Hmem5 & _).
  apply read_bytes_spec in Hread as [Hlen Hread].
  mstep H as u6 s6 Hst. apply store_inv in Hst as (Hmem6 & _).
  mstep H as u7 s7 Hst. apply store_inv in Hst as (Hmem7 & _).
  mstep H as u8 s8 Hst. apply store_inv in Hst as (Hmem8 & _).
  mstep H as size' s9 Hsz. apply HatSize_inv in Hsz as (-> & _ & Hs').
  rewrite Hs in Hs'. injection Hs' as <-.
  apply ret_inv in H as [-> ->].
  rewrite Hmem8, Hmem7, Hmem6, Hmem5.
  assert (Hlenk : Z.of_nat (length k) = amt) by lia.
  assert (Hsize : size <= 512).
  { apply (HatSize_table_small type size); [unfold HAT_1 in Hty; lia | exact Hs]. }
  exists base, type, size, k.
  split; [exact Hty|]. split; [exact Hs|].
  split; [unfold sizeof_HatBase in *; lia|]. split; [reflexivity|].
  split; [exact Hlenk|]. unfold base_nxt, base_type, base_cnt, base_keys in *.
  unfold sizeof_HatBase in *.
  split; [|split; [|split]].
  - cbn [array_keys]. rewrite Hlenk. unfold key_at, base_keys, base_nxt.
    rewrite Hlenk.
    split; [split|].
    + rewrite Z.add_0_r. unfold key_prefix, long_prefix in *.
      unfold key_skip in *.
      destruct (amt >? 127) eqn:Eamt.
      * destruct Hp as [H0 H1].
        split; rewrite header_frame by lia;
          (rewrite write_bytes_other by lia); assumption.
      * rewrite header_frame by lia. rewrite write_bytes_other by lia.
        exact Hp.
    + intros i Hi. rewrite header_frame by lia. rewrite Z.add_0_r.
      apply write_bytes_in. exact Hi.
    + rewrite load_le_store_le_other
        by (change (Z.of_nat 2) with 2; change (Z.of_nat 1) with 1; lia).
      rewrite load_le_store_le_other
        by (change (Z.of_nat 2) with 2; change (Z.of_nat 1) with 1; lia).
      rewrite load_le_store_le. f_equal.
      change (256 ^ Z.of_nat 2) with 65536. rewrite Z.mod_small; lia.
  - rewrite load_le_store_le_other
      by (change (Z.of_nat 1) with 1; lia).
    rewrite load_le_store_le. f_equal.
    change (256 ^ Z.of_nat 1) with 256. apply Z.mod_small.
    unfold HAT_1, HatMax, HAT_32 in Hty. lia.
  - rewrite load_le_store_le. reflexivity.
  - intros Hdis i Hi.
    rewrite !store_le_other
      by (change (Z.of_nat 2) with 2; change (Z.of_nat 1) with 1; lia).
    rewrite write_bytes_other by lia.
    apply Hread. lia.
Qed.



(** ** Insert, then look up *)

Lemma key_index_self k : key_index k [k] = Some O.
Proof.
  cbn [key_index]. destruct (List.list_eq_dec byte_eq_dec k k); [reflexivity|].
  contradiction.
Qed.



(** ** hat_add_array, in place *)

Lemma HatSize_table_bound type size :
  HatSize_table !! type = Some size -> 0 <= size <= 16384.
Proof.
  intros Hs.
  assert (Hall : Forall (fun s => 0 <= s <= 16384) HatSize_table).
  { repeat constructor; vm_compute; discriminate. }
  rewrite Forall_lookup in Hall. exact (Hall _ _ Hs).
Qed.

Lemma key_at_frame m m' base tst k :
  (forall a, base_keys base + tst <= a
             < base_keys base + tst + key_skip (Z.of_nat (length k))
               + Z.of_nat (length k) ->
             m' !! a = m !! a) ->
  key_at m base tst k -> key_at m' base tst k.
Proof.
  intros Hf [Hp Hb]. pose proof (key_skip_pos (Z.of_nat (length k))) as Hs.
  split.
  - unfold key_prefix, long_prefix, key_skip in *.
    destruct (Z.of_nat (length k) >? 127) eqn:E.
    + destruct Hp as [H0 H1]. split; rewrite Hf by lia; assumption.
    + rewrite Hf by lia. exact Hp.
  - intros i Hi. rewrite Hf by lia. apply Hb. exact Hi.
Qed.

Lemma array_keys_extend m m' base rest nxt ks : forall tst,
  array_keys m base tst ks ->
  load_le m (base_nxt base) 2 = Some nxt ->
  (forall a, base_keys base + tst <= a < base_keys base + nxt -> m' !! a = m !! a) ->
  array_keys m' base nxt rest ->
  array_keys m' base tst (ks ++ rest).
Proof.
  induction ks as [|k ks IH]; intros tst Hk Hn Hf Hr.
  - cbn [array_keys] in Hk. rewrite Hn in Hk. injection Hk as <-. exact Hr.
  - destruct (array_keys_end _ _ _ _ Hk) as (nxt' & Hn' & _ & Hend).
    rewrite Hn in Hn'. injection Hn' as <-.
    destruct Hk as [Hkey Htail].
    pose proof (key_skip_pos (Z.of_nat (length k))) as Hs.
    cbn [app array_keys]. split.
    + apply (key_at_frame m); [|exact Hkey]. intros a Ha. apply Hf. lia.
    + apply IH; try assumption. intros a Ha. apply Hf. lia.
Qed.

Lemma add_array_node (fuel : nat) (hat parent buff amt pail : Z) (st st' : state)
    (cell node aux type size cnt nxt : Z) (ks : list (list byte)) :
  hat_add_array (S fuel) hat parent buff amt pail st = Ok (cell, st') ->
  load_le (mem st) parent 8 = Some node ->
  load_le (mem st) (hat_aux hat) 4 = Some aux ->
  load_le (mem st) (base_type (Z.land node HAT_mask)) 1 = Some type ->
  HatSize_table !! Z.to_nat type = Some size ->
  load_le (mem st) (base_cnt (Z.land node HAT_mask)) 1 = Some cnt ->
  load_le (mem st) (base_nxt (Z.land node HAT_mask)) 2 = Some nxt ->
  array_keys (mem st) (Z.land node HAT_mask) 0 ks ->
  0 <= amt -> aux = 0 \/ cnt < 255 ->
  (cnt + 1) * aux + nxt + amt + key_skip amt + sizeof_HatBase <= size ->
  exists k,
    Z.of_nat (length k) = amt /\
    array_keys (mem st') (Z.land node HAT_mask) 0 (ks ++ [k]) /\
    load_le (mem st') (base_cnt (Z.land node HAT_mask)) 1 = Some ((cnt + 1) mod 256) /\
    load_le (mem st') (base_type (Z.land node HAT_mask)) 1 = Some type /\
    cell = Z.land node HAT_mask + size - (cnt + 1) * aux /\
    base_keys (Z.land node HAT_mask) + nxt + key_skip amt + amt <= cell /\
    (buff + amt <= Z.land node HAT_mask \/
     base_keys (Z.land node HAT_mask) + nxt + key_skip amt + amt <= buff ->
     bytes_at (mem st') buff k).
Proof.
  intros H Hnode Haux Htype Hs Hcnt Hnxt Hk Hamt Hroom Hfit.
  set (base := Z.land node HAT_mask) in *.
  pose proof (key_skip_pos amt) as Hskip.
  pose proof (load_le_range _ _ _ _ Haux) as Hauxr.
  pose proof (load_le_range _ _ _ _ Hcnt) as Hcntr.
  pose proof (load_le_range _ _ _ _ Hnxt) as Hnxtr.
  pose proof (load_le_range _ _ _ _ Htype) as Htyper.
  pose proof (HatSize_table_bound _ _ Hs) as Hsize.
  change (256 ^ Z.of_nat 4) with 4294967296 in Hauxr.
  change (256 ^ Z.of_nat 1) with 256 in Hcntr, Htyper.
  change (256 ^ Z.of_nat 2) with 65536 in Hnxtr.
  unfold sizeof_HatBase in *.
  assert (Haux0 : 0 <= (cnt + 1) * aux) by nia.
  cbn [hat_add_array] in H. cbv zeta in H.
  mstep H as node' s0 Hl. apply load_inv in Hl as [-> Hl].
  rewrite Hnode in Hl. injection Hl as <-. fold base in H.
  mstep H as type' s0 Hl. apply load_inv in Hl as [-> Hl].
  rewrite Htype in Hl. injection Hl as <-.
  mstep H as aux' s0 Hl. apply load_inv in Hl as [-> Hl].
  rewrite Haux in Hl. injection Hl as <-.
  mstep H as cnt' s0 Hl. apply load_inv in Hl as [-> Hl].
  rewrite Hcnt in Hl. injection Hl as <-.
  mstep H as nxt' s0 Hl. apply load_inv in Hl as [-> Hl].
  rewrite Hnxt in Hl. injection Hl as <-.
  mstep H as size' s0 Hsz. apply HatSize_inv in Hsz as (-> & _ & Hs').
  rewrite Hs in Hs'. injection Hs' as <-.
  assert (Hcond : ((aux =? 0) || (cnt <? 255))
                  && (u32 ((cnt + 1) * aux + nxt + amt + key_skip amt) + 4 <=? size)
                  = true).
  { apply andb_true_iff. split.
    - apply orb_true_iff. destruct Hroom as [->|Hlt]; [left; reflexivity|].
      right. apply Z.ltb_lt. exact Hlt.
    - apply Z.leb_le. unfold u32. rewrite Z.mod_small; lia. }
  unfold sizeof_HatBase in H. rewrite Hcond in H. clear Hcond.
  mstep H as u1 s1 Hcpy. apply memcpy_inv in Hcpy as (k & Hread & Hmem1 & _).
  apply read_bytes_spec in Hread as [Hlen Hread].
  mstep H as u2 s2 Hst. apply store_inv in Hst as (Hmem2 & _).
  mstep H as u3 s3 Hpre.
  assert (Hp : key_prefix (mem s3) (base_keys base + nxt) amt /\
               forall a, a < base_keys base + nxt \/ base_keys base + nxt + key_skip amt <= a ->
                         mem s3 !! a = mem s1 !! a).
  { unfold key_prefix, long_prefix, key_skip. destruct (amt >? 127) eqn:Eamt.
    - mstep Hpre as b s4 Hb. apply load_inv in Hb as [-> Hb].
      rewrite Hmem2, (load_le_store_le 1) in Hb. injection Hb as <-.
      mstep Hpre as u5 s5 Hst. apply store_inv in Hst as (Hmem5 & _).
      apply store_inv in Hpre as (Hmem3 & _).
      pose proof (land_127_small amt Hamt) as Hland.
      change (256 ^ Z.of_nat 1) with 256 in Hmem5.
      rewrite (Z.mod_small (Z.land amt 127)) in Hmem5 by lia.
      rewrite Hmem3, Hmem5, Hmem2. split; [split|].
      + rewrite store_le_other by (change (Z.of_nat 1) with 1; lia).
        apply store8_lookup.
      + apply store8_lookup.
      + intros a Ha.
        rewrite !store_le_other by (change (Z.of_nat 1) with 1; lia).
        reflexivity.
    - apply ret_inv in Hpre as [_ ->]. rewrite Hmem2. split.
      + apply store8_lookup.
      + intros a Ha. apply store_le_other. change (Z.of_nat 1) with 1. lia. }
  clear Hpre. destruct Hp as [Hp Hf3].
  mstep H as u4 s4 Hst. apply store_inv in Hst as (Hmem4 & _).
  mstep H as u5 s5 Hst. apply store_inv in Hst as (Hmem5 & _).
  mstep H as cnt2 s6 Hl. apply load_inv in Hl as [-> Hl].
  rewrite Hmem5, (load_le_store_le 1) in Hl. injection Hl as <-.
  change (256 ^ Z.of_nat 1) with 256 in H.
  apply ret_inv in H as [-> ->].
  assert (Hlenk : Z.of_nat (length k) = amt) by lia.
  (* what the final memory holds *)
  assert (Hfinal : forall a, base + 4 <= a -> mem s5 !! a = mem s3 !! a).
  { intros a Ha. rewrite Hmem5, Hmem4. unfold base_cnt, base_nxt.
    rewrite !store_le_other
      by (change (Z.of_nat 1) with 1; change (Z.of_nat 2) with 2; lia).
    reflexivity. }
  unfold base_keys, base_nxt, base_cnt, base_type in *.
  exists k. split; [exact Hlenk|]. split; [|split; [|split; [|split; [|split]]]].
  - apply (array_keys_extend (mem st) (mem s5) base [k] nxt ks 0 Hk Hnxt).
    + unfold base_keys. intros a Ha. rewrite Hfinal by lia.
      rewrite Hf3 by lia. rewrite Hmem1. apply write_bytes_other. lia.
    + cbn [array_keys]. unfold key_at, base_keys, base_nxt. rewrite Hlenk.
      split; [split|].
      * unfold key_prefix, long_prefix, key_skip in *.
        destruct (amt >? 127); [destruct Hp as [H0 H1]; split|];
          rewrite Hfinal by lia; assumption.
      * intros i Hi. rewrite Hfinal by lia. rewrite Hf3 by lia.
        rewrite Hmem1. apply write_bytes_in. exact Hi.
      * rewrite Hmem5, Hmem4.
        rewrite load_le_store_le_other
          by (change (Z.of_nat 1) with 1; change (Z.of_nat 2) with 2; lia).
        rewrite load_le_store_le. f_equal.
        change (256 ^ Z.of_nat 2) with 65536. rewrite Z.mod_small; lia.
  - rewrite Hmem5. apply (load_le_store_le 1).
  - rewrite Hmem5, Hmem4.
    rewrite !load_le_store_le_other
      by (change (Z.of_nat 1) with 1; change (Z.of_nat 2) with 2; lia).
    assert (Hpres : forall a, a < base + 4 -> mem s3 !! a = mem st !! a).
    { intros a Ha. rewrite Hf3 by lia. rewrite Hmem1.
      apply write_bytes_other. lia. }
    rewrite (load_le_ext 1 (mem s3) (mem st)); [exact Htype|].
    intros i Hi. apply Hpres. change (Z.of_nat 1) with 1 in Hi. lia.
  - destruct Hroom as [->|Hlt].
    + rewrite !Z.mul_0_r. reflexivity.
    + rewrite (Z.mod_small (cnt + 1)) by lia.
      unfold u32. rewrite Z.mod_small; [reflexivity|lia].
  - destruct Hroom as [->|Hlt].
    + rewrite !Z.mul_0_r in *. change (u32 0) with 0. lia.
    + rewrite (Z.mod_small (cnt + 1)) by lia.
      unfold u32. rewrite Z.mod_small; lia.
  - intros Hdis i Hi. rewrite Hmem5, Hmem4.
    rewrite !store_le_other
      by (change (Z.of_nat 1) with 1; change (Z.of_nat 2) with 2; lia).
    rewrite Hf3 by lia. rewrite Hmem1.
    rewrite write_bytes_other by lia. apply Hread. lia.
Qed.

(** X19: when the key fits, [hat_add_array] appends it in place: the node
    holds the keys it held, followed by the new key; [cnt] has grown by one
    (modulo 256), [type] is unchanged, and the slot returned is the aux
    slot number [cnt + 1] counted from the end of the node, which lies
    behind the key area. *)
Theorem add_array_appends (fuel : nat) (hat parent buff amt pail : Z) (st st' : state)
    (cell node aux type size cnt nxt : Z) (ks : list (list byte)) :
  hat_add_array (S fuel) hat parent buff amt pail st = Ok (cell, st') ->
  load_le (mem st) parent 8 = Some node ->
  load_le (mem st) (hat_aux hat) 4 = Some aux ->
  load_le (mem st) (base_type (Z.land node HAT_mask)) 1 = Some type ->
  HatSize_table !! Z.to_nat type = Some size ->
  load_le (mem st) (base_cnt (Z.land node HAT_mask)) 1 = Some cnt ->
  load_le (mem st) (base_nxt (Z.land node HAT_mask)) 2 = Some nxt ->
  array_keys (mem st) (Z.land node HAT_mask) 0 ks ->
  0 <= amt -> aux = 0 \/ cnt < 255 ->
  (cnt + 1) * aux + nxt + amt + key_skip amt + sizeof_HatBase <= size ->
  exists k,
    Z.of_nat (length k) = amt /\
    array_keys (mem st') (Z.land node HAT_mask) 0 (ks ++ [k]) /\
    load_le (mem st') (base_cnt (Z.land node HAT_mask)) 1 = Some ((cnt + 1) mod 256) /\
    load_le (mem st') (base_type (Z.land node HAT_mask)) 1 = Some type /\
    cell = Z.land node HAT_mask + size - (cnt + 1) * aux /\
    base_keys (Z.land node HAT_mask) + nxt + key_skip amt + amt <= cell /\
    (buff + amt <= Z.land node HAT_mask \/
     base_keys (Z.land node HAT_mask) + nxt + key_skip amt + amt <= buff ->
     bytes_at (mem st') buff k).
Proof. apply add_array_node. Qed.

(** The eight bytes "abcdefgh" as a stored key. *)
Lemma node_after_keys :
  array_keys (mem node_after) (Z.land 65554 HAT_mask) 0
    [["a"; "b"; "c"; "d"; "e"; "f"; "g"; "h"]%byte].
Proof.
  split; [split|].
  - vm_compute. reflexivity.
  - intros i Hi. simpl in Hi.
    do 8 (destruct i as [|i]; [vm_compute; reflexivity|]). lia.
  - vm_compute. reflexivity.
Qed.

Lemma add_array_appends_witness :
  exists k,
    Z.of_nat (length k) = 2 /\
    array_keys (mem added_after) (Z.land 65554 HAT_mask) 0
      ([["a"; "b"; "c"; "d"; "e"; "f"; "g"; "h"]%byte] ++ [k]) /\
    load_le (mem added_after) (base_cnt (Z.land 65554 HAT_mask)) 1
    = Some ((1 + 1) mod 256) /\
    load_le (mem added_after) (base_type (Z.land 65554 HAT_mask)) 1 = Some 5 /\
    added_cell = Z.land 65554 HAT_mask + 32 - (1 + 1) * 4 /\
    base_keys (Z.land 65554 HAT_mask) + 9 + key_skip 2 + 2 <= added_cell /\
    (node_buff + 2 <= Z.land 65554 HAT_mask \/
     base_keys (Z.land 65554 HAT_mask) + 9 + key_skip 2 + 2 <= node_buff ->
     bytes_at (mem added_after) node_buff k).
Proof.
  apply (add_array_appends O node_hat node_parent node_buff 2 1 node_after
           added_after added_cell 65554 4 5 32 1 9).
  - apply (ok_parts (hat_add_array 1 node_hat node_parent node_buff 2 1 node_after)
             0 init_state).
    vm_compute. reflexivity.
  - vm_compute. reflexivity.
  - vm_compute. reflexivity.
  - vm_compute. reflexivity.
  - reflexivity.
  - vm_compute. reflexivity.
  - vm_compute. reflexivity.
  - exact node_after_keys.
  - lia.
  - right. lia.
  - vm_compute. discriminate.
Defined.

Lemma key_index_app probe k ks :
  key_index probe (ks ++ [k])
  = match key_index probe ks with
    | Some j => Some j
    | None => if List.list_eq_dec byte_eq_dec k probe then Some (length ks) else None
    end.
Proof.
  induction ks as [|k' ks IH]; cbn [app key_index length].
  - destruct (List.list_eq_dec byte_eq_dec k probe); reflexivity.
  - destruct (List.list_eq_dec byte_eq_dec k' probe); [reflexivity|].
    rewrite IH. destruct (key_index probe ks); [reflexivity|].
    destruct (List.list_eq_dec byte_eq_dec k probe); reflexivity.
Qed.

(** X20: insert in place, then look up.  After [hat_add_array] has appended a
    key shorter than 128 bytes to a node of such keys whose [cnt] is the
    number of its keys, the array scan of [hat_find] with that key returns
    the slot [hat_add_array] returned (the sentinel 1 in set mode), unless
    an equal key was stored before, whose slot it then returns. *)
Theorem add_array_then_find (fuel n : nat) (hat parent buff amt pail : Z)
    (st st' : state) (cell node aux type size nxt : Z) (ks : list (list byte)) :
  hat_add_array (S fuel) hat parent buff amt pail st = Ok (cell, st') ->
  load_le (mem st) parent 8 = Some node ->
  load_le (mem st) (hat_aux hat) 4 = Some aux ->
  load_le (mem st') (hat_aux hat) 4 = Some aux ->
  load_le (mem st) (base_type (Z.land node HAT_mask)) 1 = Some type ->
  HatSize_table !! Z.to_nat type = Some size ->
  load_le (mem st) (base_cnt (Z.land node HAT_mask)) 1 = Some (Z.of_nat (length ks)) ->
  load_le (mem st) (base_nxt (Z.land node HAT_mask)) 2 = Some nxt ->
  array_keys (mem st) (Z.land node HAT_mask) 0 ks ->
  Forall (fun k => (length k < 128)%nat) ks ->
  0 <= amt < 128 -> aux = 0 \/ Z.of_nat (length ks) < 255 ->
  (Z.of_nat (length ks) + 1) * aux + nxt + amt + key_skip amt + sizeof_HatBase <= size ->
  buff + amt <= Z.land node HAT_mask \/
  base_keys (Z.land node HAT_mask) + nxt + key_skip amt + amt <= buff ->
  (length ks < n)%nat ->
  exists k,
    bytes_at (mem st') buff k /\ Z.of_nat (length k) = amt /\
    outcome (find_array n hat (Z.land node HAT_mask) buff 0 amt 0 0 st')
    = Ok (match key_index k ks with
          | Some j => found_at (Z.land node HAT_mask) size aux 0 (Some j)
          | None => if aux =? 0 then 1 else cell
          end).
Proof.
  intros H Hnode Haux Haux' Htype Hs Hcnt Hnxt Hk Hshort Hamt Hroom Hfit Hdis Hn.
  destruct (add_array_node _ _ _ _ _ _ _ _ _ _ _ _ _ _ _ _ H Hnode Haux Htype Hs
              Hcnt Hnxt Hk (proj1 Hamt) Hroom Hfit)
    as (k & Hlen & Hk' & _ & Htype' & Hcell & _ & Hb).
  specialize (Hb Hdis).
  exists k. split; [exact Hb|]. split; [exact Hlen|].
  assert (Hprobe : bytes_at (mem st') (buff + 0) k) by (rewrite Z.add_0_r; exact Hb).
  assert (Hmax : u32 (amt - 0) = Z.of_nat (length k)).
  { rewrite Hlen, Z.sub_0_r. unfold u32. apply Z.mod_small. lia. }
  destruct (array_keys_end _ _ _ _ Hk') as (nxt' & _ & Hbound & _).
  rewrite (find_array_scan hat (Z.land node HAT_mask) buff 0 amt aux type size k
             (mem st') Hprobe Hmax Haux' Htype' Hs (ks ++ [k]) 0 0 n st' eq_refl Hk');
    try lia.
  - rewrite key_index_app.
    destruct (key_index k ks) as [j|]; [reflexivity|].
    destruct (List.list_eq_dec byte_eq_dec k k); [|contradiction].
    unfold found_at. destruct (aux =? 0) eqn:Ea; [reflexivity|].
    rewrite Hcell. do 2 f_equal.
    pose proof (load_le_range _ _ _ _ Haux) as Hauxr.
    change (256 ^ Z.of_nat 4) with 4294967296 in Hauxr.
    pose proof (HatSize_table_bound _ _ Hs) as Hsize.
    pose proof (key_skip_pos amt). unfold sizeof_HatBase in *.
    pose proof (load_le_range _ _ _ _ Hnxt) as Hnxtr.
    assert (0 <= (Z.of_nat (length ks) + 1) * aux) by nia.
    unfold u32. rewrite Z.mod_small; lia.
  - apply Forall_app. split; [exact Hshort|]. constructor; [lia | constructor].
  - rewrite length_app. simpl. lia.
Qed.

Lemma add_array_then_find_witness :
  exists k,
    bytes_at (mem added_after) node_buff k /\ Z.of_nat (length k) = 2 /\
    outcome (find_array 2 node_hat (Z.land 65554 HAT_mask) node_buff 0 2 0 0 added_after)
    = Ok (match key_index k [["a"; "b"; "c"; "d"; "e"; "f"; "g"; "h"]%byte] with
          | Some j => found_at (Z.land 65554 HAT_mask) 32 4 0 (Some j)
          | None => if 4 =? 0 then 1 else added_cell
          end).
Proof.
  apply (add_array_then_find O 2 node_hat node_parent node_buff 2 1 node_after
           added_after added_cell 65554 4 5 32 9
           [["a"; "b"; "c"; "d"; "e"; "f"; "g"; "h"]%byte]).
  - apply (ok_parts (hat_add_array 1 node_hat node_parent node_buff 2 1 node_after)
             0 init_state).
    vm_compute. reflexivity.
  - vm_compute. reflexivity.
  - vm_compute. reflexivity.
  - vm_compute. reflexivity.
  - vm_compute. reflexivity.
  - reflexivity.
  - vm_compute. reflexivity.
  - vm_compute. reflexivity.
  - exact node_after_keys.
  - repeat constructor.
  - lia.
  - right. simpl. lia.
  - vm_compute. discriminate.
  - right. vm_compute. discriminate.
  - simpl. lia.
Defined.

(** ** hat_strip_array *)

Lemma ushort_decoded (st : state) (base tst len : Z) :
  0 <= len <= 32767 -> 0 <= tst -> tst + key_skip len + len < 65536 ->
  key_prefix (mem st) (base_keys base + tst) len ->
  key_len_ushort base tst st = Ok ((len, tst + key_skip len), st).
Proof.
  intros Hlen Htst Hb Hp. unfold key_skip in *.
  destruct (len >? 127) eqn:E.
  - apply Z.gtb_lt in E.
    assert (Hl : 128 <= len <= 32767) by lia.
    assert (Ht : 0 <= tst < 65534) by lia.
    unfold key_prefix in Hp.
    assert (Hgt : (len >? 127) = true) by (apply Z.gtb_lt; lia).
    rewrite Hgt in Hp.
    exact (proj1 (long_prefix_decoded st base tst len Hl Ht Hp)).
  - rewrite Z.gtb_ltb in E. apply Z.ltb_ge in E.
    assert (Hl : 0 <= len <= 127) by lia.
    assert (Ht : 0 <= tst < 65535) by lia.
    exact (proj1 (short_prefix_decoded st base tst len Hl Ht Hp)).
Qed.

Lemma sort_set_ok ks i e st :
  in_range i HatBucketMax = true -> sort_set ks i e st = Ok (<[i := e]> ks, st).
Proof. intros H. unfold sort_set. rewrite H. reflexivity. Qed.

Lemma strip_array_keys_spec (aux base size lst : Z) (keys : list (list byte)) :
  forall tst cnt fuel ks st,
  array_keys (mem st) base tst keys ->
  Forall (fun k => Z.of_nat (length k) <= 32767) keys ->
  0 <= tst -> 0 <= cnt -> 0 <= lst ->
  cnt + Z.of_nat (length keys) < 65536 ->
  lst + cnt + Z.of_nat (length keys) <= HatBucketMax ->
  (length keys <= fuel)%nat ->
  exists ks',
    strip_array_keys fuel aux base size lst tst cnt ks st
    = Ok ((cnt + Z.of_nat (length keys), ks'), st) /\
    (forall (j : nat) off, key_offsets tst keys !! j = Some off ->
       ks' !! (lst + cnt + Z.of_nat j)
       = Some (mkSort (base_keys base + off)
                      (base + size - (cnt + Z.of_nat j + 1) * aux))) /\
    (forall i, i < lst + cnt \/ lst + cnt + Z.of_nat (length keys) <= i ->
       ks' !! i = ks !! i).
Proof.
  induction keys as [|k keys IH]; intros tst cnt fuel ks st Hk Hlen Htst Hcnt Hlst Hwrap Hroom Hf.
  - cbn [array_keys] in Hk. exists ks. split; [|split].
    + destruct fuel; cbn [strip_array_keys]; unfold load16;
        rewrite (bind_ok _ _ _ _ _ (load_ok 2 _ _ _ Hk)), Z.ltb_irrefl;
        simpl; rewrite Z.add_0_r; reflexivity.
    + intros j off Hj. destruct j; discriminate.
    + reflexivity.
  - destruct (array_keys_end _ _ _ _ Hk) as (nxt & Hnxt & Hb & Hend).
    destruct Hk as [[Hpre Hbytes] Htail].
    apply Forall_cons in Hlen as [Hlenk Hlen'].
    destruct fuel as [|fuel]; [simpl in Hf; lia|].
    pose proof (key_skip_pos (Z.of_nat (length k))) as Hskip.
    simpl length in *. unfold HatBucketMax in *.
    cbn [strip_array_keys]. unfold load16.
    rewrite (bind_ok _ _ _ _ _ (load_ok 2 _ _ _ Hnxt)).
    assert (Hlt : (tst <? nxt) = true) by (apply Z.ltb_lt; lia).
    rewrite Hlt. cbn [negb].
    assert (Hin : in_range (lst + cnt) HatBucketMax = true).
    { unfold in_range, HatBucketMax. apply andb_true_iff.
      split; [apply Z.leb_le | apply Z.ltb_lt]; lia. }
    rewrite (bind_ok _ _ _ _ _ (sort_set_ok _ _ _ _ Hin)).
    assert (Hl1 : 0 <= Z.of_nat (length k) <= 32767) by lia.
    assert (Hl2 : tst + key_skip (Z.of_nat (length k)) + Z.of_nat (length k) < 65536)
      by lia.
    rewrite (bind_ok _ _ _ _ _
               (ushort_decoded st base tst (Z.of_nat (length k)) Hl1 Htst Hl2 Hpre)).
    assert (Hu1 : u16 (tst + key_skip (Z.of_nat (length k)) + Z.of_nat (length k))
                  = tst + key_skip (Z.of_nat (length k)) + Z.of_nat (length k))
      by (unfold u16; apply Z.mod_small; lia).
    assert (Hu2 : u16 (cnt + 1) = cnt + 1) by (unfold u16; apply Z.mod_small; lia).
    rewrite Hu1, Hu2.
    destruct (IH (tst + key_skip (Z.of_nat (length k)) + Z.of_nat (length k))
                 (cnt + 1) fuel
                 (<[lst + cnt := mkSort (base_keys base + tst)
                                         (base + size - (cnt + 1) * aux)]> ks)
                 st Htail Hlen')
      as (ks' & Hrun & Hin' & Hout'); try lia.
    exists ks'. split; [|split].
    + rewrite Hrun. do 3 f_equal. lia.
    + intros j off Hj. destruct j as [|j].
      * cbn [key_offsets] in Hj. injection Hj as <-.
        rewrite Hout' by lia. rewrite Z.add_0_r. rewrite lookup_insert_eq.
        do 3 f_equal. lia.
      * cbn [key_offsets] in Hj. specialize (Hin' j off Hj).
        replace (lst + cnt + Z.of_nat (S j)) with (lst + (cnt + 1) + Z.of_nat j) by lia.
        rewrite Hin'. do 3 f_equal. lia.
    + intros i Hi. rewrite Hout' by lia. apply lookup_insert_ne. lia.
Qed.

(** X21: [hat_strip_array] lists an array node.  For a node that holds the
    keys [keys], each at most 32767 bytes long, it returns their number,
    leaves the memory as it is, and fills entries [lst .. lst + cnt - 1] of
    the sort list: entry [j] points at the length prefix of key [j] and at
    aux slot [j + 1] counted from the end of the node.  Other entries of
    the list are not written. *)
Theorem strip_array_lists_keys (fuel : nat) (aux node lst type size : Z)
    (keys : list (list byte)) (ks : gmap Z HatSort) (st : state) :
  array_keys (mem st) (Z.land node HAT_mask) 0 keys ->
  Forall (fun k => Z.of_nat (length k) <= 32767) keys ->
  load_le (mem st) (base_type (Z.land node HAT_mask)) 1 = Some type ->
  HatSize_table !! Z.to_nat type = Some size ->
  0 <= lst -> lst + Z.of_nat (length keys) <= HatBucketMax ->
  (length keys <= fuel)%nat ->
  exists ks',
    hat_strip_array fuel aux node lst ks st
    = Ok ((Z.of_nat (length keys), ks'), st) /\
    (forall (j : nat) off, key_offsets 0 keys !! j = Some off ->
       ks' !! (lst + Z.of_nat j)
       = Some (mkSort (base_keys (Z.land node HAT_mask) + off)
                      (Z.land node HAT_mask + size - (Z.of_nat j + 1) * aux))) /\
    (forall i, i < lst \/ lst + Z.of_nat (length keys) <= i ->
       ks' !! i = ks !! i).
Proof.
  intros Hk Hlen Htype Hs Hlst Hroom Hf. unfold hat_strip_array. cbv zeta.
  rewrite (bind_ok _ _ _ _ _ (load_ok 1 _ _ _ Htype)).
  pose proof (load_le_range _ _ _ _ Htype) as Hr.
  rewrite (bind_ok _ _ _ _ _ (HatSize_some _ _ _ (proj1 Hr) Hs)).
  destruct (array_keys_end _ _ _ _ Hk) as (nxt & _ & Hb & _).
  destruct (strip_array_keys_spec aux (Z.land node HAT_mask) size lst keys
              0 0 fuel ks st Hk Hlen) as (ks' & Hrun & Hin & Hout); try lia.
  exists ks'. split; [exact Hrun|]. split.
  - intros j off Hj. specialize (Hin j off Hj).
    rewrite Z.add_0_r in Hin. exact Hin.
  - intros i Hi. apply Hout. lia.
Qed.

Lemma strip_array_lists_keys_witness :
  exists ks',
    hat_strip_array 1 4 65554 0 ∅ node_after
    = Ok ((Z.of_nat (length [["a"; "b"; "c"; "d"; "e"; "f"; "g"; "h"]%byte]), ks'),
          node_after) /\
    (forall (j : nat) off,
       key_offsets 0 [["a"; "b"; "c"; "d"; "e"; "f"; "g"; "h"]%byte] !! j = Some off ->
       ks' !! (0 + Z.of_nat j)
       = Some (mkSort (base_keys (Z.land 65554 HAT_mask) + off)
                      (Z.land 65554 HAT_mask + 32 - (Z.of_nat j + 1) * 4))) /\
    (forall i, i < 0 \/
               0 + Z.of_nat (length [["a"; "b"; "c"; "d"; "e"; "f"; "g"; "h"]%byte]) <= i ->
       ks' !! i = (∅ : gmap Z HatSort) !! i).
Proof.
  apply (strip_array_lists_keys 1 4 65554 0 5 32
           [["a"; "b"; "c"; "d"; "e"; "f"; "g"; "h"]%byte] ∅ node_after).
  - exact node_after_keys.
  - constructor; [simpl; lia | constructor].
  - vm_compute. reflexivity.
  - reflexivity.
  - lia.
  - vm_compute. discriminate.
  - simpl. lia.
Defined.

(** ** Tagged pointers *)

Lemma aligned_low_bits b n : b mod 8 = 0 -> 0 <= n < 3 -> Z.testbit b n = false.
Proof.
  intros Hb Hn. rewrite <- (Z.mod_pow2_bits_low b 3 n) by lia.
  change (2 ^ 3) with 8. rewrite Hb. apply Z.bits_0.
Qed.

Lemma small_high_bits t n : 0 <= t < 8 -> 3 <= n -> Z.testbit t n = false.
Proof.
  intros Ht Hn. rewrite <- (Z.mod_small t (2 ^ 3)) by (change (2 ^ 3) with 8; lia).
  apply Z.mod_pow2_bits_high. lia.
Qed.

Lemma word_high_bits b n : 0 <= b < 18446744073709551616 -> 64 <= n ->
  Z.testbit b n = false.
Proof.
  intros Hb Hn.
  rewrite <- (Z.mod_small b (2 ^ 64))
    by (change (2 ^ 64) with 18446744073709551616; lia).
  apply Z.mod_pow2_bits_high. lia.
Qed.

Lemma HAT_mask_bits n : 0 <= n ->
  Z.testbit HAT_mask n = (3 <=? n) && (n <? 64).
Proof.
  intros Hn. change HAT_mask with (Z.ldiff (Z.ones 64) (Z.ones 3)).
  rewrite Z.ldiff_spec.
  destruct (Z.ltb_spec n 64); destruct (Z.leb_spec 3 n); cbn [andb].
  - rewrite Z.ones_spec_low, Z.ones_spec_high by lia. reflexivity.
  - rewrite !Z.ones_spec_low by lia. reflexivity.
  - rewrite !Z.ones_spec_high by lia. reflexivity.
  - lia.
Qed.

Lemma HAT_type_bits n : 0 <= n -> Z.testbit HAT_type n = (n <? 3).
Proof.
  intros Hn. change HAT_type with (Z.ones 3).
  destruct (Z.ltb_spec n 3).
  - apply Z.ones_spec_low. lia.
  - apply Z.ones_spec_high. lia.
Qed.

Lemma tag_type b t :
  b mod 8 = 0 -> 0 <= t < 8 -> Z.land (Z.lor b t) HAT_type = t.
Proof.
  intros Hb Ht. apply Z.bits_inj'. intros n Hn.
  rewrite Z.land_spec, Z.lor_spec, HAT_type_bits by lia.
  destruct (Z.ltb_spec n 3).
  - rewrite (aligned_low_bits b) by lia. rewrite andb_true_r. reflexivity.
  - rewrite (small_high_bits t) by lia. apply andb_false_r.
Qed.

Lemma tag_mask b t :
  0 <= b < 18446744073709551616 -> b mod 8 = 0 -> 0 <= t < 8 ->
  Z.land (Z.lor b t) HAT_mask = b.
Proof.
  intros Hr Hb Ht. apply Z.bits_inj'. intros n Hn.
  rewrite Z.land_spec, Z.lor_spec, HAT_mask_bits by lia.
  destruct (Z.leb_spec 3 n); destruct (Z.ltb_spec n 64); cbn [andb].
  - rewrite (small_high_bits t) by lia. rewrite orb_false_r, andb_true_r. reflexivity.
  - rewrite (word_high_bits b) by lia. rewrite andb_false_r. reflexivity.
  - rewrite (aligned_low_bits b) by lia. rewrite andb_false_r. reflexivity.
  - lia.
Qed.

Lemma tag_nonzero b t : 0 <= b -> 0 < t < 8 -> b mod 8 = 0 -> Z.lor b t <> 0.
Proof.
  intros Hb Ht Hm Hz. pose proof (tag_type b t Hm ltac:(lia)) as H.
  rewrite Hz in H. rewrite Z.land_0_l in H. lia.
Qed.

Lemma tag_range b t :
  0 <= b < 18446744073709551616 -> 0 <= t < 8 ->
  0 <= Z.lor b t < 18446744073709551616.
Proof.
  intros Hb Ht. split; [apply Z.lor_nonneg; lia|].
  destruct (Z.eq_dec (Z.lor b t) 0) as [->|Hne]; [lia|].
  apply Z.log2_lt_cancel. rewrite Z.log2_lor by lia.
  change (Z.log2 18446744073709551616) with 64.
  apply Z.max_lub_lt.
  - destruct (Z.eq_dec b 0) as [->|]; [simpl; lia|].
    apply Z.log2_lt_pow2; lia.
  - destruct (Z.eq_dec t 0) as [->|]; [simpl; lia|].
    apply Z.log2_lt_pow2; lia.
Qed.

(** ** Loads from memory that is known piecewise *)

Lemma load_le_zero n : forall m a,
  (forall i, 0 <= i < Z.of_nat n -> m !! (a + i) = Some x00) ->
  load_le m a n = Some 0.
Proof.
  induction n as [|n IH]; intros m a H; simpl; [reflexivity|].
  pose proof (H 0 ltac:(lia)) as H0. rewrite Z.add_0_r in H0. rewrite H0.
  rewrite IH; [reflexivity|].
  intros i Hi. replace (a + 1 + i) with (a + (i + 1)) by lia. apply H. lia.
Qed.

Lemma load_le_fill_zero_other n k : forall m p a,
  a + Z.of_nat k <= p \/ p + Z.of_nat n <= a ->
  load_le (fill_zero m p n) a k = load_le m a k.
Proof.
  intros m p a H. apply load_le_ext. intros i Hi. apply fill_zero_other. lia.
Qed.

Lemma load_le_fill_zero_in n k : forall m p a,
  p <= a -> a + Z.of_nat k <= p + Z.of_nat n ->
  load_le (fill_zero m p n) a k = Some 0.
Proof.
  intros m p a H1 H2. apply load_le_zero. intros i Hi.
  replace (a + i) with (p + (a + i - p)) by lia. apply fill_zero_in. lia.
Qed.

Lemma load_le_write_bytes_other bs k : forall m p a,
  a + Z.of_nat k <= p \/ p + Z.of_nat (length bs) <= a ->
  load_le (write_bytes m p bs) a k = load_le m a k.
Proof.
  intros m p a H. apply load_le_ext. intros i Hi. apply write_bytes_other. lia.
Qed.

Lemma in_block_head p len bs a n :
  0 <= n -> p <= a -> a + n <= p + len -> in_block ((p, len) :: bs) a n = true.
Proof.
  intros Hn H1 H2. unfold in_block. cbn [existsb fst snd].
  apply andb_true_iff. split; [apply Z.leb_le; lia|].
  apply orb_true_iff. left. apply andb_true_iff.
  split; apply Z.leb_le; lia.
Qed.

Lemma memset0_ok p n st :
  in_block (blocks st) p n = true ->
  memset0 p n st
  = Ok (tt, mkState (fill_zero (mem st) p (Z.to_nat n)) (blocks st) (brk st)
                    (rands st) (stats st)).
Proof. intros H. unfold memset0. rewrite H. reflexivity. Qed.

Lemma memcpy_ok dst src n bs st :
  in_block (blocks st) dst n = true ->
  read_bytes (mem st) src (Z.to_nat n) = Some bs ->
  memcpy dst src n st
  = Ok (tt, mkState (write_bytes (mem st) dst bs) (blocks st) (brk st)
                    (rands st) (stats st)).
Proof. intros H1 H2. unfold memcpy. rewrite H1, H2. reflexivity. Qed.

Lemma read_bytes_at m (k : list byte) : forall p,
  bytes_at m p k -> read_bytes m p (length k) = Some k.
Proof.
  induction k as [|b k IH]; intros p H; [reflexivity|].
  cbn [read_bytes length].
  pose proof (H O ltac:(simpl; lia)) as H0. simpl in H0.
  rewrite Z.add_0_r in H0. rewrite H0.
  rewrite IH; [reflexivity|].
  intros i Hi. specialize (H (S i) ltac:(simpl; lia)).
  replace (p + 1 + Z.of_nat i) with (p + Z.of_nat (S i)) by lia. exact H.
Qed.

(** ** The root index *)

Lemma root_index_pure (k : list byte) buff st (n : nat) : forall off triple,
  bytes_at (mem st) buff k -> 0 <= off ->
  root_index n buff (Z.of_nat (length k)) off triple st
  = Ok (root_of n k off triple, st).
Proof.
  induction n as [|n IH]; intros off triple Hk Hoff; [reflexivity|].
  cbn [root_index root_of]. cbv zeta.
  destruct (off <? Z.of_nat (length k)) eqn:E.
  - apply Z.ltb_lt in E.
    assert (Hlt : (Z.to_nat off < length k)%nat) by lia.
    pose proof (Hk (Z.to_nat off) Hlt) as Hb.
    rewrite Z2Nat.id in Hb by lia.
    destruct (lookup_lt_is_Some_2 k (Z.to_nat off) Hlt) as [b Hb'].
    rewrite (nth_lookup_Some _ _ x00 _ Hb'). rewrite Hb' in Hb.
    rewrite (bind_ok _ _ _ _ _ (load8_byte _ _ _ Hb)).
    apply IH; [exact Hk|]. unfold u32. apply Z.mod_pos_bound. lia.
  - apply IH; assumption.
Qed.

Lemma root_of_spec (k : list byte) (n : nat) : forall j off triple,
  Z.of_nat (length k) < 4294967296 ->
  0 <= off <= Z.of_nat (length k) -> 0 <= j -> j + Z.of_nat n <= 4 ->
  0 <= triple < 128 ^ j ->
  (forall i : nat, off <= Z.of_nat i < off + Z.of_nat n -> (i < length k)%nat ->
     byte_val (nth i k x00) < 128) ->
  0 <= fst (root_of n k off triple) < 128 ^ (j + Z.of_nat n) /\
  snd (root_of n k off triple) = Z.min (off + Z.of_nat n) (Z.of_nat (length k)).
Proof.
  induction n as [|n IH]; intros j off triple Hlen Hoff Hj Hn Ht H7.
  - cbn [root_of fst snd]. rewrite !Z.add_0_r. split; [exact Ht | lia].
  - cbn [root_of]. cbv zeta.
    assert (Hp : 128 ^ (j + 1) = 128 * 128 ^ j).
    { rewrite Z.pow_add_r by lia. lia. }
    assert (Hle : 128 ^ (j + 1) <= 128 ^ 4) by (apply Z.pow_le_mono_r; lia).
    change (128 ^ 4) with 268435456 in Hle.
    assert (Hu : u32 (triple * 128) = triple * 128)
      by (unfold u32; apply Z.mod_small; lia).
    rewrite Hu.
    replace (j + Z.of_nat (S n)) with (j + 1 + Z.of_nat n) by lia.
    replace (off + Z.of_nat (S n)) with (off + 1 + Z.of_nat n) by lia.
    destruct (off <? Z.of_nat (length k)) eqn:E.
    + apply Z.ltb_lt in E.
      assert (Hi1 : off <= Z.of_nat (Z.to_nat off) < off + Z.of_nat (S n)) by lia.
      assert (Hi2 : (Z.to_nat off < length k)%nat) by lia.
      pose proof (H7 (Z.to_nat off) Hi1 Hi2) as Hb.
      pose proof (byte_val_range (nth (Z.to_nat off) k x00)) as Hr.
      assert (Hu1 : u32 (off + 1) = off + 1)
        by (unfold u32; apply Z.mod_small; lia).
      assert (Hu2 : u32 (triple * 128 + byte_val (nth (Z.to_nat off) k x00))
                    = triple * 128 + byte_val (nth (Z.to_nat off) k x00))
        by (unfold u32; apply Z.mod_small; lia).
      rewrite Hu1, Hu2.
      apply IH; try lia. intros i Hi Hlt. apply H7; lia.
    + apply Z.ltb_ge in E.
      destruct (IH (j + 1) off (triple * 128)) as [H1 H2]; lia.
Qed.

(** ** hat_open *)

Lemma pow128_bounds boot : 1 <= boot <= 4 -> 128 <= 128 ^ boot <= 268435456.
Proof.
  intros H. split.
  - change 128 with (128 ^ 1) at 1. apply Z.pow_le_mono_r; lia.
  - change 268435456 with (128 ^ 4). apply Z.pow_le_mono_r; lia.
Qed.

Lemma times128_slots boot :
  1 <= boot <= 4 -> times128 (Z.to_nat boot) HAT_slot_size = 8 * 128 ^ boot.
Proof.
  intros H. pose proof (pow128_bounds boot H) as Hp.
  destruct (times128_u32 (Z.to_nat boot) HAT_slot_size) as [-> | Hn]; [|lia].
  rewrite Z2Nat.id by lia. unfold u32, HAT_slot_size. apply Z.mod_small. lia.
Qed.

Lemma round8_aligned amt : 0 <= amt -> amt mod 8 = 0 -> round8 amt = amt.
Proof.
  intros H0 H. unfold round8. change (HAT_cache_line - 1) with (HAT_slot_size - 1).
  rewrite land7 by lia. rewrite H. reflexivity.
Qed.

Lemma in_block_tail b bs a n :
  in_block bs a n = true -> in_block (b :: bs) a n = true.
Proof.
  unfold in_block. intros H. apply andb_true_iff in H as [H1 H2].
  apply andb_true_iff. split; [exact H1|].
  cbn [existsb]. rewrite H2. apply orb_true_r.
Qed.

Lemma new_seg_run (size prev : Z) (st : state) :
  0 < brk st -> 16 <= size ->
  exists m next,
    new_seg size prev st
    = Ok (brk st, mkState m ((brk st, size) :: blocks st)
                          (brk st + (size + 15) / 16 * 16) (rands st) (stats st)) /\
    load_le m (seg_next (brk st)) 4 = Some next /\
    16 <= next <= 23 /\ (brk st + next) mod 8 = 0 /\
    load_le m (seg_seg (brk st)) 8 = Some (prev mod 18446744073709551616) /\
    (forall a, a < brk st \/ brk st + 16 <= a -> m !! a = mem st !! a).
Proof.
  intros Hbrk Hsize. set (p := brk st) in *.
  unfold new_seg.
  rewrite (bind_ok _ _ _ _ _ (eq_refl : malloc size st = Ok (p, _))).
  destruct (p =? 0) eqn:E; [apply Z.eqb_eq in E; lia|].
  unfold seg_next, seg_seg, sizeof_HatSeg, HAT_cache_line, store32, store64.
  assert (Hin4 : forall bs, in_block ((p, size) :: bs) (p + 8) (Z.of_nat 4) = true).
  { intros bs. apply in_block_head; simpl; lia. }
  assert (Hin8 : forall bs, in_block ((p, size) :: bs) p (Z.of_nat 8) = true).
  { intros bs. apply in_block_head; simpl; lia. }
  erewrite bind_ok; [|apply store_ok; cbn [blocks]; apply Hin4].
  cbn [mem blocks brk rands stats].
  erewrite bind_ok; [|apply store_ok; cbn [blocks]; apply Hin8].
  cbn [mem blocks brk rands stats].
  assert (Hland : Z.land p 7 = p mod 8).
  { change 7 with (Z.ones 3). rewrite Z.land_ones by lia. reflexivity. }
  pose proof (Z.mod_pos_bound p 8 ltac:(lia)) as Hmod.
  pose proof (Z.div_mod p 8 ltac:(lia)) as Hdiv.
  change (8 - 1) with 7. rewrite Hland.
  destruct (p mod 8 =? 0) eqn:Er; cbn [negb].
  - apply Z.eqb_eq in Er.
    rewrite (bind_ok _ _ _ _ _ (eq_refl : ret tt _ = Ok (tt, _))).
    eexists _, 16. split; [reflexivity|].
    split; [|split; [lia|split; [|split]]].
    + rewrite load_le_store_le_other by (simpl; lia).
      apply (load_le_store_le 4).
    + replace (p + 16) with (p mod 8 + (p / 8 + 2) * 8) by lia.
      rewrite Z.mod_add by lia. rewrite Er. reflexivity.
    + apply (load_le_store_le 8).
    + intros a Ha. rewrite !store_le_other by (simpl; lia). reflexivity.
  - apply Z.eqb_neq in Er.
    erewrite bind_ok; [|apply store_ok; cbn [blocks]; apply Hin4].
    cbn [mem blocks brk rands stats].
    eexists _, (16 + (8 - p mod 8)). split; [reflexivity|].
    split; [|split; [lia|split; [|split]]].
    + rewrite (load_le_store_le 4). f_equal.
      change (256 ^ Z.of_nat 4) with 4294967296. apply Z.mod_small. lia.
    + replace (p + (16 + (8 - p mod 8))) with (0 + (p / 8 + 3) * 8) by lia.
      rewrite Z.mod_add by lia. reflexivity.
    + rewrite load_le_store_le_other by (simpl; lia).
      apply (load_le_store_le 8).
    + intros a Ha. rewrite !store_le_other by (simpl; lia). reflexivity.
Qed.

Lemma hat_open_run_blocks (boot aux : Z) (st : state) :
  1 <= boot <= 4 -> 0 <= aux < 4294967296 -> 0 < brk st ->
  brk st + HAT_seg + sizeof_Hat + 8 * 128 ^ boot < 18446744073709551616 ->
  exists st1,
    hat_open boot aux st = Ok (brk st + HAT_seg, st1) /\
    fresh_container (brk st + HAT_seg) boot aux st1 /\
    (forall a, a < brk st -> mem st1 !! a = mem st !! a) /\
    (forall a n, in_block (blocks st) a n = true ->
                 in_block (blocks st1) a n = true).
Proof.
  intros Hboot Haux Hbrk Hfit.
  pose proof (pow128_bounds boot Hboot) as HP.
  set (p := brk st) in *. set (P := 128 ^ boot) in *.
  unfold HAT_seg, HAT_slot_size, sizeof_Hat in Hfit.
  unfold hat_open. cbv zeta.
  rewrite (times128_slots boot Hboot). fold P.
  assert (Hamt : round8 (u32 (sizeof_Hat + 8 * P)) = 400 + 8 * P).
  { unfold sizeof_Hat, u32. rewrite (Z.mod_small (400 + 8 * P)) by lia.
    apply round8_aligned; [lia|].
    replace (400 + 8 * P) with ((50 + P) * 8) by lia. apply Z.mod_mul. lia. }
  rewrite Hamt.
  destruct (new_seg_run (400 + 8 * P + HAT_seg) 0 st Hbrk)
    as (m & next & Hseg & Hnext & Hnr & Hal & Hlink & Hfr).
  { unfold HAT_seg, HAT_slot_size. lia. }
  fold p in Hseg, Hnext, Hal, Hlink, Hfr.
  rewrite (bind_ok _ _ _ _ _ Hseg).
  rewrite (bind_ok _ _ _ _ _ (upd_stats_ok _ _)).
  cbn [mem blocks brk rands stats].
  assert (Hin : forall a n bs, p <= a -> 0 <= n ->
                  a + n <= p + (400 + 8 * P + HAT_seg) ->
                  in_block ((p, 400 + 8 * P + HAT_seg) :: bs) a n = true).
  { intros a n bs H1 H2 H3. apply in_block_head; assumption. }
  unfold HAT_seg, HAT_slot_size in *.
  erewrite bind_ok; [|apply memset0_ok; cbn [blocks]; apply Hin; lia].
  cbn [mem blocks brk rands stats].
  unfold store32, store64, hat_bootlvl, hat_aux, hat_seg, hat_root.
  erewrite bind_ok; [|apply store_ok; cbn [blocks]; apply Hin; simpl; lia].
  cbn [mem blocks brk rands stats].
  erewrite bind_ok; [|apply store_ok; cbn [blocks]; apply Hin; simpl; lia].
  cbn [mem blocks brk rands stats].
  erewrite bind_ok; [|apply store_ok; cbn [blocks]; apply Hin; simpl; lia].
  cbn [mem blocks brk rands stats].
  destruct (boot =? 0) eqn:Eb; [apply Z.eqb_eq in Eb; lia|].
  rewrite (bind_ok _ _ _ _ _ (eq_refl : ret tt _ = Ok (tt, _))).
  eexists. split; [reflexivity|].
  cbn [mem blocks brk rands stats]. split; [|split].
  - unfold fresh_container. cbv zeta.
    unfold hat_bootlvl, hat_aux, hat_seg, hat_root, seg_next, seg_seg,
      sizeof_Hat, HAT_seg, HAT_slot_size in *.
    cbn [mem blocks brk rands stats]. fold P.
    replace (p + (65536 * 8 + 32) - (65536 * 8 + 32)) with p by lia.
    split; [lia|]. split; [lia|].
    split; [|split; [|split; [|split; [|split]]]].
    + rewrite !load_le_store_le_other by (simpl; lia).
      rewrite (load_le_store_le 4). f_equal.
      change (256 ^ Z.of_nat 4) with 4294967296. apply Z.mod_small. lia.
    + rewrite load_le_store_le_other by (simpl; lia).
      rewrite (load_le_store_le 4). f_equal.
      change (256 ^ Z.of_nat 4) with 4294967296. apply Z.mod_small. lia.
    + rewrite (load_le_store_le 8). f_equal.
      change (256 ^ Z.of_nat 8) with 18446744073709551616. apply Z.mod_small. lia.
    + exists next. split; [|split; assumption].
      rewrite !load_le_store_le_other by (simpl; lia).
      rewrite load_le_fill_zero_other by (simpl; lia). exact Hnext.
    + intros a Ha. rewrite !store_le_other by (simpl; lia).
      replace a with (p + (65536 * 8 + 32) + (a - (p + (65536 * 8 + 32)))) by lia.
      apply fill_zero_in. lia.
    + apply in_block_head; lia.
  - intros a Ha. rewrite !store_le_other by (simpl; lia).
    rewrite fill_zero_other by lia. apply Hfr. lia.
  - intros a n Ha. apply in_block_tail. exact Ha.
Qed.

Lemma hat_open_run (boot aux : Z) (st : state) :
  1 <= boot <= 4 -> 0 <= aux < 4294967296 -> 0 < brk st ->
  brk st + HAT_seg + sizeof_Hat + 8 * 128 ^ boot < 18446744073709551616 ->
  exists st1,
    hat_open boot aux st = Ok (brk st + HAT_seg, st1) /\
    fresh_container (brk st + HAT_seg) boot aux st1 /\
    (forall a, a < brk st -> mem st1 !! a = mem st !! a).
Proof.
  intros Hboot Haux Hbrk Hfit.
  destruct (hat_open_run_blocks boot aux st Hboot Haux Hbrk Hfit)
    as (st1 & H1 & H2 & H3 & _).
  exists st1. split; [exact H1|]. split; [exact H2 | exact H3].
Qed.

(** ** A fresh container holds no key, and then the key just inserted *)

Lemma in_block_sub bs p len a n :
  in_block bs p len = true -> 0 <= n -> p <= a -> a + n <= p + len ->
  in_block bs a n = true.
Proof.
  unfold in_block. intros H Hn H1 H2.
  apply andb_true_iff in H as [_ H]. apply andb_true_iff.
  split; [apply Z.leb_le; exact Hn|].
  apply existsb_exists in H as (b & Hb & Hin). apply existsb_exists.
  exists b. split; [exact Hb|].
  apply andb_true_iff in Hin as [Ha Hc]. apply Z.leb_le in Ha, Hc.
  apply andb_true_iff. split; apply Z.leb_le; lia.
Qed.

Lemma array_class_aligned type size :
  HatSize_table !! Z.to_nat type = Some size -> size mod 8 = 0.
Proof.
  intros Hs.
  assert (Hall : Forall (fun s => s mod 8 = 0) HatSize_table).
  { repeat constructor. }
  rewrite Forall_lookup in Hall. exact (Hall _ _ Hs).
Qed.

Lemma new_array_type_fits need st :
  need <= 512 ->
  exists t size, new_array_type 32 need HAT_1 st = Ok (t, st) /\
    HAT_1 <= t <= HatMax /\ HatSize_table !! Z.to_nat t = Some size /\
    need <= size <= 512.
Proof.
  intros Hn.
  assert (H0 : 0 <= HAT_1 <= 32) by (unfold HAT_1; lia).
  assert (H1 : Z.of_nat 28 = 32 - HAT_1) by reflexivity.
  assert (H2 : (28 <= 32)%nat) by lia.
  destruct (new_array_type_spec need st 28 32 HAT_1 H0 H1 H2)
    as [(t & Hrun & Hr & (size & Hs & Hfit) & Hmin) | (Hrun & Hmin)].
  - destruct (new_array_type_ok need st t st Hrun) as (_ & Hty & _).
    exists t, size. split; [exact Hrun|]. split; [exact Hty|].
    split; [exact Hs|]. split; [exact Hfit|].
    apply (HatSize_table_small t size); [unfold HAT_1 in Hty; lia | exact Hs].
  - exfalso. assert (H15 : 512 < need).
    { apply (Hmin 15 512); [unfold HAT_1; lia | reflexivity]. }
    lia.
Qed.

Ltac frame :=
  repeat first
    [ rewrite load_le_store_le_other by (simpl; lia)
    | rewrite load_le_write_bytes_other by (simpl; lia)
    | rewrite load_le_fill_zero_other by (simpl; lia) ].

Ltac frame1 :=
  repeat first
    [ rewrite store_le_other by (simpl; lia)
    | rewrite write_bytes_other by (simpl; lia)
    | rewrite fill_zero_other by (simpl; lia) ].

Section fresh.

Variables (hat boot aux : Z) (st : state).
Hypothesis Hboot : 1 <= boot <= 4.
Hypothesis Hfresh : fresh_container hat boot aux st.

(** [hat_alloc] of an array class on the fresh container takes the first
    bytes of the segment. *)
Lemma hat_alloc_fresh type size :
  HAT_1 <= type <= HatMax -> HatSize_table !! Z.to_nat type = Some size ->
  exists next,
    load_le (mem st) (seg_next (hat - HAT_seg)) 4 = Some next /\
    16 <= next <= 23 /\ (hat - HAT_seg + next) mod 8 = 0 /\
    hat_alloc hat type st
    = Ok (hat - HAT_seg + next,
          mkState (fill_zero
                     (store_le (store_le (mem st) (hat_counts hat type) 4 (0 + 1))
                               (seg_next (hat - HAT_seg)) 4 (next + size))
                     (hat - HAT_seg + next) (Z.to_nat size))
                  (blocks st) (brk st) (rands st) (stats st)).
Proof.
  intros Hty Hs.
  destruct Hfresh as (Hseg0 & Hfit & Hb & Ha & Hsg & (next & Hnext & Hnr & Hal) & Hz & Hin).
  pose proof (pow128_bounds boot Hboot) as HP. set (P := 128 ^ boot) in *.
  pose proof (HatSize_table_small type size ltac:(unfold HAT_1 in Hty; lia) Hs) as Hsz.
  pose proof (array_class_aligned type size Hs) as Hsa.
  unfold HAT_1, HatMax, HAT_32 in Hty.
  exists next. split; [exact Hnext|]. split; [exact Hnr|]. split; [exact Hal|].
  unfold hat_alloc, hat_counts, hat_reuse, hat_seg, hat_root, seg_next,
    sizeof_Hat, HAT_seg, HAT_slot_size, load32, load64, store32, store64 in *.
  rewrite (bind_ok _ _ _ _ _ (HatSize_some type size _ ltac:(lia) Hs)).
  erewrite bind_ok.
  2:{ apply load_ok. apply load_le_zero. intros i Hi. apply Hz. simpl in Hi. lia. }
  erewrite bind_ok.
  2:{ apply store_ok. apply (in_block_sub _ _ _ _ _ Hin); simpl; lia. }
  cbn [mem blocks brk rands stats]. cbv zeta.
  rewrite (round8_aligned size (proj1 Hsz) Hsa).
  erewrite bind_ok.
  2:{ apply load_ok. cbn [mem]. frame. apply load_le_zero.
      intros i Hi. apply Hz. simpl in Hi. lia. }
  change (negb (0 =? 0)) with false. cbv iota.
  erewrite bind_ok; [|apply load_ok; cbn [mem]; frame; exact Hsg].
  erewrite bind_ok; [|apply load_ok; cbn [mem]; frame; exact Hnext].
  assert (Hroom : (u32 (next + size) >? 65536 * 8 + 32) = false).
  { rewrite Z.gtb_ltb. apply Z.ltb_ge. unfold u32. rewrite Z.mod_small; lia. }
  rewrite Hroom.
  rewrite (bind_ok _ _ _ _ _ (eq_refl : ret tt _ = Ok (tt, _))).
  erewrite bind_ok; [|apply load_ok; cbn [mem]; frame; exact Hsg].
  erewrite bind_ok; [|apply load_ok; cbn [mem]; frame; exact Hnext].
  erewrite bind_ok.
  2:{ apply store_ok. cbn [blocks]. apply (in_block_sub _ _ _ _ _ Hin); simpl; lia. }
  cbn [mem blocks brk rands stats].
  erewrite bind_ok.
  2:{ apply memset0_ok. cbn [blocks]. apply (in_block_sub _ _ _ _ _ Hin); lia. }
  reflexivity.
Qed.

(** [hat_new_array] on the fresh container, for a key of fewer than 128
    bytes that lies outside the container, under an entry of the root. *)
Lemma hat_new_array_fresh (triple src : Z) (kk : list byte) :
  0 <= triple < 128 ^ boot ->
  bytes_at (mem st) src kk ->
  src + Z.of_nat (length kk) <= hat - HAT_seg \/
  hat + sizeof_Hat + 8 * 128 ^ boot <= src ->
  Z.of_nat (length kk) < 128 ->
  aux + Z.of_nat (length kk) + 5 <= 512 ->
  exists block type size st2,
    hat_new_array hat (slot_at (hat_root hat) triple) src (Z.of_nat (length kk)) st
    = Ok (block + size - aux, st2) /\
    0 < block < 18446744073709551616 /\ block mod 8 = 0 /\ aux < size /\
    HatSize_table !! Z.to_nat type = Some size /\
    (forall a, a < hat - HAT_seg \/ hat + sizeof_Hat + 8 * 128 ^ boot <= a ->
               mem st2 !! a = mem st !! a) /\
    load_le (mem st2) (hat_bootlvl hat) 4 = Some boot /\
    load_le (mem st2) (hat_aux hat) 4 = Some aux /\
    load_le (mem st2) (slot_at (hat_root hat) triple) 8 = Some (Z.lor block HAT_array) /\
    array_keys (mem st2) block 0 [kk] /\
    load_le (mem st2) (base_type block) 1 = Some type /\
    (forall i, 0 <= i < 128 ^ boot -> i <> triple ->
       load_le (mem st2) (slot_at (hat_root hat) i) 8 = Some 0) /\
    blocks st2 = blocks st /\
    hat - HAT_seg < block /\ block + size <= hat /\
    aux + Z.of_nat (length kk) + 5 <= size.
Proof.
  intros Htr Hsrc Hout Hshort Hroom.
  destruct (new_array_type_fits (aux + Z.of_nat (length kk) + 1 + sizeof_HatBase) st)
    as (type & size & Htype & Hty & Hs & Hfit).
  { unfold sizeof_HatBase. lia. }
  destruct (hat_alloc_fresh type size Hty Hs) as (next & Hnext & Hnr & Hal & Halloc).
  destruct Hfresh as (Hseg0 & Hfit64 & Hb & Ha & Hsg & _ & Hz & Hin).
  pose proof (pow128_bounds boot Hboot) as HP. set (P := 128 ^ boot) in *.
  pose proof (load_le_range _ _ _ _ Ha) as Har.
  change (256 ^ Z.of_nat 4) with 4294967296 in Har.
  set (rest := Z.of_nat (length kk)) in *.
  unfold HAT_1, HatMax, HAT_32, sizeof_HatBase in *.
  set (block := hat - HAT_seg + next) in *.
  exists block, type, size.
  unfold hat_new_array. cbv zeta.
  assert (Hskip : key_skip rest = 1) by (apply key_skip_short; lia).
  rewrite Hskip.
  rewrite (bind_ok _ _ _ _ _ (load_ok 4 _ _ _ Ha)).
  replace (u32 (aux + rest + 1)) with (aux + rest + 1)
    by (unfold u32; rewrite Z.mod_small; lia).
  unfold sizeof_HatBase. rewrite (bind_ok _ _ _ _ _ Htype).
  assert (Hle : (type >? HatMax) = false).
  { rewrite Z.gtb_ltb. apply Z.ltb_ge. unfold HatMax, HAT_32. lia. }
  rewrite Hle.
  rewrite (bind_ok _ _ _ _ _ Halloc).
  unfold hat_counts, hat_reuse, hat_seg, hat_root, hat_bootlvl, hat_aux, seg_next,
    slot_at, base_keys, base_nxt, base_type, base_cnt,
    sizeof_Hat, HAT_seg, HAT_slot_size, store8, store16, store32, store64 in *.
  erewrite bind_ok.
  2:{ apply store_ok. cbn [blocks]. apply (in_block_sub _ _ _ _ _ Hin); simpl; lia. }
  cbn [mem blocks brk rands stats].
  erewrite bind_ok.
  2:{ apply store_ok. cbn [blocks]. apply (in_block_sub _ _ _ _ _ Hin); simpl; lia. }
  cbn [mem blocks brk rands stats].
  assert (Hgt : (rest >? 127) = false) by (rewrite Z.gtb_ltb; apply Z.ltb_ge; lia).
  rewrite Hgt.
  rewrite (bind_ok _ _ _ _ _ (eq_refl : ret tt _ = Ok (tt, _))).
  erewrite bind_ok.
  2:{ apply memcpy_ok.
      - cbn [blocks]. apply (in_block_sub _ _ _ _ _ Hin); lia.
      - cbn [mem]. unfold rest. rewrite Nat2Z.id. apply read_bytes_at.
        intros i Hi. frame1. apply Hsrc. exact Hi. }
  cbn [mem blocks brk rands stats].
  erewrite bind_ok.
  2:{ apply store_ok. cbn [blocks]. apply (in_block_sub _ _ _ _ _ Hin); simpl; lia. }
  cbn [mem blocks brk rands stats].
  erewrite bind_ok.
  2:{ apply store_ok. cbn [blocks]. apply (in_block_sub _ _ _ _ _ Hin); simpl; lia. }
  cbn [mem blocks brk rands stats].
  erewrite bind_ok.
  2:{ apply store_ok. cbn [blocks]. apply (in_block_sub _ _ _ _ _ Hin); simpl; lia. }
  cbn [mem blocks brk rands stats].
  rewrite (bind_ok _ _ _ _ _ (HatSize_some type size _ ltac:(lia) Hs)).
  eexists. split; [reflexivity|]. cbn [mem].
  split; [lia|]. split; [exact Hal|]. split; [lia|]. split; [exact Hs|].
  split; [|split; [|split; [|split; [|split; [|split; [|split; [|split; [|split]]]]]]]].
  - intros a Hout'. frame1. reflexivity.
  - frame. exact Hb.
  - frame. exact Ha.
  - frame. rewrite (load_le_store_le 8). f_equal.
    change (256 ^ Z.of_nat 8) with 18446744073709551616. apply Z.mod_small.
    apply tag_range; [lia | unfold HAT_array; lia].
  - cbn [array_keys]. unfold key_at, key_prefix, base_keys, base_nxt.
    fold rest. rewrite Hskip, Hgt. split; [split|].
    + frame1. rewrite Z.add_0_r. apply store8_lookup.
    + intros i Hi. frame1. rewrite Z.add_0_r.
      replace (block + 4 + 1) with (block + 5) by lia.
      apply write_bytes_in. exact Hi.
    + frame. rewrite (load_le_store_le 2). f_equal.
      change (256 ^ Z.of_nat 2) with 65536. rewrite Z.mod_small; lia.
  - frame. rewrite (load_le_store_le 1). f_equal.
    change (256 ^ Z.of_nat 1) with 256. apply Z.mod_small. lia.
  - intros i Hi Hne. frame. apply load_le_zero. intros j Hj. apply Hz.
    simpl in Hj. right. lia.
  - reflexivity.
  - lia.
  - fold rest. lia.
Qed.

Variables (buff : Z) (k : list byte).
Hypothesis Hkey : bytes_at (mem st) buff k.
Hypothesis Hlen : Z.of_nat (length k) < 4294967296.
Hypothesis H7 : forall i : nat, Z.of_nat i < boot -> (i < length k)%nat ->
                  byte_val (nth i k x00) < 128.

Lemma fresh_root :
  0 <= fst (root_of (Z.to_nat boot) k 0 0) < 128 ^ boot /\
  snd (root_of (Z.to_nat boot) k 0 0) = Z.min boot (Z.of_nat (length k)).
Proof.
  destruct (root_of_spec k (Z.to_nat boot) 0 0 0) as [H1 H2]; try lia.
  - intros i Hi Hlt. apply H7; lia.
  - rewrite Z2Nat.id in H1, H2 by lia. rewrite !Z.add_0_l in *. split; assumption.
Qed.

Lemma fresh_find_node_misses fuel :
  outcome (hat_find fuel hat buff (Z.of_nat (length k)) st) = Ok 0.
Proof.
  destruct fresh_root as [Ht Ho].
  destruct Hfresh as (Hseg0 & Hfit & Hb & Ha & Hsg & _ & Hz & Hin).
  unfold hat_find.
  rewrite (bind_ok _ _ _ _ _ (load_ok 4 _ _ _ Hb)).
  rewrite (bind_ok _ _ _ _ _ (root_index_pure k buff st _ 0 0 Hkey ltac:(lia))).
  destruct (root_of (Z.to_nat boot) k 0 0) as [triple off]. cbn [fst snd] in *.
  unfold load64, slot_at, HAT_slot_size.
  erewrite bind_ok.
  2:{ apply load_ok. apply load_le_zero. intros i Hi. apply Hz. simpl in Hi.
      unfold hat_root. right. lia. }
  destruct fuel; reflexivity.
Qed.

Hypothesis Hout : buff + Z.of_nat (length k) <= hat - HAT_seg \/
                  hat + sizeof_Hat + 8 * 128 ^ boot <= buff.
Hypothesis Hrest : Z.of_nat (length k) - Z.min boot (Z.of_nat (length k)) < 128.
Hypothesis Hroom : aux + (Z.of_nat (length k) - Z.min boot (Z.of_nat (length k))) + 5
                   <= 512.
Hypothesis Hauxpos : 0 < aux.

(** The state [hat_cell] leaves: one array node under the root entry of
    the key, holding the rest of the key. *)
Lemma fresh_cell_state fuel :
  exists triple off block type size st2,
    root_of (Z.to_nat boot) k 0 0 = (triple, off) /\
    0 <= triple < 128 ^ boot /\ off = Z.min boot (Z.of_nat (length k)) /\
    hat_cell (S fuel) hat buff (Z.of_nat (length k)) st
    = Ok (block + size - aux, st2) /\
    0 < block < 18446744073709551616 /\ block mod 8 = 0 /\ aux < size /\
    HatSize_table !! Z.to_nat type = Some size /\
    (forall a, a < hat - HAT_seg \/ hat + sizeof_Hat + 8 * 128 ^ boot <= a ->
               mem st2 !! a = mem st !! a) /\
    load_le (mem st2) (hat_bootlvl hat) 4 = Some boot /\
    load_le (mem st2) (hat_aux hat) 4 = Some aux /\
    load_le (mem st2) (slot_at (hat_root hat) triple) 8 = Some (Z.lor block HAT_array) /\
    array_keys (mem st2) block 0 [drop (Z.to_nat off) k] /\
    load_le (mem st2) (base_type block) 1 = Some type /\
    (forall i, 0 <= i < 128 ^ boot -> i <> triple ->
       load_le (mem st2) (slot_at (hat_root hat) i) 8 = Some 0) /\
    blocks st2 = blocks st /\
    (hat - HAT_seg < block /\ block + size <= hat) /\
    aux + (Z.of_nat (length k) - off) + 5 <= size.
Proof.
  destruct fresh_root as [Ht Ho].
  destruct (root_of (Z.to_nat boot) k 0 0) as [triple off] eqn:Eroot.
  cbn [fst snd] in Ht, Ho.
  set (len := Z.of_nat (length k)) in *.
  set (kk := drop (Z.to_nat off) k).
  assert (Hoff : 0 <= off <= len) by lia.
  assert (Hlk : Z.of_nat (length kk) = len - off).
  { unfold kk. rewrite length_drop. unfold len. lia. }
  assert (Hkk : bytes_at (mem st) (buff + off) kk).
  { intros i Hi. unfold kk. rewrite lookup_drop.
    replace (buff + off + Z.of_nat i) with (buff + Z.of_nat (Z.to_nat off + i)) by lia.
    apply Hkey. unfold kk in Hi. rewrite length_drop in Hi. lia. }
  destruct (hat_new_array_fresh triple (buff + off) kk Ht Hkk)
    as (block & type & size & st2 & Hnew & Hblock & Hal & Hsz & Hs & Hfr & Hb2 & Ha2
        & Hslot & Hkeys & Htype & Hzero & Hblocks & Hloc1 & Hloc2 & Hneed); try lia.
  destruct Hfresh as (Hseg0 & Hfit & Hb & Ha & Hsg & _ & Hz & Hin).
  pose proof (load_le_range _ _ _ _ Ha) as Har.
  change (256 ^ Z.of_nat 4) with 4294967296 in Har.
  assert (Hu : u32 (len - off) = Z.of_nat (length kk)).
  { rewrite Hlk. unfold u32. apply Z.mod_small. lia. }
  exists triple, off, block, type, size, st2.
  split; [reflexivity|]. split; [exact Ht|]. split; [exact Ho|].
  split; [|fold len; rewrite <- Hlk; tauto].
  unfold hat_cell.
  rewrite (bind_ok _ _ _ _ _ (load_ok 4 _ _ _ Hb)).
  rewrite (bind_ok _ _ _ _ _ (root_index_pure k buff st _ 0 0 Hkey ltac:(lia))).
  rewrite Eroot. cbn [cell_node].
  unfold load64.
  erewrite bind_ok.
  2:{ apply load_ok. apply load_le_zero. intros i Hi. apply Hz. simpl in Hi.
      unfold slot_at, hat_root, HAT_slot_size. right. lia. }
  change (0 =? 0) with true. cbv iota. change (negb true) with false. cbv iota.
  rewrite (bind_ok _ _ _ _ _ (eq_refl : ret false _ = Ok (false, _))).
  cbv iota. rewrite Hu.
  rewrite (bind_ok _ _ _ _ _ Hnew).
  unfold cell_return.
  rewrite (bind_ok _ _ _ _ _ (load_ok 4 _ _ _ Ha2)).
  destruct (aux =? 0) eqn:Ea; [apply Z.eqb_eq in Ea; lia|]. reflexivity.
Qed.

Lemma fresh_cell_find fuel fuel' :
  exists cell st2,
    hat_cell (S fuel) hat buff (Z.of_nat (length k)) st = Ok (cell, st2) /\
    0 < cell /\
    outcome (hat_find (S fuel') hat buff (Z.of_nat (length k)) st2) = Ok cell.
Proof.
  destruct (fresh_cell_state fuel)
    as (triple & off & block & type & size & st2 & Eroot & Ht & Ho & Hcell & Hblock
        & Hal & Hsz & Hs & Hfr & Hb2 & Ha2 & Hslot & Hkeys & Htype & _).
  set (len := Z.of_nat (length k)) in *.
  set (kk := drop (Z.to_nat off) k) in *.
  assert (Hoff : 0 <= off <= len) by lia.
  assert (Hlk : Z.of_nat (length kk) = len - off).
  { unfold kk. rewrite length_drop. unfold len. lia. }
  assert (Hkk : bytes_at (mem st) (buff + off) kk).
  { intros i Hi. unfold kk. rewrite lookup_drop.
    replace (buff + off + Z.of_nat i) with (buff + Z.of_nat (Z.to_nat off + i)) by lia.
    apply Hkey. unfold kk in Hi. rewrite length_drop in Hi. lia. }
  destruct Hfresh as (Hseg0 & Hfit & Hb & Ha & Hsg & _ & Hz & Hin).
  pose proof (load_le_range _ _ _ _ Ha) as Har.
  change (256 ^ Z.of_nat 4) with 4294967296 in Har.
  assert (Hu : u32 (len - off) = Z.of_nat (length kk)).
  { rewrite Hlk. unfold u32. apply Z.mod_small. lia. }
  exists (block + size - aux), st2.
  split; [exact Hcell|]. split; [lia|].
  assert (Hkey2 : bytes_at (mem st2) buff k).
  { intros i Hi. rewrite Hfr; [apply Hkey; exact Hi|]. fold len in Hout. lia. }
  assert (Hkk2 : bytes_at (mem st2) (buff + off) kk).
  { intros i Hi. rewrite Hfr; [apply Hkk; exact Hi|]. fold len in Hout. lia. }
  unfold hat_find.
  rewrite (bind_ok _ _ _ _ _ (load_ok 4 _ _ _ Hb2)).
  rewrite (bind_ok _ _ _ _ _ (root_index_pure k buff st2 _ 0 0 Hkey2 ltac:(lia))).
  rewrite Eroot.
  rewrite (bind_ok _ _ _ _ _ (load_ok 8 _ _ _ Hslot)).
  cbn [find_node].
  assert (Hnz : (Z.lor block HAT_array =? 0) = false).
  { apply Z.eqb_neq. apply tag_nonzero; [lia | unfold HAT_array; lia | exact Hal]. }
  rewrite Hnz.
  rewrite (tag_type block HAT_array Hal ltac:(unfold HAT_array; lia)).
  change (HAT_array =? HAT_array) with true. cbv iota.
  rewrite (bind_ok _ _ _ _ _ (upd_stats_ok _ _)).
  rewrite (tag_mask block HAT_array ltac:(lia) Hal ltac:(unfold HAT_array; lia)).
  match goal with
  | |- outcome (find_array _ _ _ _ _ _ _ _ ?s) = _ =>
      rewrite (find_array_scan hat block buff off len aux type size kk (mem st2)
                 Hkk2 Hu Ha2 Htype Hs [kk] 0 0 (S fuel') s eq_refl Hkeys)
  end; try lia.
  + rewrite key_index_self. unfold found_at. rewrite (proj2 (Z.eqb_neq aux 0)) by lia.
    do 2 f_equal. unfold u32. rewrite Z.mod_small; lia.
  + constructor; [lia | constructor].
  + simpl. lia.
  + simpl. lia.
Qed.

End fresh.

(** X22: [hat_open] on a boot level from 1 to 4 succeeds and returns a fresh
    container: the handle lies [HAT_seg] bytes into a new block, the header
    records the boot level, the aux size and the segment, the segment's
    [next] is the end of its header rounded so that [seg + next] is a
    multiple of 8, the reuse lists, the counters and all [128 ^ boot] root
    slots are zero, and no byte below the old break is
    changed. *)
Theorem hat_open_is_fresh (boot aux : Z) (st : state) :
  1 <= boot <= 4 -> 0 <= aux < 4294967296 -> 0 < brk st ->
  brk st + HAT_seg + sizeof_Hat + 8 * 128 ^ boot < 18446744073709551616 ->
  exists st1,
    hat_open boot aux st = Ok (brk st + HAT_seg, st1) /\
    fresh_container (brk st + HAT_seg) boot aux st1 /\
    (forall a, a < brk st -> mem st1 !! a = mem st !! a).
Proof. apply hat_open_run. Qed.

Lemma hat_open_is_fresh_witness :
  exists st1,
    hat_open 1 4 key_first = Ok (brk key_first + HAT_seg, st1) /\
    fresh_container (brk key_first + HAT_seg) 1 4 st1 /\
    (forall a, a < brk key_first -> mem st1 !! a = mem key_first !! a).
Proof.
  apply (hat_open_is_fresh 1 4 key_first).
  - lia.
  - lia.
  - vm_compute. reflexivity.
  - vm_compute. reflexivity.
Defined.

(** X23: a lookup in a fresh container finds nothing.  On a container as
    [hat_open] leaves it (boot level 1 to 4), [hat_find] returns NULL for
    every key whose first [boot] bytes are below 128, whatever the fuel:
    it reads the root slot, finds it empty, and stops. *)
Theorem fresh_container_misses (fuel : nat) (hat boot aux buff : Z)
    (k : list byte) (st : state) :
  1 <= boot <= 4 -> fresh_container hat boot aux st ->
  bytes_at (mem st) buff k -> Z.of_nat (length k) < 4294967296 ->
  (forall i : nat, Z.of_nat i < boot -> (i < length k)%nat ->
     byte_val (nth i k x00) < 128) ->
  outcome (hat_find fuel hat buff (Z.of_nat (length k)) st) = Ok 0.
Proof.
  intros Hboot Hfresh Hkey Hlen H7.
  exact (fresh_find_node_misses hat boot aux st Hboot Hfresh buff k Hkey Hlen H7 fuel).
Qed.

(** The key "ab" lies in [key_first], and in every state that agrees with
    it below its [brk]. *)
Lemma key_first_ab st1 :
  (forall a, a < brk key_first -> mem st1 !! a = mem key_first !! a) ->
  bytes_at (mem st1) 65536 ["a"; "b"]%byte.
Proof.
  intros Hframe i Hi. simpl in Hi.
  destruct i as [|[|i]]; [| |lia];
    (rewrite Hframe; [vm_compute; reflexivity | vm_compute; reflexivity]).
Qed.

Lemma key_first_7bit (i : nat) :
  Z.of_nat i < 1 -> (i < length ["a"; "b"]%byte)%nat ->
  byte_val (nth i ["a"; "b"]%byte x00) < 128.
Proof.
  intros Hi _. assert (i = O) by lia. subst i. vm_compute. reflexivity.
Qed.

Lemma fresh_container_misses_witness :
  exists st1,
    hat_open 1 4 key_first = Ok (brk key_first + HAT_seg, st1) /\
    outcome (hat_find O (brk key_first + HAT_seg) 65536
                      (Z.of_nat (length ["a"; "b"]%byte)) st1) = Ok 0.
Proof.
  destruct (hat_open_run 1 4 key_first) as (st1 & Hopen & Hfresh & Hframe);
    [lia | lia | vm_compute; reflexivity | vm_compute; reflexivity |].
  exists st1. split; [exact Hopen|].
  apply (fresh_container_misses O (brk key_first + HAT_seg) 1 4 65536
           ["a"; "b"]%byte st1).
  - lia.
  - exact Hfresh.
  - exact (key_first_ab st1 Hframe).
  - simpl. lia.
  - exact key_first_7bit.
Defined.

(** X24: insert, then look up, through the container.  On a fresh container
    with a positive aux size, [hat_cell] of a key whose first [boot] bytes
    are below 128 and whose remainder is shorter than 128 bytes and fits
    the largest array class succeeds with a non-null slot, and [hat_find]
    of the same key afterwards returns that very slot.  The key buffer must
    lie outside the container's block. *)
Theorem fresh_cell_then_find (fuel fuel' : nat) (hat boot aux buff : Z)
    (k : list byte) (st : state) :
  1 <= boot <= 4 -> fresh_container hat boot aux st ->
  bytes_at (mem st) buff k -> Z.of_nat (length k) < 4294967296 ->
  (forall i : nat, Z.of_nat i < boot -> (i < length k)%nat ->
     byte_val (nth i k x00) < 128) ->
  buff + Z.of_nat (length k) <= hat - HAT_seg \/
  hat + sizeof_Hat + 8 * 128 ^ boot <= buff ->
  Z.of_nat (length k) - Z.min boot (Z.of_nat (length k)) < 128 ->
  aux + (Z.of_nat (length k) - Z.min boot (Z.of_nat (length k))) + 5 <= 512 ->
  0 < aux ->
  exists cell st2,
    hat_cell (S fuel) hat buff (Z.of_nat (length k)) st = Ok (cell, st2) /\
    0 < cell /\
    outcome (hat_find (S fuel') hat buff (Z.of_nat (length k)) st2) = Ok cell.
Proof.
  intros Hboot Hfresh Hkey Hlen H7 Hout Hrest Hroom Haux.
  exact (fresh_cell_find hat boot aux st Hboot Hfresh buff k Hkey Hlen H7 Hout
           Hrest Hroom Haux fuel fuel').
Qed.

Lemma fresh_cell_then_find_witness :
  exists st1 cell st2,
    hat_open 1 4 key_first = Ok (brk key_first + HAT_seg, st1) /\
    hat_cell 1 (brk key_first + HAT_seg) 65536
             (Z.of_nat (length ["a"; "b"]%byte)) st1 = Ok (cell, st2) /\
    0 < cell /\
    outcome (hat_find 1 (brk key_first + HAT_seg) 65536
                      (Z.of_nat (length ["a"; "b"]%byte)) st2) = Ok cell.
Proof.
  destruct (hat_open_run 1 4 key_first) as (st1 & Hopen & Hfresh & Hframe);
    [lia | lia | vm_compute; reflexivity | vm_compute; reflexivity |].
  destruct (fresh_cell_then_find O O (brk key_first + HAT_seg) 1 4 65536
              ["a"; "b"]%byte st1) as (cell & st2 & Hcell & Hpos & Hfind).
  - lia.
  - exact Hfresh.
  - exact (key_first_ab st1 Hframe).
  - simpl. lia.
  - exact key_first_7bit.
  - left. vm_compute. discriminate.
  - vm_compute. reflexivity.
  - vm_compute. discriminate.
  - lia.
  - exists st1, cell, st2. repeat split; assumption.
Defined.

(** ** Traversing a container that holds no key *)

Lemma start_rootscan_root n : forall buff max off r st,
  start_rootscan n buff max off r st = root_index n buff max off r st.
Proof.
  induction n as [|n IH]; intros buff max off r st; [reflexivity|].
  cbn [start_rootscan root_index]. cbv zeta.
  destruct (off <? max); [|apply IH].
  unfold bind. destruct (load8 (buff + off) st) as [[b s]| |]; [apply IH|reflexivity..].
Qed.

Lemma aligned_mask b :
  0 <= b < 18446744073709551616 -> b mod 8 = 0 -> Z.land b HAT_mask = b.
Proof.
  intros Hr Hb. pose proof (tag_mask b 0 Hr Hb ltac:(lia)) as H.
  rewrite Z.lor_0_r in H. exact H.
Qed.

Lemma next_slot_zero radix max st : forall n idx,
  0 <= idx < max -> max <= 4294967295 ->
  (forall i, idx < i < max -> load_le (mem st) (slot_at radix i) 8 = Some 0) ->
  max - idx - 1 <= Z.of_nat n ->
  next_slot n radix idx max st = Ok (None, st).
Proof.
  induction n as [|n IH]; intros idx Hi Hm Hz Hn.
  - assert (idx + 1 = max) by lia. subst max. cbn [next_slot]. cbv zeta.
    unfold u32. rewrite Z.mod_small by lia. rewrite Z.ltb_irrefl. reflexivity.
  - cbn [next_slot]. cbv zeta. unfold u32. rewrite Z.mod_small by lia.
    destruct (idx + 1 <? max) eqn:E; [|reflexivity].
    apply Z.ltb_lt in E. cbn [negb]. unfold load64.
    rewrite (bind_ok _ _ _ _ _ (load_ok 8 _ _ _ (Hz (idx + 1) ltac:(lia)))).
    change (negb (0 =? 0)) with false. cbv iota.
    apply IH; try lia. intros i Hi'. apply Hz. lia.
Qed.

Lemma last_root_zero root st : forall n rootscan,
  0 <= rootscan <= 4294967295 ->
  (forall i, 0 <= i < rootscan -> load_le (mem st) (slot_at root i) 8 = Some 0) ->
  rootscan <= Z.of_nat n ->
  last_root n root rootscan st
  = Ok ((0, if rootscan =? 0 then Some 0 else None), st).
Proof.
  induction n as [|n IH]; intros rootscan Hr Hz Hn.
  - assert (rootscan = 0) by lia. subst rootscan. reflexivity.
  - cbn [last_root]. destruct (rootscan =? 0) eqn:E.
    + apply Z.eqb_eq in E. subst rootscan. reflexivity.
    + apply Z.eqb_neq in E. cbv zeta. unfold u32. rewrite Z.mod_small by lia.
      unfold load64.
      rewrite (bind_ok _ _ _ _ _ (load_ok 8 _ _ _ (Hz (rootscan - 1) ltac:(lia)))).
      change (negb (0 =? 0)) with false. cbv iota.
      destruct (rootscan - 1 =? 0) eqn:E1.
      * apply Z.eqb_eq in E1. rewrite E1. reflexivity.
      * rewrite IH; try lia.
        -- rewrite E1. reflexivity.
        -- intros i Hi. apply Hz. lia.
Qed.

Lemma times128_one boot :
  1 <= boot <= 4 -> times128 (Z.to_nat boot) 1 = 128 ^ boot.
Proof.
  intros H. pose proof (pow128_bounds boot H) as Hp.
  destruct (times128_u32 (Z.to_nat boot) 1) as [-> | Hn]; [|lia].
  rewrite Z2Nat.id by lia. unfold u32. rewrite Z.mul_1_l. apply Z.mod_small. lia.
Qed.

Lemma in_range_ok i n : 0 <= i < n -> in_range i n = true.
Proof. intros H. unfold in_range. apply andb_true_iff. split; [apply Z.leb_le|apply Z.ltb_lt]; lia. Qed.

Lemma get_next_ok c i st :
  0 <= i < 256 -> get_next c i st = Ok (default 0 (c_next c !! i), st).
Proof. intros H. unfold get_next. rewrite in_range_ok by exact H. reflexivity. Qed.

Ltac cur :=
  cbn [c_cnt c_idx c_top c_aux c_rootlvl c_maxroot c_rootscan c_next c_scan c_keys
       set_cnt set_idx set_top set_rootscan set_keys fresh_cursor].

Lemma hat_cursor_run hat boot aux st :
  1 <= boot <= 4 ->
  load_le (mem st) (hat_bootlvl hat) 4 = Some boot ->
  load_le (mem st) (hat_aux hat) 4 = Some aux ->
  hat_cursor hat st = Ok (fresh_cursor hat boot aux, st).
Proof.
  intros Hboot Hb Ha.
  unfold hat_cursor, load32.
  rewrite (bind_ok _ _ _ _ _ (load_ok 4 _ _ _ Ha)).
  rewrite (bind_ok _ _ _ _ _ (load_ok 4 _ _ _ Hb)).
  unfold ret, fresh_cursor. rewrite (times128_one boot Hboot).
  do 3 f_equal. unfold i32. rewrite Z.mod_small; lia.
Qed.

Lemma root_mask hat boot :
  1 <= boot <= 4 -> hat mod 8 = 0 -> 0 <= hat ->
  hat + sizeof_Hat + 8 * 128 ^ boot < 18446744073709551616 ->
  Z.land (hat_root hat) HAT_mask = hat_root hat.
Proof.
  intros Hboot Hal H0 Hfit. pose proof (pow128_bounds boot Hboot) as HP.
  apply aligned_mask.
  - unfold hat_root, sizeof_Hat in *. lia.
  - unfold hat_root. rewrite <- Z.add_mod_idemp_l, Hal by lia. reflexivity.
Qed.

(** [hat_nxt] at the last key of the last occupied root entry: no root
    entry follows, and the traversal ends. *)
Lemma nxt_end fuel hat boot st c :
  1 <= boot <= 4 -> hat mod 8 = 0 -> 0 <= hat ->
  hat + sizeof_Hat + 8 * 128 ^ boot < 18446744073709551616 ->
  c_top c = 1 -> 0 <= c_idx c -> c_cnt c <= c_idx c + 1 < 2147483648 ->
  c_next c !! 0 = Some (hat_root hat) ->
  c_maxroot c = 128 ^ boot -> 0 <= c_rootscan c < 128 ^ boot ->
  (forall i, c_rootscan c < i < 128 ^ boot ->
     load_le (mem st) (slot_at (hat_root hat) i) 8 = Some 0) ->
  exists c', hat_nxt (S fuel) c st = Ok ((c', 0), st).
Proof.
  intros Hboot Hal H0 Hfit Htop Hidx0 Hidx Hnext Hmaxr Hscan Hzero.
  pose proof (pow128_bounds boot Hboot) as HP.
  unfold hat_nxt. cbv zeta. cur.
  assert (Hi : i32 (c_idx c + 1) = c_idx c + 1).
  { unfold i32. rewrite Z.mod_small; lia. }
  rewrite Hi. destruct (c_idx c + 1 <? c_cnt c) eqn:E; [apply Z.ltb_lt in E; lia|].
  cbn [nxt_levels]. cbv zeta. cur. rewrite Htop.
  change (i16 (1 - 1)) with 0. change (negb (0 >=? 0)) with false. cbv iota.
  rewrite (bind_ok _ _ _ _ _ (get_next_ok _ 0 st ltac:(lia))).
  cur. rewrite Hnext. cbn [default from_option id].
  change (0 =? 0) with true. cbv iota. change (negb true) with false. cbv iota.
  rewrite (bind_ok _ _ _ _ _ (eq_refl : ret (c_rootscan c) st = Ok (c_rootscan c, st))).
  rewrite (root_mask hat boot Hboot Hal H0 Hfit).
  rewrite Hmaxr.
  rewrite (bind_ok _ _ _ _ _
             (next_slot_zero (hat_root hat) (128 ^ boot) st (Z.to_nat (128 ^ boot))
                (c_rootscan c) Hscan ltac:(lia) Hzero ltac:(lia))).
  destruct fuel; cbn [nxt_levels]; cbv zeta; cur;
    change (i16 (0 - 1)) with (-1); eexists; reflexivity.
Qed.

Section empty.

Variables (hat boot aux : Z) (st : state).
Hypothesis Hboot : 1 <= boot <= 4.
Hypothesis Hfresh : fresh_container hat boot aux st.

Lemma fresh_slot_zero i :
  0 <= i < 128 ^ boot ->
  load_le (mem st) (slot_at (hat_root hat) i) 8 = Some 0.
Proof.
  intros Hi. destruct Hfresh as (_ & _ & _ & _ & _ & _ & Hz & _).
  apply load_le_zero. intros j Hj. apply Hz. simpl in Hj.
  unfold slot_at, hat_root, HAT_slot_size. right. lia.
Qed.

Lemma hat_cursor_fresh : hat_cursor hat st = Ok (fresh_cursor hat boot aux, st).
Proof.
  destruct Hfresh as (_ & _ & Hb & Ha & _).
  exact (hat_cursor_run hat boot aux st Hboot Hb Ha).
Qed.

Lemma fresh_last fuel :
  hat_last fuel (fresh_cursor hat boot aux) st
  = Ok ((set_rootscan (set_top (set_rootscan (fresh_cursor hat boot aux)
                                              (128 ^ boot)) 0) 0, 0), st).
Proof.
  pose proof (pow128_bounds boot Hboot) as HP.
  unfold hat_last. cbv zeta.
  rewrite (bind_ok _ _ _ _ _ (get_next_ok _ 0 st ltac:(lia))).
  cur. rewrite lookup_insert_eq. cbn [default from_option id].
  rewrite (bind_ok _ _ _ _ _
             (last_root_zero (hat_root hat) st (Z.to_nat (128 ^ boot)) (128 ^ boot)
                ltac:(lia) fresh_slot_zero ltac:(lia))).
  destruct (128 ^ boot =? 0) eqn:E; [apply Z.eqb_eq in E; lia|].
  reflexivity.
Qed.

Hypothesis Hal : hat mod 8 = 0.

(** [hat_nxt] from a cursor that stands on the root level. *)
Lemma fresh_nxt fuel c :
  c_top c = 1 -> 0 <= c_idx c -> c_cnt c <= c_idx c + 1 < 2147483648 ->
  c_next c !! 0 = Some (hat_root hat) ->
  c_maxroot c = 128 ^ boot -> 0 <= c_rootscan c < 128 ^ boot ->
  exists c', hat_nxt (S fuel) c st = Ok ((c', 0), st).
Proof.
  intros Htop Hidx0 Hidx Hnext Hmaxr Hscan.
  pose proof Hfresh as (Hseg0 & Hfit & _).
  apply (nxt_end fuel hat boot st c); try assumption.
  - unfold HAT_seg, HAT_slot_size in Hseg0. lia.
  - intros i Hi. apply fresh_slot_zero. lia.
Qed.

Variables (buff : Z) (k : list byte).
Hypothesis Hkey : bytes_at (mem st) buff k.
Hypothesis H7 : forall i : nat, Z.of_nat i < boot -> (i < length k)%nat ->
                  byte_val (nth i k x00) < 128.

Lemma fresh_start fuel :
  hat_start (S fuel) (fresh_cursor hat boot aux) buff (Z.of_nat (length k)) st
  = Ok (None, st).
Proof.
  pose proof (pow128_bounds boot Hboot) as HP.
  set (k' := take 255 k).
  assert (Hk' : bytes_at (mem st) buff k').
  { intros i Hi. unfold k' in *. rewrite length_take in Hi.
    rewrite lookup_take_lt by lia. apply Hkey. lia. }
  assert (Hmax : (if Z.of_nat (length k) >? 255 then 255 else Z.of_nat (length k))
                 = Z.of_nat (length k')).
  { unfold k'. rewrite length_take. destruct (Z.of_nat (length k) >? 255) eqn:E.
    - rewrite Z.gtb_ltb in E. apply Z.ltb_lt in E. lia.
    - rewrite Z.gtb_ltb in E. apply Z.ltb_ge in E. lia. }
  assert (H7' : forall i : nat, 0 <= Z.of_nat i < 0 + Z.of_nat (Z.to_nat boot) ->
                  (i < length k')%nat -> byte_val (nth i k' x00) < 128).
  { intros i Hi Hlt. unfold k' in *. rewrite length_take in Hlt.
    destruct (lookup_lt_is_Some_2 k i ltac:(lia)) as [b Hb].
    rewrite (nth_lookup_Some (take 255 k) i x00 b)
      by (rewrite lookup_take_lt by lia; exact Hb).
    rewrite <- (nth_lookup_Some k i x00 b Hb). apply H7; lia. }
  destruct (root_of_spec k' (Z.to_nat boot) 0 0 0) as [Ht _]; try lia.
  { unfold k'. rewrite length_take. lia. }
  { exact H7'. }
  rewrite Z2Nat.id, Z.add_0_l in Ht by lia.
  unfold hat_start. cbv zeta. rewrite Hmax. cur.
  rewrite (bind_ok _ _ _ _ _
             (eq_trans (start_rootscan_root _ _ _ _ _ _)
                       (root_index_pure k' buff st _ 0 0 Hk' ltac:(lia)))).
  destruct (root_of (Z.to_nat boot) k' 0 0) as [triple off]. cbn [fst] in Ht.
  rewrite (bind_ok _ _ _ _ _ (get_next_ok _ 0 st ltac:(lia))).
  cur. rewrite lookup_insert_eq. cbn [default from_option id]. unfold load64.
  rewrite (bind_ok _ _ _ _ _ (load_ok 8 _ _ _ (fresh_slot_zero triple Ht))).
  change (negb (0 =? 0)) with false. cbv iota.
  change (i16 (0 + 1)) with 1.
  match goal with
  | |- bind (hat_nxt _ ?c) _ _ = _ =>
      destruct (fresh_nxt fuel c) as (c' & Hn);
        [reflexivity | cur; lia | cur; lia | cur; apply lookup_insert_eq | reflexivity
        | cur; exact Ht |]
  end.
  rewrite (bind_ok _ _ _ _ _ Hn). reflexivity.
Qed.

End empty.



(** X26: traversing a container without keys, backwards.  On a container as
    [hat_open] leaves it for a boot level from 1 to 4, [hat_last] scans
    the root table down to entry 0 and returns 0, changing nothing. *)
Theorem empty_last_finds_nothing (fuel : nat) (hat boot aux : Z) (st : state) :
  1 <= boot <= 4 -> fresh_container hat boot aux st ->
  exists c c',
    hat_cursor hat st = Ok (c, st) /\
    hat_last fuel c st = Ok ((c', 0), st).
Proof.
  intros Hboot Hfresh. exists (fresh_cursor hat boot aux). eexists. split.
  - exact (hat_cursor_fresh hat boot aux st Hboot Hfresh).
  - exact (fresh_last hat boot aux st Hboot Hfresh fuel).
Qed.

Lemma empty_last_finds_nothing_witness :
  exists st1 c c',
    hat_open 1 4 key_first = Ok (brk key_first + HAT_seg, st1) /\
    hat_cursor (brk key_first + HAT_seg) st1 = Ok (c, st1) /\
    hat_last O c st1 = Ok ((c', 0), st1).
Proof.
  destruct (hat_open_run 1 4 key_first) as (st1 & Hopen & Hfresh & Hframe);
    [lia | lia | vm_compute; reflexivity | vm_compute; reflexivity |].
  destruct (empty_last_finds_nothing O (brk key_first + HAT_seg) 1 4 st1)
    as (c & c' & Hc & Hl).
  - lia.
  - exact Hfresh.
  - exists st1, c, c'. repeat split; assumption.
Defined.

(** ** Traversing a container that holds one key *)

Lemma next_slot_find radix max st t s : forall n idx,
  0 <= idx < t -> t < max -> max <= 4294967295 ->
  (forall i, idx < i < t -> load_le (mem st) (slot_at radix i) 8 = Some 0) ->
  load_le (mem st) (slot_at radix t) 8 = Some s -> s <> 0 ->
  t - idx <= Z.of_nat n ->
  next_slot n radix idx max st = Ok (Some (t, s), st).
Proof.
  induction n as [|n IH]; intros idx Hi Ht Hm Hz Hs Hne Hn; [lia|].
  cbn [next_slot]. cbv zeta. unfold u32. rewrite Z.mod_small by lia.
  destruct (idx + 1 <? max) eqn:E; [|apply Z.ltb_ge in E; lia].
  cbn [negb]. unfold load64.
  destruct (Z.eq_dec (idx + 1) t) as [->|Hlt].
  - rewrite (bind_ok _ _ _ _ _ (load_ok 8 _ _ _ Hs)).
    destruct (s =? 0) eqn:E0; [apply Z.eqb_eq in E0; contradiction|]. reflexivity.
  - rewrite (bind_ok _ _ _ _ _ (load_ok 8 _ _ _ (Hz (idx + 1) ltac:(lia)))).
    change (negb (0 =? 0)) with false. cbv iota.
    apply IH; try lia; try assumption. intros i Hi'. apply Hz. lia.
Qed.

Lemma start_rootscan_null n buff st :
  start_rootscan n buff 0 0 0 st = Ok ((0, 0), st).
Proof. induction n as [|n IH]; [reflexivity|]. cbn [start_rootscan]. exact IH. Qed.

Lemma set_next_ok c i v st :
  0 <= i < 256 ->
  set_next c i v st
  = Ok (mkCursor (c_cnt c) (c_idx c) (c_top c) (c_aux c) (c_rootlvl c)
                 (c_maxroot c) (c_rootscan c) (<[i := v]> (c_next c))
                 (c_scan c) (c_keys c), st).
Proof. intros H. unfold set_next. rewrite in_range_ok by exact H. reflexivity. Qed.

Lemma sort_get_ok ks i st :
  0 <= i < HatBucketMax ->
  sort_get ks i st = Ok (default (mkSort 0 0) (ks !! i), st).
Proof. intros H. unfold sort_get. rewrite in_range_ok by exact H. reflexivity. Qed.

Ltac ret_step :=
  match goal with
  | |- context [bind (ret ?x) ?k ?s] => rewrite (bind_ok (ret x) k s x s eq_refl)
  end.

Section one_node.

Variables (hat boot aux triple block type size : Z) (kk : list byte) (st : state).
Hypothesis Hboot : 1 <= boot <= 4.
Hypothesis Hal : hat mod 8 = 0.
Hypothesis H0 : 0 <= hat.
Hypothesis Hfit : hat + sizeof_Hat + 8 * 128 ^ boot < 18446744073709551616.
Hypothesis Haux : 0 < aux < 65536.
Hypothesis Hb : load_le (mem st) (hat_bootlvl hat) 4 = Some boot.
Hypothesis Ha : load_le (mem st) (hat_aux hat) 4 = Some aux.
Hypothesis Ht : 0 <= triple < 128 ^ boot.
Hypothesis Hslot : load_le (mem st) (slot_at (hat_root hat) triple) 8
                   = Some (Z.lor block HAT_array).
Hypothesis Hzero : forall i, 0 <= i < 128 ^ boot -> i <> triple ->
                     load_le (mem st) (slot_at (hat_root hat) i) 8 = Some 0.
Hypothesis Hblock : 0 < block < 18446744073709551616.
Hypothesis Hbal : block mod 8 = 0.
Hypothesis Hkeys : array_keys (mem st) block 0 [kk].
Hypothesis Hshort : Z.of_nat (length kk) < 128.
Hypothesis Htype : load_le (mem st) (base_type block) 1 = Some type.
Hypothesis Hs : HatSize_table !! Z.to_nat type = Some size.

Lemma node_tag :
  Z.lor block HAT_array <> 0 /\
  Z.land (Z.lor block HAT_array) HAT_type = HAT_array /\
  Z.land (Z.lor block HAT_array) HAT_mask = block.
Proof.
  split; [|split].
  - apply tag_nonzero; [lia | unfold HAT_array; lia | exact Hbal].
  - apply tag_type; [exact Hbal | unfold HAT_array; lia].
  - apply tag_mask; [lia | exact Hbal | unfold HAT_array; lia].
Qed.

(** [hat_sort] on the node: one entry. *)
Lemma sort_one fuel c :
  c_top c = 1 -> c_next c !! 1 = Some (Z.lor block HAT_array) -> c_aux c = aux ->
  exists ks',
    hat_sort (S fuel) c st = Ok (set_keys (set_cnt c 1) ks', st) /\
    ks' !! 0 = Some (mkSort (base_keys block) (block + size - aux)).
Proof.
  intros Htop Hnext Hca. destruct node_tag as (Hnz & Hty & Hmask).
  pose proof (load_le_range _ _ _ _ Htype) as Hr.
  destruct (strip_array_keys_spec aux block size 0 [kk] 0 0 (S fuel) (c_keys c) st Hkeys)
    as (ks' & Hrun & Hin & _); try (simpl; unfold HatBucketMax; lia).
  { constructor; [lia | constructor]. }
  exists ks'. split.
  - unfold hat_sort. rewrite Htop.
    rewrite (bind_ok _ _ _ _ _ (get_next_ok _ 1 st ltac:(lia))).
    rewrite Hnext. cbn [default from_option id]. cbv zeta. rewrite Hty.
    change (HAT_array =? HAT_array) with true. cbv iota.
    assert (Hstrip : hat_strip_array (S fuel) (c_aux c) (Z.lor block HAT_array) 0
                       (c_keys c) st = Ok ((1, ks'), st)).
    { unfold hat_strip_array. cbv zeta. rewrite Hmask, Hca. unfold load8.
      rewrite (bind_ok _ _ _ _ _ (load_ok 1 _ _ _ Htype)).
      rewrite (bind_ok _ _ _ _ _ (HatSize_some _ _ _ (proj1 Hr) Hs)).
      exact Hrun. }
    rewrite (bind_ok _ _ _ _ _ Hstrip). cbv iota beta.
    cbn [hat_qsort]. change (1 >? 10) with false. change (1 >? 1) with false.
    cbv iota. reflexivity.
  - specialize (Hin O 0 eq_refl).
    change (0 + 0 + Z.of_nat 0) with 0 in Hin. rewrite Hin.
    unfold base_keys. do 2 f_equal; lia.
Qed.

Lemma descend_first_leaf fuel c :
  c_top c = 1 -> c_next c !! 1 = Some (Z.lor block HAT_array) ->
  descend_first (S fuel) c st = Ok (c, st).
Proof.
  intros Htop Hnext. destruct node_tag as (Hnz & Hty & Hmask).
  cbn [descend_first]. rewrite Htop.
  rewrite (bind_ok _ _ _ _ _ (get_next_ok _ 1 st ltac:(lia))).
  rewrite Hnext. cbn [default from_option id].
  rewrite Hty. reflexivity.
Qed.

(** [hat_nxt] from the root level, in front of the occupied entry. *)
Lemma one_nxt_first fuel c :
  c_top c = 1 -> 0 <= c_idx c -> c_cnt c <= c_idx c + 1 < 2147483648 ->
  c_next c !! 0 = Some (hat_root hat) ->
  c_maxroot c = 128 ^ boot -> 0 <= c_rootscan c < triple -> c_aux c = aux ->
  exists c1,
    hat_nxt (S fuel) c st = Ok ((c1, 1), st) /\
    c_top c1 = 1 /\ c_cnt c1 = 1 /\ c_idx c1 = 0 /\ c_rootscan c1 = triple /\
    c_rootlvl c1 = c_rootlvl c /\ c_maxroot c1 = 128 ^ boot /\
    c_next c1 !! 0 = Some (hat_root hat) /\
    c_keys c1 !! 0 = Some (mkSort (base_keys block) (block + size - aux)).
Proof.
  intros Htop Hidx0 Hidx Hnext Hmaxr Hscan Hca.
  pose proof (pow128_bounds boot Hboot) as HP.
  destruct node_tag as (Hnz & Hty & Hmask).
  unfold hat_nxt. cbv zeta. cur.
  assert (Hi : i32 (c_idx c + 1) = c_idx c + 1).
  { unfold i32. rewrite Z.mod_small; lia. }
  rewrite Hi. destruct (c_idx c + 1 <? c_cnt c) eqn:E; [apply Z.ltb_lt in E; lia|].
  cbn [nxt_levels]. cbv zeta. cur. rewrite Htop.
  change (i16 (1 - 1)) with 0. change (negb (0 >=? 0)) with false. cbv iota.
  rewrite (bind_ok _ _ _ _ _ (get_next_ok _ 0 st ltac:(lia))).
  cur. rewrite Hnext. cbn [default from_option id].
  change (0 =? 0) with true. cbv iota. change (negb true) with false. cbv iota.
  rewrite (bind_ok _ _ _ _ _ (eq_refl : ret (c_rootscan c) st = Ok (c_rootscan c, st))).
  rewrite (root_mask hat boot Hboot Hal H0 Hfit).
  rewrite Hmaxr.
  assert (Hz : forall i, c_rootscan c < i < triple ->
                 load_le (mem st) (slot_at (hat_root hat) i) 8 = Some 0).
  { intros i Hi'. apply Hzero; lia. }
  rewrite (bind_ok _ _ _ _ _
             (next_slot_find (hat_root hat) (128 ^ boot) st triple
                (Z.lor block HAT_array) (Z.to_nat (128 ^ boot))
                (c_rootscan c) Hscan ltac:(lia) ltac:(lia) Hz Hslot Hnz ltac:(lia))).
  cbv iota beta.
  ret_step.
  unfold push_next. cbv zeta. cur. change (i16 (0 + 1)) with 1.
  rewrite (bind_ok _ _ _ _ _ (set_next_ok _ 1 _ st ltac:(lia))). cur.
  erewrite bind_ok; [|apply descend_first_leaf; [reflexivity | cur; apply lookup_insert_eq]].
  match goal with
  | |- context [bind (hat_sort _ ?c') _ _] =>
      destruct (sort_one fuel c') as (ks' & Hsort & Hk0);
        [reflexivity | cur; apply lookup_insert_eq | cur; exact Hca |];
        rewrite (bind_ok _ _ _ _ _ Hsort)
  end.
  eexists. split; [reflexivity|]. cur.
  repeat split; try reflexivity; try assumption.
  rewrite lookup_insert_ne by lia. exact Hnext.
Qed.

(** [hat_start (cursor, NULL, 0)]: the first key. *)
Lemma one_start fuel :
  0 < triple ->
  exists c1,
    hat_start (S fuel) (fresh_cursor hat boot aux) 0 0 st = Ok (Some c1, st) /\
    c_top c1 = 1 /\ c_cnt c1 = 1 /\ c_idx c1 = 0 /\ c_rootscan c1 = triple /\
    c_rootlvl c1 = boot /\ c_maxroot c1 = 128 ^ boot /\
    c_next c1 !! 0 = Some (hat_root hat) /\
    c_keys c1 !! 0 = Some (mkSort (base_keys block) (block + size - aux)).
Proof.
  intros Hpos.
  unfold hat_start. cbv zeta. change (0 >? 255) with false. cbv iota. cur.
  rewrite (bind_ok _ _ _ _ _ (start_rootscan_null _ 0 st)).
  rewrite (bind_ok _ _ _ _ _ (get_next_ok _ 0 st ltac:(lia))).
  cur. rewrite lookup_insert_eq. cbn [default from_option id]. unfold load64.
  rewrite (bind_ok _ _ _ _ _ (load_ok 8 _ _ _ (Hzero 0 ltac:(lia) ltac:(lia)))).
  change (negb (0 =? 0)) with false. cbv iota.
  change (i16 (0 + 1)) with 1.
  match goal with
  | |- context [bind (hat_nxt _ ?c) _ _] =>
      destruct (one_nxt_first fuel c)
        as (c1 & Hn & H1 & H2 & H3 & H4 & H5 & H6 & H7 & H8);
        [reflexivity | cur; lia | cur; lia | cur; apply lookup_insert_eq
        | reflexivity | cur; lia | cur; unfold u16; apply Z.mod_small; lia |]
  end.
  rewrite (bind_ok _ _ _ _ _ Hn). change (negb (1 =? 0)) with true. cbv iota.
  exists c1. repeat split; assumption.
Qed.

(** [hat_nxt] behind the only key. *)
Lemma one_nxt_last fuel c :
  c_top c = 1 -> c_cnt c = 1 -> c_idx c = 0 -> c_rootscan c = triple ->
  c_maxroot c = 128 ^ boot -> c_next c !! 0 = Some (hat_root hat) ->
  exists c', hat_nxt (S fuel) c st = Ok ((c', 0), st).
Proof.
  intros Htop Hcnt Hidx Hscan Hmaxr Hnext.
  apply (nxt_end fuel hat boot st c); try assumption; try lia.
  intros i Hi. apply Hzero; lia.
Qed.

(** [hat_slot] at the only key. *)
Lemma one_slot c :
  c_idx c = 0 ->
  c_keys c !! 0 = Some (mkSort (base_keys block) (block + size - aux)) ->
  hat_slot c st = Ok (block + size - aux, st).
Proof.
  intros Hidx Hk. unfold hat_slot. rewrite Hidx.
  rewrite (bind_ok _ _ _ _ _ (sort_get_ok _ 0 st ltac:(unfold HatBucketMax; lia))).
  rewrite Hk. reflexivity.
Qed.

End one_node.

(** ** hat_key at a key of an array node under the root *)

Lemma byte_of_val b : byte_of (byte_val b) = b.
Proof.
  apply byte_val_inj. rewrite byte_val_of. unfold u8.
  apply Z.mod_small. apply byte_val_range.
Qed.

(** The root index splits into the digits folded in so far and those that
    follow. *)
Lemma root_of_split (k : list byte) (n : nat) : forall j off triple,
  Z.of_nat (length k) < 4294967296 ->
  0 <= off <= Z.of_nat (length k) -> 0 <= j -> j + Z.of_nat n <= 4 ->
  0 <= triple < 128 ^ j ->
  (forall i : nat, off <= Z.of_nat i < off + Z.of_nat n -> (i < length k)%nat ->
     byte_val (nth i k x00) < 128) ->
  exists low,
    fst (root_of n k off triple) = triple * 128 ^ Z.of_nat n + low /\
    0 <= low < 128 ^ Z.of_nat n.
Proof.
  induction n as [|n IH]; intros j off triple Hlen Hoff Hj Hn Ht H7.
  - exists 0. cbn [root_of fst]. change (128 ^ Z.of_nat 0) with 1. lia.
  - cbn [root_of]. cbv zeta.
    assert (Hp : 128 ^ (j + 1) = 128 * 128 ^ j).
    { rewrite Z.pow_add_r by lia. lia. }
    assert (Hle : 128 ^ (j + 1) <= 128 ^ 4) by (apply Z.pow_le_mono_r; lia).
    change (128 ^ 4) with 268435456 in Hle.
    assert (Hu : u32 (triple * 128) = triple * 128)
      by (unfold u32; apply Z.mod_small; lia).
    rewrite Hu.
    assert (Hpn : 128 ^ Z.of_nat (S n) = 128 * 128 ^ Z.of_nat n).
    { rewrite Nat2Z.inj_succ, Z.pow_succ_r by lia. reflexivity. }
    destruct (off <? Z.of_nat (length k)) eqn:E.
    + apply Z.ltb_lt in E.
      assert (Hi1 : off <= Z.of_nat (Z.to_nat off) < off + Z.of_nat (S n)) by lia.
      assert (Hi2 : (Z.to_nat off < length k)%nat) by lia.
      pose proof (H7 (Z.to_nat off) Hi1 Hi2) as Hb.
      pose proof (byte_val_range (nth (Z.to_nat off) k x00)) as Hr.
      assert (Hu1 : u32 (off + 1) = off + 1)
        by (unfold u32; apply Z.mod_small; lia).
      assert (Hu2 : u32 (triple * 128 + byte_val (nth (Z.to_nat off) k x00))
                    = triple * 128 + byte_val (nth (Z.to_nat off) k x00))
        by (unfold u32; apply Z.mod_small; lia).
      rewrite Hu1, Hu2.
      destruct (IH (j + 1) (off + 1)
                   (triple * 128 + byte_val (nth (Z.to_nat off) k x00)))
        as (low & Hv & Hlow); try lia; try (intros i Hi Hlt; apply H7; lia).
      exists (byte_val (nth (Z.to_nat off) k x00) * 128 ^ Z.of_nat n + low).
      rewrite Hv, Hpn. split; [ring | nia].
    + destruct (IH (j + 1) off (triple * 128)) as (low & Hv & Hlow);
        try lia; try (intros i Hi Hlt; apply H7; lia).
      exists low. rewrite Hv, Hpn. split; [ring | nia].
Qed.

(** The digit [key_root] reads at position [n] of the root index. *)
Lemma root_digit t low n :
  0 <= t -> 0 <= low < 128 ^ Z.of_nat n ->
  Z.land (Z.shiftr (t * 128 ^ Z.of_nat n + low) (Z.of_nat n * 7)) 0x7F = t mod 128.
Proof.
  intros Ht Hlow.
  rewrite Z.shiftr_div_pow2 by lia.
  replace (2 ^ (Z.of_nat n * 7)) with (128 ^ Z.of_nat n).
  2:{ change 128 with (2 ^ 7). rewrite <- Z.pow_mul_r by lia. f_equal. lia. }
  rewrite Z.div_add_l by lia. rewrite (Z.div_small low) by lia.
  rewrite Z.add_0_r. change 127 with (Z.ones 7). rewrite Z.land_ones by lia.
  reflexivity.
Qed.

Lemma root_of_step (k : list byte) (n : nat) j off triple :
  Z.of_nat (length k) < 4294967296 ->
  0 <= off <= Z.of_nat (length k) -> 0 <= j -> j + 1 <= 4 ->
  0 <= triple < 128 ^ j ->
  (off < Z.of_nat (length k) -> byte_val (nth (Z.to_nat off) k x00) < 128) ->
  root_of (S n) k off triple
  = if off <? Z.of_nat (length k)
    then root_of n k (off + 1) (triple * 128 + byte_val (nth (Z.to_nat off) k x00))
    else root_of n k off (triple * 128).
Proof.
  intros Hlen Hoff Hj Hn Ht H7.
  cbn [root_of]. cbv zeta.
  assert (Hp : 128 ^ (j + 1) = 128 * 128 ^ j).
  { rewrite Z.pow_add_r by lia. lia. }
  assert (Hle : 128 ^ (j + 1) <= 128 ^ 4) by (apply Z.pow_le_mono_r; lia).
  change (128 ^ 4) with 268435456 in Hle.
  assert (Hu : u32 (triple * 128) = triple * 128)
    by (unfold u32; apply Z.mod_small; lia).
  rewrite Hu.
  destruct (off <? Z.of_nat (length k)) eqn:E; [|reflexivity].
  apply Z.ltb_lt in E. specialize (H7 E).
  pose proof (byte_val_range (nth (Z.to_nat off) k x00)) as Hr.
  f_equal; unfold u32; apply Z.mod_small; lia.
Qed.

Section key_out.

Variables (out max : Z) (k : list byte).
Hypothesis Hmax : 0 <= max < 4294967295.
Hypothesis Hlen : Z.of_nat (length k) < 4294967296.

(** [key_root] writes the leading key bytes back, when none of them is 0. *)
Lemma key_root_key (r : Z) (n : nat) : forall j off t o st,
  0 <= off <= Z.of_nat (length k) -> 0 <= j -> j + Z.of_nat n <= 4 ->
  0 <= t < 128 ^ j ->
  (forall i : nat, off <= Z.of_nat i < off + Z.of_nat n -> (i < length k)%nat ->
     0 < byte_val (nth i k x00) < 128) ->
  r = fst (root_of n k off t) ->
  0 <= o -> o + (Z.min (off + Z.of_nat n) (Z.of_nat (length k)) - off) <= max ->
  in_block (blocks st) out (max + 1) = true ->
  exists st',
    key_root n r out o max st
    = Ok (o + (Z.min (off + Z.of_nat n) (Z.of_nat (length k)) - off), st') /\
    (forall i : nat,
       Z.of_nat i < Z.min (off + Z.of_nat n) (Z.of_nat (length k)) - off ->
       mem st' !! (out + o + Z.of_nat i) = k !! (Z.to_nat off + i)%nat) /\
    (forall a, a < out + o \/
               out + o + (Z.min (off + Z.of_nat n) (Z.of_nat (length k)) - off) <= a ->
               mem st' !! a = mem st !! a) /\
    blocks st' = blocks st.
Proof.
  induction n as [|n IH]; intros j off t o st Hoff Hj Hn Ht H7 Hr Ho Hroom Hin.
  - exists st. cbn [key_root]. replace (Z.min (off + Z.of_nat 0) _ - off) with 0 by lia.
    rewrite Z.add_0_r. split; [reflexivity|]. split; [intros i Hi; lia|].
    split; reflexivity.
  - assert (Hp : 128 ^ (j + 1) = 128 * 128 ^ j).
    { rewrite Z.pow_add_r by lia. lia. }
    rewrite (root_of_step k n j off t Hlen Hoff Hj ltac:(lia) Ht) in Hr.
    2:{ intros Hlt. apply H7; lia. }
    cbn [key_root]. cbv zeta.
    destruct (off <? Z.of_nat (length k)) eqn:E.
    + apply Z.ltb_lt in E.
      set (b := byte_val (nth (Z.to_nat off) k x00)) in *.
      assert (Hb : 0 < b < 128) by (apply H7; lia).
      destruct (root_of_split k n (j + 1) (off + 1) (t * 128 + b) Hlen)
        as (low & Hv & Hlow); try lia.
      { intros i Hi Hlt. apply H7; lia. }
      rewrite Hv in Hr.
      assert (Hch : Z.land (Z.shiftr r (Z.of_nat n * 7)) 127 = b).
      { rewrite Hr, root_digit by lia.
        rewrite Z.add_comm, Z.mod_add by lia. apply Z.mod_small. lia. }
      rewrite Hch.
      assert (Hnz : (b =? 0) = false) by (apply Z.eqb_neq; lia).
      assert (Hlt : (o <? max) = true) by (apply Z.ltb_lt; lia).
      rewrite Hnz, Hlt. cbn [negb andb]. unfold store8.
      erewrite bind_ok.
      2:{ apply store_ok. apply (in_block_sub _ _ _ _ _ Hin); simpl; lia. }
      assert (Hu : u32 (o + 1) = o + 1) by (unfold u32; apply Z.mod_small; lia).
      rewrite Hu.
      match goal with
      | |- context [key_root n r out (o + 1) max ?s] =>
          destruct (IH (j + 1) (off + 1) (t * 128 + b) (o + 1) s)
            as (st' & Hrun & Hbytes & Hframe & Hblocks);
            try lia; try assumption; try (rewrite Hr; symmetry; exact Hv);
            try (intros i Hi Hlt'; apply H7; lia)
      end.
      exists st'. split; [|split; [|split]].
      * rewrite Hrun. do 2 f_equal. lia.
      * intros i Hi. destruct i as [|i].
        -- rewrite Hframe by lia. cbn [mem]. rewrite Z.add_0_r, store8_lookup.
           rewrite Nat.add_0_r.
           destruct (lookup_lt_is_Some_2 k (Z.to_nat off) ltac:(lia)) as [x Hx].
           rewrite Hx. f_equal. unfold b.
           rewrite (nth_lookup_Some k (Z.to_nat off) x00 x Hx). apply byte_of_val.
        -- replace (out + o + Z.of_nat (S i)) with (out + (o + 1) + Z.of_nat i) by lia.
           rewrite Hbytes by lia. f_equal. lia.
      * intros a Ha. rewrite Hframe by lia. cbn [mem].
        apply store_le_other. simpl. lia.
      * exact Hblocks.
    + apply Z.ltb_ge in E.
      destruct (root_of_split k n (j + 1) off (t * 128) Hlen)
        as (low & Hv & Hlow); try lia;
        try (intros i Hi Hlt; apply Z.lt_le_incl, H7; lia).
      rewrite Hv in Hr.
      assert (Hch : Z.land (Z.shiftr r (Z.of_nat n * 7)) 127 = 0).
      { rewrite Hr, root_digit by lia. apply Z.mod_mul. lia. }
      rewrite Hch. change (negb (0 =? 0) && (o <? max)) with false. cbv iota.
      destruct (IH (j + 1) off (t * 128) o st)
        as (st' & Hrun & Hbytes & Hframe & Hblocks);
        try lia; try assumption; try (rewrite Hr; symmetry; exact Hv);
        try (intros i Hi Hlt'; apply H7; lia).
      exists st'. split; [|split; [|split]].
      * rewrite Hrun. do 2 f_equal. lia.
      * intros i Hi. lia.
      * intros a Ha. apply Hframe. lia.
      * exact Hblocks.
Qed.

End key_out.

Lemma sort_len_short (st : state) (e : HatSort) (len : Z) :
  0 <= len <= 127 -> key_prefix (mem st) (key e) len ->
  sort_len e st = Ok ((len, 1), st).
Proof.
  intros Hlen Hp. unfold key_prefix in Hp.
  assert (Hle : (len >? 127) = false) by (rewrite Z.gtb_ltb; apply Z.ltb_ge; lia).
  rewrite Hle in Hp.
  assert (Hb : byte_val (byte_of (Z.land len 127)) = len).
  { rewrite byte_val_of. change 127 with (Z.ones 7).
    rewrite Z.land_ones by lia. change (2 ^ 7) with 128.
    rewrite (Z.mod_small len 128) by lia. unfold u8. apply Z.mod_small. lia. }
  assert (Hz : Z.land len 128 = 0).
  { apply Z.bits_inj'. intros n Hn. rewrite Z.land_spec, Z.bits_0.
    destruct (Z.eq_dec n 7) as [->|Hne].
    - replace (Z.testbit len 7) with false; [reflexivity|].
      symmetry. apply Z.bits_above_log2; [lia|].
      destruct (Z.eq_dec len 0) as [->|]; [simpl; lia|].
      apply Z.log2_lt_pow2; lia.
    - replace (Z.testbit 128 n) with false; [apply andb_false_r|].
      symmetry. change 128 with (2 ^ 7). apply Z.pow2_bits_false. lia. }
  unfold sort_len.
  rewrite (bind_ok _ _ _ _ _ (load8_byte _ _ _ Hp)), Hb, Hz. reflexivity.
Qed.

Section key_copy.

Variables (out max : Z).
Hypothesis Hmax : 0 <= max < 4294967295.

(** [key_tail] copies the stored bytes behind what has been written. *)
Lemma key_tail_copies (bs : list byte) : forall fuel src o st,
  bytes_at (mem st) src bs ->
  src + Z.of_nat (length bs) <= out \/ out + max + 1 <= src ->
  0 <= o -> o + Z.of_nat (length bs) <= max ->
  in_block (blocks st) out (max + 1) = true ->
  (length bs <= fuel)%nat ->
  exists st',
    key_tail fuel src (Z.of_nat (length bs)) out o max st
    = Ok (o + Z.of_nat (length bs), st') /\
    (forall i : nat, (i < length bs)%nat ->
       mem st' !! (out + o + Z.of_nat i) = bs !! i) /\
    (forall a, a < out + o \/ out + o + Z.of_nat (length bs) <= a ->
               mem st' !! a = mem st !! a) /\
    blocks st' = blocks st.
Proof.
  induction bs as [|b bs IH]; intros fuel src o st Hsrc Hdis Ho Hroom Hin Hf.
  - exists st. split; [|split; [|split]].
    + destruct fuel; cbn [key_tail length Z.of_nat]; rewrite Z.add_0_r; reflexivity.
    + intros i Hi. simpl in Hi. lia.
    + reflexivity.
    + reflexivity.
  - destruct fuel as [|fuel]; [simpl in Hf; lia|].
    cbn [length] in *. rewrite Nat2Z.inj_succ in *.
    cbn [key_tail].
    assert (Hnz : (Z.succ (Z.of_nat (length bs)) =? 0) = false)
      by (apply Z.eqb_neq; lia).
    assert (Hlt : (o <? max) = true) by (apply Z.ltb_lt; lia).
    rewrite Hnz, Hlt. cbn [negb andb].
    pose proof (Hsrc O ltac:(simpl; lia)) as Hb0. simpl in Hb0.
    rewrite Z.add_0_r in Hb0.
    rewrite (bind_ok _ _ _ _ _ (load8_byte _ _ _ Hb0)).
    unfold store8.
    erewrite bind_ok.
    2:{ apply store_ok. apply (in_block_sub _ _ _ _ _ Hin); simpl; lia. }
    assert (Hu : u32 (o + 1) = o + 1) by (unfold u32; apply Z.mod_small; lia).
    rewrite Hu.
    replace (Z.succ (Z.of_nat (length bs)) - 1) with (Z.of_nat (length bs)) by lia.
    match goal with
    | |- context [key_tail fuel (src + 1) _ out (o + 1) max ?s] =>
        destruct (IH fuel (src + 1) (o + 1) s)
          as (st' & Hrun & Hbytes & Hframe & Hblocks);
          try lia; try assumption
    end.
    { intros i Hi. cbn [mem]. rewrite store_le_other by (simpl; lia).
      replace (src + 1 + Z.of_nat i) with (src + Z.of_nat (S i)) by lia.
      apply (Hsrc (S i)). simpl. lia. }
    exists st'. split; [|split; [|split]].
    + rewrite Hrun. do 2 f_equal. lia.
    + intros i Hi. destruct i as [|i].
      * rewrite Hframe by lia. cbn [mem]. rewrite Z.add_0_r, store8_lookup.
        simpl. f_equal. apply byte_of_val.
      * replace (out + o + Z.of_nat (S i)) with (out + (o + 1) + Z.of_nat i) by lia.
        rewrite Hbytes by lia. reflexivity.
    + intros a Ha. rewrite Hframe by lia. cbn [mem].
      apply store_le_other. simpl. lia.
    + exact Hblocks.
Qed.

End key_copy.

Section key_one.

Variables (boot block size slotv : Z) (k : list byte) (c : HatCursor) (st : state).
Variables (out max : Z).
Hypothesis Hboot : 1 <= boot <= 4.
Hypothesis Hnz : forall i : nat, Z.of_nat i < boot -> (i < length k)%nat ->
                   0 < byte_val (nth i k x00) < 128.
Hypothesis Hshort : Z.of_nat (length k) - Z.min boot (Z.of_nat (length k)) < 128.
Hypothesis Htop : c_top c = 1.
Hypothesis Hidx : c_idx c = 0.
Hypothesis Hrl : c_rootlvl c = boot.
Hypothesis Hrs : c_rootscan c = fst (root_of (Z.to_nat boot) k 0 0).
Hypothesis Hk0 : c_keys c !! 0 = Some (mkSort (base_keys block) slotv).
Hypothesis Hkeys :
  array_keys (mem st) block 0
             [drop (Z.to_nat (Z.min boot (Z.of_nat (length k)))) k].
Hypothesis Hmax : Z.of_nat (length k) < max < 4294967296.
Hypothesis Hin : in_block (blocks st) out max = true.
Hypothesis Hsize :
  5 + (Z.of_nat (length k) - Z.min boot (Z.of_nat (length k))) <= size.
Hypothesis Hdis : out + max <= block \/ block + size <= out.

Lemma key_levels_one fuel :
  exists st1,
    key_levels (S fuel) c out 0 0 (max - 1) st
    = Ok (Z.min boot (Z.of_nat (length k)), st1) /\
    (forall i : nat, Z.of_nat i < Z.min boot (Z.of_nat (length k)) ->
       mem st1 !! (out + Z.of_nat i) = k !! i) /\
    (forall a, a < out \/ out + Z.min boot (Z.of_nat (length k)) <= a ->
               mem st1 !! a = mem st !! a) /\
    blocks st1 = blocks st.
Proof.
  assert (Hin' : in_block (blocks st) out (max - 1 + 1) = true).
  { replace (max - 1 + 1) with max by lia. exact Hin. }
  destruct (key_root_key out (max - 1) k ltac:(lia) ltac:(lia)
              (c_rootscan c) (Z.to_nat boot) 0 0 0 0 st)
    as (st1 & Hrun & Hbytes & Hframe & Hblocks); try lia; try assumption.
  { intros i Hi Hlt. apply Hnz; lia. }
  rewrite Z2Nat.id, !Z.add_0_l, Z.sub_0_r in * by lia.
  exists st1. split; [|split; [|split]].
  - cbn [key_levels]. rewrite Htop. change (negb (0 <? 1)) with false. cbv iota.
    change (0 =? 0) with true. cbv iota. rewrite Hrl.
    rewrite (bind_ok _ _ _ _ _ Hrun).
    destruct fuel; cbn [key_levels]; rewrite Htop; reflexivity.
  - intros i Hi. specialize (Hbytes i Hi). rewrite Z.add_0_r in Hbytes.
    exact Hbytes.
  - intros a Ha. apply Hframe. lia.
  - exact Hblocks.
Qed.

Lemma key_one fuel :
  (length k <= S fuel)%nat ->
  exists st',
    hat_key (S fuel) c out max st = Ok (Z.of_nat (length k), st') /\
    bytes_at (mem st') out (k ++ [x00]) /\
    (forall a, a < out \/ out + max <= a -> mem st' !! a = mem st !! a).
Proof.
  intros Hfuel.
  set (len := Z.of_nat (length k)) in *.
  set (m := Z.min boot len) in *.
  set (kk := drop (Z.to_nat m) k) in *.
  assert (Hlk : Z.of_nat (length kk) = len - m).
  { unfold kk. rewrite length_drop. unfold len. lia. }
  destruct (key_levels_one fuel) as (st1 & Hlev & Hb1 & Hf1 & Hbl1).
  destruct Hkeys as [[Hpre Hbytes] _].
  rewrite Z.add_0_r in Hpre, Hbytes. rewrite Hlk in Hpre, Hbytes.
  assert (Hskip : key_skip (len - m) = 1) by (apply key_skip_short; lia).
  rewrite Hskip in Hbytes. unfold base_keys in *.
  assert (Hpre1 : key_prefix (mem st1) (block + 4) (len - m)).
  { unfold key_prefix in *.
    destruct (len - m >? 127) eqn:E; [apply Z.gtb_lt in E; lia|].
    rewrite Hf1 by lia. exact Hpre. }
  assert (Hsrc1 : bytes_at (mem st1) (block + 4 + 1) kk).
  { intros i Hi. rewrite Hf1 by lia. apply Hbytes. exact Hi. }
  destruct (key_tail_copies out (max - 1) ltac:(lia) kk (S fuel) (block + 4 + 1) m st1
              Hsrc1)
    as (st2 & Htail & Hb2 & Hf2 & Hbl2); try lia.
  { rewrite Hbl1. replace (max - 1 + 1) with max by lia. exact Hin. }
  rewrite Hlk in Htail.
  eexists. split; [|split].
  - unfold hat_key. cbv zeta.
    assert (Hu : u32 (max - 1) = max - 1) by (unfold u32; apply Z.mod_small; lia).
    rewrite Hu, Htop. change (1 <? 0) with false. cbv iota.
    rewrite (bind_ok _ _ _ _ _ Hlev).
    rewrite Hidx.
    rewrite (bind_ok _ _ _ _ _ (sort_get_ok _ 0 st1 ltac:(unfold HatBucketMax; lia))).
    rewrite Hk0. cbn [default from_option id].
    rewrite (bind_ok _ _ _ _ _
               (sort_len_short st1 (mkSort (block + 4) slotv) (len - m)
                  ltac:(lia) Hpre1)).
    cbv iota beta. cbn [key].
    rewrite (bind_ok _ _ _ _ _ Htail).
    unfold store8. erewrite bind_ok.
    2:{ apply store_ok. rewrite Hbl2, Hbl1.
        apply (in_block_sub _ _ _ _ _ Hin); simpl; lia. }
    unfold ret. do 2 f_equal. lia.
  - cbn [mem]. intros i Hi. rewrite length_app in Hi. simpl in Hi.
    destruct (Z_lt_ge_dec (Z.of_nat i) m) as [H1|H1].
    + rewrite store_le_other by (simpl; lia).
      rewrite Hf2 by lia. rewrite Hb1 by lia.
      rewrite lookup_app_l by lia. reflexivity.
    + destruct (Z_lt_ge_dec (Z.of_nat i) len) as [H2|H2].
      * rewrite store_le_other by (simpl; lia).
        replace (out + Z.of_nat i) with (out + m + Z.of_nat (i - Z.to_nat m)) by lia.
        rewrite Hb2 by lia. unfold kk. rewrite lookup_drop.
        rewrite lookup_app_l by lia. f_equal. lia.
      * assert (i = length k) by lia. subst i.
        replace (out + Z.of_nat (length k)) with (out + (m + (len - m))) by lia.
        rewrite store8_lookup.
        rewrite lookup_app_r by lia. rewrite Nat.sub_diag. reflexivity.
  - intros a Ha. cbn [mem]. rewrite store_le_other by (simpl; lia).
    rewrite Hf2 by lia. apply Hf1. lia.
Qed.

End key_one.

(** ** Insert into a fresh container, then traverse it *)

Lemma root_of_pos (k : list byte) boot :
  1 <= boot <= 4 -> Z.of_nat (length k) < 4294967296 -> (0 < length k)%nat ->
  (forall i : nat, Z.of_nat i < boot -> (i < length k)%nat ->
     0 < byte_val (nth i k x00) < 128) ->
  0 < fst (root_of (Z.to_nat boot) k 0 0).
Proof.
  intros Hboot Hlen Hne H7.
  destruct (Z.to_nat boot) as [|n] eqn:En; [lia|].
  rewrite (root_of_step k n 0 0 0 Hlen) by (try lia; intros; apply H7; lia).
  assert (E : (0 <? Z.of_nat (length k)) = true) by (apply Z.ltb_lt; lia).
  rewrite E. change (Z.to_nat 0) with O.
  pose proof (H7 O ltac:(lia) Hne) as Hb.
  destruct (root_of_split k n 1 (0 + 1) (0 * 128 + byte_val (nth 0 k x00)) Hlen)
    as (low & Hv & Hlow); try (intros i Hi Hlt; apply H7; lia);
    try (rewrite ?Hv; assert (0 < 128 ^ Z.of_nat n) by (apply Z.pow_pos_nonneg; lia);
         nia).
Qed.

Lemma cell_then_start (fuel f1 : nat) (hat boot aux buff : Z) (k : list byte)
    (st : state) :
  1 <= boot <= 4 -> fresh_container hat boot aux st -> hat mod 8 = 0 ->
  bytes_at (mem st) buff k -> (0 < length k)%nat ->
  (forall i : nat, Z.of_nat i < boot -> (i < length k)%nat ->
     0 < byte_val (nth i k x00) < 128) ->
  buff + Z.of_nat (length k) <= hat - HAT_seg \/
  hat + sizeof_Hat + 8 * 128 ^ boot <= buff ->
  Z.of_nat (length k) - Z.min boot (Z.of_nat (length k)) < 128 ->
  aux + (Z.of_nat (length k) - Z.min boot (Z.of_nat (length k))) + 5 <= 512 ->
  0 < aux ->
  exists block size st2 c1,
    hat_cell (S fuel) hat buff (Z.of_nat (length k)) st
    = Ok (block + size - aux, st2) /\
    hat_cursor hat st2 = Ok (fresh_cursor hat boot aux, st2) /\
    hat_start (S f1) (fresh_cursor hat boot aux) 0 0 st2 = Ok (Some c1, st2) /\
    hat_slot c1 st2 = Ok (block + size - aux, st2) /\
    (forall f2, exists c2, hat_nxt (S f2) c1 st2 = Ok ((c2, 0), st2)) /\
    (c_top c1 = 1 /\ c_idx c1 = 0 /\ c_rootlvl c1 = boot /\
     c_rootscan c1 = fst (root_of (Z.to_nat boot) k 0 0) /\
     c_keys c1 !! 0 = Some (mkSort (base_keys block) (block + size - aux))) /\
    array_keys (mem st2) block 0
               [drop (Z.to_nat (Z.min boot (Z.of_nat (length k)))) k] /\
    blocks st2 = blocks st /\
    (hat - HAT_seg < block /\ block + size <= hat) /\
    5 + (Z.of_nat (length k) - Z.min boot (Z.of_nat (length k))) <= size.
Proof.
  intros Hboot Hfresh Hal Hkey Hne H7 Hout Hrest Hroom Haux.
  assert (Hlen : Z.of_nat (length k) < 4294967296) by lia.
  assert (H7' : forall i : nat, Z.of_nat i < boot -> (i < length k)%nat ->
                  byte_val (nth i k x00) < 128).
  { intros i Hi Hlt. apply H7; assumption. }
  destruct (fresh_cell_state hat boot aux st Hboot Hfresh buff k Hkey Hlen H7'
              Hout Hrest Hroom Haux fuel)
    as (triple & off & block & type & size & st2 & Eroot & Ht & Ho & Hcell & Hblock
        & Hbal & Hsz & Hs & Hfr & Hb2 & Ha2 & Hslot & Hkeys & Htype & Hzero
        & Hblocks & Hloc & Hneed).
  pose proof (root_of_pos k boot Hboot Hlen Hne H7) as Hpos.
  rewrite Eroot in Hpos. cbn [fst] in Hpos.
  destruct Hfresh as (Hseg0 & Hfit & _).
  assert (H0 : 0 <= hat) by (unfold HAT_seg, HAT_slot_size in Hseg0; lia).
  assert (Haux16 : 0 < aux < 65536) by lia.
  assert (Hshort : Z.of_nat (length (drop (Z.to_nat off) k)) < 128).
  { rewrite length_drop. lia. }
  destruct (one_start hat boot aux triple block type size (drop (Z.to_nat off) k) st2
              Hboot Hal H0 Hfit Haux16 Ht Hslot Hzero Hblock Hbal Hkeys Hshort
              Htype Hs f1 Hpos)
    as (c1 & Hstart & H1 & H2 & H3 & H4 & H5 & H6 & H8 & H9).
  exists block, size, st2, c1.
  split; [exact Hcell|].
  split; [exact (hat_cursor_run hat boot aux st2 Hboot Hb2 Ha2)|].
  split; [exact Hstart|].
  split; [exact (one_slot hat aux block size k st2 c1 H3 H9)|].
  split.
  { intros f2.
    exact (one_nxt_last hat boot triple k st2 Hboot Hal H0 Hfit Ht Hzero f2 c1
             H1 H2 H3 H4 H6 H8). }
  split.
  { rewrite Eroot. cbn [fst]. tauto. }
  rewrite <- Ho. split; [exact Hkeys|]. split; [exact Hblocks|].
  split; [exact Hloc | lia].
Qed.

(** X27: insert, then traverse.  After [hat_cell] has stored a non-empty key
    in a fresh container (first [boot] bytes between 1 and 127, the rest
    shorter than 128 bytes and fitting an array node), [hat_start] on the
    empty key returns a cursor, [hat_slot] of that cursor is the slot
    [hat_cell] returned, and [hat_nxt] then returns 0: the traversal visits
    exactly the one key.  None of the three changes the state. *)
Theorem cell_then_traverse (fuel f1 f2 : nat) (hat boot aux buff : Z)
    (k : list byte) (st : state) :
  1 <= boot <= 4 -> fresh_container hat boot aux st -> hat mod 8 = 0 ->
  bytes_at (mem st) buff k -> (0 < length k)%nat ->
  (forall i : nat, Z.of_nat i < boot -> (i < length k)%nat ->
     0 < byte_val (nth i k x00) < 128) ->
  buff + Z.of_nat (length k) <= hat - HAT_seg \/
  hat + sizeof_Hat + 8 * 128 ^ boot <= buff ->
  Z.of_nat (length k) - Z.min boot (Z.of_nat (length k)) < 128 ->
  aux + (Z.of_nat (length k) - Z.min boot (Z.of_nat (length k))) + 5 <= 512 ->
  0 < aux ->
  exists cell st2 c c1 c2,
    hat_cell (S fuel) hat buff (Z.of_nat (length k)) st = Ok (cell, st2) /\
    hat_cursor hat st2 = Ok (c, st2) /\
    hat_start (S f1) c 0 0 st2 = Ok (Some c1, st2) /\
    hat_slot c1 st2 = Ok (cell, st2) /\
    hat_nxt (S f2) c1 st2 = Ok ((c2, 0), st2).
Proof.
  intros Hboot Hfresh Hal Hkey Hne H7 Hout Hrest Hroom Haux.
  destruct (cell_then_start fuel f1 hat boot aux buff k st Hboot Hfresh Hal Hkey
              Hne H7 Hout Hrest Hroom Haux)
    as (block & size & st2 & c1 & Hcell & Hcur & Hstart & Hslot & Hnxt & _).
  destruct (Hnxt f2) as (c2 & Hn).
  exists (block + size - aux), st2, (fresh_cursor hat boot aux), c1, c2.
  repeat split; assumption.
Qed.

Lemma key_first_nonzero (i : nat) :
  Z.of_nat i < 1 -> (i < length ["a"; "b"]%byte)%nat ->
  0 < byte_val (nth i ["a"; "b"]%byte x00) < 128.
Proof.
  intros Hi _. assert (i = O) by lia. subst i. vm_compute. split; reflexivity.
Qed.

Lemma cell_then_traverse_witness :
  exists st1 cell st2 c c1 c2,
    hat_open 1 4 key_first = Ok (brk key_first + HAT_seg, st1) /\
    hat_cell 1 (brk key_first + HAT_seg) 65536
             (Z.of_nat (length ["a"; "b"]%byte)) st1 = Ok (cell, st2) /\
    hat_cursor (brk key_first + HAT_seg) st2 = Ok (c, st2) /\
    hat_start 1 c 0 0 st2 = Ok (Some c1, st2) /\
    hat_slot c1 st2 = Ok (cell, st2) /\
    hat_nxt 1 c1 st2 = Ok ((c2, 0), st2).
Proof.
  destruct (hat_open_run 1 4 key_first) as (st1 & Hopen & Hfresh & Hframe);
    [lia | lia | vm_compute; reflexivity | vm_compute; reflexivity |].
  destruct (cell_then_traverse O O O (brk key_first + HAT_seg) 1 4 65536
              ["a"; "b"]%byte st1)
    as (cell & st2 & c & c1 & c2 & H1 & H2 & H3 & H4 & H5).
  - lia.
  - exact Hfresh.
  - vm_compute. reflexivity.
  - exact (key_first_ab st1 Hframe).
  - simpl. lia.
  - exact key_first_nonzero.
  - left. vm_compute. discriminate.
  - vm_compute. reflexivity.
  - vm_compute. discriminate.
  - lia.
  - exists st1, cell, st2, c, c1, c2. repeat split; assumption.
Defined.

(** X28: insert, traverse, read the key back.  After [hat_cell] has stored a
    non-empty key [k] in a fresh container (first [boot] bytes between 1
    and 127, the rest shorter than 128 bytes), [hat_key] at the cursor
    [hat_start] returns writes [k] followed by a zero byte into a buffer of
    more than [length k] bytes that lies outside the container, returns
    [length k], and changes no byte outside that buffer. *)
Theorem cell_then_key (fuel f1 f2 : nat) (hat boot aux buff out max : Z)
    (k : list byte) (st : state) :
  1 <= boot <= 4 -> fresh_container hat boot aux st -> hat mod 8 = 0 ->
  bytes_at (mem st) buff k -> (0 < length k)%nat ->
  (forall i : nat, Z.of_nat i < boot -> (i < length k)%nat ->
     0 < byte_val (nth i k x00) < 128) ->
  buff + Z.of_nat (length k) <= hat - HAT_seg \/
  hat + sizeof_Hat + 8 * 128 ^ boot <= buff ->
  Z.of_nat (length k) - Z.min boot (Z.of_nat (length k)) < 128 ->
  aux + (Z.of_nat (length k) - Z.min boot (Z.of_nat (length k))) + 5 <= 512 ->
  0 < aux ->
  in_block (blocks st) out max = true ->
  Z.of_nat (length k) < max < 4294967296 ->
  out + max <= hat - HAT_seg \/ hat + sizeof_Hat + 8 * 128 ^ boot <= out ->
  (length k <= S f2)%nat ->
  exists cell st2 c c1 st3,
    hat_cell (S fuel) hat buff (Z.of_nat (length k)) st = Ok (cell, st2) /\
    hat_cursor hat st2 = Ok (c, st2) /\
    hat_start (S f1) c 0 0 st2 = Ok (Some c1, st2) /\
    hat_key (S f2) c1 out max st2 = Ok (Z.of_nat (length k), st3) /\
    bytes_at (mem st3) out (k ++ [x00]) /\
    (forall a, a < out \/ out + max <= a -> mem st3 !! a = mem st2 !! a).
Proof.
  intros Hboot Hfresh Hal Hkey Hne H7 Hout Hrest Hroom Haux Hin Hmax Hdis Hf2.
  destruct (cell_then_start fuel f1 hat boot aux buff k st Hboot Hfresh Hal Hkey
              Hne H7 Hout Hrest Hroom Haux)
    as (block & size & st2 & c1 & Hcell & Hcur & Hstart & _ & _
        & (H1 & H3 & H5 & H4 & H9) & Hkeys & Hblocks & Hloc & Hsize).
  destruct Hfresh as (Hseg0 & Hfit & _).
  pose proof (pow128_bounds boot Hboot) as HP.
  assert (Hin2 : in_block (blocks st2) out max = true) by (rewrite Hblocks; exact Hin).
  assert (Hdis2 : out + max <= block \/ block + size <= out).
  { unfold sizeof_Hat in *. lia. }
  destruct (key_one boot block size (block + size - aux) k c1 st2 out max
              Hboot H7 Hrest H1 H3 H5 H4 H9 Hkeys Hmax Hin2 Hsize Hdis2 f2 Hf2)
    as (st3 & Hk & Hbytes & Hframe).
  exists (block + size - aux), st2, (fresh_cursor hat boot aux), c1, st3.
  repeat split; assumption.
Qed.

Lemma cell_then_key_witness :
  exists st1 cell st2 c c1 st3,
    hat_open 1 4 key_first = Ok (brk key_first + HAT_seg, st1) /\
    hat_cell 1 (brk key_first + HAT_seg) 65536
             (Z.of_nat (length ["a"; "b"]%byte)) st1 = Ok (cell, st2) /\
    hat_cursor (brk key_first + HAT_seg) st2 = Ok (c, st2) /\
    hat_start 1 c 0 0 st2 = Ok (Some c1, st2) /\
    hat_key 2 c1 65536 8 st2 = Ok (Z.of_nat (length ["a"; "b"]%byte), st3) /\
    bytes_at (mem st3) 65536 (["a"; "b"]%byte ++ [x00]) /\
    (forall a, a < 65536 \/ 65536 + 8 <= a -> mem st3 !! a = mem st2 !! a).
Proof.
  destruct (hat_open_run_blocks 1 4 key_first)
    as (st1 & Hopen & Hfresh & Hframe & Hblocks);
    [lia | lia | vm_compute; reflexivity | vm_compute; reflexivity |].
  destruct (cell_then_key O O 1 (brk key_first + HAT_seg) 1 4 65536 65536 8
              ["a"; "b"]%byte st1)
    as (cell & st2 & c & c1 & st3 & H1 & H2 & H3 & H4 & H5 & H6).
  - lia.
  - exact Hfresh.
  - vm_compute. reflexivity.
  - exact (key_first_ab st1 Hframe).
  - simpl. lia.
  - exact key_first_nonzero.
  - left. vm_compute. discriminate.
  - vm_compute. reflexivity.
  - vm_compute. discriminate.
  - lia.
  - apply Hblocks. vm_compute. reflexivity.
  - simpl. lia.
  - left. vm_compute. discriminate.
  - simpl. lia.
  - exists st1, cell, st2, c, c1, st3. repeat split; assumption.
Defined.

(** ** The same, backwards *)

Lemma last_root_find root st t s : forall n rootscan,
  0 <= t < rootscan -> rootscan <= 4294967295 ->
  (forall i, t < i < rootscan -> load_le (mem st) (slot_at root i) 8 = Some 0) ->
  load_le (mem st) (slot_at root t) 8 = Some s -> s <> 0 ->
  rootscan - t <= Z.of_nat n ->
  last_root n root rootscan st = Ok ((t, Some s), st).
Proof.
  induction n as [|n IH]; intros rootscan Ht Hr Hz Hs Hne Hn; [lia|].
  cbn [last_root].
  destruct (rootscan =? 0) eqn:E; [apply Z.eqb_eq in E; lia|].
  cbv zeta. unfold u32. rewrite Z.mod_small by lia. unfold load64.
  destruct (Z.eq_dec (rootscan - 1) t) as [->|Hlt].
  - rewrite (bind_ok _ _ _ _ _ (load_ok 8 _ _ _ Hs)).
    destruct (s =? 0) eqn:E0; [apply Z.eqb_eq in E0; contradiction|]. reflexivity.
  - rewrite (bind_ok _ _ _ _ _ (load_ok 8 _ _ _ (Hz (rootscan - 1) ltac:(lia)))).
    change (negb (0 =? 0)) with false. cbv iota.
    destruct (rootscan - 1 =? 0) eqn:E1; [apply Z.eqb_eq in E1; lia|].
    apply IH; try lia; try assumption. intros i Hi. apply Hz. lia.
Qed.

Lemma prev_slot_zero radix st : forall n idx,
  0 <= idx <= 4294967295 ->
  (forall i, 0 <= i < idx -> load_le (mem st) (slot_at radix i) 8 = Some 0) ->
  idx <= Z.of_nat n ->
  prev_slot n radix idx st = Ok (None, st).
Proof.
  induction n as [|n IH]; intros idx Hi Hz Hn.
  - assert (idx = 0) by lia. subst idx. reflexivity.
  - cbn [prev_slot]. destruct (idx =? 0) eqn:E; [reflexivity|].
    apply Z.eqb_neq in E. cbv zeta. unfold u32. rewrite Z.mod_small by lia.
    unfold load64.
    rewrite (bind_ok _ _ _ _ _ (load_ok 8 _ _ _ (Hz (idx - 1) ltac:(lia)))).
    change (negb (0 =? 0)) with false. cbv iota.
    apply IH; try lia. intros i Hi'. apply Hz. lia.
Qed.

Section one_node_back.

Variables (hat boot aux triple block type size : Z) (kk : list byte) (st : state).
Hypothesis Hboot : 1 <= boot <= 4.
Hypothesis Hal : hat mod 8 = 0.
Hypothesis H0 : 0 <= hat.
Hypothesis Hfit : hat + sizeof_Hat + 8 * 128 ^ boot < 18446744073709551616.
Hypothesis Haux : 0 < aux < 65536.
Hypothesis Ht : 0 <= triple < 128 ^ boot.
Hypothesis Hslot : load_le (mem st) (slot_at (hat_root hat) triple) 8
                   = Some (Z.lor block HAT_array).
Hypothesis Hzero : forall i, 0 <= i < 128 ^ boot -> i <> triple ->
                     load_le (mem st) (slot_at (hat_root hat) i) 8 = Some 0.
Hypothesis Hblock : 0 < block < 18446744073709551616.
Hypothesis Hbal : block mod 8 = 0.
Hypothesis Hkeys : array_keys (mem st) block 0 [kk].
Hypothesis Hshort : Z.of_nat (length kk) < 128.
Hypothesis Htype : load_le (mem st) (base_type block) 1 = Some type.
Hypothesis Hs : HatSize_table !! Z.to_nat type = Some size.

Lemma descend_last_leaf fuel c :
  c_top c = 1 -> c_next c !! 1 = Some (Z.lor block HAT_array) ->
  descend_last (S fuel) c st = Ok (c, st).
Proof.
  intros Htop Hnext.
  destruct (node_tag hat block kk Hblock Hbal) as (Hnz & Hty & Hmask).
  cbn [descend_last]. rewrite Htop.
  rewrite (bind_ok _ _ _ _ _ (get_next_ok _ 1 st ltac:(lia))).
  rewrite Hnext. cbn [default from_option id].
  rewrite Hty. reflexivity.
Qed.

(** [hat_last]: the last key. *)
Lemma one_last fuel :
  exists c1,
    hat_last (S fuel) (fresh_cursor hat boot aux) st = Ok ((c1, 1), st) /\
    c_top c1 = 1 /\ c_cnt c1 = 1 /\ c_idx c1 = 0 /\ c_rootscan c1 = triple /\
    c_rootlvl c1 = boot /\ c_maxroot c1 = 128 ^ boot /\
    c_next c1 !! 0 = Some (hat_root hat) /\
    c_keys c1 !! 0 = Some (mkSort (base_keys block) (block + size - aux)).
Proof.
  pose proof (pow128_bounds boot Hboot) as HP.
  destruct (node_tag hat block kk Hblock Hbal) as (Hnz & Hty & Hmask).
  unfold hat_last. cbv zeta. cur.
  rewrite (bind_ok _ _ _ _ _ (get_next_ok _ 0 st ltac:(lia))).
  cur. rewrite lookup_insert_eq. cbn [default from_option id].
  assert (Hz : forall i, triple < i < 128 ^ boot ->
                 load_le (mem st) (slot_at (hat_root hat) i) 8 = Some 0).
  { intros i Hi. apply Hzero; lia. }
  rewrite (bind_ok _ _ _ _ _
             (last_root_find (hat_root hat) st triple (Z.lor block HAT_array)
                (Z.to_nat (128 ^ boot)) (128 ^ boot) ltac:(lia) ltac:(lia) Hz
                Hslot Hnz ltac:(lia))).
  cbv iota beta.
  unfold push_next. cbv zeta. cur. change (i16 (0 + 1)) with 1.
  rewrite (bind_ok _ _ _ _ _ (set_next_ok _ 1 _ st ltac:(lia))). cur.
  erewrite bind_ok; [|apply descend_last_leaf; [reflexivity | cur; apply lookup_insert_eq]].
  match goal with
  | |- context [bind (hat_sort _ ?c') _ _] =>
      destruct (sort_one hat aux block type size kk st Hblock Hbal Hkeys Hshort Htype Hs
                  fuel c')
        as (ks' & Hsort & Hk0);
        [reflexivity | cur; apply lookup_insert_eq
        | cur; unfold u16; apply Z.mod_small; lia |];
        rewrite (bind_ok _ _ _ _ _ Hsort)
  end.
  eexists. split; [reflexivity|]. cur.
  repeat split; try reflexivity; try assumption.
Qed.

(** [hat_prv] in front of the only key. *)
Lemma one_prv_first fuel c :
  c_top c = 1 -> c_idx c = 0 -> c_rootscan c = triple ->
  c_next c !! 0 = Some (hat_root hat) ->
  exists c', hat_prv (S fuel) c st = Ok ((c', 0), st).
Proof.
  intros Htop Hidx Hscan Hnext.
  pose proof (pow128_bounds boot Hboot) as HP.
  unfold hat_prv. rewrite Hidx. change (negb (0 =? 0)) with false. cbv iota.
  cbn [prv_levels]. cbv zeta. cur. rewrite Htop.
  change (i16 (1 - 1)) with 0. change (negb (0 >=? 0)) with false. cbv iota.
  rewrite (bind_ok _ _ _ _ _ (get_next_ok _ 0 st ltac:(lia))).
  cur. rewrite Hnext. cbn [default from_option id].
  change (0 =? 0) with true. cbv iota. change (negb true) with false. cbv iota.
  rewrite (bind_ok _ _ _ _ _ (eq_refl : ret (c_rootscan c) st = Ok (c_rootscan c, st))).
  rewrite (root_mask hat boot Hboot Hal H0 Hfit).
  rewrite Hscan.
  assert (Hz : forall i, 0 <= i < triple ->
                 load_le (mem st) (slot_at (hat_root hat) i) 8 = Some 0).
  { intros i Hi. apply Hzero; lia. }
  rewrite (bind_ok _ _ _ _ _
             (prev_slot_zero (hat_root hat) st (Z.to_nat triple) triple
                ltac:(lia) Hz ltac:(lia))).
  destruct fuel; cbn [prv_levels]; cbv zeta; cur;
    change (i16 (0 - 1)) with (-1); eexists; reflexivity.
Qed.

End one_node_back.

(** X29: insert, then traverse backwards.  After [hat_cell] has stored a key
    in a fresh container (first [boot] bytes below 128, the rest shorter
    than 128 bytes and fitting an array node), [hat_last] returns 1 with a
    cursor whose [hat_slot] is the slot [hat_cell] returned, and [hat_prv]
    then returns 0.  None of the three changes the state. *)
Theorem cell_then_last (fuel f1 f2 : nat) (hat boot aux buff : Z)
    (k : list byte) (st : state) :
  1 <= boot <= 4 -> fresh_container hat boot aux st -> hat mod 8 = 0 ->
  bytes_at (mem st) buff k -> Z.of_nat (length k) < 4294967296 ->
  (forall i : nat, Z.of_nat i < boot -> (i < length k)%nat ->
     byte_val (nth i k x00) < 128) ->
  buff + Z.of_nat (length k) <= hat - HAT_seg \/
  hat + sizeof_Hat + 8 * 128 ^ boot <= buff ->
  Z.of_nat (length k) - Z.min boot (Z.of_nat (length k)) < 128 ->
  aux + (Z.of_nat (length k) - Z.min boot (Z.of_nat (length k))) + 5 <= 512 ->
  0 < aux ->
  exists cell st2 c c1 c2,
    hat_cell (S fuel) hat buff (Z.of_nat (length k)) st = Ok (cell, st2) /\
    hat_cursor hat st2 = Ok (c, st2) /\
    hat_last (S f1) c st2 = Ok ((c1, 1), st2) /\
    hat_slot c1 st2 = Ok (cell, st2) /\
    hat_prv (S f2) c1 st2 = Ok ((c2, 0), st2).
Proof.
  intros Hboot Hfresh Hal Hkey Hlen H7 Hout Hrest Hroom Haux.
  destruct (fresh_cell_state hat boot aux st Hboot Hfresh buff k Hkey Hlen H7
              Hout Hrest Hroom Haux fuel)
    as (triple & off & block & type & size & st2 & Eroot & Ht & Ho & Hcell & Hblock
        & Hbal & Hsz & Hs & Hfr & Hb2 & Ha2 & Hslot & Hkeys & Htype & Hzero
        & Hblocks & Hloc & Hneed).
  destruct Hfresh as (Hseg0 & Hfit & _).
  assert (H0 : 0 <= hat) by (unfold HAT_seg, HAT_slot_size in Hseg0; lia).
  assert (Haux16 : 0 < aux < 65536) by lia.
  assert (Hshort : Z.of_nat (length (drop (Z.to_nat off) k)) < 128).
  { rewrite length_drop. lia. }
  destruct (one_last hat boot aux triple block type size (drop (Z.to_nat off) k) st2
              Hboot Haux16 Ht Hslot Hzero Hblock Hbal Hkeys Hshort Htype Hs f1)
    as (c1 & Hlast & H1 & H2 & H3 & H4 & H5 & H6 & H8 & H9).
  destruct (one_prv_first hat boot triple k st2 Hboot Hal H0 Hfit Ht Hzero f2 c1
              H1 H3 H4 H8) as (c2 & Hprv).
  exists (block + size - aux), st2, (fresh_cursor hat boot aux), c1, c2.
  split; [exact Hcell|].
  split; [exact (hat_cursor_run hat boot aux st2 Hboot Hb2 Ha2)|].
  split; [exact Hlast|].
  split; [exact (one_slot hat aux block size k st2 c1 H3 H9) | exact Hprv].
Qed.

Lemma cell_then_last_witness :
  exists st1 cell st2 c c1 c2,
    hat_open 1 4 key_first = Ok (brk key_first + HAT_seg, st1) /\
    hat_cell 1 (brk key_first + HAT_seg) 65536
             (Z.of_nat (length ["a"; "b"]%byte)) st1 = Ok (cell, st2) /\
    hat_cursor (brk key_first + HAT_seg) st2 = Ok (c, st2) /\
    hat_last 1 c st2 = Ok ((c1, 1), st2) /\
    hat_slot c1 st2 = Ok (cell, st2) /\
    hat_prv 1 c1 st2 = Ok ((c2, 0), st2).
Proof.
  destruct (hat_open_run 1 4 key_first) as (st1 & Hopen & Hfresh & Hframe);
    [lia | lia | vm_compute; reflexivity | vm_compute; reflexivity |].
  destruct (cell_then_last O O O (brk key_first + HAT_seg) 1 4 65536
              ["a"; "b"]%byte st1)
    as (cell & st2 & c & c1 & c2 & H1 & H2 & H3 & H4 & H5).
  - lia.
  - exact Hfresh.
  - vm_compute. reflexivity.
  - exact (key_first_ab st1 Hframe).
  - simpl. lia.
  - exact key_first_7bit.
  - left. vm_compute. discriminate.
  - vm_compute. reflexivity.
  - vm_compute. discriminate.
  - lia.
  - exists st1, cell, st2, c, c1, c2. repeat split; assumption.
Defined.

(** ** Inserting a key twice *)

#[local] Hint Resolve read_only_ret read_only_fail read_only_out_of_fuel
  read_only_load read_only_upd_stats read_only_HatSize
  read_only_keycmp read_only_key_len_uint read_only_aux_slot : read_only.

Lemma read_only_cell_scan fuel : forall hat base buff off max tst cnt,
  read_only (cell_scan fuel hat base buff off max tst cnt).
Proof. read_only_loop fuel. Qed.

Lemma cell_found (fuel : nat) (hat boot aux buff triple off block type size : Z)
    (k : list byte) (st : state) :
  1 <= boot <= 4 -> 0 < aux ->
  bytes_at (mem st) buff k -> Z.of_nat (length k) < 4294967296 ->
  root_of (Z.to_nat boot) k 0 0 = (triple, off) ->
  0 <= off <= Z.of_nat (length k) ->
  Z.of_nat (length k) - off < 128 ->
  load_le (mem st) (hat_bootlvl hat) 4 = Some boot ->
  load_le (mem st) (hat_aux hat) 4 = Some aux ->
  load_le (mem st) (slot_at (hat_root hat) triple) 8 = Some (Z.lor block HAT_array) ->
  0 < block < 18446744073709551616 -> block mod 8 = 0 ->
  array_keys (mem st) block 0 [drop (Z.to_nat off) k] ->
  load_le (mem st) (base_type block) 1 = Some type ->
  HatSize_table !! Z.to_nat type = Some size -> aux < size ->
  exists st',
    hat_cell (S fuel) hat buff (Z.of_nat (length k)) st = Ok (block + size - aux, st') /\
    same_container st st'.
Proof.
  intros Hboot Haux Hkey Hlen Eroot Hoff Hrest Hb Ha Hslot Hblock Hbal Hkeys Htype
    Hs Hsz.
  set (len := Z.of_nat (length k)) in *.
  set (kk := drop (Z.to_nat off) k) in *.
  assert (Hlk : Z.of_nat (length kk) = len - off).
  { unfold kk. rewrite length_drop. unfold len. lia. }
  assert (Hkk : bytes_at (mem st) (buff + off) kk).
  { intros i Hi. unfold kk. rewrite lookup_drop.
    replace (buff + off + Z.of_nat i) with (buff + Z.of_nat (Z.to_nat off + i)) by lia.
    apply Hkey. unfold kk in Hi. rewrite length_drop in Hi. lia. }
  assert (Hu : u32 (len - off) = Z.of_nat (length kk)).
  { rewrite Hlk. unfold u32. apply Z.mod_small. lia. }
  pose proof (load_le_range _ _ _ _ Ha) as Har.
  change (256 ^ Z.of_nat 4) with 4294967296 in Har.
  assert (Hscan : outcome (cell_scan (S fuel) hat block buff off len 0 0 st)
                  = Ok (Some (block + size - aux))).
  { rewrite (cell_scan_scan hat block buff off len aux type size kk (mem st)
               Hkk Hu Ha Htype Hs [kk] 0 0 (S fuel) st eq_refl Hkeys); try lia.
    - rewrite key_index_self. unfold found_at. cbn [option_map].
      rewrite (proj2 (Z.eqb_neq aux 0)) by lia.
      do 3 f_equal. unfold u32. rewrite Z.mod_small; lia.
    - constructor; [lia | constructor].
    - simpl. lia.
    - simpl. lia. }
  destruct (outcome_ok _ _ Hscan) as [st' Hrun].
  pose proof (read_only_cell_scan _ _ _ _ _ _ _ _ _ _ _ Hrun) as Hsame.
  exists st'. split; [|exact Hsame].
  unfold hat_cell.
  rewrite (bind_ok _ _ _ _ _ (load_ok 4 _ _ _ Hb)).
  rewrite (bind_ok _ _ _ _ _ (root_index_pure k buff st _ 0 0 Hkey ltac:(lia))).
  rewrite Eroot. cbn [cell_node]. unfold load64.
  rewrite (bind_ok _ _ _ _ _ (load_ok 8 _ _ _ Hslot)).
  assert (Hnz : (Z.lor block HAT_array =? 0) = false).
  { apply Z.eqb_neq. apply tag_nonzero; [lia | unfold HAT_array; lia | exact Hbal]. }
  rewrite Hnz.
  rewrite (tag_type block HAT_array Hbal ltac:(unfold HAT_array; lia)).
  change (HAT_array =? HAT_array) with true. cbv iota.
  rewrite (tag_mask block HAT_array ltac:(lia) Hbal ltac:(unfold HAT_array; lia)).
  fold len. rewrite (bind_ok _ _ _ _ _ Hrun). reflexivity.
Qed.

(** X30: inserting a key twice.  After [hat_cell] has stored a key in a fresh
    container (first [boot] bytes below 128, the rest shorter than 128
    bytes and fitting an array node), a second [hat_cell] of the same key
    returns the same slot and leaves memory, the allocated blocks and the
    break as they were: the key is found, not stored again. *)
Theorem cell_twice_same_slot (fuel f1 : nat) (hat boot aux buff : Z)
    (k : list byte) (st : state) :
  1 <= boot <= 4 -> fresh_container hat boot aux st ->
  bytes_at (mem st) buff k -> Z.of_nat (length k) < 4294967296 ->
  (forall i : nat, Z.of_nat i < boot -> (i < length k)%nat ->
     byte_val (nth i k x00) < 128) ->
  buff + Z.of_nat (length k) <= hat - HAT_seg \/
  hat + sizeof_Hat + 8 * 128 ^ boot <= buff ->
  Z.of_nat (length k) - Z.min boot (Z.of_nat (length k)) < 128 ->
  aux + (Z.of_nat (length k) - Z.min boot (Z.of_nat (length k))) + 5 <= 512 ->
  0 < aux ->
  exists cell st2 st3,
    hat_cell (S fuel) hat buff (Z.of_nat (length k)) st = Ok (cell, st2) /\
    hat_cell (S f1) hat buff (Z.of_nat (length k)) st2 = Ok (cell, st3) /\
    same_container st2 st3.
Proof.
  intros Hboot Hfresh Hkey Hlen H7 Hout Hrest Hroom Haux.
  destruct (fresh_cell_state hat boot aux st Hboot Hfresh buff k Hkey Hlen H7
              Hout Hrest Hroom Haux fuel)
    as (triple & off & block & type & size & st2 & Eroot & Ht & Ho & Hcell & Hblock
        & Hbal & Hsz & Hs & Hfr & Hb2 & Ha2 & Hslot & Hkeys & Htype & _).
  assert (Hkey2 : bytes_at (mem st2) buff k).
  { intros i Hi. rewrite Hfr; [apply Hkey; exact Hi|]. lia. }
  destruct (cell_found f1 hat boot aux buff triple off block type size k st2
              Hboot Haux Hkey2 Hlen Eroot ltac:(lia) ltac:(lia) Hb2 Ha2 Hslot
              Hblock Hbal Hkeys Htype Hs Hsz)
    as (st3 & Hagain & Hsame).
  exists (block + size - aux), st2, st3.
  split; [exact Hcell|]. split; [exact Hagain | exact Hsame].
Qed.

Lemma cell_twice_same_slot_witness :
  exists st1 cell st2 st3,
    hat_open 1 4 key_first = Ok (brk key_first + HAT_seg, st1) /\
    hat_cell 1 (brk key_first + HAT_seg) 65536
             (Z.of_nat (length ["a"; "b"]%byte)) st1 = Ok (cell, st2) /\
    hat_cell 1 (brk key_first + HAT_seg) 65536
             (Z.of_nat (length ["a"; "b"]%byte)) st2 = Ok (cell, st3) /\
    same_container st2 st3.
Proof.
  destruct (hat_open_run 1 4 key_first) as (st1 & Hopen & Hfresh & Hframe);
    [lia | lia | vm_compute; reflexivity | vm_compute; reflexivity |].
  destruct (cell_twice_same_slot O O (brk key_first + HAT_seg) 1 4 65536
              ["a"; "b"]%byte st1)
    as (cell & st2 & st3 & H1 & H2 & H3).
  - lia.
  - exact Hfresh.
  - exact (key_first_ab st1 Hframe).
  - simpl. lia.
  - exact key_first_7bit.
  - left. vm_compute. discriminate.
  - vm_compute. reflexivity.
  - vm_compute. discriminate.
  - lia.
  - exists st1, cell, st2, st3.
    split; [exact Hopen|]. split; [exact H1|]. split; [exact H2 | exact H3].
Defined.
